(** * Hydration reminder bot: the two-stage water-intake parser

    A shallow embedding of [src/lib/parser.ts], [src/lib/time.ts],
    [src/lib/llm.ts], [src/lib/telegram.ts] and the webhook of [index.ts],
    the properties the specification states about them, and further
    properties of the code.

    Conventions of the embedding.
    - A JavaScript string is a [list ascii]: one [ascii] per UTF-16 code
      unit, read as the code point of the same number, so texts range over
      the code units below U+0100.  On that range [toLowerCase], [trim],
      [\d], [\s], [\b] and the [i] flag are modelled exactly.
    - A [number] is the rational a double holds: a [Z] where the code only
      ever has whole numbers, a [Q] where it can be fractional (an hour
      offset, a JSON number), NaN apart where it can arise.  Every
      operation that rounds in the source ([parseInt], [parseFloat], a
      product, a quotient, a difference) rounds here, to the nearest
      significand of 53 bits, ties to even; the exponent is unbounded, so
      overflow to Infinity and underflow are not modelled.
    - A reading of the clock is a time value, a whole number of
      milliseconds of magnitude at most 8.64e15; the Dates built next to
      it are taken to stay in that range, so none is invalid but the one
      made from NaN.
    - A literal of the source that holds characters above U+00FF (a dash
      and an emoji in four prompts) is kept byte for byte as the file has
      it; such a literal is only ever handed to the caller, never scanned.
    - A regular expression is a value of [regex], run by a backtracking
      matcher that follows the ECMAScript matcher (leftmost start, ordered
      alternatives, greedy and lazy repetition with the empty-iteration
      check, capture groups).
    - The clock, the network and the console are a [World] threaded through
      a small state-and-exception monad. *)

From Stdlib Require Import Bool Arith ZArith NArith Ascii String List Lia.
From Stdlib Require Import QArith Qround Lqa DecimalString.
Import ListNotations.

Set Implicit Arguments.

(** ** Double-precision numbers *)

Module Double.

Local Open Scope Z_scope.

(** The double nearest to a positive rational [n / d], ties to even: a
    53-bit significand times a power of two, the exponent unbounded. *)
Definition scaled (n d e : Z) : Z * Z :=
  if 0 <=? e then (n, d * 2 ^ e) else (n * 2 ^ (- e), d).

Definition round53_pos (n d : Z) : Q :=
  let e0 := Z.log2 n - Z.log2 d - 52 in
  let '(n0, d0) := scaled n d e0 in
  let q0 := n0 / d0 in
  let e := if 2 ^ 53 <=? q0 then e0 + 1 else if q0 <? 2 ^ 52 then e0 - 1 else e0 in
  let '(n1, d1) := scaled n d e in
  let q := n1 / d1 in
  let r := n1 mod d1 in
  let mant :=
    if 2 * r <? d1 then q
    else if d1 <? 2 * r then q + 1
    else if Z.even q then q else q + 1 in
  if 0 <=? e then inject_Z (mant * 2 ^ e) else mant # Z.to_pos (2 ^ (- e)).

Definition round53 (q : Q) : Q :=
  match Qnum q with
  | Z0 => 0%Q
  | Zpos _ => round53_pos (Qnum q) (Zpos (Qden q))
  | Zneg _ => Qopp (round53_pos (- Qnum q) (Zpos (Qden q)))
  end.

(** The double nearest to a whole number; it is whole again. *)
Definition double_of_Z (n : Z) : Z := Qfloor (round53 (inject_Z n)).
End Double.
Export Double.

(** ** JavaScript strings *)

Module JsString.

Definition jsstring := list ascii.

(** A string literal of the source. *)
Definition lit (s : string) : jsstring := list_ascii_of_string s.

Definition code (c : ascii) : nat := nat_of_ascii c.

Definition between (lo hi : nat) (c : ascii) : bool :=
  (lo <=? code c) && (code c <=? hi).

(** [\d] *)
Definition is_digit (c : ascii) : bool := between 48 57 c.

Definition is_upper (c : ascii) : bool := between 65 90 c.
Definition is_lower (c : ascii) : bool := between 97 122 c.

(** The word characters of [\b] and [\w]: [A-Za-z0-9_]. *)
Definition is_word (c : ascii) : bool :=
  is_digit c || is_upper c || is_lower c || (code c =? 95).

(** [\s], and what [trim] strips: TAB, LF, VT, FF, CR, SP and U+00A0. *)
Definition is_space (c : ascii) : bool :=
  between 9 13 c || (code c =? 32) || (code c =? 160).

(** [String.prototype.toLowerCase] on one code unit below U+0100: A-Z and
    the capital letters U+00C0..U+00DE (U+00D7 is the multiplication sign). *)
Definition lower_char (c : ascii) : ascii :=
  if is_upper c || (between 192 222 c && negb (code c =? 215))
  then ascii_of_nat (code c + 32) else c.

Definition toLowerCase (s : jsstring) : jsstring := map lower_char s.

(** The canonical form the [i] flag compares.  The patterns of the source
    hold ASCII characters only, and a code unit above U+007F never
    canonicalises to an ASCII one, so upper-casing a-z is all that matters. *)
Definition canon (c : ascii) : ascii :=
  if is_lower c then ascii_of_nat (code c - 32) else c.

Fixpoint drop_while (p : ascii -> bool) (s : jsstring) : jsstring :=
  match s with
  | [] => []
  | c :: s' => if p c then drop_while p s' else s
  end.

(** [String.prototype.trim] *)
Definition trim (s : jsstring) : jsstring :=
  rev (drop_while is_space (rev (drop_while is_space s))).

Fixpoint starts_with (p s : jsstring) : bool :=
  match p, s with
  | [], _ => true
  | _ :: _, [] => false
  | a :: p', b :: s' => Ascii.eqb a b && starts_with p' s'
  end.

(** [String.prototype.includes] *)
Fixpoint includes (s p : jsstring) : bool :=
  starts_with p s ||
  match s with
  | [] => false
  | _ :: s' => includes s' p
  end.

Definition digit_value (c : ascii) : N := N.of_nat (code c - 48).

Fixpoint digits_value (acc : N) (s : jsstring) : N :=
  match s with
  | [] => acc
  | c :: s' => if is_digit c then digits_value (10 * acc + digit_value c) s' else acc
  end.

(** [parseInt(s, 10)]: leading white space, an optional sign, then the
    longest run of digits; [None] is NaN.  The value is the double nearest
    to the number the digits write (an engine may take the digits after
    the twentieth for zeros; that latitude is not used here). *)
Definition parseInt (s : jsstring) : option Z :=
  let s := drop_while is_space s in
  let '(neg, s) :=
    match s with
    | c :: s' => if Ascii.eqb c "-" then (true, s')
                 else if Ascii.eqb c "+" then (false, s') else (false, s)
    | [] => (false, s)
    end in
  match s with
  | c :: _ =>
      if is_digit c
      then let v := Z.of_N (digits_value 0 s) in
           Some (double_of_Z (if neg then - v else v))%Z
      else None
  | [] => None
  end.

End JsString.
Export JsString.

(** ** The regular-expression matcher *)

Module Regex.

Inductive regex : Type :=
| Eps
| Chr (p : ascii -> bool)
| Seq (r1 r2 : regex)
| Alt (r1 r2 : regex)
| Star (greedy : bool) (r : regex)
| Opt (r : regex)
| Group (i : nat) (r : regex)
| WordB
| Bol
| Eol.

(** Where a match attempt stands: the code unit just before the current
    position ([None] at index 0), the input still ahead, and the captures
    made so far. *)
Record mstate : Type := MState {
  prev : option ascii;
  rest : jsstring;
  caps : list (nat * jsstring)
}.

Definition cont := mstate -> option mstate.
Definition matcher := cont -> mstate -> option mstate.

Definition orelse {A} (a b : option A) : option A :=
  match a with Some _ => a | None => b end.

Definition word_before (s : mstate) : bool :=
  match prev s with Some c => is_word c | None => false end.
Definition word_after (s : mstate) : bool :=
  match rest s with c :: _ => is_word c | [] => false end.

(** An iteration of a quantifier has to consume input. *)
Definition progressed (s s' : mstate) : bool :=
  length (rest s') <? length (rest s).

(** What was consumed between [s] and a later state [s']. *)
Definition consumed (s s' : mstate) : jsstring :=
  firstn (length (rest s) - length (rest s')) (rest s).

Definition set_cap (i : nat) (w : jsstring) (s : mstate) : mstate :=
  MState (prev s) (rest s) ((i, w) :: caps s).

Fixpoint lookup_cap (i : nat) (l : list (nat * jsstring)) : option jsstring :=
  match l with
  | [] => None
  | (j, w) :: l' => if Nat.eqb i j then Some w else lookup_cap i l'
  end.

(** RepeatMatcher with min 0 and no upper bound.  Each iteration shortens
    the input, so the length of the input bounds the iterations. *)
Fixpoint star_loop (greedy : bool) (body : matcher) (fuel : nat)
    (k : cont) (s : mstate) : option mstate :=
  match fuel with
  | O => k s
  | S fuel' =>
      let again :=
        body (fun s' => if progressed s s'
                        then star_loop greedy body fuel' k s' else None) s in
      if greedy then orelse again (k s) else orelse (k s) again
  end.

Fixpoint m (r : regex) : matcher :=
  match r with
  | Eps => fun k s => k s
  | Chr p => fun k s =>
      match rest s with
      | c :: s' => if p c then k (MState (Some c) s' (caps s)) else None
      | [] => None
      end
  | Seq r1 r2 => fun k s => m r1 (m r2 k) s
  | Alt r1 r2 => fun k s => orelse (m r1 k s) (m r2 k s)
  | Star greedy r1 => fun k s => star_loop greedy (m r1) (length (rest s)) k s
  | Opt r1 => fun k s =>
      orelse (m r1 (fun s' => if progressed s s' then k s' else None) s) (k s)
  | Group i r1 => fun k s => m r1 (fun s' => k (set_cap i (consumed s s') s')) s
  | WordB => fun k s => if xorb (word_before s) (word_after s) then k s else None
  | Bol => fun k s => match prev s with None => k s | Some _ => None end
  | Eol => fun k s => match rest s with [] => k s | _ :: _ => None end
  end.

(** The match object: [whole] is element 0, [group i] element [i]. *)
Record rmatch : Type := RMatch {
  whole : jsstring;
  groups : list (nat * jsstring)
}.

Definition group (i : nat) (x : rmatch) : option jsstring := lookup_cap i (groups x).

Definition match_at (r : regex) (p : option ascii) (s : jsstring) : option rmatch :=
  let s0 := MState p s [] in
  match m r Some s0 with
  | Some s1 => Some (RMatch (consumed s0 s1) (caps s1))
  | None => None
  end.

(** The start index moves right until a match is found. *)
Fixpoint search (r : regex) (p : option ascii) (s : jsstring) : option rmatch :=
  match match_at r p s with
  | Some x => Some x
  | None =>
      match s with
      | [] => None
      | c :: s' => search r (Some c) s'
      end
  end.

(** [str.match(re)] and [re.exec(str)] for a pattern without [g] or [y]. *)
Definition exec (r : regex) (s : jsstring) : option rmatch := search r None s.

(** [re.test(str)] *)
Definition test (r : regex) (s : jsstring) : bool :=
  match exec r s with Some _ => true | None => false end.

(** *** Pattern syntax *)

Definition chr (c : ascii) : regex := Chr (Ascii.eqb c).
(** A literal character under the [i] flag. *)
Definition chr_i (c : ascii) : regex := Chr (fun x => Ascii.eqb (canon x) (canon c)).

Fixpoint str_with (one : ascii -> regex) (s : string) : regex :=
  match s with
  | EmptyString => Eps
  | String c EmptyString => one c
  | String c s' => Seq (one c) (str_with one s')
  end.

Definition str := str_with chr.
Definition str_i := str_with chr_i.

Fixpoint seqs (l : list regex) : regex :=
  match l with
  | [] => Eps
  | [r] => r
  | r :: l' => Seq r (seqs l')
  end.

Fixpoint alts (l : list regex) : regex :=
  match l with
  | [] => Eps
  | [r] => r
  | r :: l' => Alt r (alts l')
  end.

Definition digit : regex := Chr is_digit.
Definition space : regex := Chr is_space.
Definition any : regex := Chr (fun _ => true).
Definition plus (r : regex) : regex := Seq r (Star true r).
Definition star (r : regex) : regex := Star true r.
Definition lazy_star (r : regex) : regex := Star false r.

End Regex.
Export Regex.

(** ** JavaScript values that cross the boundary *)

Module JsValue.

(** A [number]: a finite value or NaN.  The infinities are left out, the
    code only compares them against finite bounds. *)
Inductive number : Type :=
| Num (q : Q)
| NaN.

Definition Qltb (a b : Q) : bool := negb (Qle_bool b a).

(** [a > b] and [a < b] of JavaScript: false as soon as one side is NaN. *)
Definition num_gt (a : number) (b : Q) : bool :=
  match a with Num q => Qltb b q | NaN => false end.
Definition num_lt (a : number) (b : Q) : bool :=
  match a with Num q => Qltb q b | NaN => false end.

(** What [JSON.parse] and [response.json()] produce.  [JObj] keeps the
    members in source order; the last binding of a key is the property. *)
#[local] Unset Elimination Schemes.
Inductive json : Type :=
| JNull
| JBool (b : bool)
| JNum (q : Q)
| JStr (s : jsstring)
| JArr (l : list json)
| JObj (l : list (jsstring * json)).
#[local] Set Elimination Schemes.

(** A value that may be [undefined]. *)
Definition jsval := option json.

Fixpoint str_eqb (a b : jsstring) : bool :=
  match a, b with
  | [], [] => true
  | x :: a', y :: b' => Ascii.eqb x y && str_eqb a' b'
  | _, _ => false
  end.

Fixpoint assoc_last (k : jsstring) (l : list (jsstring * json)) : jsval :=
  match l with
  | [] => None
  | (k', v) :: l' =>
      match assoc_last k l' with
      | Some v' => Some v'
      | None => if str_eqb k k' then Some v else None
      end
  end.

(** ToBoolean *)
Definition truthy (v : jsval) : bool :=
  match v with
  | None | Some JNull => false
  | Some (JBool b) => b
  | Some (JNum q) => negb (Qeq_bool q 0)
  | Some (JStr s) => match s with [] => false | _ :: _ => true end
  | Some (JArr _) | Some (JObj _) => true
  end.

End JsValue.
Export JsValue.

(** ** The world outside: clock, network, console *)

Module Effects.

(** [env]: the bindings the parser reads. *)
Record Env : Type := {
  OPENAI_API_KEY : option jsstring;
  OPENAI_BASE_URL : option jsstring;
  OPENAI_MODEL : option jsstring
}.

(** The request [fetch] sends; the system prompt, the temperature and the
    token cap are constants of the source. *)
Record Request : Type := {
  url : jsstring;
  authorization : jsstring;
  model : jsstring;
  user_content : jsstring
}.

(** What [await fetch(...)] comes back with.  [body = None] is a body on
    which [response.json()] rejects. *)
Record Response : Type := {
  ok : bool;
  body : option json
}.

Inductive FetchOutcome : Type :=
| Responded (r : Response)
| NetworkError
| TimedOut.

Inductive Event : Type :=
| EvFallback (text : jsstring)   (* extractWaterIntent was entered *)
| EvFetch (rq : Request)         (* a request left the process *)
| EvConsole (msg : string).      (* console.warn / console.error *)

Record World : Type := {
  clock : nat -> Z;              (* successive readings of the host clock *)
  reads : nat;                   (* how many were taken *)
  net : Request -> FetchOutcome;
  trace : list Event             (* most recent first *)
}.

(** How an evaluation ends: a value, or a thrown exception. *)
Inductive completion (A : Type) : Type :=
| Normal (a : A)
| Throw (msg : string).
Arguments Throw {A} msg.

Definition M (A : Type) : Type := World -> completion A * World.

Definition ret {A} (a : A) : M A := fun w => (Normal a, w).
Definition throw {A} (msg : string) : M A := fun w => (Throw msg, w).

Definition bind {A B} (c : M A) (f : A -> M B) : M B :=
  fun w =>
    match c w with
    | (Normal a, w') => f a w'
    | (Throw e, w') => (Throw e, w')
    end.

(** [try { c } catch (error) { h }] *)
Definition try_catch {A} (c : M A) (h : M A) : M A :=
  fun w =>
    match c w with
    | (Normal a, w') => (Normal a, w')
    | (Throw _, w') => h w'
    end.

Definition emit (e : Event) : M unit :=
  fun w => (Normal tt, Build_World (clock w) (reads w) (net w) (e :: trace w)).

(** A time value is a whole number of milliseconds, of magnitude at most
    8.64e15; a reading of the clock is brought into that range, so that
    every world is one the host can present. *)
Definition time_value (t : Z) : Z :=
  Z.max (- 8640000000000000) (Z.min 8640000000000000 t).

(** [Date.now()], also the time value of [new Date()]. *)
Definition Date_now : M Z :=
  fun w => (Normal (time_value (clock w (reads w))),
            Build_World (clock w) (S (reads w)) (net w) (trace w)).

(** [await fetch(...)]: a rejected promise is a throw at the [await]. *)
Definition fetch (rq : Request) : M Response :=
  fun w =>
    let w' := Build_World (clock w) (reads w) (net w) (EvFetch rq :: trace w) in
    match net w rq with
    | Responded r => (Normal r, w')
    | NetworkError => (Throw "fetch failed", w')
    | TimedOut => (Throw "The operation was aborted due to timeout", w')
    end.

Definition console (msg : string) : M unit := emit (EvConsole msg).

Definition is_fetch (e : Event) : bool :=
  match e with EvFetch _ => true | _ => false end.
Definition is_fallback (e : Event) : bool :=
  match e with EvFallback _ => true | _ => false end.

(** The world with the events [evs] (most recent first) added to its trace. *)
Definition add_events (evs : list Event) (w : World) : World :=
  Build_World (clock w) (reads w) (net w) (evs ++ trace w).

(** Console output only. *)
Definition console_only (evs : list Event) : Prop :=
  Forall (fun e => is_fallback e = false /\ is_fetch e = false) evs.

(** A computation that at most writes to the console. *)
Definition quiet {A} (c : M A) : Prop :=
  forall w, exists res evs, c w = (res, add_events evs w) /\ console_only evs.

(** How often the fallback was entered, and how many requests were sent. *)
Definition fallback_calls (w : World) : nat := length (filter is_fallback (trace w)).
Definition fetch_calls (w : World) : nat := length (filter is_fetch (trace w)).

(** The world after one reading of the clock. *)
Definition tick (w : World) : World :=
  Build_World (clock w) (S (reads w)) (net w) (trace w).

(** The reading the next [Date.now()] returns. *)
Definition now_ms (w : World) : Z := time_value (clock w (reads w)).

End Effects.
Export Effects.

Declare Scope monad_scope.
Notation "x <- c ;; k" := (bind c (fun x => k))
  (at level 61, c at next level, right associativity) : monad_scope.
Notation "c ;;; k" := (bind c (fun _ => k))
  (at level 61, right associativity) : monad_scope.
Open Scope monad_scope.

(** ** lib/time.ts *)

Module IstTime.

Local Open Scope Z_scope.

(** A [Date]: its time value in milliseconds since the epoch, [None] for an
    Invalid Date.  The time values stay far inside the range where TimeClip only
    drops the fraction. *)
Definition Date := option Z.

Definition msPerDay : Z := 86400000.

(** [5.5 * 60 * 60 * 1000] *)
Definition IST_OFFSET_MS : Z := 19800000.

(** Day number to (year, month 1..12, day 1..31) in the proleptic Gregorian
    calendar, and back. *)
Definition civil_from_days (z : Z) : Z * Z * Z :=
  let z := z + 719468 in
  let era := z / 146097 in
  let doe := z mod 146097 in
  let yoe := (doe - doe / 1460 + doe / 36524 - doe / 146096) / 365 in
  let doy := doe - (365 * yoe + yoe / 4 - yoe / 100) in
  let mp := (5 * doy + 2) / 153 in
  let d := doy - (153 * mp + 2) / 5 + 1 in
  let mo := if mp <? 10 then mp + 3 else mp - 9 in
  (yoe + era * 400 + (if mo <=? 2 then 1 else 0), mo, d).

Definition days_from_civil (y mo d : Z) : Z :=
  let y := y - (if mo <=? 2 then 1 else 0) in
  let era := y / 400 in
  let yoe := y mod 400 in
  let doy := (153 * (if 2 <? mo then mo - 3 else mo + 9) + 2) / 5 + d - 1 in
  let doe := yoe * 365 + yoe / 4 - yoe / 100 + doy in
  era * 146097 + doe - 719468.

Definition getUTCFullYear (t : Z) : Z := fst (fst (civil_from_days (t / msPerDay))).
Definition getUTCMonth (t : Z) : Z := snd (fst (civil_from_days (t / msPerDay))) - 1.
Definition getUTCDate (t : Z) : Z := snd (civil_from_days (t / msPerDay)).
Definition getUTCHours (t : Z) : Z := (t / 3600000) mod 24.
Definition getUTCMinutes (t : Z) : Z := (t / 60000) mod 60.
Definition getUTCSeconds (t : Z) : Z := (t / 1000) mod 60.

(** [Date.UTC(year, month, date)]: a year in 0..99 means 1900 + year. *)
Definition Date_UTC (year month date : Z) : Z :=
  let yr := if (0 <=? year) && (year <=? 99) then 1900 + year else year in
  let ym := yr + month / 12 in
  let mn := month mod 12 in
  (days_from_civil ym (mn + 1) 1 + date - 1) * msPerDay.

(** [String(n)] for an integer. *)
Definition String_of_Z (n : Z) : jsstring :=
  lit (NilEmpty.string_of_int (Z.to_int n)).

(** [s.padStart(2, '0')] *)
Definition padStart2 (s : jsstring) : jsstring :=
  match s with
  | [] => lit "00"
  | [c] => ["0"%char; c]
  | _ => s
  end.

Definition nowIST : M Z :=
  t <- Date_now ;; ret (t + IST_OFFSET_MS).

Definition todayMidnightIST : M Z :=
  now <- nowIST ;;
  ret (Date_UTC (getUTCFullYear now) (getUTCMonth now) (getUTCDate now)).

Definition yesterdayMidnightIST : M Z :=
  today <- todayMidnightIST ;;
  ret (today - 24 * 60 * 60 * 1000).

Definition toISTString (date : Date) : jsstring :=
  match date with
  | None => lit "NaN-NaN-NaNTNaN:NaN:NaN+05:30"
  | Some t =>
      let istDate := t + IST_OFFSET_MS in
      let year := getUTCFullYear istDate in
      let month := padStart2 (String_of_Z (getUTCMonth istDate + 1)) in
      let day := padStart2 (String_of_Z (getUTCDate istDate)) in
      let hours := padStart2 (String_of_Z (getUTCHours istDate)) in
      let minutes := padStart2 (String_of_Z (getUTCMinutes istDate)) in
      let seconds := padStart2 (String_of_Z (getUTCSeconds istDate)) in
      (String_of_Z year ++ lit "-" ++ month ++ lit "-" ++ day ++ lit "T"
        ++ hours ++ lit ":" ++ minutes ++ lit ":" ++ seconds ++ lit "+05:30")%list
  end.

Definition nowISTString : M jsstring :=
  t <- Date_now ;; ret (toISTString (Some t)).

(** ToIntegerOrInfinity inside TimeClip: the fraction is dropped towards 0. *)
Definition Qtrunc (q : Q) : Z :=
  if Qle_bool 0 q then Qfloor q else Qceiling q.

(** The time value of
    [new Date(now.getTime() - offsetHours * 60 * 60 * 1000)]: three
    products and a difference, each rounded, then the fraction dropped. *)
Definition target_ms (now : Z) (h : Q) : Z :=
  Qtrunc (round53 (inject_Z now
                   - round53 (round53 (round53 (h * 60) * 60) * 1000)))%Q.

Definition targetTime (now : Z) (offsetHours : number) : Date :=
  match offsetHours with
  | Num h => Some (target_ms now h)
  | NaN => None
  end.

(** [a < b] on two Dates compares the time values; an Invalid Date is NaN. *)
Definition date_lt (a : Date) (b : Z) : bool :=
  match a with Some t => t <? b | None => false end.

(** Constraint 2 of [validateRetroactiveTime]: the same IST calendar day. *)
Definition validate_same_day (offsetHours : number) : M (option jsstring) :=
  now <- Date_now ;;
  let target := targetTime now offsetHours in
  todayMidnight <- todayMidnightIST ;;
  let todayMidnightUTC := todayMidnight - IST_OFFSET_MS in
  if date_lt target todayMidnightUTC then ret None
  else ret (Some (toISTString target)).

Definition validateRetroactiveTime (offsetHours : number) : M (option jsstring) :=
  if num_gt offsetHours 12 || num_lt offsetHours 0 then ret None
  else validate_same_day offsetHours.

(** [/(\d+)\s*hours?\s*ago/] *)
Definition HOURS_AGO_REGEX : regex :=
  seqs [Group 1 (plus digit); star space; str "hour"; Opt (chr "s");
        star space; str "ago"].

(** [/(\d+)\s*(?:minutes?|mins?)\s*ago/] *)
Definition MINUTES_AGO_REGEX : regex :=
  seqs [Group 1 (plus digit); star space;
        Alt (Seq (str "minute") (Opt (chr "s"))) (Seq (str "min") (Opt (chr "s")));
        star space; str "ago"].

Definition number_of_int (n : option Z) : number :=
  match n with Some z => Num (inject_Z z) | None => NaN end.

(** [parseInt(...) / 60], rounded *)
Definition number_div60 (n : option Z) : number :=
  match n with Some z => Num (round53 (z # 60)) | None => NaN end.

(** A capture that did not take part is [undefined]; [parseInt(undefined)]
    is NaN. *)
Definition parseInt_group (i : nat) (x : rmatch) : option Z :=
  match group i x with Some w => parseInt w | None => None end.

Definition parseRelativeOffset (relativeTime : option jsstring) : option number :=
  match relativeTime with
  | None | Some [] => None
  | Some relativeTime =>
      let lower := trim (toLowerCase relativeTime) in
      match exec HOURS_AGO_REGEX lower with
      | Some hoursMatch => Some (number_of_int (parseInt_group 1 hoursMatch))
      | None =>
          match exec MINUTES_AGO_REGEX lower with
          | Some minutesMatch => Some (number_div60 (parseInt_group 1 minutesMatch))
          | None =>
              if str_eqb lower (lit "earlier") || str_eqb lower (lit "before")
                 || str_eqb lower (lit "some time ago")
              then None
              else None
          end
      end
  end.

(** *** The day starts as strings *)

Definition todayMidnightISTString : M jsstring :=
  now <- nowIST ;;
  let year := getUTCFullYear now in
  let month := padStart2 (String_of_Z (getUTCMonth now + 1)) in
  let day := padStart2 (String_of_Z (getUTCDate now)) in
  ret (String_of_Z year ++ lit "-" ++ month ++ lit "-" ++ day
         ++ lit "T00:00:00+05:30")%list.

Definition yesterdayMidnightISTString : M jsstring :=
  yesterday <- yesterdayMidnightIST ;;
  let istYesterday := yesterday + IST_OFFSET_MS in
  let year := getUTCFullYear istYesterday in
  let month := padStart2 (String_of_Z (getUTCMonth istYesterday + 1)) in
  let day := padStart2 (String_of_Z (getUTCDate istYesterday)) in
  ret (String_of_Z year ++ lit "-" ++ month ++ lit "-" ++ day
         ++ lit "T00:00:00+05:30")%list.

End IstTime.
Export IstTime.

(** ** types.ts *)

Module Types.

Inductive WaterIntent : Type :=
| log | clarify | no_action | edit | query | undo | chitchat.

Definition intent_eqb (a b : WaterIntent) : bool :=
  match a, b with
  | log, log | clarify, clarify | no_action, no_action | edit, edit
  | query, query | undo, undo | chitchat, chitchat => true
  | _, _ => false
  end.

(** An absent optional field and a [null] one are both [None]: the code
    tells them apart nowhere. *)
Record LLMExtractionResult : Type := {
  llm_intent : WaterIntent;
  llm_amount_ml : option Q;
  relative_time : option jsstring;
  ambiguous : bool;
  clarification_needed : option jsstring;
  llm_adjust_by_ml : option Q;
  llm_undo_count : option Q
}.

Record ParseResult : Type := {
  success : bool;
  intent : option WaterIntent;
  amount_ml : option Q;
  log_time : option jsstring;
  needs_clarification : option bool;
  clarification_prompt : option jsstring;
  adjust_by_ml : option Q;
  undo_count : option Q;
  chitchat_reply : option jsstring
}.

(** The part of [UserPreferences] the parser reads; the column is an
    INTEGER. *)
Record UserPreferences : Type := {
  bottle_size_ml : Z
}.

End Types.
Export Types.

(** ** lib/llm.ts *)

Module Llm.

Definition DEFAULT_OPENAI_URL : jsstring := lit "https://api.openai.com/v1/chat/completions".
Definition DEFAULT_MODEL : jsstring := lit "gpt-4o-mini".
Definition MAX_USER_MESSAGE_LENGTH : nat := 500.

(** The prompts of the two default results, byte for byte as the file
    has them. *)
Definition OFFLINE_PROMPT : jsstring :=
  lit "I didn't quite catch that‚Äîhow much water was it? (Set OPENAI_API_KEY for natural language.)".
Definition GENERIC_PROMPT : jsstring :=
  lit "I didn't quite catch that‚Äîhow much water was it? üíß".

Definition createFallbackResult : LLMExtractionResult :=
  {| llm_intent := clarify;
     llm_amount_ml := None;
     relative_time := None;
     ambiguous := true;
     clarification_needed := Some GENERIC_PROMPT;
     llm_adjust_by_ml := None;
     llm_undo_count := None |}.

(** [/```(?:json)?\s*([\s\S]*?)```/] *)
Definition FENCE_REGEX : regex :=
  seqs [str "```"; Opt (str "json"); star space; Group 1 (lazy_star any); str "```"].

(** [/\{[\s\S]*\}/] *)
Definition OBJECT_REGEX : regex :=
  seqs [chr "{"; star any; chr "}"].

(** [v.name] on a value that is neither [null] nor [undefined]: the names
    the code reads are own properties of a parsed object or nothing. *)
Definition get_prop (v : json) (name : jsstring) : jsval :=
  match v with
  | JObj l => assoc_last name l
  | _ => None
  end.

(** [v[0]] *)
Definition get_index0 (v : json) : jsval :=
  match v with
  | JArr l => nth_error l 0
  | JStr (c :: _) => Some (JStr [c])
  | JObj l => assoc_last (lit "0") l
  | _ => None
  end.

(** [v?.name] and [v?.[0]] *)
Definition opt_prop (v : jsval) (name : jsstring) : jsval :=
  match v with
  | None | Some JNull => None
  | Some v => get_prop v name
  end.
Definition opt_index0 (v : jsval) : jsval :=
  match v with
  | None | Some JNull => None
  | Some v => get_index0 v
  end.

Definition typeof_number (v : jsval) : option Q :=
  match v with Some (JNum q) => Some q | _ => None end.
Definition typeof_string (v : jsval) : option jsstring :=
  match v with Some (JStr s) => Some s | _ => None end.

Definition valid_intent (v : jsval) : option WaterIntent :=
  match v with
  | Some (JStr s) =>
      if str_eqb s (lit "log") then Some log
      else if str_eqb s (lit "clarify") then Some clarify
      else if str_eqb s (lit "no_action") then Some no_action
      else if str_eqb s (lit "edit") then Some edit
      else if str_eqb s (lit "query") then Some query
      else if str_eqb s (lit "undo") then Some undo
      else if str_eqb s (lit "chitchat") then Some chitchat
      else None
  | _ => None
  end.

(** The result when no credential is configured. *)
Definition offline_result : LLMExtractionResult :=
  {| llm_intent := clarify;
     llm_amount_ml := None;
     relative_time := None;
     ambiguous := true;
     clarification_needed := Some OFFLINE_PROMPT;
     llm_adjust_by_ml := None;
     llm_undo_count := None |}.

Definition is_falsy_key (k : option jsstring) : bool :=
  match k with None | Some [] => true | Some (_ :: _) => false end.

(** The request of [extractWaterIntent]: [baseUrl], [model] and
    [userContent] are its locals of the same names. *)
Definition request_for (text : jsstring) (env : Env) : Request :=
  let key := match OPENAI_API_KEY env with Some k => k | None => [] end in
  let baseUrl :=
    match OPENAI_BASE_URL env with
    | Some (c :: u) => c :: u
    | _ => DEFAULT_OPENAI_URL
    end in
  let model :=
    match OPENAI_MODEL env with Some x => x | None => DEFAULT_MODEL end in
  let userContent :=
    if MAX_USER_MESSAGE_LENGTH <? length text
    then firstn MAX_USER_MESSAGE_LENGTH text else text in
  {| url := baseUrl;
     authorization := (lit "Bearer " ++ key)%list;
     model := model;
     user_content := userContent |}.

Section Host.

(** [JSON.parse(v)]: ToString of [v], then the JSON grammar.  [None] is the
    SyntaxError it throws. *)
Variable JSON_parse : json -> option json.

Definition parse_or_throw (v : json) : M json :=
  match JSON_parse v with
  | Some j => ret j
  | None => throw "SyntaxError"
  end.

(** [content.match(re)]: only a string has the method. *)
Definition content_match (content : json) (re : regex) : M (option rmatch) :=
  match content with
  | JStr s => ret (exec re s)
  | _ => throw "TypeError: content.match is not a function"
  end.

(** [return null] is [JNull]. *)
Definition parseJSONSafely (content : json) : M json :=
  try_catch (parse_or_throw content)
    (jsonMatch <- content_match content FENCE_REGEX ;;
     match jsonMatch with
     | Some x =>
         try_catch
           (parse_or_throw
              (JStr (trim (match group 1 x with Some w => w | None => [] end))))
           (ret JNull)
     | None =>
         objectMatch <- content_match content OBJECT_REGEX ;;
         match objectMatch with
         | Some x => try_catch (parse_or_throw (JStr (whole x))) (ret JNull)
         | None => ret JNull
         end
     end).

(** [data.choices?.[0]?.message?.content], once [data] is known not to be
    [null]. *)
Definition content_of (data : json) : jsval :=
  opt_prop (opt_prop (opt_index0 (get_prop data (lit "choices"))) (lit "message"))
           (lit "content").

(** The result built from the parsed reply. *)
Definition result_of (parsed : json) : LLMExtractionResult :=
  let intent :=
    match valid_intent (get_prop parsed (lit "intent")) with
    | Some i => i
    | None => if truthy (get_prop parsed (lit "ambiguous")) then clarify else log
    end in
  {| llm_intent := intent;
     llm_amount_ml := typeof_number (get_prop parsed (lit "amount_ml"));
     relative_time := typeof_string (get_prop parsed (lit "relative_time"));
     ambiguous := truthy (get_prop parsed (lit "ambiguous"));
     clarification_needed := typeof_string (get_prop parsed (lit "clarification_needed"));
     llm_adjust_by_ml := typeof_number (get_prop parsed (lit "adjust_by_ml"));
     llm_undo_count := typeof_number (get_prop parsed (lit "undo_count")) |}.

(** From [if (!content)] to the result: the reply is parsed and read. *)
Definition interpret_content (content : jsval) : M LLMExtractionResult :=
  match content with
  | Some c =>
      if negb (truthy content) then
        console "LLM returned empty content" ;;;
        ret createFallbackResult
      else
        parsed <- parseJSONSafely c ;;
        if negb (truthy (Some parsed)) then
          console "Failed to parse LLM JSON response" ;;;
          ret createFallbackResult
        else ret (result_of parsed)
  | None =>
      console "LLM returned empty content" ;;;
      ret createFallbackResult
  end.

(** The [try] block after [await fetch(...)]. *)
Definition read_response (response : Response) : M LLMExtractionResult :=
  if negb (ok response) then
    console "LLM API error" ;;;
    ret createFallbackResult
  else
    data <- match body response with
            | Some d => ret d
            | None => throw "SyntaxError: response body is not JSON"
            end ;;
    content <- match data with
               | JNull => throw "TypeError: cannot read properties of null"
               | _ => ret (content_of data)
               end ;;
    interpret_content content.

Definition extractWaterIntent (text : jsstring) (env : Env) : M LLMExtractionResult :=
  emit (EvFallback text) ;;;
  if is_falsy_key (OPENAI_API_KEY env) then
    console "OPENAI_API_KEY not configured, returning ambiguous result" ;;;
    ret offline_result
  else
    try_catch
      (response <- fetch (request_for text env) ;;
       read_response response)
      (console "LLM extraction failed" ;;;
       ret createFallbackResult).

End Host.

(** *** The hourly message *)

Local Open Scope nat_scope.

Definition LOVE_USER_MESSAGE : jsstring :=
  lit "Generate one random love message / joke / meme / or emoji spam for her right now.".

(** The request of [generateLoveMessage]; it differs from the one of
    [extractWaterIntent] in its constants (system prompt, temperature)
    and in the user message. *)
Definition love_request (env : Env) : Request :=
  let key := match OPENAI_API_KEY env with Some k => k | None => [] end in
  let baseUrl :=
    match OPENAI_BASE_URL env with
    | Some (c :: u) => c :: u
    | _ => DEFAULT_OPENAI_URL
    end in
  let model :=
    match OPENAI_MODEL env with Some x => x | None => DEFAULT_MODEL end in
  {| url := baseUrl;
     authorization := (lit "Bearer " ++ key)%list;
     model := model;
     user_content := LOVE_USER_MESSAGE |}.

(** [data.choices?.[0]?.message?.content?.trim()]: [undefined] when the
    chain ends early, a TypeError when the content has no [trim]. *)
Definition trimmed_content (data : json) : M (option jsstring) :=
  match data with
  | JNull => throw "TypeError: cannot read properties of null"
  | _ =>
      match content_of data with
      | None | Some JNull => ret None
      | Some (JStr s) => ret (Some (trim s))
      | Some _ => throw "TypeError: content.trim is not a function"
      end
  end.

Definition generateLoveMessage (env : Env) : M (option jsstring) :=
  if is_falsy_key (OPENAI_API_KEY env) then ret None
  else
    try_catch
      (response <- fetch (love_request env) ;;
       if negb (ok response) then ret None
       else
         data <- match body response with
                 | Some d => ret d
                 | None => throw "SyntaxError: response body is not JSON"
                 end ;;
         content <- trimmed_content data ;;
         ret (match content with Some (c :: s) => Some (c :: s) | _ => None end))
      (ret None).

End Llm.
Export Llm.

(** ** Double arithmetic of the liter patterns *)

Module Float.

Local Open Scope Z_scope.

Fixpoint take_digits (s : jsstring) : jsstring * jsstring :=
  match s with
  | c :: s' =>
      if is_digit c
      then let '(a, b) := take_digits s' in (c :: a, b)
      else ([], s)
  | [] => ([], [])
  end.

(** [parseFloat] on text that starts with a digit: the digits, and a
    fraction when a dot follows.  [None] is NaN.  A sign, an exponent or
    leading white space never occur in what the patterns capture. *)
Definition parseFloat (s : jsstring) : option Q :=
  let '(ip, s1) := take_digits s in
  match ip with
  | [] => None
  | _ :: _ =>
      let fp := match s1 with
                | c :: s2 => if Ascii.eqb c "." then fst (take_digits s2) else []
                | [] => []
                end in
      Some (round53 (Z.of_N (digits_value 0 (ip ++ fp))
                     # Z.to_pos (10 ^ Z.of_nat (length fp))))
  end.

(** [Math.round]: the nearest integer, a tie goes up. *)
Definition Math_round (q : Q) : Z := Qfloor (q + (1 # 2))%Q.

(** [Math.round(parseFloat(s) * 1000)] *)
Definition liters_to_ml (s : jsstring) : option Z :=
  match parseFloat s with
  | Some x => Some (Math_round (round53 (x * 1000)%Q))
  | None => None
  end.

End Float.
Export Float.

(** ** lib/parser.ts *)

Module Parser.

Local Open Scope Z_scope.

Definition digits : regex := plus digit.
Definition spaces : regex := star space.

(** [/(\d+)\s*ml\b/i] *)
Definition ML_REGEX : regex :=
  seqs [Group 1 digits; spaces; str_i "ml"; WordB].

Definition decimal : regex := Seq digits (Opt (Seq (chr_i ".") digits)).

(** [/(\d+(?:\.\d+)?)\s*(?:l|liter|liters|litre|litres)\b/i] *)
Definition LITER_REGEX : regex :=
  seqs [Group 1 decimal; spaces;
        alts [str_i "l"; str_i "liter"; str_i "liters"; str_i "litre"; str_i "litres"];
        WordB].

Definition a_space : regex := Opt (Seq (chr_i "a") spaces).

(** [/(?:half|1\/2)\s*(?:a\s* )?bottle/i], a blank added after the inner star *)
Definition HALF_BOTTLE_REGEX : regex :=
  seqs [Alt (str_i "half") (str_i "1/2"); spaces; a_space; str_i "bottle"].

(** [/(?:quarter|1\/4)\s*(?:a\s* )?bottle/i], a blank added after the inner star *)
Definition QUARTER_BOTTLE_REGEX : regex :=
  seqs [Alt (str_i "quarter") (str_i "1/4"); spaces; a_space; str_i "bottle"].

(** [/(\d+)\s*bottles?\b/i] *)
Definition NUMERIC_BOTTLE_REGEX : regex :=
  seqs [Group 1 digits; spaces; str_i "bottle"; Opt (chr_i "s"); WordB].

(** [/(?:one|a|1)?\s*bottle\b/i] *)
Definition SINGLE_BOTTLE_REGEX : regex :=
  seqs [Opt (alts [str_i "one"; chr_i "a"; chr_i "1"]); spaces; str_i "bottle"; WordB].

(** [/(\d+)?\s*(?:a\s* )?glass(?:es)?\b/i], a blank added after the inner star *)
Definition GLASS_REGEX : regex :=
  seqs [Opt (Group 1 digits); spaces; a_space; str_i "glass"; Opt (str_i "es"); WordB].

(** [/(\d+)?\s*(?:a\s* )?cups?\b/i], a blank added after the inner star *)
Definition CUP_REGEX : regex :=
  seqs [Opt (Group 1 digits); spaces; a_space; str_i "cup"; Opt (chr_i "s"); WordB].

(** [/\b(yesterday|last night)\b/i] *)
Definition YESTERDAY_REGEX : regex :=
  seqs [WordB; Group 1 (Alt (str_i "yesterday") (str_i "last night")); WordB].

Definition TIME_WORDS : list string :=
  ["ago"; "earlier"; "before"; "morning"; "afternoon"; "evening"; "hour"; "minute"]%string.

(** [/\b(ago|earlier|before|morning|afternoon|evening|hour|minute)\b/i] *)
Definition TIME_PHRASE_REGEX : regex :=
  seqs [WordB; Group 1 (alts (map str_i TIME_WORDS)); WordB].

Definition AFFIRMATIVE_WORDS : list string :=
  ["yes"; "yeah"; "yep"; "yup"; "correct"; "ok"; "okay"; "sure"; "right"]%string.

(** [/^(?:yes|yeah|yep|yup|correct|ok|okay|sure|right)$/i] *)
Definition AFFIRMATIVE_REGEX : regex :=
  seqs [Bol; alts (map str_i AFFIRMATIVE_WORDS); Eol].

(** [/(\d+)\s*ml/i] *)
Definition SIZE_ML_REGEX : regex :=
  seqs [Group 1 digits; spaces; str_i "ml"].

(** [/(\d+(?:\.\d+)?)\s*(?:l|liter|litre)/i] *)
Definition SIZE_LITER_REGEX : regex :=
  seqs [Group 1 decimal; spaces; alts [str_i "l"; str_i "liter"; str_i "litre"]].

(** [/^(\d+)$/] *)
Definition JUST_NUMBER_REGEX : regex :=
  seqs [Bol; Group 1 digits; Eol].

Definition no_result : ParseResult :=
  {| success := false; intent := None; amount_ml := None; log_time := None;
     needs_clarification := None; clarification_prompt := None;
     adjust_by_ml := None; undo_count := None; chitchat_reply := None |}.

(** [{ success: true, amount_ml, log_time }]: the regex path sets no
    intent, which the caller reads as [log]. *)
Definition regex_log (amount : Z) (t : jsstring) : ParseResult :=
  {| success := true; intent := None; amount_ml := Some (inject_Z amount);
     log_time := Some t;
     needs_clarification := None; clarification_prompt := None;
     adjust_by_ml := None; undo_count := None; chitchat_reply := None |}.

(** [{ success: true, amount_ml, log_time: nowISTString() }] *)
Definition logged_now (amount : Z) : M ParseResult :=
  now <- nowISTString ;;
  ret (regex_log amount now).

(** [{ success: false, needs_clarification: true, clarification_prompt }] *)
Definition clarification (prompt : jsstring) : ParseResult :=
  {| success := false; intent := None; amount_ml := None; log_time := None;
     needs_clarification := Some true; clarification_prompt := Some prompt;
     adjust_by_ml := None; undo_count := None; chitchat_reply := None |}.

Definition with_intent (i : WaterIntent) : ParseResult :=
  {| success := true; intent := Some i; amount_ml := None; log_time := None;
     needs_clarification := None; clarification_prompt := None;
     adjust_by_ml := None; undo_count := None; chitchat_reply := None |}.

Definition in_range (lo hi n : Z) : bool := (lo <=? n) && (n <=? hi).

(** [n > 0 && n <= hi] on a value that may be NaN. *)
Definition positive_upto (hi : Z) (n : option Z) : option Z :=
  match n with
  | Some v => if (0 <? v) && (v <=? hi) then Some v else None
  | None => None
  end.

(** [Math.round(b * 0.5)] and [Math.round(b * 0.25)] on an integer: a
    product by a power of two is exact, and a tie rounds up. *)
Definition round_half (b : Z) : Z := (b + 1) / 2.
Definition round_quarter (b : Z) : Z := (b + 2) / 4.

(** [m[1] ? parseInt(m[1], 10) : 1] *)
Definition count_or_one (x : rmatch) : option Z :=
  match group 1 x with
  | Some (c :: w) => parseInt (c :: w)
  | _ => Some 1
  end.

Definition liters_group (x : rmatch) : option Z :=
  match group 1 x with Some w => liters_to_ml w | None => None end.

(** A pattern that matched and passed its check. *)
Definition guarded (re : regex) (lower : jsstring) (f : rmatch -> option Z) : option Z :=
  match exec re lower with Some x => f x | None => None end.

Definition parseWaterInputRegex (text : jsstring) (prefs : UserPreferences) : M ParseResult :=
  let lower := toLowerCase text in
  (* Pattern 1 *)
  match guarded ML_REGEX lower (fun x => positive_upto 10000 (parseInt_group 1 x)) with
  | Some amount => logged_now amount
  | None =>
  (* Pattern 2 *)
  match guarded LITER_REGEX lower (fun x => positive_upto 10000 (liters_group x)) with
  | Some amount => logged_now amount
  | None =>
  (* Pattern 3 *)
  match exec HALF_BOTTLE_REGEX lower with
  | Some _ => logged_now (round_half (bottle_size_ml prefs))
  | None =>
  (* Pattern 4 *)
  match exec QUARTER_BOTTLE_REGEX lower with
  | Some _ => logged_now (round_quarter (bottle_size_ml prefs))
  | None =>
  (* Pattern 5 *)
  match guarded NUMERIC_BOTTLE_REGEX lower (fun x => positive_upto 10 (parseInt_group 1 x)) with
  | Some count => logged_now (double_of_Z (bottle_size_ml prefs * count))
  | None =>
  (* Pattern 6 *)
  if test SINGLE_BOTTLE_REGEX lower
     && negb (includes lower (lit "half")) && negb (includes lower (lit "quarter"))
  then logged_now (bottle_size_ml prefs)
  else
  (* Pattern 7 *)
  match guarded GLASS_REGEX lower (fun x => positive_upto 20 (count_or_one x)) with
  | Some count => logged_now (250 * count)
  | None =>
  (* Pattern 8 *)
  match guarded CUP_REGEX lower (fun x => positive_upto 20 (count_or_one x)) with
  | Some count => logged_now (200 * count)
  | None => ret no_result
  end end end end end end end.

Definition PROMPT_TODAY_ONLY : jsstring :=
  lit "I can only log water from today (up to 12 hours ago). I can't add yesterday's water to today's total ðŸ’•".
Definition PROMPT_REDUCE_BY : jsstring :=
  lit "How much should I reduce by? (e.g. 500ml)".
Definition PROMPT_NOT_RIGHT : jsstring :=
  lit "That doesn't seem quite right. How much water was it in ml? ðŸ’§".
(** The default of [clarification_needed || "..."], as parser.ts has it. *)
Definition PROMPT_DIDNT_CATCH : jsstring :=
  lit "I didn't quite catch thatâ€”how much water was it? ðŸ’§".
Definition PROMPT_WHEN : jsstring :=
  lit "When did you drink that? I can only log water from today (up to 12 hours ago).".
Definition PROMPT_BE_SPECIFIC : jsstring :=
  lit "I can only log water from today (up to 12 hours ago). Could you be more specific?".

(** [s || fallback] on an optional string *)
Definition or_default (s : option jsstring) (d : jsstring) : jsstring :=
  match s with Some (c :: w) => c :: w | _ => d end.

Definition nonempty (s : option jsstring) : option jsstring :=
  match s with Some (c :: w) => Some (c :: w) | _ => None end.

Definition is_some {A} (o : option A) : bool :=
  match o with Some _ => true | None => false end.

(** The body of [parseWaterInputLLM] once the fallback has answered. *)
Definition resolve (text : jsstring) (llmResult : LLMExtractionResult) : M ParseResult :=
  if test YESTERDAY_REGEX text
     && (intent_eqb (llm_intent llmResult) log || is_some (llm_amount_ml llmResult))
  then ret (clarification PROMPT_TODAY_ONLY)
  else
  match llm_intent llmResult with
  | no_action => ret (with_intent no_action)
  | chitchat =>
      ret {| success := true; intent := Some chitchat; amount_ml := None;
             log_time := None; needs_clarification := None;
             clarification_prompt := None; adjust_by_ml := None;
             undo_count := None;
             chitchat_reply := nonempty (clarification_needed llmResult) |}
  | query => ret (with_intent query)
  | undo =>
      let undo_count :=
        match llm_undo_count llmResult with
        | Some n => if Qle_bool 1 n then (if Qle_bool n 10 then n else 10%Q) else 1%Q
        | None => 1%Q
        end in
      ret {| success := true; intent := Some undo; amount_ml := None;
             log_time := None; needs_clarification := None;
             clarification_prompt := None; adjust_by_ml := None;
             undo_count := Some undo_count; chitchat_reply := None |}
  | edit =>
      match llm_adjust_by_ml llmResult with
      | Some adjust =>
          if Qle_bool adjust 0 || Qltb 10000 adjust
          then ret (clarification PROMPT_REDUCE_BY)
          else ret {| success := true; intent := Some edit; amount_ml := None;
                      log_time := None; needs_clarification := None;
                      clarification_prompt := None; adjust_by_ml := Some adjust;
                      undo_count := None; chitchat_reply := None |}
      | None => ret (clarification PROMPT_REDUCE_BY)
      end
  | _ =>
      match llm_amount_ml llmResult with
      | Some amount =>
          if intent_eqb (llm_intent llmResult) clarify || ambiguous llmResult
          then ret (clarification
                      (or_default (clarification_needed llmResult) PROMPT_DIDNT_CATCH))
          else if Qle_bool amount 0 || Qltb 10000 amount
          then ret (clarification PROMPT_NOT_RIGHT)
          else
            match relative_time llmResult with
            | Some (c :: w) =>
                match parseRelativeOffset (Some (c :: w)) with
                | None => ret (clarification PROMPT_WHEN)
                | Some offsetHours =>
                    validatedTime <- validateRetroactiveTime offsetHours ;;
                    match validatedTime with
                    | None => ret (clarification PROMPT_BE_SPECIFIC)
                    | Some t =>
                        ret {| success := true; intent := Some log;
                               amount_ml := Some amount; log_time := Some t;
                               needs_clarification := None;
                               clarification_prompt := None; adjust_by_ml := None;
                               undo_count := None; chitchat_reply := None |}
                    end
                end
            | _ =>
                now <- nowISTString ;;
                ret {| success := true; intent := Some log;
                       amount_ml := Some amount; log_time := Some now;
                       needs_clarification := None;
                       clarification_prompt := None; adjust_by_ml := None;
                       undo_count := None; chitchat_reply := None |}
            end
      | None =>
          ret (clarification
                 (or_default (clarification_needed llmResult) PROMPT_DIDNT_CATCH))
      end
  end.

Section Host.

Variable JSON_parse : json -> option json.

Definition parseWaterInputLLM (text : jsstring) (env : Env) : M ParseResult :=
  llmResult <- extractWaterIntent JSON_parse text env ;;
  resolve text llmResult.

Definition parseWaterInput (text : jsstring) (prefs : UserPreferences) (env : Env)
    : M ParseResult :=
  let hasTimeReference := test TIME_PHRASE_REGEX text in
  regexResult <- parseWaterInputRegex text prefs ;;
  if success regexResult && negb hasTimeReference then ret regexResult
  else if success regexResult && hasTimeReference then parseWaterInputLLM text env
  else parseWaterInputLLM text env.

End Host.

Definition parseBottleSizeResponse (text : jsstring) : option Z :=
  let lower := trim (toLowerCase text) in
  if test AFFIRMATIVE_REGEX lower then Some 750
  else
    let in_size (n : option Z) :=
      match n with
      | Some size => if (100 <=? size) && (size <=? 3000) then Some size else None
      | None => None
      end in
    match guarded SIZE_ML_REGEX lower (fun x => in_size (parseInt_group 1 x)) with
    | Some size => Some size
    | None =>
    match guarded SIZE_LITER_REGEX lower (fun x => in_size (liters_group x)) with
    | Some size => Some size
    | None =>
    match guarded JUST_NUMBER_REGEX lower (fun x => in_size (parseInt_group 1 x)) with
    | Some size => Some size
    | None => None
    end end end.

(** *** Other beverages *)

Local Open Scope nat_scope.

Definition EXCLUDED_KEYWORDS : list string :=
  ["coffee"; "tea"; "latte"; "cappuccino"; "espresso"; "soda"; "coke"; "cola";
   "juice"; "beer"; "wine"; "alcohol"]%string.

(** [new RegExp(`\\b${keyword}\\b`, 'i')] *)
Definition keyword_regex (keyword : string) : regex :=
  seqs [WordB; str_i keyword; WordB].

Definition containsExcludedBeverage (text : jsstring) : bool :=
  let lower := toLowerCase text in
  existsb (fun keyword => test (keyword_regex keyword) lower) EXCLUDED_KEYWORDS.

End Parser.
Export Parser.

(** ** lib/telegram.ts *)

Module Telegram.

Local Open Scope nat_scope.

(** [s.replace(/c/g, rep)] for a pattern that is the one literal code unit
    [c] and a replacement without [$]. *)
Definition replace_all (c : ascii) (rep : string) (s : jsstring) : jsstring :=
  flat_map (fun x => if Ascii.eqb x c then lit rep else [x]) s.

Definition escapeHtmlForTelegram (text : jsstring) : jsstring :=
  replace_all ">" "&gt;" (replace_all "<" "&lt;" (replace_all "&" "&amp;" text)).

Local Open Scope Z_scope.

Record TelegramChat : Type := {
  chat_id : Q;
  chat_type : json
}.

Record TelegramFrom : Type := {
  from_id : jsval;
  first_name : jsval
}.

(** [date] and [chat.type] hold whatever truthy value the payload had, as
    the casts of the source check nothing. *)
Record TelegramMessage : Type := {
  message_id : Q;
  msg_chat : TelegramChat;
  msg_from : option TelegramFrom;
  msg_date : json;
  msg_text : option jsstring
}.

Record TelegramUpdate : Type := {
  update_id : Q;
  message : option TelegramMessage
}.

Record MessageData : Type := {
  chatId : jsstring;
  data_text : jsstring;
  firstName : jsval
}.

(** [typeof v === 'object'] on a value that is not [null]. *)
Definition is_object (v : json) : bool :=
  match v with JObj _ | JArr _ => true | _ => false end.

Definition parseTelegramPayload (body : json) : M (option TelegramUpdate) :=
  if negb (truthy (Some body)) || negb (is_object body) then ret None
  else
    match typeof_number (get_prop body (lit "update_id")) with
    | None => ret None
    | Some uid =>
        match get_prop body (lit "message") with
        | Some msg =>
            if negb (truthy (Some msg))
            then ret (Some {| update_id := uid; message := None |})
            else
              let chat := get_prop msg (lit "chat") in
              match typeof_number (get_prop msg (lit "message_id")),
                    truthy chat, typeof_number (opt_prop chat (lit "id")) with
              | Some mid, true, Some cid =>
                  let type := opt_prop chat (lit "type") in
                  let d := get_prop msg (lit "date") in
                  date <- (if truthy d
                           then ret (match d with Some v => v | None => JNull end)
                           else now <- Date_now ;; ret (JNum (inject_Z (now / 1000)))) ;;
                  let from := get_prop msg (lit "from") in
                  ret (Some
                    {| update_id := uid;
                       message := Some
                         {| message_id := mid;
                            msg_chat :=
                              {| chat_id := cid;
                                 chat_type :=
                                   if truthy type
                                   then match type with Some v => v | None => JNull end
                                   else JStr (lit "private") |};
                            msg_from :=
                              match from with
                              | Some f =>
                                  if truthy from && is_object f
                                  then Some {| from_id := get_prop f (lit "id");
                                               first_name := get_prop f (lit "first_name") |}
                                  else None
                              | None => None
                              end;
                            msg_date := date;
                            msg_text := typeof_string (get_prop msg (lit "text")) |} |})
              | _, _, _ => ret None
              end
        | None => ret (Some {| update_id := uid; message := None |})
        end
    end.

Section Host.

(** [String(n)] of a number that is not an integer of at most 53 bits. *)
Variable Number_toString : Q -> jsstring.

Definition String_of_number (q : Q) : jsstring :=
  let r := Qred q in
  if (Z.pos (Qden r) =? 1) && (Z.abs (Qnum r) <=? 2 ^ 53)
  then String_of_Z (Qnum r) else Number_toString q.

Definition extractMessageData (update : TelegramUpdate) : option MessageData :=
  match message update with
  | Some m =>
      match msg_text m with
      | Some (c :: t) =>
          Some {| chatId := String_of_number (chat_id (msg_chat m));
                  data_text := c :: t;
                  firstName :=
                    match msg_from m with Some f => first_name f | None => None end |}
      | _ => None
      end
  | None => None
  end.

End Host.

End Telegram.
Export Telegram.

(** ** index.ts: the webhook *)

Module Worker.

Local Open Scope Z_scope.

(** The bindings the webhook handler reads. *)
Record WorkerEnv : Type := {
  TELEGRAM_BOT_TOKEN : option jsstring;
  TELEGRAM_WEBHOOK_SECRET : option jsstring
}.

(** What the handler reads of the incoming request: [request.method],
    [request.headers.get('X-Telegram-Bot-Api-Secret-Token')] and
    [await request.json()], [None] when that promise rejects. *)
Record WebhookRequest : Type := {
  method : jsstring;
  secret_token : option jsstring;
  json_body : option json
}.

(** The response, and the update whose handling was handed to
    [ctx.waitUntil]. *)
Record WebhookResult : Type := {
  status : Z;
  status_text : string;
  scheduled : option TelegramUpdate
}.

Definition OK_200 : WebhookResult :=
  {| status := 200; status_text := "OK"; scheduled := None |}.

(** [headerToken !== secret] *)
Definition differs (headerToken : option jsstring) (secret : jsstring) : bool :=
  match headerToken with
  | Some h => negb (str_eqb h secret)
  | None => true
  end.

(** [fetch] of the default export of [index.ts]. *)
Definition fetch_handler (request : WebhookRequest) (env : WorkerEnv) : M WebhookResult :=
  if negb (str_eqb (method request) (lit "POST"))
  then ret {| status := 405; status_text := "Method not allowed"; scheduled := None |}
  else
    if match TELEGRAM_WEBHOOK_SECRET env with
       | Some (c :: s) => differs (secret_token request) (c :: s)
       | _ => false
       end
    then ret {| status := 403; status_text := "Forbidden"; scheduled := None |}
    else
      if is_falsy_key (TELEGRAM_BOT_TOKEN env)
      then console "TELEGRAM_BOT_TOKEN not configured" ;;; ret OK_200
      else
        try_catch
          (body <- match json_body request with
                   | Some b => ret b
                   | None => throw "SyntaxError: request body is not JSON"
                   end ;;
           update <- parseTelegramPayload body ;;
           match update with
           | None => console "Invalid Telegram payload" ;;; ret OK_200
           | Some u => ret {| status := 200; status_text := "OK"; scheduled := Some u |}
           end)
          (console "Fetch handler error:" ;;; ret OK_200).

End Worker.
Export Worker.

(** ** What a match is, declaratively *)

Module RegexSpec.

(** [reach r s s']: from [s] the pattern [r] can end in [s']. *)
Inductive reach : regex -> mstate -> mstate -> Prop :=
| R_eps s : reach Eps s s
| R_chr p c w s :
    rest s = c :: w -> p c = true ->
    reach (Chr p) s (MState (Some c) w (caps s))
| R_seq r1 r2 s s1 s2 :
    reach r1 s s1 -> reach r2 s1 s2 -> reach (Seq r1 r2) s s2
| R_alt_l r1 r2 s s1 : reach r1 s s1 -> reach (Alt r1 r2) s s1
| R_alt_r r1 r2 s s1 : reach r2 s s1 -> reach (Alt r1 r2) s s1
| R_star_stop g r s : reach (Star g r) s s
| R_star_step g r s s1 s2 :
    reach r s s1 -> progressed s s1 = true -> reach (Star g r) s1 s2 ->
    reach (Star g r) s s2
| R_opt_skip r s : reach (Opt r) s s
| R_opt_take r s s1 :
    reach r s s1 -> progressed s s1 = true -> reach (Opt r) s s1
| R_group i r s s1 :
    reach r s s1 -> reach (Group i r) s (set_cap i (consumed s s1) s1)
| R_wordb s :
    xorb (word_before s) (word_after s) = true -> reach WordB s s
| R_bol s : prev s = None -> reach Bol s s
| R_eol s : rest s = [] -> reach Eol s s.

(** [nocons c r]: [r] consumes nothing when the next code unit is [c].
    [blocked c r]: [r] has no match at all there. *)
Fixpoint nocons (c : ascii) (r : regex) : bool :=
  match r with
  | Chr p => negb (p c)
  | Seq r1 r2 => blocked c r1 || (nocons c r1 && nocons c r2)
  | Alt r1 r2 => nocons c r1 && nocons c r2
  | Star _ r1 | Opt r1 | Group _ r1 => nocons c r1
  | Eps | WordB | Bol | Eol => true
  end
with blocked (c : ascii) (r : regex) : bool :=
  match r with
  | Chr p => negb (p c)
  | Seq r1 r2 => blocked c r1 || (nocons c r1 && blocked c r2)
  | Alt r1 r2 => blocked c r1 && blocked c r2
  | Group _ r1 => blocked c r1
  | Eps | Star _ _ | Opt _ | WordB | Bol | Eol => false
  end.

Definition all_ascii : list ascii := map ascii_of_nat (seq 0 256).

(** Every code unit [p] accepts, [q] accepts. *)
Definition class_sub (p q : ascii -> bool) : bool :=
  forallb (fun c => implb (p c) (q c)) all_ascii.

(** Every match of [r] consumes a code unit of class [q]. *)
Fixpoint must_have (q : ascii -> bool) (r : regex) : bool :=
  match r with
  | Chr p => class_sub p q
  | Seq r1 r2 => must_have q r1 || must_have q r2
  | Alt r1 r2 => must_have q r1 && must_have q r2
  | Group _ r1 => must_have q r1
  | Eps | Star _ _ | Opt _ | WordB | Bol | Eol => false
  end.

Definition last_or (p : option ascii) (w : jsstring) : option ascii :=
  match rev w with c :: _ => Some c | [] => p end.

(** The state once [w] was read off the front of [w ++ tl]. *)
Definition after (s : mstate) (w tl : jsstring) : mstate :=
  MState (last_or (prev s) w) tl (caps s).

Definition all_digits : jsstring := lit "0123456789".

Definition all_true (p : ascii -> bool) (w : jsstring) : Prop :=
  Forall (fun c => p c = true) w.

(** [k] fails wherever the next code unit is of class [p]. *)
Definition fails_on (p : ascii -> bool) (k : cont) : Prop :=
  forall s c w, rest s = c :: w -> p c = true -> k s = None.

Definition nondigit_head (tl : jsstring) : Prop :=
  match tl with c :: _ => is_digit c = false | [] => True end.

(** Neither a digit nor the dot of a fraction comes next. *)
Definition plain_head (tl : jsstring) : Prop :=
  match tl with c :: _ => is_digit c = false /\ c <> "."%char | [] => True end.

(** [H] reads a whole run of digits in front of [tl] and captures it as
    group 1. *)
Definition reads_run (H : regex) (tl : jsstring) : Prop :=
  forall k s x xs, fails_on is_digit k -> all_true is_digit (x :: xs) ->
    rest s = (x :: xs) ++ tl ->
    m H k s = k (set_cap 1 (x :: xs) (after s (x :: xs) tl)).

(** The class of the code units listed in [s]. *)
Definition one_of (s : string) (c : ascii) : bool := existsb (Ascii.eqb c) (lit s).

(** The words a pattern matches, assertions and captures aside. *)
Fixpoint lang (r : regex) (w : jsstring) : Prop :=
  match r with
  | Eps | WordB | Bol | Eol => w = []
  | Chr p => exists c, w = [c] /\ p c = true
  | Seq r1 r2 => exists w1 w2, w = w1 ++ w2 /\ lang r1 w1 /\ lang r2 w2
  | Alt r1 r2 => lang r1 w \/ lang r2 w
  | Star _ r1 => exists ws, w = concat ws /\ Forall (fun x => x <> [] /\ lang r1 x) ws
  | Opt r1 => w = [] \/ lang r1 w
  | Group _ r1 => lang r1 w
  end.

(** The pattern has a match somewhere in the text. *)
Definition occurs (r : regex) (t : jsstring) : Prop :=
  exists pre w post, t = pre ++ w ++ post /\ lang r w.

Fixpoint assertion_free (r : regex) : bool :=
  match r with
  | Eps | Chr _ => true
  | Seq r1 r2 | Alt r1 r2 => assertion_free r1 && assertion_free r2
  | Star _ r1 | Opt r1 | Group _ r1 => assertion_free r1
  | WordB | Bol | Eol => false
  end.

Fixpoint no_groups (r : regex) : bool :=
  match r with
  | Seq r1 r2 | Alt r1 r2 => no_groups r1 && no_groups r2
  | Star _ r1 | Opt r1 => no_groups r1
  | Group _ _ => false
  | Eps | Chr _ | WordB | Bol | Eol => true
  end.

(** *** A star over any code unit, in closed form *)

Local Open Scope nat_scope.

(** Where a star over any code unit hands over to its continuation: a
    greedy one tries the far end first, a lazy one the near end. *)
Fixpoint star_any (greedy : bool) (k : cont) (p : option ascii)
    (cs : list (nat * jsstring)) (t : jsstring) : option mstate :=
  match t with
  | [] => k (MState p [] cs)
  | c :: t' =>
      if greedy
      then orelse (star_any greedy k (Some c) cs t') (k (MState p t cs))
      else orelse (k (MState p t cs)) (star_any greedy k (Some c) cs t')
  end.

End RegexSpec.
Export RegexSpec.

(** ** Notions the properties are stated with *)

Module Notions.

Local Open Scope Z_scope.

(** A world to run examples in: the clock reads 2026-11-03 12:00:00.123
    IST first and a few milliseconds more at each later reading; the
    network is down. *)
Definition sample_clock (n : nat) : Z :=
  nth n [1793687400123; 1793687400124; 1793687400126; 1793687400129] 1793687400140.

Definition sample_world : World :=
  Build_World sample_clock 0 (fun _ => NetworkError) [].

Definition sample_env : Env := Build_Env None None None.
Definition keyed_env : Env := Build_Env (Some (lit "sk-test")) None None.

(** A [JSON.parse] that rejects everything. *)
Definition no_json (j : json) : option json := None.

(** What the deterministic stage can return. *)
Inductive regex_outcome (prefs : UserPreferences) : M ParseResult -> Prop :=
| RO_volume a : 0 < a <= 10000 -> regex_outcome prefs (logged_now a)
| RO_half : regex_outcome prefs (logged_now (round_half (bottle_size_ml prefs)))
| RO_quarter : regex_outcome prefs (logged_now (round_quarter (bottle_size_ml prefs)))
| RO_bottles n :
    0 < n <= 10 -> regex_outcome prefs (logged_now (double_of_Z (bottle_size_ml prefs * n)))
| RO_bottle : regex_outcome prefs (logged_now (bottle_size_ml prefs))
| RO_glasses n : 0 < n <= 20 -> regex_outcome prefs (logged_now (250 * n))
| RO_cups n : 0 < n <= 20 -> regex_outcome prefs (logged_now (200 * n))
| RO_none : regex_outcome prefs (ret no_result).

(** The stage [c], run in the world [w], logs [a] millilitres now: it ends
    normally with a success that carries the amount and the IST string of
    the clock reading, states no intent and asks nothing, and the clock was
    read once. *)
Definition logs_now (c : M ParseResult) (w : World) (a : Z) : Prop :=
  exists r, c w = (Normal r, tick w) /\
    success r = true /\ amount_ml r = Some (inject_Z a) /\
    log_time r = Some (toISTString (Some (now_ms w))) /\
    intent r = None /\ needs_clarification r = None.

(** The stage finds nothing: it ends normally without success, amount,
    time or question, and leaves the world as it was. *)
Definition finds_nothing (c : M ParseResult) (w : World) : Prop :=
  exists r, c w = (Normal r, w) /\
    success r = false /\ amount_ml r = None /\ log_time r = None /\
    needs_clarification r = None.

(** The number a run of decimal digits writes. *)
Definition number_of (ds : jsstring) : Z :=
  fold_left (fun acc c => 10 * acc + (Z.of_nat (code c) - 48)) ds 0.

(** A whole number that a double holds exactly. *)
Definition exact_double (n : Z) : Prop := - 2 ^ 53 < n < 2 ^ 53.

(** [a] is the half, and the quarter, of [b] rounded to a whole number, a
    tie going up. *)
Definition half_of (b a : Z) : Prop := 2 * a - 1 <= b <= 2 * a.
Definition quarter_of (b a : Z) : Prop := 4 * a - 2 <= b <= 4 * a + 1.

(** The number the decimal numeral [ip.fp] writes. *)
Definition decimal_of (ip fp : jsstring) : Q :=
  number_of (ip ++ fp) # Z.to_pos (10 ^ Z.of_nat (length fp)).

(** [q] is [x] up to one part in 2^53, the rounding of one operation. *)
Definition rounded (x q : Q) : Prop :=
  (x * (1 - (1 # 9007199254740992)) <= q /\ q <= x * (1 + (1 # 9007199254740992)))%Q.

(** [v] is the whole number nearest to a thousand times [litres], up to
    the rounding of the two operations before it. *)
Definition rounds_litres (litres : Q) (v : Z) : Prop :=
  (1000 * litres * (1 - (1 # 4503599627370496)) - (1 # 2) < inject_Z v /\
   inject_Z v <= 1000 * litres * (1 + (1 # 2251799813685248)) + (1 # 2))%Q.

(** The decimal numeral of [a] is a run of digits with value [a]. *)
Definition numeral_ok (a : Z) : bool :=
  match String_of_Z a with
  | x :: xs => forallb is_digit (x :: xs) && (Z.of_N (digits_value 0 (x :: xs)) =? a)
  | [] => false
  end.

Fixpoint upto (n : nat) (a : Z) : list Z :=
  match n with
  | O => []
  | S n' => a :: upto n' (a + 1)
  end.

(** Every attempt of [parseJSONSafely] on [c] fails. *)
Definition unparseable (jp : json -> option json) (c : json) : Prop :=
  jp c = None /\
  match c with
  | JStr s =>
      match exec FENCE_REGEX s with
      | Some x => jp (JStr (trim (match group 1 x with Some w => w | None => [] end))) = None
      | None =>
          match exec OBJECT_REGEX s with
          | Some x => jp (JStr (whole x)) = None
          | None => True
          end
      end
  | _ => True
  end.

(** The exchange with the endpoint yields no usable reply: a transport
    error, a timeout, a non-success status, a body that is not JSON, no
    content, or content that does not parse. *)
Definition failed_exchange (jp : json -> option json) (o : FetchOutcome) : Prop :=
  match o with
  | NetworkError | TimedOut => True
  | Responded resp =>
      ok resp = false \/
      match body resp with
      | None => True
      | Some data =>
          match content_of data with
          | Some c => truthy (Some c) = false \/ unparseable jp c
          | None => True
          end
      end
  end.

Definition falls_back (res : completion LLMExtractionResult) : Prop :=
  match res with Normal r => r = createFallbackResult | Throw _ => True end.

(** A computation that reads the clock and does nothing else. *)
Definition silent {A} (c : M A) : Prop :=
  forall w, exists a n,
    c w = (Normal a, Build_World (clock w) (reads w + n) (net w) (trace w)).

(** Equal up to the case of the letters a-z. *)
Definition ci_eq (u w : jsstring) : Prop := map canon u = map canon w.

Definition not_word_before (pre : jsstring) : Prop :=
  match rev pre with c :: _ => is_word c = false | [] => True end.
Definition not_word_after (post : jsstring) : Prop :=
  match post with c :: _ => is_word c = false | [] => True end.

(** [w] stands in [text] as a word of its own, in any case. *)
Definition occurs_as_word (w text : jsstring) : Prop :=
  exists pre u post,
    text = pre ++ u ++ post /\ ci_eq u w /\ not_word_before pre /\ not_word_after post.

(** The text holds one of the time-reference cues as a word. *)
Definition has_time_cue (text : jsstring) : Prop :=
  exists w, In w TIME_WORDS /\ occurs_as_word (lit w) text.

(** The instant at which the IST civil day of [t] began. *)
Definition ist_day_start (t : Z) : Z :=
  (t + IST_OFFSET_MS) / msPerDay * msPerDay - IST_OFFSET_MS.


(** What follows the number in "N hour(s) ago" and in "N minute(s) ago",
    the latter with its short forms, blanks being optional. *)
Definition HOURS_TAIL : regex :=
  seqs [star space; str "hour"; Opt (chr "s"); star space; str "ago"].

Definition MINUTES_TAIL : regex :=
  seqs [star space;
        Alt (Seq (str "minute") (Opt (chr "s"))) (Seq (str "min") (Opt (chr "s")));
        star space; str "ago"].

(** The text [s] begins with the run of digits [ds] and a word of [tail]. *)
Definition number_then (tail : regex) (ds s : jsstring) : Prop :=
  exists w post, s = ds ++ w ++ post /\ ds <> [] /\ all_true is_digit ds /\ lang tail w.

(** A number followed by a word of [tail] stands somewhere in [t]. *)
Definition mentions (tail : regex) (t : jsstring) : Prop :=
  exists pre ds suf, t = pre ++ suf /\ number_then tail ds suf.

(** [ds] is the number at the leftmost place of [t] where a number
    followed by a word of [tail] begins. *)
Definition leftmost_number (tail : regex) (t ds : jsstring) : Prop :=
  exists pre suf, t = pre ++ suf /\ number_then tail ds suf /\
    forall pre' suf' ds', t = pre' ++ suf' -> (length pre' < length pre)%nat ->
      ~ number_then tail ds' suf'.

(** "N minute(s) ago" as the specification words it: no [min], no [mins]. *)
Definition SPEC_MINUTES_AGO_REGEX : regex :=
  seqs [Group 1 (plus digit); star space; str "minute"; Opt (chr "s");
        star space; str "ago"].

Definition LITER_TAILS : list string :=
  ["l"; " l"; "liter"; " liter"; "litre"; " litre";
   "liters"; " liters"; "litres"; " litres"]%string.

Definition in_bottle_range (n : Z) : Prop := 100 <= n <= 3000.

(** No value, or one outside the accepted bottle sizes. *)
Definition out_of_range (n : option Z) : Prop :=
  forall v, n = Some v -> ~ in_bottle_range v.

(** *** Notions of the further properties *)

#[local] Unset Implicit Arguments.

Local Open Scope Z_scope.

(** What the fallback path can answer: a clarification with a prompt, an
    intent without data, a chitchat reply, a count of logs to undo, an
    amount to subtract, or a log. *)
Inductive resolved : ParseResult -> Prop :=
| Res_clarify p : p <> [] -> resolved (clarification p)
| Res_no_action : resolved (with_intent no_action)
| Res_query : resolved (with_intent query)
| Res_chitchat reply :
    reply <> Some [] ->
    resolved {| success := true; intent := Some chitchat; amount_ml := None;
                log_time := None; needs_clarification := None;
                clarification_prompt := None; adjust_by_ml := None;
                undo_count := None; chitchat_reply := reply |}
| Res_undo n :
    (1 <= n)%Q -> (n <= 10)%Q ->
    resolved {| success := true; intent := Some undo; amount_ml := None;
                log_time := None; needs_clarification := None;
                clarification_prompt := None; adjust_by_ml := None;
                undo_count := Some n; chitchat_reply := None |}
| Res_edit adjust :
    (0 < adjust)%Q -> (adjust <= 10000)%Q ->
    resolved {| success := true; intent := Some edit; amount_ml := None;
                log_time := None; needs_clarification := None;
                clarification_prompt := None; adjust_by_ml := Some adjust;
                undo_count := None; chitchat_reply := None |}
| Res_log amount t :
    (0 < amount)%Q -> (amount <= 10000)%Q ->
    resolved {| success := true; intent := Some log; amount_ml := Some amount;
                log_time := Some t; needs_clarification := None;
                clarification_prompt := None; adjust_by_ml := None;
                undo_count := None; chitchat_reply := None |}.

(** The body of a chat completion whose message content is [content]. *)
Definition reply_with (content : json) : json :=
  JObj [(lit "choices",
         JArr [JObj [(lit "message", JObj [(lit "content", content)])]])].

(** A world like [sample_world] whose endpoint answers every request with
    [content]. *)
Definition answering_world (content : json) : World :=
  Build_World sample_clock 0
    (fun _ => Responded (Build_Response true (Some (reply_with content)))) [].

(** A [JSON.parse] that accepts the one text [s], as the value [v]. *)
Definition parse_one (s : jsstring) (v : json) (j : json) : option json :=
  match j with
  | JStr x => if str_eqb x s then Some v else None
  | _ => None
  end.

Definition dquote : ascii := ascii_of_nat 34.

Definition quoted (s : string) : jsstring := (dquote :: lit s ++ [dquote])%list.

(** [{"intent":"log","amount_ml":500,"relative_time":"2 hours ago"}] *)
Definition SAMPLE_LOG_TEXT : jsstring :=
  (lit "{" ++ quoted "intent" ++ lit ":" ++ quoted "log" ++ lit ","
   ++ quoted "amount_ml" ++ lit ":500," ++ quoted "relative_time" ++ lit ":"
   ++ quoted "2 hours ago" ++ lit "}")%list.

Definition SAMPLE_LOG : json :=
  JObj [(lit "intent", JStr (lit "log")); (lit "amount_ml", JNum 500);
        (lit "relative_time", JStr (lit "2 hours ago"))].

(** [{"intent":"undo","undo_count":25}] *)
Definition SAMPLE_UNDO_TEXT : jsstring :=
  (lit "{" ++ quoted "intent" ++ lit ":" ++ quoted "undo" ++ lit ","
   ++ quoted "undo_count" ++ lit ":25}")%list.

Definition SAMPLE_UNDO : json :=
  JObj [(lit "intent", JStr (lit "undo")); (lit "undo_count", JNum 25)].

(** The endpoint answers the request [rq] with a completion whose content
    [JSON.parse] reads, as the truthy value [parsed]. *)
Definition answers (jp : json -> option json) (w : World) (rq : Request)
    (parsed : json) : Prop :=
  exists resp data c,
    net w rq = Responded resp /\ ok resp = true /\ body resp = Some data /\
    data <> JNull /\ content_of data = Some c /\ truthy (Some c) = true /\
    jp c = Some parsed /\ truthy (Some parsed) = true.

(** A log of [amount] millilitres at [t]. *)
Definition log_of (amount : Q) (t : jsstring) : ParseResult :=
  {| success := true; intent := Some log; amount_ml := Some amount;
     log_time := Some t; needs_clarification := None;
     clarification_prompt := None; adjust_by_ml := None;
     undo_count := None; chitchat_reply := None |}.

(** [{"intent":"log","amount_ml":300}] *)
Definition SAMPLE_PLAIN_TEXT : jsstring :=
  (lit "{" ++ quoted "intent" ++ lit ":" ++ quoted "log" ++ lit ","
   ++ quoted "amount_ml" ++ lit ":300}")%list.

Definition SAMPLE_PLAIN : json :=
  JObj [(lit "intent", JStr (lit "log")); (lit "amount_ml", JNum 300)].

Local Open Scope nat_scope.

(** The text names one of the excluded beverages as a word. *)
Definition names_excluded_beverage (text : jsstring) : Prop :=
  exists w, In w EXCLUDED_KEYWORDS /\ occurs_as_word (lit w) text.

(** How a count of glasses and one of cups are written. *)
Definition GLASS_TAILS : list string := ["glass"; " glass"; "glasses"; " glasses"]%string.

Definition CUP_TAILS : list string := ["cup"; " cup"; "cups"; " cups"]%string.

Local Open Scope Z_scope.

(** The order of two strings by code units, as a binary collation
    compares text. *)
Fixpoint str_compare (a b : jsstring) : comparison :=
  match a, b with
  | [], [] => Eq
  | [], _ :: _ => Lt
  | _ :: _, [] => Gt
  | x :: a', y :: b' =>
      match Nat.compare (code x) (code y) with
      | Eq => str_compare a' b'
      | c => c
      end
  end.

(** The IST calendar year of the instant is written with four digits. *)
Definition four_digit_year (t : Z) : Prop :=
  1000 <= getUTCFullYear (t + IST_OFFSET_MS) <= 9999.

(** Calendar dates in their order. *)
Definition date_ltb (a b : Z * Z * Z) : bool :=
  let '(y1, m1, d1) := a in
  let '(y2, m2, d2) := b in
  (y1 <? y2) || ((y1 =? y2) && ((m1 <? m2) || ((m1 =? m2) && (d1 <? d2)))).

(** A number in two digits. *)
Definition two_digits (n : Z) : jsstring := padStart2 (String_of_Z n).

(** Values, each followed by its separator, in two digits each. *)
Fixpoint render (fields : list (Z * string)) : jsstring :=
  match fields with
  | [] => []
  | (v, sep) :: l => two_digits v ++ lit sep ++ render l
  end.

(** The order of two lists of numbers by their first difference. *)
Fixpoint lex_lt (a b : list Z) : Prop :=
  match a, b with
  | x :: a', y :: b' => x < y \/ (x = y /\ lex_lt a' b')
  | _, _ => False
  end.

Definition comparison_eqb (a b : comparison) : bool :=
  match a, b with
  | Eq, Eq | Lt, Lt | Gt, Gt => true
  | _, _ => false
  end.

(** Two digits compare as their numbers do. *)
Definition two_digits_ordered (a b : Z) : bool :=
  comparison_eqb (str_compare (two_digits a) (two_digits b)) (a ?= b)
  && (length (two_digits a) =? 2)%nat.

(** A year of four digits is written as its century and its year of the
    century, two digits each. *)
Definition year_splits (y : Z) : bool :=
  str_eqb (String_of_Z y) (two_digits (y / 100) ++ two_digits (y mod 100)).

(** The day of the era on which its year [y] begins, and the count that
    [civil_from_days] divides by 365 to find the year of the day [doe]. *)
Definition year_start (y : Z) : Z := 365 * y + y / 4 - y / 100.

Definition year_count (doe : Z) : Z := doe - doe / 1460 + doe / 36524 - doe / 146096.

(** The first day of a year is counted into that year. *)
Definition year_start_counted (y : Z) : bool := 365 * y <=? year_count (year_start y).

(** The date of the day [doy] of the year [y] of the era [era], as
    [civil_from_days] computes it. *)
Definition date_in_year (era y doy : Z) : Z * Z * Z :=
  let mp := (5 * doy + 2) / 153 in
  let d := doy - (153 * mp + 2) / 5 + 1 in
  let mo := if mp <? 10 then mp + 3 else mp - 9 in
  (y + era * 400 + (if mo <=? 2 then 1 else 0), mo, d).

(** The numbers [toISTString] writes for the instant [t], in their order:
    century, year of the century, month, day, hours, minutes, seconds. *)
Definition stamp_fields (t : Z) : list Z :=
  let istDate := t + IST_OFFSET_MS in
  [getUTCFullYear istDate / 100; getUTCFullYear istDate mod 100;
   getUTCMonth istDate + 1; getUTCDate istDate;
   getUTCHours istDate; getUTCMinutes istDate; getUTCSeconds istDate].

Definition STAMP_SEPARATORS : list string :=
  [""; "-"; "-"; "T"; ":"; ":"; "+05:30"]%string.

Local Open Scope nat_scope.

Definition not_backtick (c : ascii) : bool := negb (Ascii.eqb c "`").

(** What follows the language tag of a fenced block. *)
Definition after_tag (inner : jsstring) : jsstring :=
  if starts_with (lit "json") inner then skipn 4 inner else inner.

(** Any code unit but [c]. *)
Definition other_than (c x : ascii) : bool := negb (Ascii.eqb x c).

(** The entity of a code unit that HTML reads as markup, the code unit
    itself otherwise. *)
Definition html_entity (x : ascii) : jsstring :=
  if Ascii.eqb x "&" then lit "&amp;"
  else if Ascii.eqb x "<" then lit "&lt;"
  else if Ascii.eqb x ">" then lit "&gt;"
  else [x].

(** An ampersand at the head of [s] opens one of the three entities. *)
Definition opens_entity (s : jsstring) : bool :=
  starts_with (lit "&amp;") s || starts_with (lit "&lt;") s || starts_with (lit "&gt;") s.

Fixpoint ampersands_open_entities (s : jsstring) : bool :=
  match s with
  | [] => true
  | c :: s' =>
      (if Ascii.eqb c "&" then opens_entity s else true) && ampersands_open_entities s'
  end.

Local Open Scope Z_scope.

(** A payload that carries a text message: a numeric [update_id], and a
    message with a numeric [message_id], a chat with a numeric [id], and
    the text [t], which is not empty. *)
Definition text_update (body : json) (cid : Q) (t : jsstring) : Prop :=
  exists uid msg mid chat,
    typeof_number (get_prop body (lit "update_id")) = Some uid /\
    get_prop body (lit "message") = Some msg /\
    typeof_number (get_prop msg (lit "message_id")) = Some mid /\
    get_prop msg (lit "chat") = Some chat /\
    typeof_number (get_prop chat (lit "id")) = Some cid /\
    typeof_string (get_prop msg (lit "text")) = Some t /\ t <> [].

(** The request is a POST, and it carries the webhook secret when one is
    configured. *)
Definition authentic (request : WebhookRequest) (env : WorkerEnv) : Prop :=
  method request = lit "POST" /\
  match TELEGRAM_WEBHOOK_SECRET env with
  | Some (c :: s) => secret_token request = Some (c :: s)
  | _ => True
  end.

End Notions.
Export Notions.

(** * Properties *)

Unset Implicit Arguments.

(** ** Rounding to a double *)

Module DoubleFacts.
Local Open Scope Z_scope.

Lemma scaled_first n d : 0 < n -> 0 < d ->
  let '(n0, d0) := scaled n d (Z.log2 n - Z.log2 d - 52) in
  0 < d0 /\ 2 ^ 51 * d0 < n0 /\ n0 < 2 ^ 53 * d0.
Proof.
  intros Hn Hd.
  destruct (Z.log2_spec n Hn) as [N1 N2]. destruct (Z.log2_spec d Hd) as [D1 D2].
  pose proof (Z.log2_nonneg n) as Ln. pose proof (Z.log2_nonneg d) as Ld.
  set (a := Z.log2 n) in *. set (b := Z.log2 d) in *.
  rewrite Z.pow_succ_r in N2, D2 by assumption.
  unfold scaled. destruct (0 <=? a - b - 52) eqn:E.
  - apply Z.leb_le in E. set (k := a - b - 52) in *.
    assert (Hk : 0 < 2 ^ k) by (apply Z.pow_pos_nonneg; lia).
    assert (Ea : 2 ^ a = 2 ^ 52 * 2 ^ b * 2 ^ k).
    { rewrite <- !Z.pow_add_r by lia. f_equal. unfold k. lia. }
    set (A := 2 ^ a) in *. set (B := 2 ^ b) in *. set (K := 2 ^ k) in *.
    change (2 ^ 53) with (2 * 2 ^ 52). change (2 ^ 52) with (2 * 2 ^ 51) in Ea.
    set (P := 2 ^ 51) in *. assert (HP : 0 < P) by (unfold P; lia).
    split; [nia |]. split; nia.
  - apply Z.leb_gt in E. set (k := - (a - b - 52)) in *.
    assert (Hk : 0 < 2 ^ k) by (apply Z.pow_pos_nonneg; lia).
    assert (Ea : 2 ^ a * 2 ^ k = 2 ^ 52 * 2 ^ b).
    { rewrite <- !Z.pow_add_r by lia. f_equal. unfold k. lia. }
    set (A := 2 ^ a) in *. set (B := 2 ^ b) in *. set (K := 2 ^ k) in *.
    change (2 ^ 53) with (2 * 2 ^ 52). change (2 ^ 52) with (2 * 2 ^ 51) in Ea.
    set (P := 2 ^ 51) in *. assert (HP : 0 < P) by (unfold P; lia).
    split; [lia |]. split; nia.
Qed.

Lemma scaled_pred n d e : 0 < n -> 0 < d ->
  let '(n0, d0) := scaled n d e in
  let '(n1, d1) := scaled n d (e - 1) in
  0 < d1 /\ ((n1 = n0 /\ d0 = 2 * d1) \/ (n1 = 2 * n0 /\ d1 = d0)).
Proof.
  intros Hn Hd. unfold scaled.
  destruct (0 <=? e) eqn:E; destruct (0 <=? e - 1) eqn:E1.
  - apply Z.leb_le in E, E1. split; [apply Z.mul_pos_pos; [lia | apply Z.pow_pos_nonneg; lia] |].
    left. split; [reflexivity |].
    replace e with (Z.succ (e - 1)) at 1 by lia. rewrite Z.pow_succ_r by lia. ring.
  - apply Z.leb_le in E. apply Z.leb_gt in E1. assert (e = 0) by lia. subst e.
    change (- (0 - 1)) with 1. change (2 ^ 1) with 2. change (2 ^ 0) with 1.
    split; [lia |]. right. split; lia.
  - apply Z.leb_gt in E. apply Z.leb_le in E1. lia.
  - apply Z.leb_gt in E, E1. split; [lia |]. right. split; [| reflexivity].
    replace (- (e - 1)) with (Z.succ (- e)) by lia. rewrite Z.pow_succ_r by lia. ring.
Qed.

(** The shape of a rounded value: a significand of 53 bits, one of the two
    integers around the scaled quotient and never further from it than a
    half. *)
Lemma round53_pos_spec n d : 0 < n -> 0 < d ->
  exists e q mant,
    let '(n1, d1) := scaled n d e in
    0 < d1 /\ q * d1 <= n1 < (q + 1) * d1 /\
    2 ^ 52 <= q < 2 ^ 53 /\
    (mant = q \/ mant = q + 1) /\
    2 * Z.abs (mant * d1 - n1) <= d1 /\
    round53_pos n d
    = if 0 <=? e then inject_Z (mant * 2 ^ e) else mant # Z.to_pos (2 ^ (- e)).
Proof.
  intros Hn Hd. unfold round53_pos.
  set (e0 := Z.log2 n - Z.log2 d - 52).
  pose proof (scaled_first n d Hn Hd) as F. fold e0 in F.
  pose proof (scaled_pred n d e0 Hn Hd) as S.
  destruct (scaled n d e0) as [n0 d0] eqn:E0.
  destruct F as [F0 [F1 F2]].
  assert (Q1 : n0 / d0 < 2 ^ 53) by (apply Z.div_lt_upper_bound; lia).
  replace (2 ^ 53 <=? n0 / d0) with false by (symmetry; apply Z.leb_gt; exact Q1).
  set (e := if n0 / d0 <? 2 ^ 52 then e0 - 1 else e0).
  assert (B : let '(n1, d1) := scaled n d e in
              0 < d1 /\ 2 ^ 52 * d1 <= n1 /\ n1 < 2 ^ 53 * d1).
  { unfold e. destruct (n0 / d0 <? 2 ^ 52) eqn:E.
    - apply Z.ltb_lt in E.
      assert (n0 < 2 ^ 52 * d0).
      { destruct (Z_lt_le_dec n0 (2 ^ 52 * d0)) as [|C]; [assumption | exfalso].
        assert (2 ^ 52 <= n0 / d0) by (apply Z.div_le_lower_bound; lia). lia. }
      destruct (scaled n d (e0 - 1)) as [n1 d1].
      destruct S as [S0 [[-> ->] | [-> ->]]]; lia.
    - apply Z.ltb_ge in E. rewrite E0.
      assert (2 ^ 52 * d0 <= n0).
      { destruct (Z_le_gt_dec (2 ^ 52 * d0) n0) as [|C]; [assumption | exfalso].
        assert (n0 / d0 < 2 ^ 52) by (apply Z.div_lt_upper_bound; lia). lia. }
      lia. }
  clearbody e. clear S.
  destruct (scaled n d e) as [n1 d1] eqn:E1.
  destruct B as [B0 [B1 B2]].
  pose proof (Z.div_mod n1 d1 ltac:(lia)) as DM.
  pose proof (Z.mod_pos_bound n1 d1 B0) as MB.
  set (q := n1 / d1) in *. set (r := n1 mod d1) in *.
  assert (Hq : 2 ^ 52 <= q < 2 ^ 53).
  { split; [apply Z.div_le_lower_bound; lia | apply Z.div_lt_upper_bound; lia]. }
  exists e, q.
  eexists. rewrite E1.
  split; [exact B0 |]. split; [nia |]. split; [exact Hq |].
  split; [| split; [| reflexivity]].
  - destruct (2 * r <? d1); [left; reflexivity |].
    destruct (d1 <? 2 * r); [right; reflexivity |].
    destruct (Z.even q); [left | right]; reflexivity.
  - destruct (2 * r <? d1) eqn:C1.
    + apply Z.ltb_lt in C1. nia.
    + apply Z.ltb_ge in C1. destruct (d1 <? 2 * r) eqn:C2.
      * apply Z.ltb_lt in C2. nia.
      * apply Z.ltb_ge in C2. destruct (Z.even q); nia.
Qed.

Lemma log2_quotient m d : 0 < m -> 0 < d ->
  Z.log2 (m * d) - Z.log2 d = Z.log2 m \/ Z.log2 (m * d) - Z.log2 d = Z.log2 m + 1.
Proof.
  intros Hm Hd.
  destruct (Z.log2_spec m Hm) as [M1 M2]. destruct (Z.log2_spec d Hd) as [D1 D2].
  pose proof (Z.log2_nonneg m) as Lm. pose proof (Z.log2_nonneg d) as Ld.
  assert (P1 : 2 ^ (Z.log2 m + Z.log2 d) <= m * d).
  { rewrite Z.pow_add_r by assumption. apply Z.mul_le_mono_nonneg; lia. }
  assert (P2 : m * d < 2 ^ (Z.log2 m + Z.log2 d + 2)).
  { replace (Z.log2 m + Z.log2 d + 2) with (Z.succ (Z.log2 m) + Z.succ (Z.log2 d)) by lia.
    rewrite Z.pow_add_r by lia. apply Z.mul_lt_mono_nonneg; lia. }
  assert (Q1 : Z.log2 m + Z.log2 d <= Z.log2 (m * d)).
  { apply Z.log2_le_pow2; [nia | exact P1]. }
  assert (Q2 : Z.log2 (m * d) < Z.log2 m + Z.log2 d + 2).
  { apply Z.log2_lt_pow2; [nia | exact P2]. }
  lia.
Qed.

(** A whole number of at most 53 bits is a double: rounding leaves it. *)
Lemma round53_pos_exact m d : 0 < m < 2 ^ 53 -> 0 < d ->
  (round53_pos (m * d) d == inject_Z m)%Q.
Proof.
  intros Hm Hd.
  assert (Hm0 : 0 < m) by lia.
  destruct (Z.log2_spec m Hm0) as [M1 M2].
  pose proof (Z.log2_nonneg m) as Lm.
  assert (L52 : Z.log2 m <= 52).
  { assert (Z.log2 m < 53) by (apply Z.log2_lt_pow2; lia). lia. }
  set (L := Z.log2 m) in *.
  set (c := 2 ^ (52 - L)).
  assert (Hc : 0 < c) by (apply Z.pow_pos_nonneg; lia).
  assert (Hc2 : 2 ^ L * c = 2 ^ 52).
  { unfold c. rewrite <- Z.pow_add_r by lia. f_equal. lia. }
  assert (Hlo : 2 ^ 52 <= m * c) by (rewrite <- Hc2; apply Z.mul_le_mono_nonneg_r; lia).
  assert (Hhi : m * c < 2 ^ 53).
  { replace (2 ^ 53) with (2 ^ Z.succ L * c).
    - apply Z.mul_lt_mono_pos_r; lia.
    - rewrite Z.pow_succ_r by lia. rewrite <- Z.mul_assoc, Hc2. reflexivity. }
  (* the value at the final exponent *)
  assert (Fin : forall e, e = L - 52 ->
            Qeq (let '(n1, d1) := scaled (m * d) d e in
             let q := n1 / d1 in
             let r := n1 mod d1 in
             let mant :=
               if 2 * r <? d1 then q
               else if d1 <? 2 * r then q + 1
               else if Z.even q then q else q + 1 in
             if 0 <=? e then inject_Z (mant * 2 ^ e) else mant # Z.to_pos (2 ^ (- e)))
            (inject_Z m)).
  { intros e ->. unfold scaled.
    destruct (0 <=? L - 52) eqn:E0.
    - apply Z.leb_le in E0. assert (EL : L = 52) by lia.
      replace (L - 52) with 0 by lia. change (2 ^ 0) with 1. rewrite !Z.mul_1_r.
      rewrite Z.div_mul by lia. rewrite Z.mod_mul by lia.
      replace (2 * 0 <? d) with true by (symmetry; apply Z.ltb_lt; lia).
      reflexivity.
    - apply Z.leb_gt in E0.
      replace (- (L - 52)) with (52 - L) by lia. fold c.
      replace (m * d * c) with (m * c * d) by ring.
      rewrite Z.div_mul by lia. rewrite Z.mod_mul by lia.
      replace (2 * 0 <? d) with true by (symmetry; apply Z.ltb_lt; lia).
      unfold Qeq. cbn [Qnum Qden inject_Z]. rewrite Z2Pos.id by exact Hc. ring. }
  unfold round53_pos.
  destruct (log2_quotient m d Hm0 Hd) as [Ea | Ea]; fold L in Ea.
  - replace (Z.log2 (m * d) - Z.log2 d - 52) with (L - 52) by lia.
    assert (Eq0 : (let '(n0, d0) := scaled (m * d) d (L - 52) in n0 / d0) = m * c).
    { unfold scaled. destruct (0 <=? L - 52) eqn:E0.
      - apply Z.leb_le in E0. assert (EL : L = 52) by lia.
        replace (L - 52) with 0 by lia. change (2 ^ 0) with 1. rewrite Z.mul_1_r.
        rewrite Z.div_mul by lia. unfold c. rewrite EL. change (2 ^ (52 - 52)) with 1. ring.
      - replace (- (L - 52)) with (52 - L) by lia. fold c.
        replace (m * d * c) with (m * c * d) by ring. apply Z.div_mul. lia. }
    destruct (scaled (m * d) d (L - 52)) as [n0 d0] eqn:Es.
    rewrite Eq0.
    replace (2 ^ 53 <=? m * c) with false by (symmetry; apply Z.leb_gt; lia).
    replace (m * c <? 2 ^ 52) with false by (symmetry; apply Z.ltb_ge; lia).
    apply Fin. reflexivity.
  - replace (Z.log2 (m * d) - Z.log2 d - 52) with (L - 51) by lia.
    assert (Eq0 : (let '(n0, d0) := scaled (m * d) d (L - 51) in n0 / d0) < 2 ^ 52).
    { unfold scaled. destruct (0 <=? L - 51) eqn:E0.
      - apply Z.leb_le in E0.
        assert (E1 : L - 51 = 0 \/ L - 51 = 1) by lia. destruct E1 as [E1 | E1]; rewrite E1.
        + change (2 ^ 0) with 1. rewrite Z.mul_1_r, Z.div_mul by lia.
          assert (EL : L = 51) by lia. rewrite EL in M2.
          change (2 ^ Z.succ 51) with (2 ^ 52) in M2. lia.
        + change (2 ^ 1) with 2. rewrite (Z.mul_comm m d).
          rewrite Z.div_mul_cancel_l by lia.
          apply Z.div_lt_upper_bound; lia.
      - apply Z.leb_gt in E0.
        replace (- (L - 51)) with (51 - L) by lia.
        replace (m * d * 2 ^ (51 - L)) with (m * 2 ^ (51 - L) * d) by ring.
        rewrite Z.div_mul by lia.
        assert (Hc' : c = 2 * 2 ^ (51 - L)).
        { unfold c. replace (52 - L) with (Z.succ (51 - L)) by lia.
          apply Z.pow_succ_r. lia. }
        nia. }
    destruct (scaled (m * d) d (L - 51)) as [n0 d0] eqn:Es.
    replace (2 ^ 53 <=? n0 / d0) with false by (symmetry; apply Z.leb_gt; lia).
    replace (n0 / d0 <? 2 ^ 52) with true by (symmetry; apply Z.ltb_lt; lia).
    apply Fin. lia.
Qed.

Lemma round53_exact_nonneg q m : 0 <= m < 2 ^ 53 -> (q == inject_Z m)%Q ->
  (round53 q == inject_Z m)%Q.
Proof.
  intros Hm E. unfold Qeq in E. cbn [Qnum Qden inject_Z] in E. rewrite Z.mul_1_r in E.
  unfold round53. rewrite E.
  destruct (Z.eq_dec m 0) as [-> | Hn]; [reflexivity |].
  assert (H0 : 0 < m * Z.pos (Qden q)) by nia.
  destruct (m * Z.pos (Qden q)) eqn:Ep; try lia.
  rewrite <- Ep. apply round53_pos_exact; lia.
Qed.


(** The same, with the two scalings folded into a pair of factors. *)
Lemma round53_pos_form n d : 0 < n -> 0 < d ->
  exists K1 K2 q mant,
    0 < K1 /\ 0 < K2 /\ (K1 = 1 \/ (K2 = 1 /\ 2 <= K1)) /\
    q * (d * K1) <= n * K2 < (q + 1) * (d * K1) /\
    2 ^ 52 <= q < 2 ^ 53 /\
    (mant = q \/ mant = q + 1) /\
    2 * Z.abs (mant * (d * K1) - n * K2) <= d * K1 /\
    Qnum (round53_pos n d) * K2 = mant * K1 * Z.pos (Qden (round53_pos n d)).
Proof.
  intros Hn Hd.
  destruct (round53_pos_spec n d Hn Hd) as [e [q [mant S]]].
  unfold scaled in S. destruct (0 <=? e) eqn:E.
  - apply Z.leb_le in E. destruct S as [S0 [S1 [S2 [S3 [S4 S5]]]]].
    assert (HK : 0 < 2 ^ e) by (apply Z.pow_pos_nonneg; lia).
    exists (2 ^ e), 1, q, mant. rewrite S5. cbn [Qnum Qden inject_Z].
    rewrite !Z.mul_1_r.
    split; [exact HK |]. split; [lia |]. split.
    { destruct (Z.eq_dec e 0) as [-> | Ne]; [left; reflexivity | right].
      split; [reflexivity |]. replace e with (Z.succ (e - 1)) by lia.
      rewrite Z.pow_succ_r by lia.
      assert (0 < 2 ^ (e - 1)) by (apply Z.pow_pos_nonneg; lia). lia. }
    repeat split; try tauto; try lia.
  - apply Z.leb_gt in E. destruct S as [S0 [S1 [S2 [S3 [S4 S5]]]]].
    assert (HK : 0 < 2 ^ (- e)) by (apply Z.pow_pos_nonneg; lia).
    exists 1, (2 ^ (- e)), q, mant. rewrite S5. cbn [Qnum Qden].
    rewrite Z2Pos.id by exact HK. rewrite !Z.mul_1_r.
    split; [lia |]. split; [exact HK |]. split; [left; reflexivity |].
    repeat split; try tauto; try lia.
Qed.

(** Rounding does not cross a whole number that a double holds. *)
Lemma round53_pos_le n d m : 0 < n -> 0 < d -> 0 <= m < 2 ^ 53 -> n <= m * d ->
  (round53_pos n d <= inject_Z m)%Q.
Proof.
  intros Hn Hd Hm Hle.
  destruct (round53_pos_form n d Hn Hd)
    as [K1 [K2 [q [mant [P1 [P2 [PK [[B1 B2] [Hq [Hmant [Herr Hval]]]]]]]]]]].
  unfold Qle. cbn [Qnum Qden inject_Z]. rewrite Z.mul_1_r.
  set (R := Qnum (round53_pos n d)) in *.
  set (D := Z.pos (Qden (round53_pos n d))) in *.
  assert (HD : 0 < D) by (unfold D; lia).
  set (P := 2 ^ 52) in *. change (2 ^ 53) with (2 * P) in *.
  assert (HP : 0 < P) by (unfold P; lia).
  assert (A1 : q * K1 <= m * K2).
  { apply (Z.mul_le_mono_pos_r _ _ d Hd). nia. }
  assert (EK : K1 = 1).
  { destruct PK as [-> | [-> HK]]; [reflexivity | exfalso; nia]. }
  subst K1. rewrite !Z.mul_1_r in *.
  assert (A2 : mant <= m * K2).
  { destruct (Z.eq_dec q (m * K2)) as [Eq | Nq].
    - assert (n * K2 = q * d) by nia.
      destruct Hmant as [-> | ->]; [lia |].
      exfalso. replace ((q + 1) * d - n * K2) with d in Herr by lia. lia.
    - destruct Hmant as [-> | ->]; lia. }
  apply (Z.mul_le_mono_pos_r _ _ K2 P2). rewrite Hval. nia.
Qed.

Lemma round53_pos_ge n d m : 0 < n -> 0 < d -> m <= 2 ^ 53 -> m * d <= n ->
  (inject_Z m <= round53_pos n d)%Q.
Proof.
  intros Hn Hd Hm Hle.
  destruct (round53_pos_form n d Hn Hd)
    as [K1 [K2 [q [mant [P1 [P2 [PK [[B1 B2] [Hq [Hmant [Herr Hval]]]]]]]]]]].
  unfold Qle. cbn [Qnum Qden inject_Z]. rewrite Z.mul_1_r.
  set (R := Qnum (round53_pos n d)) in *.
  set (D := Z.pos (Qden (round53_pos n d))) in *.
  assert (HD : 0 < D) by (unfold D; lia).
  set (P := 2 ^ 52) in *. change (2 ^ 53) with (2 * P) in *.
  assert (HP : 0 < P) by (unfold P; lia).
  assert (A1 : m * K2 <= q * K1).
  { destruct PK as [-> | [-> HK]].
    - rewrite Z.mul_1_r in *.
      assert (m * K2 < q + 1); [| lia].
      apply (Z.mul_lt_mono_pos_r d); [exact Hd | nia].
    - nia. }
  assert (A2 : q <= mant) by (destruct Hmant as [-> | ->]; lia).
  apply (Z.mul_le_mono_pos_r _ _ K2 P2).
  rewrite Hval.
  assert (q * K1 * D <= mant * K1 * D) by nia.
  nia.
Qed.

(** Rounding moves a value by at most one part in 2^53. *)
Lemma round53_pos_err n d : 0 < n -> 0 < d ->
  Z.abs (Qnum (round53_pos n d) * d - n * Z.pos (Qden (round53_pos n d))) * 2 ^ 53
  <= n * Z.pos (Qden (round53_pos n d)).
Proof.
  intros Hn Hd.
  destruct (round53_pos_form n d Hn Hd)
    as [K1 [K2 [q [mant [P1 [P2 [PK [[B1 B2] [Hq [Hmant [Herr Hval]]]]]]]]]]].
  set (R := Qnum (round53_pos n d)) in *.
  set (D := Z.pos (Qden (round53_pos n d))) in *.
  assert (HD : 0 < D) by (unfold D; lia).
  set (P := 2 ^ 52) in *. change (2 ^ 53) with (2 * P) in *.
  assert (HP : 0 < P) by (unfold P; lia).
  apply (Z.mul_le_mono_pos_r _ _ K2 P2).
  assert (E1 : Z.abs (R * d - n * D) * K2 = Z.abs (mant * (d * K1) - n * K2) * D).
  { replace (Z.abs (R * d - n * D) * K2) with (Z.abs ((R * d - n * D) * K2))
      by (rewrite Z.abs_mul, (Z.abs_eq K2) by lia; reflexivity).
    replace (Z.abs (mant * (d * K1) - n * K2) * D)
      with (Z.abs ((mant * (d * K1) - n * K2) * D))
      by (rewrite Z.abs_mul, (Z.abs_eq D) by lia; reflexivity).
    f_equal. replace ((R * d - n * D) * K2) with (R * K2 * d - n * D * K2) by ring.
    rewrite Hval. ring. }
  replace (Z.abs (R * d - n * D) * (2 * P) * K2)
    with (Z.abs (R * d - n * D) * K2 * (2 * P)) by ring.
  rewrite E1.
  set (X := Z.abs (mant * (d * K1) - n * K2)) in *.
  assert (0 <= X) by apply Z.abs_nonneg.
  assert (P * (d * K1) <= n * K2) by nia.
  nia.
Qed.

Lemma round53_nonneg q : (0 <= q)%Q -> (0 <= round53 q)%Q.
Proof.
  intros H. unfold round53. destruct q as [n d]. cbn [Qnum Qden].
  unfold Qle in H. cbn [Qnum Qden] in H.
  destruct n as [| p | p]; [apply Qle_refl | | lia].
  apply (round53_pos_ge (Z.pos p) (Z.pos d) 0); lia.
Qed.

Lemma round53_le_nonneg q m : 0 <= m < 2 ^ 53 -> (q <= inject_Z m)%Q ->
  (round53 q <= inject_Z m)%Q.
Proof.
  intros Hm H. unfold round53. destruct q as [n d]. cbn [Qnum Qden].
  unfold Qle in H. cbn [Qnum Qden inject_Z] in H.
  destruct n as [| p | p].
  - unfold Qle. cbn. lia.
  - apply round53_pos_le; lia.
  - apply Qle_trans with 0%Q; [| unfold Qle; cbn; lia].
    apply Qopp_le_compat with (p := 0%Q).
    apply (round53_pos_ge (- Z.neg p) (Z.pos d) 0); lia.
Qed.

Lemma round53_ge_nonneg q m : 0 <= m <= 2 ^ 53 -> (inject_Z m <= q)%Q ->
  (inject_Z m <= round53 q)%Q.
Proof.
  intros Hm H. unfold round53. destruct q as [n d]. cbn [Qnum Qden].
  unfold Qle in H. cbn [Qnum Qden inject_Z] in H.
  destruct n as [| p | p].
  - unfold Qle. cbn. lia.
  - apply round53_pos_ge; lia.
  - lia.
Qed.

(** Rounding commutes with the change of sign. *)
Lemma round53_opp q : round53 (- q) = (- round53 q)%Q.
Proof.
  destruct q as [[| p | p] d]; unfold round53; cbn [Qnum Qden Qopp Z.opp].
  - reflexivity.
  - reflexivity.
  - destruct (round53_pos (Z.pos p) (Z.pos d)) as [a b].
    unfold Qopp. cbn [Qnum Qden]. rewrite Z.opp_involutive. reflexivity.
Qed.

Lemma round53_exact q m : - 2 ^ 53 < m < 2 ^ 53 -> (q == inject_Z m)%Q ->
  (round53 q == inject_Z m)%Q.
Proof.
  intros Hm E. destruct (Z_le_gt_dec 0 m) as [H0 | H0].
  - apply round53_exact_nonneg; [lia | exact E].
  - assert (E' : (round53 (- q) == inject_Z (- m))%Q).
    { apply round53_exact_nonneg; [lia |]. rewrite E, inject_Z_opp. reflexivity. }
    rewrite round53_opp, inject_Z_opp in E'.
    apply Qopp_comp in E'. rewrite !Qopp_involutive in E'. exact E'.
Qed.

Lemma round53_le q m : - 2 ^ 53 <= m < 2 ^ 53 -> (q <= inject_Z m)%Q ->
  (round53 q <= inject_Z m)%Q.
Proof.
  intros Hm H. destruct (Z_le_gt_dec 0 m) as [H0 | H0].
  - apply round53_le_nonneg; [lia | exact H].
  - assert (H' : (inject_Z (- m) <= round53 (- q))%Q).
    { apply round53_ge_nonneg; [lia |]. rewrite inject_Z_opp.
      apply Qopp_le_compat. exact H. }
    rewrite round53_opp, inject_Z_opp in H'.
    apply Qopp_le_compat in H'. rewrite !Qopp_involutive in H'. exact H'.
Qed.

Lemma round53_ge q m : - 2 ^ 53 < m <= 2 ^ 53 -> (inject_Z m <= q)%Q ->
  (inject_Z m <= round53 q)%Q.
Proof.
  intros Hm H. destruct (Z_le_gt_dec 0 m) as [H0 | H0].
  - apply round53_ge_nonneg; [lia | exact H].
  - assert (H' : (round53 (- q) <= inject_Z (- m))%Q).
    { apply round53_le_nonneg; [lia |]. rewrite inject_Z_opp.
      apply Qopp_le_compat. exact H. }
    rewrite round53_opp, inject_Z_opp in H'.
    apply Qopp_le_compat in H'. rewrite !Qopp_involutive in H'. exact H'.
Qed.

Lemma round53_err q : (0 <= q)%Q ->
  (q * (1 - (1 # 9007199254740992)) <= round53 q
   /\ round53 q <= q * (1 + (1 # 9007199254740992)))%Q.
Proof.
  intros H. unfold round53. destruct q as [n d]. cbn [Qnum Qden].
  unfold Qle in H. cbn [Qnum Qden] in H.
  destruct n as [| p | p]; [split; unfold Qle; cbn; lia | | lia].
  pose proof (round53_pos_err (Z.pos p) (Z.pos d) ltac:(lia) ltac:(lia)) as E.
  destruct (round53_pos (Z.pos p) (Z.pos d)) as [R D]. cbn [Qnum Qden] in E.
  change (2 ^ 53) with 9007199254740992 in E.
  unfold Qle, Qmult, Qminus, Qplus, Qopp. cbn [Qnum Qden].
  rewrite !Pos2Z.inj_mul. cbn [Z.opp].
  set (N := Z.pos p) in *. set (Dd := Z.pos d) in *. set (DD := Z.pos D) in *.
  assert (0 < N) by (unfold N; lia). assert (0 < Dd) by (unfold Dd; lia).
  assert (0 < DD) by (unfold DD; lia).
  split; lia.
Qed.

(** The double of a whole number. *)
Lemma double_of_Z_exact n : 0 <= n < 2 ^ 53 -> double_of_Z n = n.
Proof.
  intros H. unfold double_of_Z.
  rewrite (round53_exact (inject_Z n) n ltac:(lia) (Qeq_refl _)). apply Qfloor_Z.
Qed.

Lemma double_of_Z_ge n m : 0 <= m <= 2 ^ 53 -> m <= n -> m <= double_of_Z n.
Proof.
  intros Hm H. unfold double_of_Z.
  rewrite <- (Qfloor_Z m) at 1. apply Qfloor_resp_le.
  apply round53_ge; [lia |]. rewrite <- Zle_Qle. exact H.
Qed.

Lemma double_of_Z_nonneg n : 0 <= n -> 0 <= double_of_Z n.
Proof. intros H. apply double_of_Z_ge; lia. Qed.

(** A double below 2^53 is the number it was read from. *)
Lemma double_of_Z_small n : 0 <= n -> double_of_Z n < 2 ^ 53 -> double_of_Z n = n.
Proof.
  intros H0 H. apply double_of_Z_exact. split; [exact H0 |].
  destruct (Z_lt_le_dec n (2 ^ 53)) as [| C]; [assumption | exfalso].
  pose proof (double_of_Z_ge n (2 ^ 53) ltac:(lia) C). lia.
Qed.

(** A number of 54 bits and a quotient, as a double holds them. *)
Example double_of_Z_rounds : double_of_Z 9007199254740993 = 9007199254740992.
Proof. vm_compute. reflexivity. Qed.

Example round53_quotient : round53 (31 # 60) = 4653719614949513 # 9007199254740992.
Proof. vm_compute. reflexivity. Qed.

End DoubleFacts.
Export DoubleFacts.

(** ** Characters and strings *)

Module JsStringFacts.

Lemma in_all_ascii c : In c all_ascii.
Proof.
  unfold all_ascii. rewrite <- (ascii_nat_embedding c).
  apply in_map, in_seq. pose proof (nat_ascii_bounded c). lia.
Qed.

(** A check on the 256 code units settles a statement about all of them. *)
Lemma ascii_forallb (f : ascii -> bool) :
  forallb f all_ascii = true -> forall c, f c = true.
Proof.
  intros H c. rewrite forallb_forall in H. apply H, in_all_ascii.
Qed.

Lemma class_sub_spec p q c : class_sub p q = true -> p c = true -> q c = true.
Proof.
  intros H Hp. pose proof (ascii_forallb _ H c) as Hc. cbv beta in Hc.
  rewrite Hp in Hc. exact Hc.
Qed.

Lemma digit_cases c : is_digit c = true -> In c all_digits.
Proof.
  intros Hd.
  assert (H : forallb (fun c => implb (is_digit c) (existsb (Ascii.eqb c) all_digits))
                all_ascii = true) by (vm_compute; reflexivity).
  pose proof (ascii_forallb _ H c) as Hc. cbv beta in Hc. rewrite Hd in Hc.
  cbn [implb] in Hc. apply existsb_exists in Hc. destruct Hc as [x [Hin He]].
  apply Ascii.eqb_eq in He. subst. exact Hin.
Qed.

(** To know something of every digit, check the ten of them. *)
Lemma digits_forallb (f : ascii -> bool) :
  forallb f all_digits = true -> forall c, is_digit c = true -> f c = true.
Proof.
  intros H c Hd. rewrite forallb_forall in H. apply H, digit_cases, Hd.
Qed.

End JsStringFacts.
Export JsStringFacts.

(** ** The matcher *)

Module RegexFacts.

Local Open Scope nat_scope.

Lemma orelse_none_r {A} (a : option A) : orelse a None = a.
Proof. destruct a; reflexivity. Qed.

Lemma orelse_some {A} (a b : option A) x :
  orelse a b = Some x -> a = Some x \/ (a = None /\ b = Some x).
Proof. destruct a; simpl; intros H; [left | right]; auto. Qed.

Lemma star_loop_ext g (body : matcher) :
  (forall k1 k2 s, (forall s', k1 s' = k2 s') -> body k1 s = body k2 s) ->
  forall fuel k1 k2 s, (forall s', k1 s' = k2 s') ->
  star_loop g body fuel k1 s = star_loop g body fuel k2 s.
Proof.
  intros Hb fuel. induction fuel as [| f IH]; intros k1 k2 s Hk; simpl.
  - apply Hk.
  - rewrite (Hk s).
    rewrite (Hb _ (fun s' => if progressed s s' then star_loop g body f k2 s' else None)).
    + reflexivity.
    + intros s'. destruct (progressed s s'); [apply IH, Hk | reflexivity].
Qed.

(** The matcher only looks at what its continuation returns. *)
Lemma m_ext r : forall k1 k2 s,
  (forall s', k1 s' = k2 s') -> m r k1 s = m r k2 s.
Proof.
  induction r; intros k1 k2 s Hk; simpl.
  - apply Hk.
  - destruct (rest s); [reflexivity |]. destruct (p a); [apply Hk | reflexivity].
  - apply IHr1. intros s'. apply IHr2, Hk.
  - rewrite (IHr1 k1 k2 s Hk), (IHr2 k1 k2 s Hk). reflexivity.
  - apply star_loop_ext; assumption.
  - rewrite (Hk s).
    rewrite (IHr _ (fun s' => if progressed s s' then k2 s' else None)).
    + reflexivity.
    + intros s'. destruct (progressed s s'); [apply Hk | reflexivity].
  - apply IHr. intros s'. apply Hk.
  - rewrite (Hk s). reflexivity.
  - rewrite (Hk s). reflexivity.
  - rewrite (Hk s). reflexivity.
Qed.

(** Soundness: a result of the matcher comes from a declarative match
    followed by a success of the continuation. *)
Lemma m_sound r : forall k s x,
  m r k s = Some x -> exists s', reach r s s' /\ k s' = Some x.
Proof.
  induction r; intros k s x H; simpl in H.
  - exists s. split; [constructor | exact H].
  - destruct (rest s) as [| c w] eqn:E; [discriminate |].
    destruct (p c) eqn:Ep; [| discriminate].
    eexists. split; [eapply R_chr; eassumption | exact H].
  - apply IHr1 in H. destruct H as [s1 [H1 H]].
    apply IHr2 in H. destruct H as [s2 [H2 H]].
    exists s2. split; [econstructor; eassumption | exact H].
  - apply orelse_some in H. destruct H as [H | [_ H]].
    + apply IHr1 in H. destruct H as [s1 [H1 H]].
      exists s1. split; [apply R_alt_l, H1 | exact H].
    + apply IHr2 in H. destruct H as [s1 [H1 H]].
      exists s1. split; [apply R_alt_r, H1 | exact H].
  - remember (length (rest s)) as fuel eqn:Ef. clear Ef. revert s x H.
    induction fuel as [| f IHf]; intros s x H; simpl in H.
    + exists s. split; [constructor | exact H].
    + assert (Hagain : forall y,
        m r (fun s' => if progressed s s'
                       then star_loop greedy (m r) f k s' else None) s = Some y ->
        exists s', reach (Star greedy r) s s' /\ k s' = Some y).
      { intros y Hy. apply IHr in Hy. destruct Hy as [s1 [H1 Hy]].
        destruct (progressed s s1) eqn:Ep; [| discriminate].
        apply IHf in Hy. destruct Hy as [s2 [H2 Hy]].
        exists s2. split; [eapply R_star_step; eassumption | exact Hy]. }
      destruct greedy; apply orelse_some in H; destruct H as [H | [_ H]];
        try (apply Hagain, H);
        (exists s; split; [constructor | exact H]).
  - apply orelse_some in H. destruct H as [H | [_ H]].
    + apply IHr in H. destruct H as [s1 [H1 H]].
      destruct (progressed s s1) eqn:Ep; [| discriminate].
      exists s1. split; [apply R_opt_take; assumption | exact H].
    + exists s. split; [constructor | exact H].
  - apply IHr in H. destruct H as [s1 [H1 H]].
    eexists. split; [apply R_group, H1 | exact H].
  - destruct (xorb (word_before s) (word_after s)) eqn:E; [| discriminate].
    exists s. split; [constructor; exact E | exact H].
  - destruct (prev s) eqn:E; [discriminate |].
    exists s. split; [constructor; exact E | exact H].
  - destruct (rest s) eqn:E; [| discriminate].
    exists s. split; [constructor; exact E | exact H].
Qed.

(** A continuation that always fails makes the matcher fail. *)
Lemma m_fail r k s : (forall s', k s' = None) -> m r k s = None.
Proof.
  intros Hk. destruct (m r k s) as [x |] eqn:E; [| reflexivity].
  apply m_sound in E. destruct E as [s' [_ E]]. rewrite Hk in E. discriminate.
Qed.

(** Fuel beyond the length of the input changes nothing. *)
Lemma star_loop_fuel g r k : forall fuel s,
  length (rest s) <= fuel ->
  star_loop g (m r) fuel k s = star_loop g (m r) (length (rest s)) k s.
Proof.
  induction fuel as [fuel IH] using lt_wf_ind. intros s Hle.
  destruct fuel as [| f].
  - replace (length (rest s)) with 0 by lia. reflexivity.
  - destruct (length (rest s)) as [| n] eqn:El.
    + simpl.
      rewrite (m_fail r); [destruct g; simpl; [reflexivity | apply orelse_none_r] |].
      intros s'. unfold progressed. rewrite El. reflexivity.
    + simpl.
      rewrite (m_ext r _ (fun s' => if progressed s s'
                                    then star_loop g (m r) n k s' else None));
        [reflexivity |].
      intros s'. unfold progressed. rewrite El.
      destruct (length (rest s') <? S n) eqn:Elt; [| reflexivity].
      apply Nat.ltb_lt in Elt.
      rewrite (IH f) by lia. rewrite (IH n) by lia. reflexivity.
Qed.

(** The equation of the repetition: one more iteration that consumes
    input, or stop; a greedy star tries the iteration first. *)
Lemma star_unfold g r k s :
  m (Star g r) k s =
  let again := m r (fun s' => if progressed s s' then m (Star g r) k s' else None) s in
  if g then orelse again (k s) else orelse (k s) again.
Proof.
  cbn [m]. destruct (length (rest s)) as [| n] eqn:El.
  - cbn [star_loop]. rewrite (m_fail r).
    + destruct g; simpl; [reflexivity | symmetry; apply orelse_none_r].
    + intros s'. unfold progressed. rewrite El. reflexivity.
  - cbn [star_loop].
    rewrite (m_ext r _ (fun s' => if progressed s s'
                                  then star_loop g (m r) (length (rest s')) k s'
                                  else None));
      [reflexivity |].
    intros s'. unfold progressed. rewrite El.
    destruct (length (rest s') <? S n) eqn:Elt; [| reflexivity].
    apply Nat.ltb_lt in Elt. apply star_loop_fuel. lia.
Qed.

(** Completeness: where a declarative match exists and the continuation
    accepts its end, the matcher finds some result. *)
Lemma m_complete r s s' :
  reach r s s' -> forall k, k s' <> None -> m r k s <> None.
Proof.
  induction 1; intros k Hk.
  - exact Hk.
  - simpl. rewrite H, H0. exact Hk.
  - simpl. apply IHreach1. apply IHreach2. exact Hk.
  - simpl. specialize (IHreach k Hk). destruct (m r1 k s); [discriminate | contradiction].
  - simpl. destruct (m r1 k s); [discriminate |]. simpl. apply IHreach, Hk.
  - rewrite star_unfold. cbv zeta.
    destruct g; destruct (k s); simpl; try discriminate; try contradiction.
    destruct (m r _ s); discriminate || contradiction.
  - rewrite star_unfold. cbv zeta.
    assert (Ha : m r (fun s' => if progressed s s' then m (Star g r) k s' else None) s
                 <> None).
    { apply IHreach1. rewrite H0. apply IHreach2, Hk. }
    destruct g; destruct (m r _ s); try contradiction; simpl.
    + discriminate.
    + destruct (k s); discriminate.
  - simpl. destruct (m r _ s); [discriminate |]. simpl. exact Hk.
  - simpl.
    assert (Ha : m r (fun s' => if progressed s s' then k s' else None) s <> None).
    { apply IHreach. rewrite H0. exact Hk. }
    destruct (m r _ s); [discriminate | contradiction].
  - simpl. apply IHreach. exact Hk.
  - simpl. rewrite H. exact Hk.
  - simpl. rewrite H. exact Hk.
  - simpl. rewrite H. exact Hk.
Qed.

(** *** What a match consumes *)

Lemma consumed_app s s' w : rest s = w ++ rest s' -> consumed s s' = w.
Proof.
  intros H. unfold consumed. rewrite H, length_app.
  replace (length w + length (rest s') - length (rest s')) with (length w) by lia.
  rewrite firstn_app, Nat.sub_diag, firstn_all. simpl. apply app_nil_r.
Qed.

Lemma reach_consumes q r s s' :
  reach r s s' ->
  exists w, rest s = w ++ rest s' /\
            (must_have q r = true -> Exists (fun c => q c = true) w).
Proof.
  induction 1; simpl.
  - exists []. split; [reflexivity | discriminate].
  - exists [c]. split; [exact H |].
    intros Hs. constructor. eapply class_sub_spec; eassumption.
  - destruct IHreach1 as [w1 [E1 M1]], IHreach2 as [w2 [E2 M2]].
    exists (w1 ++ w2). split; [rewrite E1, E2; apply app_assoc |].
    intros Hm. apply Exists_app. apply orb_true_iff in Hm. tauto.
  - destruct IHreach as [w [E M]]. exists w. split; [exact E |].
    intros Hm. apply andb_true_iff in Hm. tauto.
  - destruct IHreach as [w [E M]]. exists w. split; [exact E |].
    intros Hm. apply andb_true_iff in Hm. tauto.
  - exists []. split; [reflexivity | discriminate].
  - destruct IHreach1 as [w1 [E1 _]], IHreach2 as [w2 [E2 _]].
    exists (w1 ++ w2). split; [rewrite E1, E2; apply app_assoc | discriminate].
  - exists []. split; [reflexivity | discriminate].
  - destruct IHreach as [w [E _]]. exists w. split; [exact E | discriminate].
  - destruct IHreach as [w [E M]]. exists w. split; [exact E | exact M].
  - exists []. split; [reflexivity | discriminate].
  - exists []. split; [reflexivity | discriminate].
  - exists []. split; [reflexivity | discriminate].
Qed.

(** *** Search *)

Lemma last_or_cons p c w : last_or p (c :: w) = last_or (Some c) w.
Proof.
  unfold last_or. simpl. destruct (rev w) as [| x l]; reflexivity.
Qed.

Lemma last_or_app p w1 w2 : last_or p (w1 ++ w2) = last_or (last_or p w1) w2.
Proof.
  revert p. induction w1 as [| c w1 IH]; intros p; [reflexivity |].
  simpl. rewrite !last_or_cons. apply IH.
Qed.

Lemma match_at_sound r p t x :
  match_at r p t = Some x ->
  exists s', reach r (MState p t []) s' /\
             x = RMatch (consumed (MState p t []) s') (caps s').
Proof.
  unfold match_at. destruct (m r Some (MState p t [])) as [s1 |] eqn:E; [| discriminate].
  intros H. injection H as <-. apply m_sound in E. destruct E as [s' [Hr E]].
  injection E as ->. exists s1. split; [exact Hr | reflexivity].
Qed.

Lemma search_sound r : forall t p x,
  search r p t = Some x ->
  exists pre suf s', t = pre ++ suf /\
    reach r (MState (last_or p pre) suf []) s' /\
    x = RMatch (consumed (MState (last_or p pre) suf []) s') (caps s').
Proof.
  induction t as [| c t IH]; intros p x H; simpl in H.
  - destruct (match_at r p []) eqn:E; [| discriminate]. injection H as ->.
    apply match_at_sound in E. destruct E as [s' [Hr Hx]].
    exists [], [], s'. auto.
  - destruct (match_at r p (c :: t)) eqn:E.
    + injection H as ->. apply match_at_sound in E. destruct E as [s' [Hr Hx]].
      exists [], (c :: t), s'. auto.
    + apply IH in H. destruct H as [pre [suf [s' [Et [Hr Hx]]]]].
      exists (c :: pre), suf, s'. rewrite last_or_cons. subst t. auto.
Qed.

Lemma search_complete r : forall pre suf p s',
  reach r (MState (last_or p pre) suf []) s' ->
  search r p (pre ++ suf) <> None.
Proof.
  induction pre as [| c pre IH]; intros suf p s' Hr.
  - simpl. assert (Hm : match_at r p suf <> None).
    { unfold match_at. pose proof (m_complete _ _ _ Hr Some) as Hc.
      change (last_or p []) with p in Hc.
      destruct (m r Some (MState p suf [])); [discriminate |].
      exfalso. apply Hc; [discriminate | reflexivity]. }
    destruct suf; simpl; destruct (match_at r p _); try discriminate; contradiction.
  - simpl. destruct (match_at r p (c :: pre ++ suf)); [discriminate |].
    rewrite last_or_cons in Hr. eapply IH, Hr.
Qed.

(** A pattern that needs a code unit of class [q] finds nothing in a text
    that has none. *)
Lemma search_needs q r : must_have q r = true ->
  forall t p, Forall (fun c => q c = false) t -> search r p t = None.
Proof.
  intros Hm t p Ht. destruct (search r p t) as [x |] eqn:E; [| reflexivity].
  apply search_sound in E. destruct E as [pre [suf [s' [Et [Hr _]]]]].
  destruct (reach_consumes q _ _ _ Hr) as [w [Ew Hw]]. simpl in Ew.
  specialize (Hw Hm). apply Exists_exists in Hw. destruct Hw as [c [Hin Hq]].
  rewrite Forall_forall in Ht. rewrite (Ht c) in Hq; [discriminate |].
  subst t. rewrite Ew. apply in_or_app. right. apply in_or_app. left. exact Hin.
Qed.

(** The start index skips a stretch of the text where no match begins. *)
Lemma search_skip r tl : forall xs p,
  (forall pre x suf, xs = pre ++ x :: suf ->
     match_at r (last_or p pre) (x :: suf ++ tl) = None) ->
  search r p (xs ++ tl) = search r (last_or p xs) tl.
Proof.
  induction xs as [| x xs IH]; intros p H; [reflexivity |].
  pose proof (H [] x xs eq_refl) as H0. change (last_or p []) with p in H0.
  cbn [search app]. rewrite H0. rewrite last_or_cons. apply IH.
  intros pre y suf E. rewrite <- (last_or_cons p). apply H. rewrite E. reflexivity.
Qed.

(** *** Lookahead of one code unit *)

Lemma lookahead_spec c r :
  (nocons c r = true ->
   forall k s w, rest s = c :: w ->
   (forall s', rest s' = rest s -> k s' = None) -> m r k s = None) /\
  (blocked c r = true ->
   forall k s w, rest s = c :: w -> m r k s = None).
Proof.
  induction r; simpl; split; try discriminate.
  - intros _ k s w _ Hk. apply Hk. reflexivity.
  - intros Hn k s w Hs _. rewrite Hs. destruct (p c); [discriminate | reflexivity].
  - intros Hn k s w Hs. rewrite Hs. destruct (p c); [discriminate | reflexivity].
  - destruct IHr1 as [N1 B1], IHr2 as [N2 B2]. intros Hn k s w Hs Hk.
    apply orb_true_iff in Hn. destruct Hn as [H1 | H12].
    + eapply B1; eassumption.
    + apply andb_true_iff in H12. destruct H12 as [H1 H2].
      eapply N1; [exact H1 | exact Hs |]. intros s' Es.
      eapply N2; [exact H2 | rewrite Es; exact Hs |].
      intros s'' Es'. apply Hk. congruence.
  - destruct IHr1 as [N1 B1], IHr2 as [N2 B2]. intros Hb k s w Hs.
    apply orb_true_iff in Hb. destruct Hb as [H1 | H12].
    + eapply B1; eassumption.
    + apply andb_true_iff in H12. destruct H12 as [H1 H2].
      eapply N1; [exact H1 | exact Hs |].
      intros s' Es. eapply B2; [exact H2 | rewrite Es; exact Hs].
  - destruct IHr1 as [N1 _], IHr2 as [N2 _]. intros Hn k s w Hs Hk.
    apply andb_true_iff in Hn. destruct Hn as [H1 H2].
    rewrite (N1 H1 k s w Hs Hk), (N2 H2 k s w Hs Hk). reflexivity.
  - destruct IHr1 as [_ B1], IHr2 as [_ B2]. intros Hb k s w Hs.
    apply andb_true_iff in Hb. destruct Hb as [H1 H2].
    rewrite (B1 H1 k s w Hs), (B2 H2 k s w Hs). reflexivity.
  - destruct IHr as [N _]. intros Hn k s w Hs Hk.
    change (m (Star greedy r) k s = None). rewrite star_unfold. cbv zeta.
    rewrite (N Hn _ s w Hs).
    + rewrite (Hk s eq_refl). destruct greedy; reflexivity.
    + intros s' Es. unfold progressed. rewrite Es, Nat.ltb_irrefl. reflexivity.
  - destruct IHr as [N _]. intros Hn k s w Hs Hk. rewrite (N Hn _ s w Hs).
    + simpl. apply Hk. reflexivity.
    + intros s' Es. unfold progressed. rewrite Es, Nat.ltb_irrefl. reflexivity.
  - destruct IHr as [N _]. intros Hn k s w Hs Hk.
    eapply N; [exact Hn | exact Hs |]. intros s' Es. apply Hk. exact Es.
  - destruct IHr as [_ B]. intros Hb k s w Hs. eapply B; eassumption.
  - intros _ k s w _ Hk. rewrite (Hk s eq_refl). destruct (xorb _ _); reflexivity.
  - intros _ k s w _ Hk. rewrite (Hk s eq_refl). destruct (prev s); reflexivity.
  - intros _ k s w Hs _. rewrite Hs. reflexivity.
Qed.

Lemma blocked_spec c r : blocked c r = true ->
  forall k s w, rest s = c :: w -> m r k s = None.
Proof. apply lookahead_spec. Qed.

Lemma blocked_fails_on p r k :
  (forall c, p c = true -> blocked c r = true) -> fails_on p (m r k).
Proof.
  intros H s c w Hs Hp. eapply blocked_spec; [apply H, Hp | exact Hs].
Qed.

Lemma blocked_digits r k :
  forallb (fun c => blocked c r) all_digits = true -> fails_on is_digit (m r k).
Proof.
  intros H. apply blocked_fails_on. apply digits_forallb. exact H.
Qed.

Lemma blocked_class p r k :
  forallb (fun c => implb (p c) (blocked c r)) all_ascii = true ->
  fails_on p (m r k).
Proof.
  intros H. apply blocked_fails_on. intros c Hp.
  pose proof (ascii_forallb _ H c) as Hc. cbv beta in Hc.
  rewrite Hp in Hc. exact Hc.
Qed.

(** *** Runs of one class *)

Lemma m_chr_nil p k s : rest s = [] -> m (Chr p) k s = None.
Proof. intros H. simpl. rewrite H. reflexivity. Qed.

Lemma m_chr_cons p k s c w : rest s = c :: w ->
  m (Chr p) k s = if p c then k (MState (Some c) w (caps s)) else None.
Proof. intros H. simpl. rewrite H. reflexivity. Qed.

Lemma after_nil s : after s [] (rest s) = s.
Proof. destruct s. reflexivity. Qed.

Lemma after_cons s c w tl :
  after (MState (Some c) (w ++ tl) (caps s)) w tl = after s (c :: w) tl.
Proof. unfold after. simpl prev. simpl caps. rewrite last_or_cons. reflexivity. Qed.

(** A greedy star over a class reads the whole run when what follows the
    star cannot start inside the run. *)
Lemma star_run p k : fails_on p k ->
  forall xs tl s, all_true p xs ->
  match tl with c :: _ => p c = false | [] => True end ->
  rest s = xs ++ tl ->
  m (Star true (Chr p)) k s = k (after s xs tl).
Proof.
  intros Hk. induction xs as [| x xs IH]; intros tl s Hxs Htl Hs.
  - simpl in Hs. assert (Ea : after s [] tl = s) by (rewrite <- Hs; apply after_nil).
    rewrite Ea, star_unfold. cbv zeta.
    destruct tl as [| c tl].
    + rewrite (m_chr_nil _ _ _ Hs). reflexivity.
    + rewrite (m_chr_cons _ _ _ _ _ Hs), Htl. reflexivity.
  - simpl in Hs. inversion Hxs as [| ? ? Hx Hxs']; subst.
    rewrite star_unfold. cbv zeta.
    rewrite (m_chr_cons _ _ _ _ _ Hs), Hx. unfold progressed. cbn [rest]. rewrite Hs.
    replace (length (xs ++ tl) <? length (x :: xs ++ tl)) with true
      by (symmetry; apply Nat.ltb_lt; simpl; lia).
    rewrite (IH tl (MState (Some x) (xs ++ tl) (caps s)) Hxs' Htl eq_refl).
    rewrite after_cons.
    rewrite (Hk s x (xs ++ tl) Hs Hx). apply orelse_none_r.
Qed.

Lemma plus_run p k : fails_on p k ->
  forall x xs tl s, all_true p (x :: xs) ->
  match tl with c :: _ => p c = false | [] => True end ->
  rest s = (x :: xs) ++ tl ->
  m (plus (Chr p)) k s = k (after s (x :: xs) tl).
Proof.
  intros Hk x xs tl s Hxs Htl Hs. unfold plus.
  change (m (Chr p) (m (Star true (Chr p)) k) s = k (after s (x :: xs) tl)).
  simpl in Hs. inversion Hxs as [| ? ? Hx Hxs']; subst.
  rewrite (m_chr_cons _ _ _ _ _ Hs), Hx.
  rewrite (star_run p k Hk xs tl (MState (Some x) (xs ++ tl) (caps s)) Hxs' Htl eq_refl).
  rewrite after_cons. reflexivity.
Qed.

(** A captured run: the group holds the run itself. *)
Lemma group_run i p k : fails_on p k ->
  forall x xs tl s, all_true p (x :: xs) ->
  match tl with c :: _ => p c = false | [] => True end ->
  rest s = (x :: xs) ++ tl ->
  m (Group i (plus (Chr p))) k s = k (set_cap i (x :: xs) (after s (x :: xs) tl)).
Proof.
  intros Hk x xs tl s Hxs Htl Hs. cbn [m].
  change (m (plus (Chr p)) (fun s' => k (set_cap i (consumed s s') s')) s = 
          k (set_cap i (x :: xs) (after s (x :: xs) tl))).
  rewrite (plus_run p _) with (x := x) (xs := xs) (tl := tl); try assumption.
  - rewrite (consumed_app s (after s (x :: xs) tl) (x :: xs)); [reflexivity |].
    exact Hs.
  - intros s' c w Es Hp. apply (Hk _ c w); [exact Es | exact Hp].
Qed.

End RegexFacts.
Export RegexFacts.

(** ** Patterns that start with a number *)

Module PatternFacts.

Local Open Scope nat_scope.

Lemma last_or_all P p x xs :
  Forall P (x :: xs) -> exists d, last_or p (x :: xs) = Some d /\ P d.
Proof.
  intros H. unfold last_or.
  destruct (rev (x :: xs)) as [| d l] eqn:E.
  - apply (f_equal (@length _)) in E. rewrite length_rev in E. discriminate.
  - exists d. split; [reflexivity |].
    rewrite Forall_forall in H. apply H. apply in_rev. rewrite E. left. reflexivity.
Qed.

Ltac digit_split H :=
  apply digit_cases in H; unfold all_digits, lit in H; simpl in H;
  repeat (destruct H as [<- | H]); [.. | contradiction].

Lemma m_seq a b k s : m (Seq a b) k s = m a (m b k) s.
Proof. reflexivity. Qed.

Lemma reads_run_digits tl : nondigit_head tl -> reads_run (Group 1 digits) tl.
Proof.
  intros Htl k s x xs Hk Hd Hs. apply group_run; assumption.
Qed.

Lemma led_match_at H R tl p x xs :
  reads_run H tl -> forallb (fun c => blocked c R) all_digits = true ->
  all_true is_digit (x :: xs) ->
  match_at (Seq H R) p ((x :: xs) ++ tl) =
  match m R Some (MState (last_or p (x :: xs)) tl [(1, x :: xs)]) with
  | Some s1 => Some (RMatch (consumed (MState p ((x :: xs) ++ tl) []) s1) (caps s1))
  | None => None
  end.
Proof.
  intros HH HR Hd. unfold match_at. rewrite m_seq.
  rewrite (HH _ _ x xs); [reflexivity | apply blocked_digits, HR | exact Hd | reflexivity].
Qed.

Lemma all_true_suffix p pre x suf :
  all_true p (pre ++ x :: suf) -> all_true p (x :: suf).
Proof. intros H. apply Forall_app in H. apply H. Qed.

Lemma led_none H R tl :
  reads_run H tl -> forallb (fun c => blocked c R) all_digits = true ->
  (forall d cs, is_digit d = true -> m R Some (MState (Some d) tl cs) = None) ->
  (forall d, is_digit d = true -> search (Seq H R) (Some d) tl = None) ->
  forall p x xs, all_true is_digit (x :: xs) ->
  search (Seq H R) p ((x :: xs) ++ tl) = None.
Proof.
  intros HH HR Htail Hend p x xs Hd.
  rewrite search_skip.
  - destruct (last_or_all _ p x xs Hd) as [d [-> Hdd]]. apply Hend, Hdd.
  - intros pre y suf E. rewrite E in Hd. apply all_true_suffix in Hd.
    change (y :: suf ++ tl) with ((y :: suf) ++ tl).
    rewrite led_match_at by assumption.
    destruct (last_or_all _ (last_or p pre) y suf Hd) as [d [-> Hdd]].
    rewrite Htail by exact Hdd. reflexivity.
Qed.

Lemma lower_digit c : is_digit c = true -> lower_char c = c.
Proof.
  revert c. 
  assert (H : forallb (fun c => Ascii.eqb (lower_char c) c) all_digits = true) by (vm_compute; reflexivity).
  intros c Hc. apply Ascii.eqb_eq. revert c Hc. apply digits_forallb. exact H.
Qed.

Lemma toLowerCase_digits ds t :
  all_true is_digit ds -> toLowerCase (ds ++ t) = ds ++ toLowerCase t.
Proof.
  intros H. unfold toLowerCase. rewrite map_app. f_equal.
  induction H as [| c ds Hc _ IH]; [reflexivity |]. simpl. rewrite lower_digit, IH by assumption. reflexivity.
Qed.

(* pattern facts on "<n> bottles" *)
Lemma digits_lack q ds : 
  forallb (fun c => negb (q c)) all_digits = true -> all_true is_digit ds ->
  Forall (fun c => q c = false) ds.
Proof.
  intros H Hd. eapply Forall_impl; [| exact Hd]. intros c Hc.
  apply negb_true_iff. revert c Hc. apply digits_forallb. exact H.
Qed.

Lemma needs_none q r ds tl p :
  must_have q r = true ->
  forallb (fun c => negb (q c)) (all_digits ++ tl) = true ->
  all_true is_digit ds -> search r p (ds ++ tl) = None.
Proof.
  intros Hm Hq Hd. rewrite forallb_app in Hq. apply andb_true_iff in Hq. destruct Hq as [H1 H2].
  apply (search_needs q); [exact Hm |].
  apply Forall_app. split; [apply digits_lack; assumption |].
  apply Forall_forall. intros c Hin. rewrite forallb_forall in H2. apply negb_true_iff, H2, Hin.
Qed.

Lemma ml_bottles ds p : all_true is_digit ds -> search ML_REGEX p (ds ++ (lit " bottles")) = None.
Proof. apply (needs_none (one_of "mM")); vm_compute; reflexivity. Qed.

Lemma half_bottles ds p : all_true is_digit ds -> search HALF_BOTTLE_REGEX p (ds ++ (lit " bottles")) = None.
Proof. apply (needs_none (one_of "hH/")); vm_compute; reflexivity. Qed.

Lemma quarter_bottles ds p : all_true is_digit ds -> search QUARTER_BOTTLE_REGEX p (ds ++ (lit " bottles")) = None.
Proof. apply (needs_none (one_of "qQ/")); vm_compute; reflexivity. Qed.

Lemma glass_bottles ds p : all_true is_digit ds -> search GLASS_REGEX p (ds ++ (lit " bottles")) = None.
Proof. apply (needs_none (one_of "gG")); vm_compute; reflexivity. Qed.

Lemma cup_bottles ds p : all_true is_digit ds -> search CUP_REGEX p (ds ++ (lit " bottles")) = None.
Proof. apply (needs_none (one_of "cC")); vm_compute; reflexivity. Qed.

Lemma m_opt a k s :
  m (Opt a) k s = orelse (m a (fun s' => if progressed s s' then k s' else None) s) (k s).
Proof. reflexivity. Qed.

Lemma fails_on_guard p k s : fails_on p k ->
  fails_on p (fun s' => if progressed s s' then k s' else None).
Proof.
  intros H s' c w E Hp. destruct (progressed s s'); [eapply H; eassumption | reflexivity].
Qed.

Lemma fails_on_cap p i k s : fails_on p k ->
  fails_on p (fun s' => k (set_cap i (consumed s s') s')).
Proof. intros H s' c w E Hp. eapply H; [exact E | exact Hp]. Qed.

Lemma nocons_fails_on p r k :
  (forall c, p c = true -> nocons c r = true) -> fails_on p k -> fails_on p (m r k).
Proof.
  intros H Hk s c w Hs Hp.
  eapply (proj1 (lookahead_spec c r)); [apply H, Hp | exact Hs |].
  intros s' Es. eapply Hk; [rewrite Es; exact Hs | exact Hp].
Qed.

(** The decimal group on an integer: no fraction follows. *)
Lemma reads_run_decimal tl : plain_head tl -> reads_run (Group 1 decimal) tl.
Proof.
  intros Htl k s x xs Hk Hd Hs.
  assert (Hnd : match tl with c :: _ => is_digit c = false | [] => True end).
  { destruct tl; [exact I | apply Htl]. }
  change (m (Group 1 decimal) k s)
    with (m digits (m (Opt (Seq (chr_i ".") digits))
                      (fun s' => k (set_cap 1 (consumed s s') s'))) s).
  unfold digits at 1, digit.
  rewrite (plus_run is_digit) with (x := x) (xs := xs) (tl := tl); try assumption.
  - rewrite m_opt.
    assert (E : forall k', m (Seq (chr_i ".") digits) k' (after s (x :: xs) tl) = None).
    { intros k'. rewrite m_seq. unfold chr_i. destruct tl as [| c tl].
      - apply m_chr_nil. reflexivity.
      - rewrite (m_chr_cons _ _ (after s (x :: xs) (c :: tl)) c tl eq_refl).
        destruct Htl as [_ Hc]. 
        destruct (Ascii.eqb (canon c) (canon ".")) eqn:Ec; [| reflexivity].
        exfalso. apply Hc. 
        assert (Hall : forallb (fun c => implb (Ascii.eqb (canon c) (canon ".")) (Ascii.eqb c ".")) all_ascii = true) by (vm_compute; reflexivity).
        pose proof (ascii_forallb _ Hall c) as Hx. cbv beta in Hx. rewrite Ec in Hx.
        apply Ascii.eqb_eq. exact Hx. }
    rewrite E. cbn [orelse].
    rewrite (consumed_app s (after s (x :: xs) tl) (x :: xs) Hs). reflexivity.
  - apply nocons_fails_on.
    + apply digits_forallb. vm_compute. reflexivity.
    + apply fails_on_cap, Hk.
Qed.

Lemma liter_bottles x xs p :
  all_true is_digit (x :: xs) -> search LITER_REGEX p ((x :: xs) ++ (lit " bottles")) = None.
Proof.
  intros Hd. unfold LITER_REGEX. cbn [seqs].
  apply led_none; try assumption.
  - apply reads_run_decimal. split; [reflexivity | discriminate].
  - vm_compute. reflexivity.
  - intros d cs Hdd. digit_split Hdd; vm_compute; reflexivity.
  - intros d Hdd. digit_split Hdd; vm_compute; reflexivity.
Qed.

Lemma numeric_bottles x xs :
  all_true is_digit (x :: xs) ->
  exists y, exec NUMERIC_BOTTLE_REGEX ((x :: xs) ++ (lit " bottles")) = Some y
            /\ group 1 y = Some (x :: xs).
Proof.
  intros Hd. unfold exec.
  assert (E : exists y, match_at NUMERIC_BOTTLE_REGEX None ((x :: xs) ++ (lit " bottles")) = Some y
                        /\ group 1 y = Some (x :: xs)).
  { unfold NUMERIC_BOTTLE_REGEX. cbn [seqs].
    rewrite led_match_at;
      [ | apply reads_run_digits; reflexivity | vm_compute; reflexivity | exact Hd ].
    destruct (last_or_all _ None x xs Hd) as [d [-> Hdd]].
    digit_split Hdd; vm_compute; eexists; split; reflexivity. }
  destruct E as [y [E1 E2]]. exists y. split; [| exact E2].
  cbn [search app]. change (match_at NUMERIC_BOTTLE_REGEX None (x :: xs ++ (lit " bottles"))) with (match_at NUMERIC_BOTTLE_REGEX None ((x :: xs) ++ (lit " bottles"))). rewrite E1. reflexivity.
Qed.

Lemma m_alt a b k s : m (Alt a b) k s = orelse (m a k s) (m b k s).
Proof. reflexivity. Qed.

Lemma single_bottles x xs p :
  all_true is_digit (x :: xs) -> search SINGLE_BOTTLE_REGEX p ((x :: xs) ++ (lit " bottles")) = None.
Proof.
  intros Hd. rewrite search_skip.
  - destruct (last_or_all _ p x xs Hd) as [d [-> Hdd]].
    digit_split Hdd; vm_compute; reflexivity.
  - intros pre y suf E. rewrite E in Hd. apply all_true_suffix in Hd.
    inversion Hd as [| ? ? Hy Hsuf]; subst.
    generalize (last_or p pre) as q. intros q.
    unfold match_at, SINGLE_BOTTLE_REGEX. cbn [seqs alts].
    set (R := Seq spaces (Seq (str_i "bottle") WordB)).
    set (s0 := MState q (y :: suf ++ (lit " bottles")) []).
    assert (HR : fails_on is_digit (m R Some)).
    { apply blocked_digits. vm_compute. reflexivity. }
    rewrite m_seq, m_opt.
    rewrite (HR s0 y (suf ++ (lit " bottles")) eq_refl Hy), orelse_none_r.
    rewrite !m_alt.
    rewrite (blocked_spec y (str_i "one")) with (w := suf ++ (lit " bottles"));
      [ | exact (digits_forallb (fun c => blocked c (str_i "one")) eq_refl y Hy)
        | reflexivity ].
    unfold chr_i.
    rewrite !(m_chr_cons _ _ s0 y (suf ++ (lit " bottles")) eq_refl).
    replace (Ascii.eqb (canon y) (canon "a")) with false
      by (symmetry; apply negb_true_iff;
          exact (digits_forallb (fun c => negb (Ascii.eqb (canon c) (canon "a")))
                   eq_refl y Hy)).
    cbn [orelse].
    destruct (Ascii.eqb (canon y) (canon "1")); [| reflexivity].
    destruct (progressed s0 _); [| reflexivity].
    destruct suf as [| z suf].
    + digit_split Hy; vm_compute; reflexivity.
    + inversion Hsuf as [| ? ? Hz _]; subst.
      rewrite (HR (MState (Some y) ((z :: suf) ++ (lit " bottles")) (caps s0)) z (suf ++ (lit " bottles")) eq_refl Hz).
      reflexivity.
Qed.

End PatternFacts.
Export PatternFacts.

(** ** The words of a pattern *)

Module LangFacts.

Local Open Scope nat_scope.

Lemma progressed_app s s' w :
  rest s = w ++ rest s' -> progressed s s' = true -> w <> [].
Proof.
  unfold progressed. intros E H. apply Nat.ltb_lt in H. rewrite E, length_app in H.
  intros ->. simpl in H. lia.
Qed.

Lemma reach_lang r s s' :
  reach r s s' -> exists w, rest s = w ++ rest s' /\ lang r w.
Proof.
  induction 1; simpl.
  - exists []. auto.
  - exists [c]. split; [exact H | eauto].
  - destruct IHreach1 as [w1 [E1 L1]], IHreach2 as [w2 [E2 L2]].
    exists (w1 ++ w2). split; [rewrite E1, E2; apply app_assoc | eauto].
  - destruct IHreach as [w [E L]]. eauto.
  - destruct IHreach as [w [E L]]. eauto.
  - exists []. split; [reflexivity |]. exists []. split; [reflexivity | constructor].
  - destruct IHreach1 as [w1 [E1 L1]], IHreach2 as [w2 [E2 L2]].
    destruct L2 as [ws [Ews Hws]].
    exists (w1 ++ w2). split; [rewrite E1, E2; apply app_assoc |].
    exists (w1 :: ws). split; [simpl; rewrite Ews; reflexivity |].
    constructor; [| exact Hws]. split; [| exact L1].
    eapply progressed_app; eassumption.
  - exists []. auto.
  - destruct IHreach as [w [E L]]. eauto.
  - destruct IHreach as [w [E L]]. exists w. auto.
  - exists []. auto.
  - exists []. auto.
  - exists []. auto.
Qed.

Lemma progressed_len p w tl cs s' :
  w <> [] -> rest s' = tl -> progressed (MState p (w ++ tl) cs) s' = true.
Proof.
  intros Hw E. unfold progressed. cbn [rest]. rewrite E, length_app.
  apply Nat.ltb_lt. destruct w; [contradiction | simpl; lia].
Qed.

Lemma lang_reach r : assertion_free r = true ->
  forall w, lang r w -> forall p tl cs,
  exists s', reach r (MState p (w ++ tl) cs) s' /\ rest s' = tl.
Proof.
  induction r; simpl; intros Hf w Hl p0 tl cs; try discriminate.
  - subst w. eexists. split; [constructor | reflexivity].
  - destruct Hl as [c [-> Hc]]. eexists. split.
    + apply (@R_chr p c tl (MState p0 ([c] ++ tl) cs)); [reflexivity | exact Hc].
    + reflexivity.
  - apply andb_true_iff in Hf. destruct Hf as [F1 F2].
    destruct Hl as [w1 [w2 [-> [L1 L2]]]]. rewrite <- app_assoc.
    destruct (IHr1 F1 w1 L1 p0 (w2 ++ tl) cs) as [s1 [R1 E1]].
    destruct s1 as [p1 r1' c1]. cbn [rest] in E1. subst r1'.
    destruct (IHr2 F2 w2 L2 p1 tl c1) as [s2 [R2 E2]].
    exists s2. split; [econstructor; eassumption | exact E2].
  - apply andb_true_iff in Hf. destruct Hf as [F1 F2]. destruct Hl as [L | L].
    + destruct (IHr1 F1 w L p0 tl cs) as [s1 [R1 E1]]. exists s1. split; [apply R_alt_l, R1 | exact E1].
    + destruct (IHr2 F2 w L p0 tl cs) as [s1 [R1 E1]]. exists s1. split; [apply R_alt_r, R1 | exact E1].
  - destruct Hl as [ws [-> Hws]]. revert p0 cs.
    induction Hws as [| x ws [Hx Lx] _ IHws]; intros p0 cs.
    + eexists. split; [apply R_star_stop | reflexivity].
    + simpl. rewrite <- app_assoc.
      destruct (IHr Hf x Lx p0 (concat ws ++ tl) cs) as [s1 [R1 E1]].
      destruct s1 as [p1 r1' c1]. cbn [rest] in E1. subst r1'.
      destruct (IHws p1 c1) as [s2 [R2 E2]].
      exists s2. split; [| exact E2].
      eapply R_star_step; [exact R1 | | exact R2].
      apply progressed_len; [exact Hx | reflexivity].
  - destruct Hl as [-> | L].
    + eexists. split; [apply R_opt_skip | reflexivity].
    + destruct w as [| c w].
      * eexists. split; [apply R_opt_skip | reflexivity].
      * destruct (IHr Hf (c :: w) L p0 tl cs) as [s1 [R1 E1]].
        exists s1. split; [| exact E1]. apply R_opt_take; [exact R1 |].
        apply progressed_len; [discriminate | exact E1].
  - destruct (IHr Hf w Hl p0 tl cs) as [s1 [R1 E1]].
    eexists. split; [apply R_group, R1 | exact E1].
Qed.

(** For a pattern without assertions, the search finds a match exactly
    when one of its words stands somewhere in the text. *)
Theorem exec_occurs r t : assertion_free r = true ->
  (exec r t <> None <-> occurs r t).
Proof.
  intros Hf. split.
  - intros H. destruct (exec r t) as [x |] eqn:E; [| contradiction].
    apply search_sound in E. destruct E as [pre [suf [s' [Et [Hr _]]]]].
    apply reach_lang in Hr. destruct Hr as [w [Ew L]]. cbn [rest] in Ew.
    exists pre, w, (rest s'). split; [rewrite Et, Ew; reflexivity | exact L].
  - intros [pre [w [post [Et L]]]]. subst t.
    destruct (lang_reach r Hf w L (last_or None pre) post []) as [s' [Hr _]].
    eapply search_complete, Hr.
Qed.

Lemma reach_caps r s s' : reach r s s' -> no_groups r = true -> caps s' = caps s.
Proof.
  induction 1; simpl; intros Hn; try reflexivity; try discriminate.
  - apply andb_true_iff in Hn. destruct Hn as [N1 N2].
    rewrite IHreach2, IHreach1 by assumption. reflexivity.
  - apply andb_true_iff in Hn. destruct Hn as [N1 N2]. auto.
  - apply andb_true_iff in Hn. destruct Hn as [N1 N2]. auto.
  - rewrite IHreach2, IHreach1 by assumption. reflexivity.
  - auto.
Qed.

Lemma lang_star_class g p w : lang (Star g (Chr p)) w -> all_true p w.
Proof.
  intros [ws [-> Hws]]. induction Hws as [| x ws [_ [c [-> Hc]]] _ IH]; [constructor |].
  simpl. constructor; assumption.
Qed.

Lemma lang_digits w : lang digits w -> w <> [] /\ all_true is_digit w.
Proof.
  intros [w1 [w2 [-> [[c [-> Hc]] L2]]]]. split; [discriminate |].
  constructor; [exact Hc | eapply lang_star_class, L2].
Qed.

(** A pattern that opens with the captured number: whatever it matches,
    group 1 holds a run of digits. *)
Lemma led_capture R t x :
  no_groups R = true ->
  exec (Seq (Group 1 digits) R) t = Some x ->
  exists d ds, group 1 x = Some (d :: ds) /\ all_true is_digit (d :: ds).
Proof.
  intros Hn E. apply search_sound in E.
  destruct E as [pre [suf [s' [_ [Hr ->]]]]]. unfold group. cbn [groups].
  inversion Hr as [| | r1 r2 s0 s1 s2 H1 H2 | | | | | | | | | |]; subst.
  rewrite (reach_caps _ _ _ H2 Hn).
  inversion H1 as [| | | | | | | | | i r s0 s1' H3 | | |]; subst.
  destruct (reach_lang _ _ _ H3) as [w [Ew L]].
  rewrite (consumed_app _ _ _ Ew). apply lang_digits in L. destruct L as [Hne Hd].
  destruct w as [| d ds]; [contradiction |]. exists d, ds.
  split; [reflexivity | exact Hd].
Qed.

End LangFacts.
Export LangFacts.

(** ** The deterministic stage *)

Module ParserFacts.

Local Open Scope Z_scope.

Lemma parseInt_digits x xs :
  all_true is_digit (x :: xs) ->
  parseInt (x :: xs) = Some (double_of_Z (Z.of_N (digits_value 0 (x :: xs)))).
Proof.
  intros H. inversion H as [| ? ? Hx _]; subst.
  unfold parseInt. cbn [drop_while].
  replace (is_space x) with false
    by (symmetry; apply negb_true_iff;
        exact (digits_forallb (fun c => negb (is_space c)) eq_refl x Hx)).
  replace (Ascii.eqb x "-") with false
    by (symmetry; apply negb_true_iff;
        exact (digits_forallb (fun c => negb (Ascii.eqb c "-")) eq_refl x Hx)).
  replace (Ascii.eqb x "+") with false
    by (symmetry; apply negb_true_iff;
        exact (digits_forallb (fun c => negb (Ascii.eqb c "+")) eq_refl x Hx)).
  rewrite Hx. reflexivity.
Qed.

Lemma parseInt_digits_nonneg x xs n :
  all_true is_digit (x :: xs) -> parseInt (x :: xs) = Some n -> 0 <= n.
Proof.
  intros H E. rewrite parseInt_digits in E by exact H. injection E as <-.
  apply double_of_Z_nonneg. lia.
Qed.

Example parseInt_rounds :
  parseInt (lit "9007199254740993") = Some 9007199254740992.
Proof. vm_compute. reflexivity. Qed.

(** Below 2^53 the number read is the number written. *)
Lemma parseInt_digits_small x xs n :
  all_true is_digit (x :: xs) -> parseInt (x :: xs) = Some n -> n < 2 ^ 53 ->
  Z.of_N (digits_value 0 (x :: xs)) = n.
Proof.
  intros H E Hn. rewrite parseInt_digits in E by exact H.
  assert (E' : double_of_Z (Z.of_N (digits_value 0 (x :: xs))) = n) by congruence.
  rewrite <- E'. symmetry. apply double_of_Z_small; [lia | rewrite E'; exact Hn].
Qed.

Lemma regex_counted_bottles x xs n prefs :
  all_true is_digit (x :: xs) -> parseInt (x :: xs) = Some n ->
  parseWaterInputRegex ((x :: xs) ++ lit " bottles") prefs =
  if (0 <? n) && (n <=? 10) then logged_now (double_of_Z (bottle_size_ml prefs * n))
  else ret no_result.
Proof.
  intros Hd Hn. unfold parseWaterInputRegex.
  rewrite toLowerCase_digits by exact Hd.
  change (toLowerCase (lit " bottles")) with (lit " bottles").
  unfold guarded, exec, test, exec.
  rewrite ml_bottles, liter_bottles, half_bottles, quarter_bottles by exact Hd.
  destruct (numeric_bottles x xs Hd) as [y [Ey Gy]]. unfold exec in Ey. rewrite Ey.
  unfold parseInt_group. rewrite Gy, Hn. cbn [positive_upto].
  destruct ((0 <? n) && (n <=? 10)); [reflexivity |].
  rewrite single_bottles, glass_bottles, cup_bottles by exact Hd. reflexivity.
Qed.

Lemma logged_now_run a w :
  logged_now a w = (Normal (regex_log a (toISTString (Some (now_ms w)))), tick w).
Proof. reflexivity. Qed.

Lemma positive_upto_spec hi n v : positive_upto hi n = Some v -> 0 < v <= hi.
Proof.
  unfold positive_upto. destruct n as [z |]; [| discriminate].
  destruct ((0 <? z) && (z <=? hi)) eqn:E; [| discriminate].
  intros H. injection H as <-. apply andb_true_iff in E. destruct E as [E1 E2].
  apply Z.ltb_lt in E1. apply Z.leb_le in E2. lia.
Qed.

Lemma guarded_upto re lower hi f v :
  guarded re lower (fun x => positive_upto hi (f x)) = Some v -> 0 < v <= hi.
Proof.
  unfold guarded. destruct (exec re lower); [| discriminate]. apply positive_upto_spec.
Qed.

Lemma parseWaterInputRegex_outcome text prefs :
  regex_outcome prefs (parseWaterInputRegex text prefs).
Proof.
  unfold parseWaterInputRegex.
  destruct (guarded ML_REGEX _ _) as [a |] eqn:E1.
  { apply RO_volume. eapply guarded_upto, E1. }
  destruct (guarded LITER_REGEX _ _) as [a |] eqn:E2.
  { apply RO_volume. eapply guarded_upto, E2. }
  destruct (exec HALF_BOTTLE_REGEX _); [apply RO_half |].
  destruct (exec QUARTER_BOTTLE_REGEX _); [apply RO_quarter |].
  destruct (guarded NUMERIC_BOTTLE_REGEX _ _) as [n |] eqn:E5.
  { apply RO_bottles. eapply guarded_upto, E5. }
  destruct (_ && _); [apply RO_bottle |].
  destruct (guarded GLASS_REGEX _ _) as [n |] eqn:E7.
  { apply RO_glasses. eapply guarded_upto, E7. }
  destruct (guarded CUP_REGEX _ _) as [n |] eqn:E8.
  { apply RO_cups. eapply guarded_upto, E8. }
  apply RO_none.
Qed.

Lemma regex_outcome_run prefs c :
  regex_outcome prefs c ->
  (exists a, c = logged_now a) \/ c = ret no_result.
Proof. destruct 1; eauto. Qed.

Lemma logged_now_inv a w r w' :
  logged_now a w = (Normal r, w') ->
  r = regex_log a (toISTString (Some (now_ms w))) /\ w' = tick w.
Proof. rewrite logged_now_run. intros H. injection H as <- <-. auto. Qed.

Local Open Scope nat_scope.

Lemma exec_led_hit H R tl x xs :
  reads_run H tl -> forallb (fun c => blocked c R) all_digits = true ->
  all_true is_digit (x :: xs) ->
  (forall d, is_digit d = true ->
     exists s1, m R Some (MState (Some d) tl [(1, x :: xs)]) = Some s1 /\
                lookup_cap 1 (caps s1) = Some (x :: xs)) ->
  exists y, exec (Seq H R) ((x :: xs) ++ tl) = Some y /\ group 1 y = Some (x :: xs).
Proof.
  intros HH HR Hd Htail. unfold exec.
  assert (E : exists y, match_at (Seq H R) None ((x :: xs) ++ tl) = Some y
                        /\ group 1 y = Some (x :: xs)).
  { rewrite led_match_at by assumption.
    destruct (last_or_all _ None x xs Hd) as [d [-> Hdd]].
    destruct (Htail d Hdd) as [s1 [-> Hc]]. eexists. split; [reflexivity | exact Hc]. }
  destruct E as [y [E1 E2]]. exists y. split; [| exact E2].
  change ((x :: xs) ++ tl) with (x :: xs ++ tl) in *. cbn [search]. rewrite E1. reflexivity.
Qed.

Ltac tail_hit :=
  let d := fresh "d" in let Hd := fresh "Hd" in
  intros d Hd; digit_split Hd; vm_compute; eexists; split; reflexivity.

Lemma ml_hit x xs :
  all_true is_digit (x :: xs) ->
  exists y, exec ML_REGEX ((x :: xs) ++ lit "ml") = Some y /\ group 1 y = Some (x :: xs).
Proof.
  intros Hd. unfold ML_REGEX. cbn [seqs]. apply exec_led_hit.
  - apply reads_run_digits. reflexivity.
  - vm_compute. reflexivity.
  - exact Hd.
  - tail_hit.
Qed.

Lemma time_phrase_ml ds p :
  all_true is_digit ds -> search TIME_PHRASE_REGEX p (ds ++ lit "ml") = None.
Proof. apply (needs_none (one_of "aAeEbBoOhHiI")); vm_compute; reflexivity. Qed.

Local Open Scope Z_scope.

Lemma in_upto n : forall a x, a <= x < a + Z.of_nat n -> In x (upto n a).
Proof.
  induction n as [| n IH]; intros a x H; [lia |].
  simpl. destruct (Z.eq_dec a x); [left; assumption | right; apply IH; lia].
Qed.

Lemma numerals_ok : forallb numeral_ok (upto (Z.to_nat 10000) 1) = true.
Proof. vm_compute. reflexivity. Qed.

Lemma numeral_spec a : 0 < a <= 10000 ->
  exists x xs, String_of_Z a = x :: xs /\ all_true is_digit (x :: xs)
               /\ parseInt (x :: xs) = Some a.
Proof.
  intros Ha. pose proof numerals_ok as H. rewrite forallb_forall in H.
  specialize (H a). unfold numeral_ok in H.
  assert (Hin : In a (upto (Z.to_nat 10000) 1)).
  { apply in_upto. rewrite Z2Nat.id; lia. }
  specialize (H Hin). destruct (String_of_Z a) as [| x xs]; [discriminate |].
  apply andb_true_iff in H. destruct H as [H1 H2].
  assert (Hd : all_true is_digit (x :: xs)).
  { apply Forall_forall. rewrite forallb_forall in H1. exact H1. }
  exists x, xs. split; [reflexivity |]. split; [exact Hd |].
  rewrite parseInt_digits by exact Hd. apply Z.eqb_eq in H2. rewrite H2.
  f_equal. apply double_of_Z_exact. lia.
Qed.

(** *** Numbers as they are written *)

Lemma digits_value_number ds : all_true is_digit ds -> forall acc,
  Z.of_N (digits_value acc ds)
  = fold_left (fun a c => 10 * a + (Z.of_nat (code c) - 48)) ds (Z.of_N acc).
Proof.
  induction 1 as [| c ds Hc _ IH]; intros acc; [reflexivity |].
  cbn [digits_value fold_left]. rewrite Hc, IH. f_equal.
  unfold digit_value. unfold is_digit, between in Hc.
  apply andb_true_iff in Hc. destruct Hc as [H1 H2].
  apply Nat.leb_le in H1. lia.
Qed.

Lemma number_of_digits ds : all_true is_digit ds ->
  Z.of_N (digits_value 0 ds) = number_of ds.
Proof. intros H. apply (digits_value_number ds H 0%N). Qed.

Lemma number_of_nonneg ds : all_true is_digit ds -> 0 <= number_of ds.
Proof. intros H. rewrite <- number_of_digits by exact H. lia. Qed.

Lemma parseInt_number x xs :
  all_true is_digit (x :: xs) ->
  parseInt (x :: xs) = Some (double_of_Z (number_of (x :: xs))).
Proof. intros H. rewrite parseInt_digits, number_of_digits by exact H. reflexivity. Qed.

(** A range check against a small bound reads the same on the double as
    on the number, and a number that passes is held exactly. *)
Lemma double_range N hi : 0 <= hi < 2 ^ 53 ->
  ((0 <? double_of_Z N) && (double_of_Z N <=? hi)) = ((0 <? N) && (N <=? hi)) /\
  (0 < N <= hi -> double_of_Z N = N).
Proof.
  intros Hh.
  assert (Hex : 0 < N <= hi -> double_of_Z N = N)
    by (intros H; apply double_of_Z_exact; lia).
  split; [| exact Hex].
  destruct (Z_lt_le_dec 0 N) as [Hp | Hn].
  - destruct (Z_le_gt_dec N hi) as [Hle | Hgt].
    + rewrite Hex by lia. reflexivity.
    + pose proof (double_of_Z_ge N (hi + 1) ltac:(lia) ltac:(lia)) as Hg.
      replace (double_of_Z N <=? hi) with false by (symmetry; apply Z.leb_gt; lia).
      replace (N <=? hi) with false by (symmetry; apply Z.leb_gt; lia).
      rewrite !andb_false_r. reflexivity.
  - assert (Hd : double_of_Z N <= 0).
    { unfold double_of_Z. rewrite <- (Qfloor_Z 0). apply Qfloor_resp_le.
      apply round53_le; [lia |]. rewrite <- Zle_Qle. exact Hn. }
    replace (0 <? double_of_Z N) with false by (symmetry; apply Z.ltb_ge; lia).
    replace (0 <? N) with false by (symmetry; apply Z.ltb_ge; lia).
    reflexivity.
Qed.

Lemma double_of_Z_exact_double n : exact_double n -> double_of_Z n = n.
Proof.
  intros H. unfold double_of_Z.
  rewrite (round53_exact (inject_Z n) n H (Qeq_refl _)). apply Qfloor_Z.
Qed.

(** [Math.round] of the half and of the quarter of a whole number. *)
Lemma half_of_round b : half_of b (round_half b).
Proof.
  unfold half_of, round_half.
  pose proof (Z.div_mod (b + 1) 2 ltac:(lia)).
  pose proof (Z.mod_pos_bound (b + 1) 2 ltac:(lia)). lia.
Qed.

Lemma quarter_of_round b : quarter_of b (round_quarter b).
Proof.
  unfold quarter_of, round_quarter.
  pose proof (Z.div_mod (b + 2) 4 ltac:(lia)).
  pose proof (Z.mod_pos_bound (b + 2) 4 ltac:(lia)). lia.
Qed.

Lemma logged_now_logs a w : logs_now (logged_now a) w a.
Proof. exists (regex_log a (toISTString (Some (now_ms w)))). repeat split. Qed.

Lemma no_result_nothing w : finds_nothing (ret no_result) w.
Proof. exists no_result. repeat split. Qed.

(** A stage that logs when a check passes and finds nothing otherwise. *)
Lemma checked_stage c w (N hi a : Z) :
  c = (if (0 <? N) && (N <=? hi) then logged_now a else ret no_result) ->
  (0 < N <= hi -> logs_now c w a) /\ (~ 0 < N <= hi -> finds_nothing c w).
Proof.
  intros ->. split; intros H.
  - replace ((0 <? N) && (N <=? hi)) with true; [apply logged_now_logs |].
    symmetry. apply andb_true_iff. split; [apply Z.ltb_lt | apply Z.leb_le]; lia.
  - destruct ((0 <? N) && (N <=? hi)) eqn:E; [| apply no_result_nothing].
    apply andb_true_iff in E. destruct E as [E1 E2].
    apply Z.ltb_lt in E1. apply Z.leb_le in E2. lia.
Qed.

(* pattern facts on "<n>ml" *)
Lemma half_ml ds p : all_true is_digit ds -> search HALF_BOTTLE_REGEX p (ds ++ lit "ml") = None.
Proof. apply (needs_none (one_of "hH/")); vm_compute; reflexivity. Qed.

Lemma quarter_ml ds p : all_true is_digit ds -> search QUARTER_BOTTLE_REGEX p (ds ++ lit "ml") = None.
Proof. apply (needs_none (one_of "qQ/")); vm_compute; reflexivity. Qed.

Lemma numeric_ml ds p : all_true is_digit ds -> search NUMERIC_BOTTLE_REGEX p (ds ++ lit "ml") = None.
Proof. apply (needs_none (one_of "bB")); vm_compute; reflexivity. Qed.

Lemma single_ml ds p : all_true is_digit ds -> search SINGLE_BOTTLE_REGEX p (ds ++ lit "ml") = None.
Proof. apply (needs_none (one_of "bB")); vm_compute; reflexivity. Qed.

Lemma glass_ml ds p : all_true is_digit ds -> search GLASS_REGEX p (ds ++ lit "ml") = None.
Proof. apply (needs_none (one_of "gG")); vm_compute; reflexivity. Qed.

Lemma cup_ml ds p : all_true is_digit ds -> search CUP_REGEX p (ds ++ lit "ml") = None.
Proof. apply (needs_none (one_of "cC")); vm_compute; reflexivity. Qed.

Lemma liter_ml x xs p :
  all_true is_digit (x :: xs) -> search LITER_REGEX p ((x :: xs) ++ lit "ml") = None.
Proof.
  intros Hd. unfold LITER_REGEX. cbn [seqs].
  apply led_none; try assumption.
  - apply reads_run_decimal. split; [reflexivity | discriminate].
  - vm_compute. reflexivity.
  - intros d cs Hdd. digit_split Hdd; vm_compute; reflexivity.
  - intros d Hdd. digit_split Hdd; vm_compute; reflexivity.
Qed.

(** The deterministic stage on a number of millilitres. *)
Lemma regex_ml_checked x xs prefs :
  all_true is_digit (x :: xs) ->
  parseWaterInputRegex ((x :: xs) ++ lit "ml") prefs =
  if (0 <? number_of (x :: xs)) && (number_of (x :: xs) <=? 10000)
  then logged_now (number_of (x :: xs)) else ret no_result.
Proof.
  intros Hd. unfold parseWaterInputRegex.
  rewrite toLowerCase_digits by exact Hd.
  change (toLowerCase (lit "ml")) with (lit "ml").
  unfold guarded at 1. destruct (ml_hit x xs Hd) as [y [-> Gy]].
  unfold parseInt_group. rewrite Gy, parseInt_number by exact Hd. cbn [positive_upto].
  destruct (double_range (number_of (x :: xs)) 10000 ltac:(lia)) as [-> Hex].
  destruct ((0 <? number_of (x :: xs)) && (number_of (x :: xs) <=? 10000)) eqn:E.
  - rewrite Hex; [reflexivity |].
    apply andb_true_iff in E. destruct E as [E1 E2].
    apply Z.ltb_lt in E1. apply Z.leb_le in E2. lia.
  - unfold guarded, test, exec.
    rewrite liter_ml, half_ml, quarter_ml, numeric_ml, single_ml, glass_ml, cup_ml
      by exact Hd.
    reflexivity.
Qed.

(** The bottle patterns on three texts, whatever the bottle size. *)
Lemma regex_a_bottle prefs :
  parseWaterInputRegex (lit "a bottle") prefs = logged_now (bottle_size_ml prefs).
Proof.
  unfold parseWaterInputRegex.
  change (toLowerCase (lit "a bottle")) with (lit "a bottle").
  replace (guarded ML_REGEX (lit "a bottle") _) with (@None Z) by (vm_compute; reflexivity).
  replace (guarded LITER_REGEX (lit "a bottle") _) with (@None Z) by (vm_compute; reflexivity).
  replace (exec HALF_BOTTLE_REGEX (lit "a bottle")) with (@None rmatch) by (vm_compute; reflexivity).
  replace (exec QUARTER_BOTTLE_REGEX (lit "a bottle")) with (@None rmatch) by (vm_compute; reflexivity).
  replace (guarded NUMERIC_BOTTLE_REGEX (lit "a bottle") _) with (@None Z) by (vm_compute; reflexivity).
  replace (test SINGLE_BOTTLE_REGEX (lit "a bottle")) with true by (vm_compute; reflexivity).
  reflexivity.
Qed.

Lemma regex_quarter_bottle prefs :
  parseWaterInputRegex (lit "quarter bottle") prefs
  = logged_now (round_quarter (bottle_size_ml prefs)).
Proof.
  unfold parseWaterInputRegex.
  change (toLowerCase (lit "quarter bottle")) with (lit "quarter bottle").
  replace (guarded ML_REGEX (lit "quarter bottle") _) with (@None Z) by (vm_compute; reflexivity).
  replace (guarded LITER_REGEX (lit "quarter bottle") _) with (@None Z) by (vm_compute; reflexivity).
  replace (exec HALF_BOTTLE_REGEX (lit "quarter bottle")) with (@None rmatch) by (vm_compute; reflexivity).
  destruct (exec QUARTER_BOTTLE_REGEX (lit "quarter bottle")) eqn:E; [reflexivity |].
  vm_compute in E. discriminate.
Qed.

Lemma regex_bottles_checked x xs prefs :
  all_true is_digit (x :: xs) ->
  parseWaterInputRegex ((x :: xs) ++ lit " bottles") prefs =
  if (0 <? number_of (x :: xs)) && (number_of (x :: xs) <=? 10)
  then logged_now (double_of_Z (bottle_size_ml prefs * number_of (x :: xs)))
  else ret no_result.
Proof.
  intros Hd.
  rewrite (regex_counted_bottles x xs _ prefs Hd (parseInt_number x xs Hd)).
  destruct (double_range (number_of (x :: xs)) 10 ltac:(lia)) as [-> Hex].
  destruct ((0 <? number_of (x :: xs)) && (number_of (x :: xs) <=? 10)) eqn:E;
    [| reflexivity].
  rewrite Hex; [reflexivity |].
  apply andb_true_iff in E. destruct E as [E1 E2].
  apply Z.ltb_lt in E1. apply Z.leb_le in E2. lia.
Qed.

End ParserFacts.
Export ParserFacts.

(** ** The fallback client *)

Module LlmFacts.

Local Open Scope nat_scope.

Lemma add_events_nil w : add_events [] w = w.
Proof. destruct w. reflexivity. Qed.

Lemma add_events_app e1 e2 w : add_events e1 (add_events e2 w) = add_events (e1 ++ e2) w.
Proof. unfold add_events. simpl. rewrite app_assoc. reflexivity. Qed.

Lemma quiet_ret A (a : A) : quiet (ret a).
Proof. intros w. exists (Normal a), []. rewrite add_events_nil. split; [reflexivity | constructor]. Qed.

Lemma quiet_throw A e : quiet (@throw A e).
Proof. intros w. exists (Throw e), []. rewrite add_events_nil. split; [reflexivity | constructor]. Qed.

Lemma quiet_console msg : quiet (console msg).
Proof.
  intros w. exists (Normal tt), [EvConsole msg]. split; [reflexivity |].
  constructor; [split; reflexivity | constructor].
Qed.

Lemma quiet_bind A B (c : M A) (f : A -> M B) :
  quiet c -> (forall a, quiet (f a)) -> quiet (bind c f).
Proof.
  intros Hc Hf w. unfold bind. destruct (Hc w) as [res [e1 [E1 C1]]]. rewrite E1.
  destruct res as [a | msg].
  - destruct (Hf a (add_events e1 w)) as [res2 [e2 [E2 C2]]]. rewrite E2.
    exists res2, (e2 ++ e1). rewrite add_events_app. split; [reflexivity |].
    apply Forall_app. auto.
  - exists (Throw msg), e1. auto.
Qed.

Lemma quiet_try_catch A (c h : M A) : quiet c -> quiet h -> quiet (try_catch c h).
Proof.
  intros Hc Hh w. unfold try_catch. destruct (Hc w) as [res [e1 [E1 C1]]]. rewrite E1.
  destruct res as [a | msg].
  - exists (Normal a), e1. auto.
  - destruct (Hh (add_events e1 w)) as [res2 [e2 [E2 C2]]]. rewrite E2.
    exists res2, (e2 ++ e1). rewrite add_events_app. split; [reflexivity |].
    apply Forall_app. auto.
Qed.

Lemma quiet_parseJSONSafely jp c : quiet (parseJSONSafely jp c).
Proof.
  unfold parseJSONSafely, parse_or_throw, content_match.
  apply quiet_try_catch.
  - destruct (jp c); [apply quiet_ret | apply quiet_throw].
  - apply quiet_bind.
    + destruct c; try apply quiet_throw. apply quiet_ret.
    + intros [x |].
      * apply quiet_try_catch; [| apply quiet_ret].
        destruct (jp _); [apply quiet_ret | apply quiet_throw].
      * apply quiet_bind.
        -- destruct c; try apply quiet_throw. apply quiet_ret.
        -- intros [x |]; [| apply quiet_ret].
           apply quiet_try_catch; [| apply quiet_ret].
           destruct (jp _); [apply quiet_ret | apply quiet_throw].
Qed.

Lemma quiet_interpret_content jp content : quiet (interpret_content jp content).
Proof.
  unfold interpret_content. destruct content as [c |].
  - destruct (negb (truthy (Some c))).
    + apply quiet_bind; [apply quiet_console | intros; apply quiet_ret].
    + apply quiet_bind; [apply quiet_parseJSONSafely |]. intros parsed.
      destruct (negb _); [| apply quiet_ret].
      apply quiet_bind; [apply quiet_console | intros; apply quiet_ret].
  - apply quiet_bind; [apply quiet_console | intros; apply quiet_ret].
Qed.

Lemma quiet_read_response jp resp : quiet (read_response jp resp).
Proof.
  unfold read_response. destruct (negb (ok resp)).
  - apply quiet_bind; [apply quiet_console | intros; apply quiet_ret].
  - apply quiet_bind.
    + destruct (body resp); [apply quiet_ret | apply quiet_throw].
    + intros data. apply quiet_bind.
      * destruct data; try apply quiet_ret. apply quiet_throw.
      * intros content. apply quiet_interpret_content.
Qed.

Lemma parseJSONSafely_unparseable jp c w :
  unparseable jp c ->
  match fst (parseJSONSafely jp c w) with
  | Normal j => j = JNull
  | Throw _ => True
  end.
Proof.
  intros [H1 H2].
  unfold parseJSONSafely, try_catch, parse_or_throw, content_match, bind, ret, throw.
  rewrite H1. destruct c; simpl; auto.
  destruct (exec FENCE_REGEX s).
  - rewrite H2. reflexivity.
  - destruct (exec OBJECT_REGEX s); [rewrite H2 |]; reflexivity.
Qed.

Lemma read_response_failed jp resp w :
  failed_exchange jp (Responded resp) -> falls_back (fst (read_response jp resp w)).
Proof.
  intros Hf. unfold read_response.
  destruct (ok resp) eqn:Eok; [| reflexivity]. cbn [negb].
  destruct Hf as [Hf | Hf]; [congruence |].
  unfold bind at 1. destruct (body resp) as [data |]; [| exact I].
  cbn [ret]. unfold bind at 1.
  destruct data; try exact I; cbn [ret];
    unfold interpret_content;
    (destruct (content_of _) as [c |]; [| reflexivity]);
    (destruct (truthy (Some c)) eqn:Et; [| reflexivity]);
    (destruct Hf as [Hf | Hf]; [congruence |]); cbn [negb];
    unfold bind;
    pose proof (parseJSONSafely_unparseable jp c w Hf) as Hp;
    destruct (parseJSONSafely jp c w) as [[j | e] w1]; try exact I;
    simpl in Hp; subst j; reflexivity.
Qed.

Lemma console_only_no_fallback evs :
  console_only evs -> Forall (fun e => is_fallback e = false) evs.
Proof. apply Forall_impl. tauto. Qed.

Lemma console_only_no_fetch evs : console_only evs -> filter is_fetch evs = [].
Proof.
  induction 1 as [| e evs [_ He] _ IH]; [reflexivity |]. simpl. rewrite He. exact IH.
Qed.

Lemma extract_runs jp text env w :
  exists r evs,
    extractWaterIntent jp text env w
      = (Normal r, add_events (evs ++ [EvFallback text]) w) /\
    Forall (fun e => is_fallback e = false) evs /\
    length (filter is_fetch evs) <= 1 /\
    (is_falsy_key (OPENAI_API_KEY env) = true ->
       r = offline_result /\ filter is_fetch evs = []) /\
    (is_falsy_key (OPENAI_API_KEY env) = false ->
       failed_exchange jp (net w (request_for text env)) -> r = createFallbackResult).
Proof.
  unfold extractWaterIntent.
  destruct (is_falsy_key (OPENAI_API_KEY env)) eqn:Ek.
  - exists offline_result,
      [EvConsole "OPENAI_API_KEY not configured, returning ambiguous result"].
    split; [reflexivity |]. split; [repeat constructor |]. split; [simpl; lia |].
    split; [auto | discriminate].
  - set (rq := request_for text env).
    unfold bind at 1. cbn [emit].
    set (w1 := Build_World _ _ _ _).
    change w1 with (add_events [EvFallback text] w).
    unfold try_catch, bind, fetch. cbn [net add_events].
    set (w2 := Build_World _ _ _ (EvFetch rq :: _)).
    assert (Ew2 : w2 = add_events [EvFetch rq; EvFallback text] w) by reflexivity.
    assert (Hcatch : forall e0,
      console_only e0 ->
      exists r evs,
        (console "LLM extraction failed" ;;; ret createFallbackResult) (add_events e0 w2)
          = (Normal r, add_events (evs ++ [EvFallback text]) w) /\
        Forall (fun e => is_fallback e = false) evs /\
        length (filter is_fetch evs) <= 1 /\
        (false = true -> r = offline_result /\ filter is_fetch evs = []) /\
        (false = false -> failed_exchange jp (net w rq) -> r = createFallbackResult)).
    { intros e0 He0. exists createFallbackResult, (EvConsole "LLM extraction failed" :: e0 ++ [EvFetch rq]).
      split.
      - rewrite Ew2. unfold bind, console, emit, ret, add_events. cbn.
        rewrite <- !app_assoc. reflexivity.
      - split.
        + constructor; [reflexivity |]. apply Forall_app. split.
          * apply console_only_no_fallback, He0.
          * repeat constructor.
        + split.
          * cbn [filter is_fetch]. rewrite filter_app, (console_only_no_fetch e0 He0). simpl. lia.
          * split; [discriminate | reflexivity]. }
    destruct (net w rq) as [resp | |] eqn:En.
    2,3: (destruct (Hcatch [] (Forall_nil _)) as [r [evs H]]; rewrite add_events_nil in H;
          exists r, evs; exact H).
    destruct (quiet_read_response jp resp w2) as [res [e0 [Er He0]]].
    pose proof (read_response_failed jp resp w2) as Hfail. rewrite Er in *. cbn [fst] in Hfail.
    destruct res as [r | msg].
    + exists r, (e0 ++ [EvFetch rq]). split.
      * rewrite Ew2, add_events_app. rewrite <- app_assoc. reflexivity.
      * split.
        -- apply Forall_app. split; [apply console_only_no_fallback, He0 | repeat constructor].
        -- split.
           ++ rewrite filter_app, (console_only_no_fetch e0 He0). simpl. lia.
           ++ split; [discriminate |]. intros _ Hf. apply Hfail, Hf.
    + apply Hcatch, He0.
Qed.

End LlmFacts.
Export LlmFacts.

(** ** The resolver *)

Module ResolverFacts.

Local Open Scope Z_scope.

Lemma silent_ret A (a : A) : silent (ret a).
Proof. intros w. exists a, 0%nat. rewrite Nat.add_0_r. destruct w. reflexivity. Qed.

Lemma silent_Date_now : silent Date_now.
Proof. intros w. exists (now_ms w), 1%nat. rewrite Nat.add_1_r. reflexivity. Qed.

Lemma silent_bind A B (c : M A) (f : A -> M B) :
  silent c -> (forall a, silent (f a)) -> silent (bind c f).
Proof.
  intros Hc Hf w. unfold bind. destruct (Hc w) as [a [n ->]].
  destruct (Hf a (Build_World (clock w) (reads w + n) (net w) (trace w))) as [b [k ->]].
  exists b, (n + k)%nat. cbn. rewrite Nat.add_assoc. reflexivity.
Qed.

Lemma silent_nowISTString : silent nowISTString.
Proof. apply silent_bind; [apply silent_Date_now | intros; apply silent_ret]. Qed.

Lemma silent_logged_now a : silent (logged_now a).
Proof. apply silent_bind; [apply silent_nowISTString | intros; apply silent_ret]. Qed.

Lemma silent_todayMidnightIST : silent todayMidnightIST.
Proof.
  apply silent_bind; [| intros; apply silent_ret].
  apply silent_bind; [apply silent_Date_now | intros; apply silent_ret].
Qed.

Lemma silent_validateRetroactiveTime h : silent (validateRetroactiveTime h).
Proof.
  unfold validateRetroactiveTime. destruct (_ || _); [apply silent_ret |].
  unfold validate_same_day.
  apply silent_bind; [apply silent_Date_now |]. intros now.
  apply silent_bind; [apply silent_todayMidnightIST |]. intros mid.
  destruct (date_lt _ _); apply silent_ret.
Qed.

Lemma silent_parseWaterInputRegex text prefs : silent (parseWaterInputRegex text prefs).
Proof.
  destruct (parseWaterInputRegex_outcome text prefs);
    try apply silent_logged_now. apply silent_ret.
Qed.

Lemma silent_counts A (c : M A) w :
  silent c ->
  fallback_calls (snd (c w)) = fallback_calls w /\ fetch_calls (snd (c w)) = fetch_calls w.
Proof. intros H. destruct (H w) as [a [n ->]]. split; reflexivity. Qed.

Ltac silent_step :=
  first [ apply silent_ret
        | apply silent_nowISTString
        | apply silent_validateRetroactiveTime
        | apply silent_bind; [| intros ?] ].

Lemma silent_resolve text r : silent (resolve text r).
Proof.
  unfold resolve. destruct (_ && _); [apply silent_ret |].
  destruct (llm_intent r); try apply silent_ret.
  - destruct (llm_amount_ml r); [| apply silent_ret].
    destruct (_ || _); [apply silent_ret |].
    destruct (_ || _); [apply silent_ret |].
    destruct (relative_time r) as [[| c t] |]; repeat silent_step.
    destruct (parseRelativeOffset _); repeat silent_step.
    destruct a; apply silent_ret.
  - destruct (llm_amount_ml r); [| apply silent_ret].
    destruct (_ || _); [apply silent_ret |].
    destruct (_ || _); [apply silent_ret |].
    destruct (relative_time r) as [[| c t] |]; repeat silent_step.
    destruct (parseRelativeOffset _); repeat silent_step.
    destruct a; apply silent_ret.
  - destruct (llm_adjust_by_ml r); [| apply silent_ret].
    destruct (_ || _); apply silent_ret.
Qed.

(** The fallback path enters the fallback once and sends at most one request. *)
Lemma llm_calls_fallback jp text env w :
  fallback_calls (snd (parseWaterInputLLM jp text env w)) = S (fallback_calls w) /\
  (fetch_calls (snd (parseWaterInputLLM jp text env w)) <= S (fetch_calls w))%nat.
Proof.
  unfold parseWaterInputLLM, bind.
  destruct (extract_runs jp text env w) as [r [evs [-> [Hfb [Hfe _]]]]].
  set (w1 := add_events _ w).
  assert (Hw1 : fallback_calls w1 = S (fallback_calls w) /\
                (fetch_calls w1 <= S (fetch_calls w))%nat).
  { unfold w1, fallback_calls, fetch_calls, add_events. cbn [trace].
    rewrite <- !app_assoc, !filter_app, !length_app. cbn [app filter is_fallback is_fetch length].
    split; [| lia].
    replace (filter is_fallback evs) with (@nil Event); [reflexivity |].
    symmetry. clear -Hfb. induction Hfb as [| e l He _ IH]; [reflexivity |].
    simpl. rewrite He. exact IH. }
  destruct (silent_counts _ (resolve text r) w1 (silent_resolve text r)) as [-> ->].
  exact Hw1.
Qed.

Lemma regex_stage_normal text prefs w :
  exists r n, parseWaterInputRegex text prefs w
              = (Normal r, Build_World (clock w) (reads w + n) (net w) (trace w)).
Proof. apply silent_parseWaterInputRegex. Qed.

(** The deterministic result is a log stamped with the clock reading. *)
Lemma regex_stage_success text prefs w r w' :
  parseWaterInputRegex text prefs w = (Normal r, w') -> success r = true ->
  exists a, r = regex_log a (toISTString (Some (now_ms w))) /\ w' = tick w.
Proof.
  intros Hrun Hs.
  destruct (regex_outcome_run _ _ (parseWaterInputRegex_outcome text prefs)) as [[a E] | E];
    rewrite E in Hrun.
  - exists a. apply logged_now_inv, Hrun.
  - injection Hrun as <- <-. discriminate Hs.
Qed.

Lemma parseWaterInput_short_circuit jp text prefs env w r w' :
  parseWaterInputRegex text prefs w = (Normal r, w') -> success r = true ->
  test TIME_PHRASE_REGEX text = false ->
  parseWaterInput jp text prefs env w = (Normal r, w').
Proof.
  intros Hrun Hs Ht. unfold parseWaterInput, bind. rewrite Hrun, Hs, Ht. reflexivity.
Qed.

Lemma parseWaterInput_fallback jp text prefs env w :
  test TIME_PHRASE_REGEX text = true \/
  (forall r w', parseWaterInputRegex text prefs w = (Normal r, w') -> success r = false) ->
  parseWaterInput jp text prefs env w
  = parseWaterInputLLM jp text env (snd (parseWaterInputRegex text prefs w)).
Proof.
  intros H. unfold parseWaterInput, bind.
  destruct (regex_stage_normal text prefs w) as [r [n E]]. rewrite E. cbn [snd].
  destruct H as [Ht | Hf].
  - rewrite Ht. cbn [negb]. rewrite andb_false_r. destruct (success r && true); reflexivity.
  - rewrite (Hf _ _ E). reflexivity.
Qed.

(** The guard at the head of the fallback path: a text with "yesterday" or
    "last night" and an answer that leans to a log is answered with the
    today-only clarification, and nothing else happens. *)
Lemma yesterday_guard text r w :
  test YESTERDAY_REGEX text = true ->
  intent_eqb (llm_intent r) log || is_some (llm_amount_ml r) = true ->
  resolve text r w = (Normal (clarification PROMPT_TODAY_ONLY), w).
Proof.
  intros Hy Hl. unfold resolve. rewrite Hy, Hl. reflexivity.
Qed.

End ResolverFacts.
Export ResolverFacts.

(** ** Cues of time reference *)

Module CueFacts.

Local Open Scope nat_scope.

Lemma is_word_canon c : is_word (canon c) = is_word c.
Proof.
  apply Bool.eqb_prop.
  exact (ascii_forallb (fun c => Bool.eqb (is_word (canon c)) (is_word c)) eq_refl c).
Qed.

Lemma ci_eq_word u w : ci_eq u w -> all_true is_word w -> all_true is_word u.
Proof.
  unfold ci_eq. revert w. induction u as [| a u IH]; intros w E Hw; [constructor |].
  destruct w as [| c w]; [discriminate |]. simpl in E. injection E as Ea Eu.
  inversion Hw as [| ? ? Hc Hw']; subst. constructor.
  - rewrite <- is_word_canon, Ea, is_word_canon. exact Hc.
  - eapply IH; eassumption.
Qed.

Lemma reach_str_i w : forall u p post cs,
  ci_eq u (lit w) ->
  reach (str_i w) (MState p (u ++ post) cs) (MState (last_or p u) post cs).
Proof.
  unfold ci_eq, str_i, lit.
  induction w as [| c w IH]; intros u p post cs E.
  - destruct u; [| discriminate]. constructor.
  - destruct u as [| a u]; [discriminate |]. simpl in E. injection E as Ea Eu.
    assert (Hone : reach (chr_i c) (MState p ((a :: u) ++ post) cs)
                     (MState (Some a) (u ++ post) cs)).
    { apply (@R_chr _ a (u ++ post) (MState p ((a :: u) ++ post) cs)); [reflexivity |].
      rewrite Ea. apply Ascii.eqb_refl. }
    rewrite last_or_cons.
    destruct w as [| c' w'].
    + destruct u; [| discriminate]. exact Hone.
    + change (str_with chr_i (String c (String c' w')))
        with (Seq (chr_i c) (str_with chr_i (String c' w'))).
      eapply R_seq; [exact Hone |]. apply IH. exact Eu.
Qed.

Lemma reach_alts l r s s' : In r l -> reach r s s' -> reach (alts l) s s'.
Proof.
  induction l as [| r0 l IH]; intros Hin Hr; [contradiction |].
  destruct l as [| r1 l].
  - destruct Hin as [-> | []]. exact Hr.
  - change (alts (r0 :: r1 :: l)) with (Alt r0 (alts (r1 :: l))).
    destruct Hin as [-> | Hin]; [apply R_alt_l, Hr | apply R_alt_r, IH; assumption].
Qed.

Lemma last_or_word p u : u <> [] -> all_true is_word u ->
  exists c, last_or p u = Some c /\ is_word c = true.
Proof.
  intros Hne Hu. destruct u as [| x xs]; [contradiction |].
  apply last_or_all. exact Hu.
Qed.

Lemma time_words_are_words w : In w TIME_WORDS -> lit w <> [] /\ all_true is_word (lit w).
Proof.
  intros Hin. unfold TIME_WORDS in Hin. simpl in Hin.
  repeat (destruct Hin as [<- | Hin];
          [split; [discriminate | repeat constructor] |]).
  contradiction.
Qed.

Lemma not_word_before_spec pre cs rest0 :
  not_word_before pre -> word_before (MState (last_or None pre) rest0 cs) = false.
Proof.
  unfold not_word_before, word_before, last_or. cbn [prev].
  destruct (rev pre); auto.
Qed.

Lemma time_cue_test text : has_time_cue text -> test TIME_PHRASE_REGEX text = true.
Proof.
  intros [w [Hin [pre [u [post [-> [Eci [Hb Ha]]]]]]]].
  destruct (time_words_are_words w Hin) as [Hne Hw].
  pose proof (ci_eq_word u (lit w) Eci Hw) as Hu.
  assert (Hune : u <> []).
  { intros ->. unfold ci_eq in Eci. destruct (lit w); [contradiction | discriminate]. }
  unfold test, exec.
  destruct (search TIME_PHRASE_REGEX None (pre ++ u ++ post)) eqn:E; [reflexivity |].
  exfalso. revert E. eapply search_complete.
  unfold TIME_PHRASE_REGEX. cbn [seqs].
  set (s0 := MState (last_or None pre) (u ++ post) []).
  eapply R_seq.
  - apply R_wordb. unfold s0. rewrite not_word_before_spec by exact Hb.
    unfold word_after. cbn [rest]. destruct u as [| a u]; [contradiction |].
    inversion Hu; subst. cbn. assumption.
  - eapply R_seq.
    + apply R_group. eapply reach_alts; [apply in_map, Hin |].
      apply reach_str_i. exact Eci.
    + apply R_wordb. unfold set_cap, word_before, word_after. cbn [prev rest].
      destruct (last_or_word (last_or None pre) u Hune Hu) as [c [-> Hc]]. rewrite Hc.
      destruct post as [| b post]; [reflexivity |]. simpl in Ha. rewrite Ha. reflexivity.
Qed.

End CueFacts.
Export CueFacts.

(** ** The clock and the calendar *)

Module TimeFacts.

Local Open Scope Z_scope.

(** The year of the era and the day of the year, as [civil_from_days]
    computes them from the day of the era. *)
Lemma year_of_era_bounds doe : 0 <= doe < 146097 ->
  let yoe := (doe - doe / 1460 + doe / 36524 - doe / 146096) / 365 in
  let doy := doe - (365 * yoe + yoe / 4 - yoe / 100) in
  0 <= yoe <= 399 /\ 0 <= doy <= 365.
Proof.
  intros H. cbv zeta.
  assert (Hc : doe / 146096 = 0 \/ doe / 146096 = 1).
  { assert (0 <= doe / 146096 <= 1); [| lia].
    split; [apply Z.div_pos; lia | apply Z.div_le_upper_bound; lia]. }
  assert (Hb : 0 <= doe / 36524 <= 4).
  { split; [apply Z.div_pos; lia | apply Z.div_le_upper_bound; lia]. }
  assert (Hb' : doe / 36524 = 0 \/ doe / 36524 = 1 \/ doe / 36524 = 2
                \/ doe / 36524 = 3 \/ doe / 36524 = 4) by lia.
  destruct Hc as [Hc | Hc]; destruct Hb' as [Hb' | [Hb' | [Hb' | [Hb' | Hb']]]];
    (Z.div_mod_to_equations; lia).
Qed.

(** A calendar date leads back to its day number. *)
Lemma civil_roundtrip z :
  days_from_civil (fst (fst (civil_from_days z))) (snd (fst (civil_from_days z))) 1
    + snd (civil_from_days z) - 1 = z /\
  1 <= snd (fst (civil_from_days z)) <= 12 /\
  400 * ((z + 719468) / 146097) <= fst (fst (civil_from_days z)).
Proof.
  unfold civil_from_days, days_from_civil. cbv zeta. cbn [fst snd].
  set (era := (z + 719468) / 146097). set (doe := (z + 719468) mod 146097).
  assert (Hdoe : 0 <= doe < 146097) by (apply Z.mod_pos_bound; lia).
  assert (Hz : z + 719468 = 146097 * era + doe) by (apply Z.div_mod; lia).
  pose proof (year_of_era_bounds doe Hdoe) as Hy. cbv zeta in Hy.
  set (yoe := (doe - doe / 1460 + doe / 36524 - doe / 146096) / 365) in *.
  set (doy := doe - (365 * yoe + yoe / 4 - yoe / 100)) in *.
  destruct Hy as [Hyoe Hdoy].
  set (mp := (5 * doy + 2) / 153).
  assert (Hmp : 0 <= mp <= 11).
  { unfold mp. split; [apply Z.div_pos; lia |].
    assert ((5 * doy + 2) / 153 < 12) by (apply Z.div_lt_upper_bound; lia). lia. }
  destruct (mp <? 10) eqn:Emp.
  - apply Z.ltb_lt in Emp.
    replace (mp + 3 <=? 2) with false by (symmetry; apply Z.leb_gt; lia).
    replace (2 <? mp + 3) with true by (symmetry; apply Z.ltb_lt; lia).
    replace (yoe + era * 400 + 0 - 0) with (yoe + era * 400) by lia.
    rewrite Z.div_add, Z.mod_add by lia.
    rewrite (Z.div_small yoe 400), (Z.mod_small yoe 400) by lia.
    replace (mp + 3 - 3) with mp by lia.
    split; [unfold doy; lia | lia].
  - apply Z.ltb_ge in Emp.
    replace (mp - 9 <=? 2) with true by (symmetry; apply Z.leb_le; lia).
    replace (2 <? mp - 9) with false by (symmetry; apply Z.ltb_ge; lia).
    replace (yoe + era * 400 + 1 - 1) with (yoe + era * 400) by lia.
    rewrite Z.div_add, Z.mod_add by lia.
    rewrite (Z.div_small yoe 400), (Z.mod_small yoe 400) by lia.
    replace (mp - 9 + 9) with mp by lia.
    split; [unfold doy; lia | lia].
Qed.

Lemma todayMidnight_floor t : 0 <= t ->
  Date_UTC (getUTCFullYear t) (getUTCMonth t) (getUTCDate t) = t / msPerDay * msPerDay.
Proof.
  intros Ht. unfold Date_UTC, getUTCFullYear, getUTCMonth, getUTCDate.
  assert (Hd : 0 <= t / msPerDay) by (apply Z.div_pos; unfold msPerDay; lia).
  pose proof (civil_roundtrip (t / msPerDay)) as H.
  destruct (civil_from_days (t / msPerDay)) as [[y mo] d]. cbn [fst snd] in *.
  destruct H as [H1 [H2 H3]].
  assert (Hy : 1600 <= y).
  { assert (4 <= (t / msPerDay + 719468) / 146097) by (apply Z.div_le_lower_bound; lia).
    lia. }
  replace ((0 <=? y) && (y <=? 99)) with false
    by (symmetry; apply andb_false_iff; right; apply Z.leb_gt; lia).
  rewrite (Z.div_small (mo - 1) 12), (Z.mod_small (mo - 1) 12) by lia.
  replace (y + 0) with y by lia. replace (mo - 1 + 1) with mo by lia.
  rewrite H1. reflexivity.
Qed.

Lemma ist_day_start_spec t :
  ist_day_start t <= t < ist_day_start t + msPerDay /\
  (ist_day_start t + IST_OFFSET_MS) mod msPerDay = 0.
Proof.
  unfold ist_day_start, msPerDay, IST_OFFSET_MS.
  pose proof (Z.div_mod (t + 19800000) 86400000 ltac:(lia)).
  pose proof (Z.mod_pos_bound (t + 19800000) 86400000 ltac:(lia)).
  split; [lia |].
  replace (_ - 19800000 + 19800000) with ((t + 19800000) / 86400000 * 86400000) by lia.
  apply Z.mod_mul. lia.
Qed.

Lemma todayMidnightIST_run w : 0 <= now_ms w ->
  todayMidnightIST w = (Normal (ist_day_start (now_ms w) + IST_OFFSET_MS), tick w).
Proof.
  intros Hn. unfold todayMidnightIST, nowIST, bind, Date_now, ret. cbv beta iota.
  fold (now_ms w). fold (tick w).
  rewrite todayMidnight_floor by (unfold IST_OFFSET_MS; lia).
  unfold ist_day_start. f_equal. f_equal. lia.
Qed.

Lemma Qltb_true a b : Qltb a b = true <-> (a < b)%Q.
Proof.
  unfold Qltb. rewrite negb_true_iff. split.
  - intros H. apply Qnot_le_lt. intros Hle. apply Qle_bool_iff in Hle. congruence.
  - intros H. destruct (Qle_bool b a) eqn:E; [| reflexivity].
    apply Qle_bool_iff in E. exfalso. eapply Qlt_not_le; eassumption.
Qed.

Lemma Qltb_false a b : Qltb a b = false <-> (b <= a)%Q.
Proof.
  unfold Qltb. rewrite negb_false_iff. apply Qle_bool_iff.
Qed.

(** A reading of the clock is a time value. *)
Lemma now_ms_range w : - 8640000000000000 <= now_ms w <= 8640000000000000.
Proof. unfold now_ms, time_value. lia. Qed.

Lemma Qtrunc_le x n : (x <= inject_Z n)%Q -> Qtrunc x <= n.
Proof.
  intros H. unfold Qtrunc. destruct (Qle_bool 0 x).
  - rewrite <- (Qfloor_Z n). apply Qfloor_resp_le, H.
  - rewrite <- (Qceiling_Z n). apply Qceiling_resp_le, H.
Qed.

Lemma Qtrunc_ge x n : (inject_Z n <= x)%Q -> n <= Qtrunc x.
Proof.
  intros H. unfold Qtrunc. destruct (Qle_bool 0 x).
  - rewrite <- (Qfloor_Z n). apply Qfloor_resp_le, H.
  - rewrite <- (Qceiling_Z n). apply Qceiling_resp_le, H.
Qed.


(** The offset in milliseconds, as the three products compute it, is the
    exact one up to 2^-26, and lies in the twelve hours. *)
Lemma offset_ms_bounds q : (0 <= q)%Q -> (q <= 12)%Q ->
  let a := round53 (round53 (round53 (q * 60) * 60) * 1000) in
  (0 <= a /\ a <= 43200000 /\
   q * 3600000 - (1 # 67108864) <= a /\ a <= q * 3600000 + (1 # 67108864))%Q.
Proof.
  intros H0 H12.
  assert (B1 : (0 <= q * 60)%Q) by lra.
  pose proof (round53_nonneg _ B1) as N1.
  pose proof (round53_le (q * 60) 720 ltac:(lia) ltac:(change (inject_Z 720) with 720%Q; lra)) as U1.
  pose proof (round53_err _ B1) as [E1 E1'].
  change (inject_Z 720) with 720%Q in U1.
  set (a1 := round53 (q * 60)) in *.
  assert (B2 : (0 <= a1 * 60)%Q) by lra.
  pose proof (round53_nonneg _ B2) as N2.
  pose proof (round53_le (a1 * 60) 43200 ltac:(lia) ltac:(change (inject_Z 43200) with 43200%Q; lra)) as U2.
  pose proof (round53_err _ B2) as [E2 E2'].
  change (inject_Z 43200) with 43200%Q in U2.
  set (a2 := round53 (a1 * 60)) in *.
  assert (B3 : (0 <= a2 * 1000)%Q) by lra.
  pose proof (round53_nonneg _ B3) as N3.
  pose proof (round53_le (a2 * 1000) 43200000 ltac:(lia)
                ltac:(change (inject_Z 43200000) with 43200000%Q; lra)) as U3.
  pose proof (round53_err _ B3) as [E3 E3'].
  change (inject_Z 43200000) with 43200000%Q in U3.
  set (a3 := round53 (a2 * 1000)) in *.
  cbv zeta. repeat split; try assumption; lra.
Qed.

(** The target lies in the twelve hours before the reading. *)
Lemma target_ms_window now q : (0 <= q)%Q -> (q <= 12)%Q ->
  - 8640000000000000 <= now <= 8640000000000000 ->
  now - 43200000 <= target_ms now q <= now.
Proof.
  intros H0 H12 Hn. unfold target_ms.
  destruct (offset_ms_bounds q H0 H12) as [A0 [A1 _]].
  set (a := round53 (round53 (round53 (q * 60) * 60) * 1000)) in *.
  split.
  - apply Qtrunc_ge. apply round53_ge; [lia |].
    replace (now - 43200000) with (now + -43200000) by lia.
    rewrite inject_Z_plus. change (inject_Z (-43200000)) with (-43200000 # 1)%Q. lra.
  - apply Qtrunc_le. apply round53_le; [lia |]. lra.
Qed.



(** An offset of 2^-35 hours is lost when it is taken from a clock reading
    of our days: at the first millisecond of an IST day the target is that
    millisecond, and the offset is accepted. *)
Example target_ms_rounds :
  target_ms 1793644200000 (1 # 34359738368) = 1793644200000.
Proof. vm_compute. reflexivity. Qed.

Example validate_at_day_start :
  fst (validateRetroactiveTime (Num (1 # 34359738368))
         (Build_World (fun _ => 1793644200000) 0 (fun _ => NetworkError) []))
  = Normal (Some (lit "2026-11-03T00:00:00+05:30")).
Proof. vm_compute. reflexivity. Qed.


End TimeFacts.
Export TimeFacts.

(** ** Relative offsets *)

Module OffsetFacts.

Local Open Scope Z_scope.

Lemma parseRelativeOffset_eq phrase :
  parseRelativeOffset (Some phrase) =
  let lower := trim (toLowerCase phrase) in
  match exec HOURS_AGO_REGEX lower with
  | Some x => Some (number_of_int (parseInt_group 1 x))
  | None =>
      match exec MINUTES_AGO_REGEX lower with
      | Some x => Some (number_div60 (parseInt_group 1 x))
      | None => None
      end
  end.
Proof.
  destruct phrase as [| c phrase]; [reflexivity |].
  unfold parseRelativeOffset. cbv zeta.
  destruct (exec HOURS_AGO_REGEX _); [reflexivity |].
  destruct (exec MINUTES_AGO_REGEX _); [reflexivity |].
  destruct (_ || _); reflexivity.
Qed.

Lemma led_number R t x :
  no_groups R = true ->
  exec (Seq (Group 1 digits) R) t = Some x ->
  exists n, parseInt_group 1 x = Some n /\ 0 <= n.
Proof.
  intros Hn E. destruct (led_capture R t x Hn E) as [d [ds [G Hd]]].
  unfold parseInt_group. rewrite G. rewrite parseInt_digits by exact Hd.
  eexists. split; [reflexivity | apply double_of_Z_nonneg; lia].
Qed.

Lemma hours_number t x : exec HOURS_AGO_REGEX t = Some x ->
  exists n, parseInt_group 1 x = Some n /\ 0 <= n.
Proof. apply (led_number _ t x). reflexivity. Qed.

Lemma minutes_number t x : exec MINUTES_AGO_REGEX t = Some x ->
  exists n, parseInt_group 1 x = Some n /\ 0 <= n.
Proof. apply (led_number _ t x). reflexivity. Qed.

Lemma trim_keep x xs tl y rtl :
  is_space x = false -> rev tl = y :: rtl -> is_space y = false ->
  trim ((x :: xs) ++ tl) = (x :: xs) ++ tl.
Proof.
  intros Hx Etl Hy. unfold trim. cbn [app drop_while]. rewrite Hx.
  change (x :: xs ++ tl) with ((x :: xs) ++ tl).
  rewrite rev_app_distr, Etl. cbn [app drop_while]. rewrite Hy.
  change (y :: rtl ++ rev (x :: xs)) with ((y :: rtl) ++ rev (x :: xs)).
  rewrite <- Etl, <- rev_app_distr. apply rev_involutive.
Qed.

Lemma digit_not_space c : is_digit c = true -> is_space c = false.
Proof.
  intros H. apply negb_true_iff.
  exact (digits_forallb (fun c => negb (is_space c)) eq_refl c H).
Qed.

Local Open Scope nat_scope.

Lemma hours_hit x xs tl :
  In tl [" hours ago"; " hour ago"]%string ->
  all_true is_digit (x :: xs) ->
  exists y, exec HOURS_AGO_REGEX ((x :: xs) ++ lit tl) = Some y /\ group 1 y = Some (x :: xs).
Proof.
  intros Hin Hd. unfold HOURS_AGO_REGEX. cbn [seqs].
  simpl in Hin. destruct Hin as [<- | [<- | []]];
    (apply exec_led_hit;
     [ apply reads_run_digits; reflexivity | vm_compute; reflexivity | exact Hd | tail_hit ]).
Qed.

Lemma minutes_hit x xs tl :
  In tl [" minutes ago"; " minute ago"; " mins ago"; " min ago"]%string ->
  all_true is_digit (x :: xs) ->
  exists y, exec MINUTES_AGO_REGEX ((x :: xs) ++ lit tl) = Some y /\ group 1 y = Some (x :: xs).
Proof.
  intros Hin Hd. unfold MINUTES_AGO_REGEX. cbn [seqs].
  simpl in Hin. destruct Hin as [<- | [<- | [<- | [<- | []]]]];
    (apply exec_led_hit;
     [ apply reads_run_digits; reflexivity | vm_compute; reflexivity | exact Hd | tail_hit ]).
Qed.

Lemma hours_miss_minutes ds tl :
  In tl [" minutes ago"; " minute ago"; " mins ago"; " min ago"]%string ->
  all_true is_digit ds -> exec HOURS_AGO_REGEX (ds ++ lit tl) = None.
Proof.
  intros Hin. simpl in Hin. destruct Hin as [<- | [<- | [<- | [<- | []]]]];
    apply (needs_none (one_of "h")); vm_compute; reflexivity.
Qed.

Lemma phrase_clean x xs tl :
  In tl [" hours ago"; " hour ago"; " minutes ago"; " minute ago"; " mins ago"; " min ago"]%string ->
  all_true is_digit (x :: xs) ->
  trim (toLowerCase ((x :: xs) ++ lit tl)) = (x :: xs) ++ lit tl.
Proof.
  intros Hin Hd. rewrite toLowerCase_digits by exact Hd.
  inversion Hd as [| ? ? Hx _]; subst.
  simpl in Hin.
  repeat (destruct Hin as [<- | Hin];
          [ eapply trim_keep; [apply digit_not_space, Hx | vm_compute; reflexivity | reflexivity] |]).
  contradiction.
Qed.

Local Open Scope Z_scope.

(** *** The leftmost number *)

Local Open Scope nat_scope.

(** The first place at which the search succeeds; no earlier place does. *)
Lemma search_first r : forall t p x,
  search r p t = Some x ->
  exists pre suf, t = pre ++ suf /\
    match_at r (last_or p pre) suf = Some x /\
    forall pre1 c suf1, pre = pre1 ++ c :: suf1 ->
      match_at r (last_or p pre1) (c :: suf1 ++ suf) = None.
Proof.
  induction t as [| c t IH]; intros p x H; cbn [search] in H.
  - destruct (match_at r p []) eqn:E; [| discriminate].
    exists [], []. split; [reflexivity |].
    change (last_or p []) with p. split; [rewrite E; exact H |].
    intros pre1 c suf1 E1. destruct pre1; discriminate.
  - destruct (match_at r p (c :: t)) eqn:E.
    + exists [], (c :: t). split; [reflexivity |].
      change (last_or p []) with p. split; [rewrite E; exact H |].
      intros pre1 c1 suf1 E1. destruct pre1; discriminate.
    + destruct (IH (Some c) x H) as [pre [suf [-> [Hm Hno]]]].
      exists (c :: pre), suf. split; [reflexivity |].
      split; [rewrite last_or_cons; exact Hm |].
      intros pre1 c1 suf1 E1. destruct pre1 as [| a pre1].
      * injection E1 as <- <-. exact E.
      * injection E1 as <- ->. rewrite last_or_cons. apply Hno. reflexivity.
Qed.

Lemma match_at_complete r p t s' :
  reach r (MState p t []) s' -> match_at r p t <> None.
Proof.
  intros H. unfold match_at. cbv zeta.
  destruct (m r Some (MState p t [])) eqn:E; [discriminate |].
  exfalso. apply (m_complete _ _ _ H Some); [discriminate | exact E].
Qed.

Lemma digits_lang ds : ds <> [] -> all_true is_digit ds -> lang digits ds.
Proof.
  intros Hne Hd. destruct ds as [| x xs]; [contradiction |].
  inversion Hd as [| ? ? Hx Hxs]; subst.
  exists [x], xs. split; [reflexivity |]. split; [exists x; auto |].
  exists (map (fun c => [c]) xs). split.
  - clear. induction xs as [| c xs IH]; [reflexivity |]. simpl. f_equal. exact IH.
  - clear - Hxs. induction Hxs as [| c xs Hc _ IH]; [constructor |].
    simpl. constructor; [| exact IH]. split; [discriminate | exists c; auto].
Qed.

(** A place where the pattern matches begins with a number and a word of
    the tail, and the other way round. *)
Lemma match_at_number_then R p t x :
  match_at (Seq (Group 1 digits) R) p t = Some x ->
  exists ds, number_then R ds t.
Proof.
  intros H. destruct (match_at_sound _ _ _ _ H) as [s' [Hr _]].
  destruct (reach_lang _ _ _ Hr) as [w [Ew Hl]]. cbn [rest] in Ew.
  destruct Hl as [w1 [w2 [-> [H1 H2]]]]. cbn [lang] in H1.
  destruct (lang_digits w1 H1) as [Hne Hd].
  exists w1, w2, (rest s'). rewrite <- app_assoc in Ew. auto.
Qed.

Lemma number_then_match_at R p ds t :
  assertion_free R = true -> number_then R ds t ->
  match_at (Seq (Group 1 digits) R) p t <> None.
Proof.
  intros Hf [w [post [-> [Hne [Hd Hl]]]]].
  assert (HL : lang (Seq (Group 1 digits) R) (ds ++ w)).
  { exists ds, w. split; [reflexivity |]. split; [| exact Hl].
    cbn [lang]. apply digits_lang; assumption. }
  destruct (lang_reach (Seq (Group 1 digits) R) ltac:(cbn [assertion_free]; rewrite Hf; reflexivity)
              (ds ++ w) HL p post []) as [s' [Hr _]].
  rewrite <- app_assoc in Hr. exact (match_at_complete _ _ _ _ Hr).
Qed.

(** The head of a word of a tail that no digit can open is not a digit. *)
Lemma tail_head R w post :
  assertion_free R = true -> forallb (fun c => blocked c R) all_digits = true ->
  lang R w -> nondigit_head (w ++ post).
Proof.
  intros Hf Hb Hl. destruct (w ++ post) as [| c tl] eqn:E; [exact I |]. cbn.
  destruct (is_digit c) eqn:Hc; [exfalso | reflexivity].
  destruct (lang_reach R Hf w Hl None post []) as [s' [Hr _]]. rewrite E in Hr.
  apply (m_complete _ _ _ Hr Some); [discriminate |].
  apply (blocked_spec c R (digits_forallb _ Hb c Hc) Some _ tl). reflexivity.
Qed.

(** The search stops at the leftmost number followed by the tail, and
    captures that number. *)
Lemma leftmost_exec R t ds :
  assertion_free R = true -> no_groups R = true ->
  forallb (fun c => blocked c R) all_digits = true ->
  leftmost_number R t ds ->
  exists y, exec (Seq (Group 1 digits) R) t = Some y /\ group 1 y = Some ds.
Proof.
  intros Hf Hg Hb [pre [suf [-> [Hnt Hmin]]]].
  unfold exec. rewrite search_skip.
  2: { intros pre1 c suf1 E.
       destruct (match_at _ _ _) eqn:Em; [exfalso | reflexivity].
       destruct (match_at_number_then _ _ _ _ Em) as [ds' Hn'].
       apply (Hmin pre1 (c :: suf1 ++ suf) ds');
         [ rewrite E, <- app_assoc; reflexivity
         | rewrite E, length_app; simpl; lia
         | exact Hn' ]. }
  destruct Hnt as [w [post [-> [Hne [Hd Hl]]]]].
  destruct ds as [| x xs]; [contradiction |].
  set (p := last_or None pre).
  assert (Em : exists y,
             match_at (Seq (Group 1 digits) R) p ((x :: xs) ++ w ++ post) = Some y
             /\ group 1 y = Some (x :: xs)).
  { rewrite led_match_at;
      [ | apply reads_run_digits, (tail_head R); assumption | exact Hb | exact Hd ].
    destruct (lang_reach R Hf w Hl (last_or p (x :: xs)) post [(1, x :: xs)])
      as [s' [Hr _]].
    destruct (m R Some _) as [s1 |] eqn:E1.
    - eexists. split; [reflexivity |]. unfold group. cbn [groups].
      destruct (m_sound _ _ _ _ E1) as [s2 [Hr2 E2]]. injection E2 as ->.
      rewrite (reach_caps _ _ _ Hr2 Hg). reflexivity.
    - exfalso. apply (m_complete _ _ _ Hr Some); [discriminate | exact E1]. }
  destruct Em as [y [Em Gy]]. exists y. split; [| exact Gy].
  change ((x :: xs) ++ w ++ post) with (x :: xs ++ w ++ post) in *.
  cbn [search]. rewrite Em. reflexivity.
Qed.

(** Where the search succeeds there is a leftmost number. *)
Lemma exec_leftmost R t y :
  assertion_free R = true ->
  exec (Seq (Group 1 digits) R) t = Some y ->
  exists ds, leftmost_number R t ds.
Proof.
  intros Hf E. destruct (search_first _ _ _ _ E) as [pre [suf [-> [Hm Hno]]]].
  destruct (match_at_number_then _ _ _ _ Hm) as [ds Hn].
  exists ds, pre, suf. split; [reflexivity |]. split; [exact Hn |].
  intros pre' suf' ds' E' Hlen Hn'.
  apply app_eq_app in E'. destruct E' as [l [[E1 E2] | [E1 E2]]].
  - destruct l as [| c suf1].
    + rewrite app_nil_r in E1. subst pre'. lia.
    + apply (number_then_match_at R (last_or None pre') ds' suf' Hf Hn').
      rewrite E2. apply (Hno pre' c suf1 E1).
  - rewrite E1, length_app in Hlen. lia.
Qed.

Lemma exec_mentions R t :
  assertion_free R = true ->
  (exec (Seq (Group 1 digits) R) t <> None <-> mentions R t).
Proof.
  intros Hf. split.
  - destruct (exec _ t) as [y |] eqn:E; [intros _ | contradiction].
    destruct (exec_leftmost R t y Hf E) as [ds [pre [suf [Et [Hn _]]]]].
    exists pre, ds, suf. auto.
  - intros [pre [ds [suf [-> [w [post [-> [Hne [Hd Hl]]]]]]]]].
    apply exec_occurs; [cbn [assertion_free]; rewrite Hf; reflexivity |].
    exists pre, (ds ++ w), post. split; [rewrite <- app_assoc; reflexivity |].
    exists ds, w. split; [reflexivity |]. split; [| exact Hl].
    cbn [lang]. apply digits_lang; assumption.
Qed.

Local Open Scope Z_scope.

Lemma hours_regex_split : HOURS_AGO_REGEX = Seq (Group 1 digits) HOURS_TAIL.
Proof. reflexivity. Qed.

Lemma minutes_regex_split : MINUTES_AGO_REGEX = Seq (Group 1 digits) MINUTES_TAIL.
Proof. reflexivity. Qed.

(** The number a pattern reads at its leftmost place. *)
Lemma leftmost_parseInt R t ds :
  assertion_free R = true -> no_groups R = true ->
  forallb (fun c => blocked c R) all_digits = true ->
  leftmost_number R t ds ->
  exists y, exec (Seq (Group 1 digits) R) t = Some y /\
            parseInt_group 1 y = Some (double_of_Z (number_of ds)).
Proof.
  intros Hf Hg Hb Hl.
  destruct (leftmost_exec R t ds Hf Hg Hb Hl) as [y [Ey Gy]].
  exists y. split; [exact Ey |]. unfold parseInt_group. rewrite Gy.
  destruct Hl as [pre [suf [_ [[w [post [_ [Hne [Hd _]]]]] _]]]].
  destruct ds as [| x xs]; [contradiction |]. apply parseInt_number, Hd.
Qed.

Lemma no_mention_exec R t :
  assertion_free R = true -> ~ mentions R t -> exec (Seq (Group 1 digits) R) t = None.
Proof.
  intros Hf Hn. destruct (exec _ t) eqn:E; [| reflexivity].
  exfalso. apply Hn. apply (exec_mentions R t Hf). rewrite E. discriminate.
Qed.

Lemma mention_leftmost R t :
  assertion_free R = true -> mentions R t -> exists ds, leftmost_number R t ds.
Proof.
  intros Hf Hm. apply (exec_mentions R t Hf) in Hm.
  destruct (exec _ t) as [y |] eqn:E; [| contradiction].
  exact (exec_leftmost R t y Hf E).
Qed.

(** A word the pattern consumes whole when run on it is a word of the
    pattern. *)
Lemma lang_by_run R w :
  (exists s', m R Some (MState None w []) = Some s' /\ rest s' = []) -> lang R w.
Proof.
  intros [s' [E Hr]]. destruct (m_sound _ _ _ _ E) as [s2 [Hreach E2]].
  injection E2 as ->. destruct (reach_lang _ _ _ Hreach) as [w0 [Ew Hl]].
  cbn [rest] in Ew. rewrite Hr, app_nil_r in Ew. rewrite Ew. exact Hl.
Qed.

End OffsetFacts.
Export OffsetFacts.

(** ** Bottle sizes *)

Module SizeFacts.

Local Open Scope Z_scope.




Lemma trim_id s :
  match s with c :: _ => is_space c = false | [] => True end ->
  match rev s with c :: _ => is_space c = false | [] => True end ->
  trim s = s.
Proof.
  intros H1 H2. unfold trim.
  assert (E1 : drop_while is_space s = s).
  { destruct s as [| c s]; [reflexivity |]. simpl. rewrite H1. reflexivity. }
  rewrite E1.
  assert (E2 : drop_while is_space (rev s) = rev s).
  { destruct (rev s) as [| c t]; [reflexivity |]. simpl. rewrite H2. reflexivity. }
  rewrite E2. apply rev_involutive.
Qed.

Lemma trim_digits_led x xs tl :
  all_true is_digit (x :: xs) ->
  match rev tl with
  | c :: _ => is_space c = false
  | [] => True
  end ->
  trim ((x :: xs) ++ tl) = (x :: xs) ++ tl.
Proof.
  intros Hd Htl. apply trim_id.
  - inversion Hd; subst. apply digit_not_space. assumption.
  - rewrite rev_app_distr. destruct (rev tl) as [| c t] eqn:E.
    + cbn [app]. destruct (rev (x :: xs)) as [| c t] eqn:E'; [exact I |].
      apply digit_not_space. unfold all_true in Hd. rewrite Forall_forall in Hd.
      apply Hd. apply in_rev. rewrite E'. left. reflexivity.
    + exact Htl.
Qed.

Lemma search_bol_later r t : forall c, search (Seq Bol r) (Some c) t = None.
Proof. induction t as [| a t IH]; intros c; [reflexivity |]. cbn [search]. 
  change (match_at (Seq Bol r) (Some c) (a :: t)) with (@None rmatch). apply IH.
Qed.

Local Open Scope nat_scope.

Lemma m_bol_start k s : prev s = None -> m Bol k s = k s.
Proof. intros H. simpl. rewrite H. reflexivity. Qed.

Lemma eol_fails_on p : fails_on p (m Eol Some).
Proof. intros s c w E _. simpl. rewrite E. reflexivity. Qed.

Lemma just_number_none x xs c tl :
  all_true is_digit (x :: xs) -> is_digit c = false ->
  exec JUST_NUMBER_REGEX ((x :: xs) ++ c :: tl) = None.
Proof.
  intros Hd Hc. unfold exec, JUST_NUMBER_REGEX. cbn [seqs app search].
  rewrite search_bol_later.
  unfold match_at. rewrite m_seq, m_bol_start by reflexivity. rewrite m_seq.
  unfold digits, digit.
  rewrite (group_run 1 is_digit) with (x := x) (xs := xs) (tl := c :: tl);
    [reflexivity | apply eol_fails_on | exact Hd | exact Hc | reflexivity].
Qed.



Ltac tail_miss :=
  let d := fresh "d" in let Hd := fresh "Hd" in
  intros d; intros; match goal with H : is_digit d = true |- _ => digit_split H end;
  vm_compute; reflexivity.


Lemma size_liter_hit x xs tl :
  In tl LITER_TAILS -> all_true is_digit (x :: xs) ->
  exists y, exec SIZE_LITER_REGEX ((x :: xs) ++ lit tl) = Some y
            /\ group 1 y = Some (x :: xs).
Proof.
  intros Hin Hd. unfold SIZE_LITER_REGEX. cbn [seqs].
  unfold LITER_TAILS in Hin. simpl in Hin.
  repeat (destruct Hin as [<- | Hin];
    [ apply exec_led_hit;
      [ apply reads_run_decimal; split; [reflexivity | discriminate]
      | vm_compute; reflexivity | exact Hd | tail_hit ] |]).
  contradiction.
Qed.

(** The decimal group on a numeral with a fraction. *)
Lemma decimal_frac_run k s x xs y ys tl :
  fails_on is_digit k ->
  all_true is_digit (x :: xs) -> all_true is_digit (y :: ys) -> nondigit_head tl ->
  rest s = (x :: xs) ++ "."%char :: (y :: ys) ++ tl ->
  m (Group 1 decimal) k s =
  orelse (k (set_cap 1 ((x :: xs) ++ "."%char :: y :: ys)
                     (after s ((x :: xs) ++ "."%char :: y :: ys) tl)))
         (k (set_cap 1 (x :: xs) (after s (x :: xs) ("."%char :: (y :: ys) ++ tl)))).
Proof.
  intros Hk Hd Hf Htl Hs.
  change (m (Group 1 decimal) k s)
    with (m digits (m (Opt (Seq (chr_i ".") digits))
                      (fun s' => k (set_cap 1 (consumed s s') s'))) s).
  set (K := fun s' => k (set_cap 1 (consumed s s') s')).
  assert (HK : fails_on is_digit K) by (apply fails_on_cap, Hk).
  unfold digits at 1, digit.
  rewrite (plus_run is_digit) with (x := x) (xs := xs) (tl := "."%char :: (y :: ys) ++ tl);
    [ | | exact Hd | reflexivity | exact Hs ].
  2: { apply nocons_fails_on; [| exact HK]. apply digits_forallb. vm_compute. reflexivity. }
  set (s1 := after s (x :: xs) ("."%char :: (y :: ys) ++ tl)).
  rewrite m_opt, m_seq. unfold chr_i.
  rewrite (m_chr_cons _ _ s1 "."%char ((y :: ys) ++ tl) eq_refl).
  replace (Ascii.eqb (canon ".") (canon ".")) with true by reflexivity.
  unfold digits, digit.
  rewrite (plus_run is_digit) with (x := y) (xs := ys) (tl := tl);
    [ | apply fails_on_guard, HK | exact Hf | exact Htl | reflexivity ].
  set (s2 := after _ (y :: ys) tl).
  assert (Ep : progressed s1 s2 = true).
  { unfold progressed, s1, s2, after. cbn [rest]. apply Nat.ltb_lt.
    change (length tl < length ("."%char :: y :: ys ++ tl)).
    cbn [length]. rewrite length_app. lia. }
  rewrite Ep.
  assert (E2 : s2 = after s ((x :: xs) ++ "."%char :: y :: ys) tl).
  { unfold s2, s1, after. cbn [prev caps]. f_equal.
    rewrite (last_or_app (prev s) (x :: xs) ("."%char :: y :: ys)).
    rewrite (last_or_cons _ "."%char (y :: ys)). reflexivity. }
  unfold K at 1. rewrite E2.
  rewrite (consumed_app s _ ((x :: xs) ++ "."%char :: y :: ys)).
  2: { cbn [after rest]. rewrite Hs. rewrite <- app_assoc. reflexivity. }
  unfold K. unfold s1 at 1.
  rewrite (consumed_app s _ (x :: xs)); [reflexivity | exact Hs].
Qed.


Lemma needs_none_frac q r ds fs tl p :
  must_have q r = true ->
  forallb (fun c => negb (q c)) (all_digits ++ "."%char :: tl) = true ->
  all_true is_digit ds -> all_true is_digit fs ->
  search r p (ds ++ "."%char :: fs ++ tl) = None.
Proof.
  intros Hm Hq Hd Hf. rewrite forallb_app in Hq. apply andb_true_iff in Hq.
  destruct Hq as [H1 H2]. cbn [forallb] in H2. apply andb_true_iff in H2.
  destruct H2 as [H2 H3].
  apply (search_needs q); [exact Hm |].
  apply Forall_app. split; [apply digits_lack; assumption |].
  constructor; [apply negb_true_iff, H2 |].
  apply Forall_app. split; [apply digits_lack; assumption |].
  apply Forall_forall. intros c Hin. rewrite forallb_forall in H3.
  apply negb_true_iff, H3, Hin.
Qed.

Local Open Scope Z_scope.

Ltac each_tail H tac :=
  simpl in H;
  repeat (let E := fresh "E" in destruct H as [E | H]; [rewrite <- E in *; tac |]);
  try contradiction.

Lemma lower_frac ds fs tl :
  all_true is_digit ds -> all_true is_digit fs ->
  toLowerCase (ds ++ "."%char :: fs ++ tl) = ds ++ "."%char :: fs ++ toLowerCase tl.
Proof.
  intros Hd Hf. rewrite toLowerCase_digits by exact Hd.
  change (toLowerCase ("."%char :: fs ++ tl)) with ("."%char :: toLowerCase (fs ++ tl)).
  rewrite toLowerCase_digits by exact Hf. reflexivity.
Qed.

Lemma in_size_out n : out_of_range n ->
  match n with
  | Some size => if (100 <=? size) && (size <=? 3000) then Some size else None
  | None => None
  end = None.
Proof.
  intros H. destruct n as [size |]; [| reflexivity].
  destruct ((100 <=? size) && (size <=? 3000)) eqn:E; [| reflexivity].
  exfalso. apply (H size eq_refl). apply andb_true_iff in E. destruct E as [E1 E2].
  apply Z.leb_le in E1, E2. split; assumption.
Qed.



Lemma size_out_liter x xs tl :
  In tl LITER_TAILS -> all_true is_digit (x :: xs) ->
  out_of_range (liters_to_ml (x :: xs)) ->
  parseBottleSizeResponse ((x :: xs) ++ lit tl) = None.
Proof.
  intros Hin Hd Hout. unfold parseBottleSizeResponse. cbv zeta.
  rewrite toLowerCase_digits by exact Hd.
  assert (El : toLowerCase (lit tl) = lit tl)
    by (unfold LITER_TAILS in Hin; each_tail Hin ltac:(reflexivity)).
  rewrite El.
  rewrite trim_digits_led;
    [ | exact Hd | unfold LITER_TAILS in Hin; each_tail Hin ltac:(reflexivity) ].
  unfold test, guarded, exec.
  rewrite (needs_none (one_of "yYcCoOuUgG"));
    [ | vm_compute; reflexivity
      | unfold LITER_TAILS in Hin; each_tail Hin ltac:(vm_compute; reflexivity)
      | exact Hd ].
  rewrite (needs_none (one_of "mM"));
    [ | vm_compute; reflexivity
      | unfold LITER_TAILS in Hin; each_tail Hin ltac:(vm_compute; reflexivity)
      | exact Hd ].
  destruct (size_liter_hit x xs tl Hin Hd) as [y [E G]]. unfold exec in E. rewrite E.
  unfold liters_group. rewrite G, (in_size_out _ Hout).
  assert (Ej : exec JUST_NUMBER_REGEX ((x :: xs) ++ lit tl) = None).
  { unfold LITER_TAILS in Hin.
    each_tail Hin ltac:(apply just_number_none; [exact Hd | reflexivity]). }
  unfold exec in Ej. rewrite Ej. reflexivity.
Qed.


End SizeFacts.
Export SizeFacts.

(** ** What the resolver returns *)

Module FallbackFacts.

Local Open Scope Z_scope.

Lemma or_default_nonempty s d : d <> [] -> or_default s d <> [].
Proof. intros Hd. destruct s as [[| c w] |]; simpl; try exact Hd. discriminate. Qed.

Lemma Qle_bool_false a b : Qle_bool a b = false -> (b < a)%Q.
Proof.
  intros H. apply Qnot_le_lt. intros Hle. apply Qle_bool_iff in Hle. congruence.
Qed.

Lemma silent_normal A (c : M A) w : silent c -> exists a w', c w = (Normal a, w').
Proof. intros H. destruct (H w) as [a [n E]]. eauto. Qed.

Lemma resolve_resolved text llm w r w' :
  resolve text llm w = (Normal r, w') -> resolved r.
Proof.
  assert (Hg : PROMPT_DIDNT_CATCH <> []) by discriminate.
  unfold resolve. destruct (_ && _).
  { intros H. injection H as <- _. apply Res_clarify. discriminate. }
  assert (Hlog : match llm_amount_ml llm with
      | Some amount =>
          if intent_eqb (llm_intent llm) clarify || ambiguous llm
          then ret (clarification
                      (or_default (clarification_needed llm) PROMPT_DIDNT_CATCH))
          else if Qle_bool amount 0 || Qltb 10000 amount
          then ret (clarification PROMPT_NOT_RIGHT)
          else
            match relative_time llm with
            | Some (c :: w) =>
                match parseRelativeOffset (Some (c :: w)) with
                | None => ret (clarification PROMPT_WHEN)
                | Some offsetHours =>
                    validatedTime <- validateRetroactiveTime offsetHours ;;
                    match validatedTime with
                    | None => ret (clarification PROMPT_BE_SPECIFIC)
                    | Some t =>
                        ret {| success := true; intent := Some log;
                               amount_ml := Some amount; log_time := Some t;
                               needs_clarification := None;
                               clarification_prompt := None; adjust_by_ml := None;
                               undo_count := None; chitchat_reply := None |}
                    end
                end
            | _ =>
                now <- nowISTString ;;
                ret {| success := true; intent := Some log;
                       amount_ml := Some amount; log_time := Some now;
                       needs_clarification := None;
                       clarification_prompt := None; adjust_by_ml := None;
                       undo_count := None; chitchat_reply := None |}
            end
      | None =>
          ret (clarification
                 (or_default (clarification_needed llm) PROMPT_DIDNT_CATCH))
      end w = (Normal r, w') -> resolved r).
  { destruct (llm_amount_ml llm) as [amount |].
    2: { intros H. injection H as <- _. apply Res_clarify, or_default_nonempty, Hg. }
    destruct (_ || _).
    { intros H. injection H as <- _. apply Res_clarify, or_default_nonempty, Hg. }
    destruct (Qle_bool amount 0) eqn:E0; cbn [orb].
    { intros H. injection H as <- _. apply Res_clarify. discriminate. }
    destruct (Qltb 10000 amount) eqn:E1.
    { intros H. injection H as <- _. apply Res_clarify. discriminate. }
    apply Qle_bool_false in E0. apply Qltb_false in E1.
    destruct (relative_time llm) as [[| c t] |].
    - unfold nowISTString, Date_now, ret, bind. cbv beta iota.
      set (s := toISTString _).
      intros H. injection H as <- _. apply Res_log; assumption.
    - destruct (parseRelativeOffset _) as [h |].
      + unfold bind.
        destruct (silent_normal _ (validateRetroactiveTime h) w
                    (silent_validateRetroactiveTime h)) as [v [w1 ->]].
        destruct v; intros H; injection H as <- _.
        * apply Res_log; assumption.
        * apply Res_clarify. discriminate.
      + intros H. injection H as <- _. apply Res_clarify. discriminate.
    - unfold nowISTString, Date_now, ret, bind. cbv beta iota.
      set (s := toISTString _).
      intros H. injection H as <- _. apply Res_log; assumption. }
  destruct (llm_intent llm); try exact Hlog; clear Hlog.
  - intros H. injection H as <- _. constructor.
  - destruct (llm_adjust_by_ml llm) as [adj |].
    + destruct (Qle_bool adj 0) eqn:E0; cbn [orb].
      { intros H. injection H as <- _. apply Res_clarify. discriminate. }
      destruct (Qltb 10000 adj) eqn:E1; intros H; injection H as <- _.
      { apply Res_clarify. discriminate. }
      apply Qle_bool_false in E0. apply Qltb_false in E1. apply Res_edit; assumption.
    + intros H. injection H as <- _. apply Res_clarify. discriminate.
  - intros H. injection H as <- _. constructor.
  - intros H. injection H as <- _. apply Res_undo.
    + destruct (llm_undo_count llm) as [n |]; [| apply Qle_refl].
      destruct (Qle_bool 1 n) eqn:E; [| apply Qle_refl].
      destruct (Qle_bool n 10) eqn:E'; [apply Qle_bool_iff, E | discriminate].
    + destruct (llm_undo_count llm) as [n |]; [| discriminate].
      destruct (Qle_bool 1 n) eqn:E; [| discriminate].
      destruct (Qle_bool n 10) eqn:E'; [apply Qle_bool_iff, E' | apply Qle_refl].
  - intros H. injection H as <- _. apply Res_chitchat.
    destruct (clarification_needed llm) as [[| c s] |]; discriminate.
Qed.

Lemma llm_normal jp text env w :
  exists r w', parseWaterInputLLM jp text env w = (Normal r, w') /\ resolved r.
Proof.
  unfold parseWaterInputLLM, bind.
  destruct (extract_runs jp text env w) as [llm [evs [-> _]]].
  destruct (silent_normal _ (resolve text llm) (add_events (evs ++ [EvFallback text]) w)
              (silent_resolve text llm)) as [r [w' E]].
  rewrite E. exists r, w'. split; [reflexivity |]. eapply resolve_resolved, E.
Qed.

Lemma llm_resolved jp text env w r w' :
  parseWaterInputLLM jp text env w = (Normal r, w') -> resolved r.
Proof.
  intros H. destruct (llm_normal jp text env w) as [r0 [w0 [E Hr]]].
  rewrite E in H. injection H as <- _. exact Hr.
Qed.

(** What an accepted offset has gone through. *)
Lemma validate_accepts q w t w1 :
  0 <= now_ms (tick w) ->
  validateRetroactiveTime (Num q) w = (Normal (Some t), w1) ->
  (0 <= q)%Q /\ (q <= 12)%Q /\
  ist_day_start (now_ms (tick w)) <= target_ms (now_ms w) q /\
  t = toISTString (Some (target_ms (now_ms w) q)).
Proof.
  intros Hn. unfold validateRetroactiveTime. cbn [num_gt num_lt].
  destruct (Qltb 12 q) eqn:E12; [discriminate |].
  destruct (Qltb q 0) eqn:E0; [discriminate |].
  cbn [orb]. unfold validate_same_day.
  unfold bind at 1. unfold Date_now. fold (now_ms w). fold (tick w).
  unfold bind. rewrite todayMidnightIST_run by exact Hn.
  replace (ist_day_start (now_ms (tick w)) + IST_OFFSET_MS - IST_OFFSET_MS)
    with (ist_day_start (now_ms (tick w))) by lia.
  cbn [targetTime date_lt].
  apply Qltb_false in E12, E0.
  destruct (_ <? _) eqn:Et; [discriminate |].
  apply Z.ltb_ge in Et. unfold ret. set (s := toISTString _). intros H.
  assert (Hs : t = s) by (injection H as H _; symmetry; exact H). auto.
Qed.

Lemma offset_number rt h :
  parseRelativeOffset rt = Some h -> exists q, h = Num q /\ (0 <= q)%Q.
Proof.
  destruct rt as [phrase |]; [| discriminate].
  rewrite parseRelativeOffset_eq. cbv zeta.
  destruct (exec HOURS_AGO_REGEX _) as [x |] eqn:Eh.
  - destruct (hours_number _ _ Eh) as [n [-> Hn]]. intros H. injection H as <-.
    exists (inject_Z n). split; [reflexivity |]. unfold Qle; simpl; lia.
  - destruct (exec MINUTES_AGO_REGEX _) as [x |] eqn:Em; [| discriminate].
    destruct (minutes_number _ _ Em) as [n [-> Hn]]. intros H. injection H as <-.
    exists (round53 (n # 60)). split; [reflexivity |].
    apply round53_nonneg. unfold Qle; simpl; lia.
Qed.

Lemma resolve_retroactive text llm w r w' c rt a :
  relative_time llm = Some (c :: rt) ->
  0 <= now_ms (tick w) ->
  resolve text llm w = (Normal r, w') -> amount_ml r = Some a ->
  exists q, parseRelativeOffset (Some (c :: rt)) = Some (Num q) /\
    (0 <= q)%Q /\ (q <= 12)%Q /\
    ist_day_start (now_ms (tick w)) <= target_ms (now_ms w) q /\
    log_time r = Some (toISTString (Some (target_ms (now_ms w) q))).
Proof.
  intros Hrt Hn. unfold resolve. destruct (_ && _).
  { intros H. injection H as <- _. discriminate. }
  rewrite Hrt.
  assert (Hlog : match llm_amount_ml llm with
      | Some amount =>
          if intent_eqb (llm_intent llm) clarify || ambiguous llm
          then ret (clarification
                      (or_default (clarification_needed llm) PROMPT_DIDNT_CATCH))
          else if Qle_bool amount 0 || Qltb 10000 amount
          then ret (clarification PROMPT_NOT_RIGHT)
          else
                match parseRelativeOffset (Some (c :: rt)) with
                | None => ret (clarification PROMPT_WHEN)
                | Some offsetHours =>
                    validatedTime <- validateRetroactiveTime offsetHours ;;
                    match validatedTime with
                    | None => ret (clarification PROMPT_BE_SPECIFIC)
                    | Some t =>
                        ret {| success := true; intent := Some log;
                               amount_ml := Some amount; log_time := Some t;
                               needs_clarification := None;
                               clarification_prompt := None; adjust_by_ml := None;
                               undo_count := None; chitchat_reply := None |}
                    end
                end
      | None =>
          ret (clarification
                 (or_default (clarification_needed llm) PROMPT_DIDNT_CATCH))
      end w = (Normal r, w') -> amount_ml r = Some a ->
    exists q, parseRelativeOffset (Some (c :: rt)) = Some (Num q) /\
      (0 <= q)%Q /\ (q <= 12)%Q /\
      ist_day_start (now_ms (tick w)) <= target_ms (now_ms w) q /\
      log_time r = Some (toISTString (Some (target_ms (now_ms w) q)))).
  { destruct (llm_amount_ml llm) as [amount |].
    2: { intros H. injection H as <- _. discriminate. }
    destruct (_ || _). { intros H. injection H as <- _. discriminate. }
    destruct (_ || _). { intros H. injection H as <- _. discriminate. }
    destruct (parseRelativeOffset _) as [h |] eqn:Eo.
    2: { intros H. injection H as <- _. discriminate. }
    destruct (offset_number _ _ Eo) as [q [-> Hq]].
    unfold bind.
    destruct (validateRetroactiveTime (Num q) w) as [[[t |] | e] w1] eqn:Ev.
    - intros H _. injection H as <- _.
      destruct (validate_accepts q w t w1 Hn Ev) as [H0 [H12 [Hd ->]]].
      exists q. auto.
    - intros H. injection H as <- _. discriminate.
    - discriminate. }
  destruct (llm_intent llm); try exact Hlog; clear Hlog.
  - intros H. injection H as <- _. discriminate.
  - destruct (llm_adjust_by_ml llm) as [adj |].
    + destruct (_ || _); intros H; injection H as <- _; discriminate.
    + intros H. injection H as <- _. discriminate.
  - intros H. injection H as <- _. discriminate.
  - intros H. injection H as <- _. discriminate.
  - intros H. injection H as <- _. discriminate.
Qed.

Lemma resolve_yesterday text llm w r w' :
  test YESTERDAY_REGEX text = true ->
  resolve text llm w = (Normal r, w') ->
  amount_ml r = None /\ intent r <> Some log /\ log_time r = None.
Proof.
  intros Hy. unfold resolve. rewrite Hy. cbn [andb].
  destruct (llm_intent llm) eqn:Ei; cbn [intent_eqb orb].
  1: { intros H. injection H as <- _. repeat split. discriminate. }
  all: destruct (llm_amount_ml llm) as [amount |] eqn:Ea; cbn [is_some];
       try (intros H; injection H as <- _; repeat split; discriminate).
  destruct (llm_adjust_by_ml llm) as [adj |];
    [destruct (_ || _) |]; intros H; injection H as <- _; repeat split; discriminate.
Qed.

Lemma resolve_offline text w :
  resolve text offline_result w = (Normal (clarification OFFLINE_PROMPT), w).
Proof.
  unfold resolve. cbn [llm_intent offline_result intent_eqb llm_amount_ml is_some orb].
  rewrite andb_false_r. reflexivity.
Qed.

Lemma extract_answered jp text env w parsed :
  is_falsy_key (OPENAI_API_KEY env) = false ->
  answers jp w (request_for text env) parsed ->
  extractWaterIntent jp text env w
  = (Normal (result_of parsed),
     add_events [EvFetch (request_for text env); EvFallback text] w).
Proof.
  intros Hk [resp [data [c [Hn [Hok [Hb [Hd [Hc [Ht [Hp Hv]]]]]]]]]].
  unfold extractWaterIntent. rewrite Hk.
  unfold bind at 1. cbn [emit]. unfold try_catch, bind at 1, fetch. cbn [net].
  rewrite Hn. unfold read_response. rewrite Hok. cbn [negb].
  unfold bind at 1. rewrite Hb. cbn [ret].
  unfold bind at 1.
  assert (Ec : (match data with
                | JNull => throw "TypeError: cannot read properties of null"
                | _ => ret (content_of data)
                end) = ret (content_of data)).
  { destruct data; try reflexivity. contradiction. }
  rewrite Ec. cbn [ret]. rewrite Hc. unfold interpret_content. rewrite Ht. cbn [negb].
  unfold bind at 1, parseJSONSafely, try_catch, parse_or_throw at 1. rewrite Hp.
  cbn [ret]. rewrite Hv. reflexivity.
Qed.

End FallbackFacts.
Export FallbackFacts.

(** ** Other beverages *)

Module BeverageFacts.

Local Open Scope nat_scope.

Lemma reach_str_i_inv w : forall s s',
  reach (str_i w) s s' ->
  exists u, rest s = u ++ rest s' /\ ci_eq u (lit w) /\
            prev s' = last_or (prev s) u /\ caps s' = caps s.
Proof.
  unfold str_i, ci_eq, lit.
  induction w as [| c w IH]; intros s s' Hr.
  - inversion Hr; subst. exists []. auto.
  - assert (Hone : forall s s', reach (chr_i c) s s' ->
              exists a, rest s = a :: rest s' /\ canon a = canon c /\
                        prev s' = Some a /\ caps s' = caps s).
    { intros t t' H. inversion H as [| p a w0 t0 Hrest Hp | | | | | | | | | | |]; subst.
      exists a. cbn. repeat split; [exact Hrest |].
      apply Ascii.eqb_eq. exact Hp. }
    destruct w as [| c' w'].
    + destruct (Hone _ _ Hr) as [a [Hrest [Ha [Hp Hc]]]].
      exists [a]. cbn. rewrite Ha. auto.
    + change (str_with chr_i (String c (String c' w')))
        with (Seq (chr_i c) (str_with chr_i (String c' w'))) in Hr.
      inversion Hr as [| | r1 r2 t t1 t2 H1 H2 | | | | | | | | | |]; subst.
      destruct (Hone _ _ H1) as [a [Hrest [Ha [Hp Hc]]]].
      destruct (IH _ _ H2) as [u [Hu [Eu [Hpu Hcu]]]].
      exists (a :: u). rewrite Hrest, Hu. split; [reflexivity |].
      split; [| split].
      * cbn [map list_ascii_of_string]. rewrite Ha. f_equal. exact Eu.
      * rewrite last_or_cons, Hpu, Hp. reflexivity.
      * congruence.
Qed.

Lemma ci_eq_nonempty u w : ci_eq u w -> w <> [] -> u <> [].
Proof. unfold ci_eq. intros E Hw ->. destruct w; [contradiction | discriminate]. Qed.

(** A word between two word boundaries, under the [i] flag: the test
    succeeds exactly when the word stands in the text as a word. *)
Lemma word_test_iff w text :
  lit w <> [] -> all_true is_word (lit w) ->
  test (keyword_regex w) text = true <-> occurs_as_word (lit w) text.
Proof.
  intros Hne Hw. split.
  - unfold test, exec. destruct (search _ None text) as [x |] eqn:E; [| discriminate].
    intros _. apply search_sound in E.
    destruct E as [pre [suf [s' [-> [Hr _]]]]].
    unfold keyword_regex in Hr. cbn [seqs] in Hr.
    inversion Hr as [| | r1 r2 t t1 t2 H1 H2 | | | | | | | | | |]; subst.
    inversion H1 as [| | | | | | | | | | t Hx | |]; subst.
    inversion H2 as [| | r1 r2 t t3 t2 H3 H4 | | | | | | | | | |]; subst.
    inversion H4 as [| | | | | | | | | | t Hy | |]; subst.
    destruct (reach_str_i_inv _ _ _ H3) as [u [Hu [Eu [Hp _]]]].
    cbn [rest prev] in Hu, Hp.
    pose proof (ci_eq_word u (lit w) Eu Hw) as Huw.
    pose proof (ci_eq_nonempty _ _ Eu Hne) as Hune.
    exists pre, u, (rest s'). split; [rewrite Hu; reflexivity |].
    split; [exact Eu |]. split.
    + unfold word_before, word_after in Hx. cbn [prev rest] in Hx.
      rewrite Hu in Hx. destruct u as [| a u]; [contradiction |].
      inversion Huw; subst. cbn [app] in Hx.
      replace (is_word a) with true in Hx by (symmetry; assumption).
      unfold not_word_before. unfold last_or in Hx.
      destruct (rev pre) as [| b l]; [exact I |].
      destruct (is_word b); [discriminate | reflexivity].
    + unfold word_before, word_after in Hy. rewrite Hp in Hy.
      destruct (last_or_word (last_or None pre) u Hune Huw) as [c [Ec Hc]].
      rewrite Ec, Hc in Hy. unfold not_word_after.
      destruct (rest s') as [| b l]; [exact I |].
      destruct (is_word b); [discriminate | reflexivity].
  - intros [pre [u [post [-> [Eci [Hb Ha]]]]]].
    pose proof (ci_eq_word u (lit w) Eci Hw) as Hu.
    pose proof (ci_eq_nonempty _ _ Eci Hne) as Hune.
    unfold test, exec.
    destruct (search (keyword_regex w) None (pre ++ u ++ post)) eqn:E; [reflexivity |].
    exfalso. revert E. eapply search_complete.
    unfold keyword_regex. cbn [seqs].
    set (s0 := MState (last_or None pre) (u ++ post) []).
    eapply R_seq.
    + apply R_wordb. unfold s0. rewrite not_word_before_spec by exact Hb.
      unfold word_after. cbn [rest]. destruct u as [| a u]; [contradiction |].
      inversion Hu; subst. cbn. assumption.
    + eapply R_seq.
      * apply reach_str_i. exact Eci.
      * apply R_wordb. unfold word_before, word_after. cbn [prev rest].
        destruct (last_or_word (last_or None pre) u Hune Hu) as [c [-> Hc]]. rewrite Hc.
        destruct post as [| b post]; [reflexivity |]. simpl in Ha. rewrite Ha. reflexivity.
Qed.

Lemma is_word_lower c : is_word (lower_char c) = is_word c.
Proof.
  apply Bool.eqb_prop.
  exact (ascii_forallb (fun c => Bool.eqb (is_word (lower_char c)) (is_word c)) eq_refl c).
Qed.

(** Lower-casing changes no comparison against a word character. *)
Lemma canon_lower c x : is_word x = true ->
  canon (lower_char c) = canon x <-> canon c = canon x.
Proof.
  intros Hx.
  assert (F1 : is_word (canon c) = true -> canon (lower_char c) = canon c).
  { intros H. apply Ascii.eqb_eq. revert H. apply implb_true_iff.
    exact (ascii_forallb
             (fun c => implb (is_word (canon c))
                             (Ascii.eqb (canon (lower_char c)) (canon c))) eq_refl c). }
  assert (F2 : is_word (canon (lower_char c)) = true -> canon (lower_char c) = canon c).
  { intros H. apply Ascii.eqb_eq. revert H. apply implb_true_iff.
    exact (ascii_forallb
             (fun c => implb (is_word (canon (lower_char c)))
                             (Ascii.eqb (canon (lower_char c)) (canon c))) eq_refl c). }
  rewrite <- is_word_canon in Hx. split; intros E.
  - rewrite <- F2; [exact E |]. rewrite E. exact Hx.
  - rewrite F1; [exact E |]. rewrite E. exact Hx.
Qed.

Lemma toLowerCase_ci u w : all_true is_word w ->
  ci_eq (toLowerCase u) w <-> ci_eq u w.
Proof.
  unfold ci_eq, toLowerCase. revert w.
  induction u as [| a u IH]; intros w Hw.
  - tauto.
  - destruct w as [| x w]; [cbn; split; discriminate |].
    inversion Hw as [| ? ? Hx Hw']; subst. cbn [map].
    split; intros E; injection E as Ea Eu; f_equal;
      try (apply (canon_lower a x Hx); exact Ea);
      apply (IH w Hw'); exact Eu.
Qed.

Lemma not_word_before_lower pre :
  not_word_before (toLowerCase pre) <-> not_word_before pre.
Proof.
  unfold not_word_before, toLowerCase. rewrite <- map_rev.
  destruct (rev pre) as [| c l]; [tauto |]. cbn [map]. rewrite is_word_lower. tauto.
Qed.

Lemma not_word_after_lower post :
  not_word_after (toLowerCase post) <-> not_word_after post.
Proof.
  unfold not_word_after, toLowerCase.
  destruct post as [| c l]; [tauto |]. cbn [map]. rewrite is_word_lower. tauto.
Qed.

Lemma occurs_as_word_lower w text : all_true is_word w ->
  occurs_as_word w (toLowerCase text) <-> occurs_as_word w text.
Proof.
  intros Hw. split.
  - intros [pre [u [post [E [Eci [Hb Ha]]]]]].
    unfold toLowerCase in E.
    apply map_eq_app in E. destruct E as [pre' [t' [-> [<- E]]]].
    apply map_eq_app in E. destruct E as [u' [post' [-> [<- <-]]]].
    exists pre', u', post'. split; [reflexivity |].
    split; [apply (toLowerCase_ci u' w Hw), Eci |].
    split; [apply not_word_before_lower, Hb | apply not_word_after_lower, Ha].
  - intros [pre [u [post [-> [Eci [Hb Ha]]]]]].
    exists (toLowerCase pre), (toLowerCase u), (toLowerCase post).
    split; [unfold toLowerCase; rewrite !map_app; reflexivity |].
    split; [apply (toLowerCase_ci u w Hw), Eci |].
    split; [apply not_word_before_lower, Hb | apply not_word_after_lower, Ha].
Qed.

Lemma excluded_keywords_are_words w :
  In w EXCLUDED_KEYWORDS -> lit w <> [] /\ all_true is_word (lit w).
Proof.
  intros Hin. unfold EXCLUDED_KEYWORDS in Hin. simpl in Hin.
  repeat (destruct Hin as [<- | Hin];
          [split; [discriminate | repeat constructor] |]).
  contradiction.
Qed.

End BeverageFacts.
Export BeverageFacts.

(** ** Glasses, cups and litres *)

Module AmountFacts.

Local Open Scope nat_scope.

Lemma reads_run_opt_digits tl :
  nondigit_head tl -> reads_run (Opt (Group 1 digits)) tl.
Proof.
  intros Htl k s x xs Hk Hd Hs. rewrite m_opt.
  rewrite (reads_run_digits tl Htl _ s x xs (fails_on_guard _ _ s Hk) Hd Hs).
  assert (Ep : progressed s (set_cap 1 (x :: xs) (after s (x :: xs) tl)) = true).
  { unfold progressed, set_cap, after. cbn [rest]. rewrite Hs. apply Nat.ltb_lt.
    rewrite length_app. cbn [length]. lia. }
  rewrite Ep.
  inversion Hd as [| ? ? Hx _]; subst.
  rewrite (Hk s x (xs ++ tl) Hs Hx). apply orelse_none_r.
Qed.

Lemma glass_hit x xs tl :
  In tl GLASS_TAILS -> all_true is_digit (x :: xs) ->
  exists y, exec GLASS_REGEX ((x :: xs) ++ lit tl) = Some y /\ group 1 y = Some (x :: xs).
Proof.
  intros Hin Hd. unfold GLASS_REGEX. cbn [seqs].
  unfold GLASS_TAILS in Hin. simpl in Hin.
  repeat (destruct Hin as [<- | Hin];
    [ apply exec_led_hit;
      [ apply reads_run_opt_digits; reflexivity
      | vm_compute; reflexivity | exact Hd | tail_hit ] |]).
  contradiction.
Qed.

Lemma cup_hit x xs tl :
  In tl CUP_TAILS -> all_true is_digit (x :: xs) ->
  exists y, exec CUP_REGEX ((x :: xs) ++ lit tl) = Some y /\ group 1 y = Some (x :: xs).
Proof.
  intros Hin Hd. unfold CUP_REGEX. cbn [seqs].
  unfold CUP_TAILS in Hin. simpl in Hin.
  repeat (destruct Hin as [<- | Hin];
    [ apply exec_led_hit;
      [ apply reads_run_opt_digits; reflexivity
      | vm_compute; reflexivity | exact Hd | tail_hit ] |]).
  contradiction.
Qed.

Lemma liter_miss_glass x xs tl p :
  In tl GLASS_TAILS -> all_true is_digit (x :: xs) ->
  search LITER_REGEX p ((x :: xs) ++ lit tl) = None.
Proof.
  intros Hin Hd. unfold LITER_REGEX. cbn [seqs].
  unfold GLASS_TAILS in Hin. simpl in Hin.
  repeat (destruct Hin as [<- | Hin];
    [ apply led_none;
      [ apply reads_run_decimal; split; [reflexivity | discriminate]
      | vm_compute; reflexivity | tail_miss | tail_miss | exact Hd ] |]).
  contradiction.
Qed.

Local Open Scope Z_scope.

Lemma count_check hi n : 
  positive_upto hi (Some n) = if (0 <? n) && (n <=? hi) then Some n else None.
Proof. reflexivity. Qed.

Lemma regex_counted_glasses x xs n tl prefs :
  In tl GLASS_TAILS -> all_true is_digit (x :: xs) -> parseInt (x :: xs) = Some n ->
  parseWaterInputRegex ((x :: xs) ++ lit tl) prefs =
  if (0 <? n) && (n <=? 20) then logged_now (250 * n) else ret no_result.
Proof.
  intros Hin Hd Hn. unfold parseWaterInputRegex.
  rewrite toLowerCase_digits by exact Hd.
  assert (El : toLowerCase (lit tl) = lit tl)
    by (unfold GLASS_TAILS in Hin; each_tail Hin ltac:(reflexivity)).
  rewrite El.
  unfold guarded, test, exec.
  rewrite (needs_none (one_of "mM"));
    [ | vm_compute; reflexivity
      | unfold GLASS_TAILS in Hin; each_tail Hin ltac:(vm_compute; reflexivity)
      | exact Hd ].
  rewrite liter_miss_glass by assumption.
  rewrite (needs_none (one_of "bB") HALF_BOTTLE_REGEX);
    [ | vm_compute; reflexivity
      | unfold GLASS_TAILS in Hin; each_tail Hin ltac:(vm_compute; reflexivity)
      | exact Hd ].
  rewrite (needs_none (one_of "bB") QUARTER_BOTTLE_REGEX);
    [ | vm_compute; reflexivity
      | unfold GLASS_TAILS in Hin; each_tail Hin ltac:(vm_compute; reflexivity)
      | exact Hd ].
  rewrite (needs_none (one_of "bB") NUMERIC_BOTTLE_REGEX);
    [ | vm_compute; reflexivity
      | unfold GLASS_TAILS in Hin; each_tail Hin ltac:(vm_compute; reflexivity)
      | exact Hd ].
  rewrite (needs_none (one_of "bB") SINGLE_BOTTLE_REGEX);
    [ | vm_compute; reflexivity
      | unfold GLASS_TAILS in Hin; each_tail Hin ltac:(vm_compute; reflexivity)
      | exact Hd ].
  cbn [andb].
  destruct (glass_hit x xs tl Hin Hd) as [y [E G]]. unfold exec in E. rewrite E.
  unfold count_or_one. rewrite G, Hn, count_check.
  destruct ((0 <? n) && (n <=? 20)); [reflexivity |].
  rewrite (needs_none (one_of "cC") CUP_REGEX);
    [ reflexivity | vm_compute; reflexivity
      | unfold GLASS_TAILS in Hin; each_tail Hin ltac:(vm_compute; reflexivity)
      | exact Hd ].
Qed.

Lemma regex_counted_cups x xs n tl prefs :
  In tl CUP_TAILS -> all_true is_digit (x :: xs) -> parseInt (x :: xs) = Some n ->
  parseWaterInputRegex ((x :: xs) ++ lit tl) prefs =
  if (0 <? n) && (n <=? 20) then logged_now (200 * n) else ret no_result.
Proof.
  intros Hin Hd Hn. unfold parseWaterInputRegex.
  rewrite toLowerCase_digits by exact Hd.
  assert (El : toLowerCase (lit tl) = lit tl)
    by (unfold CUP_TAILS in Hin; each_tail Hin ltac:(reflexivity)).
  rewrite El.
  unfold guarded, test, exec.
  rewrite (needs_none (one_of "mM"));
    [ | vm_compute; reflexivity
      | unfold CUP_TAILS in Hin; each_tail Hin ltac:(vm_compute; reflexivity)
      | exact Hd ].
  rewrite (needs_none (one_of "lL") LITER_REGEX);
    [ | vm_compute; reflexivity
      | unfold CUP_TAILS in Hin; each_tail Hin ltac:(vm_compute; reflexivity)
      | exact Hd ].
  rewrite (needs_none (one_of "bB") HALF_BOTTLE_REGEX);
    [ | vm_compute; reflexivity
      | unfold CUP_TAILS in Hin; each_tail Hin ltac:(vm_compute; reflexivity)
      | exact Hd ].
  rewrite (needs_none (one_of "bB") QUARTER_BOTTLE_REGEX);
    [ | vm_compute; reflexivity
      | unfold CUP_TAILS in Hin; each_tail Hin ltac:(vm_compute; reflexivity)
      | exact Hd ].
  rewrite (needs_none (one_of "bB") NUMERIC_BOTTLE_REGEX);
    [ | vm_compute; reflexivity
      | unfold CUP_TAILS in Hin; each_tail Hin ltac:(vm_compute; reflexivity)
      | exact Hd ].
  rewrite (needs_none (one_of "bB") SINGLE_BOTTLE_REGEX);
    [ | vm_compute; reflexivity
      | unfold CUP_TAILS in Hin; each_tail Hin ltac:(vm_compute; reflexivity)
      | exact Hd ].
  cbn [andb].
  rewrite (needs_none (one_of "gG") GLASS_REGEX);
    [ | vm_compute; reflexivity
      | unfold CUP_TAILS in Hin; each_tail Hin ltac:(vm_compute; reflexivity)
      | exact Hd ].
  destruct (cup_hit x xs tl Hin Hd) as [y [E G]]. unfold exec in E. rewrite E.
  unfold count_or_one. rewrite G, Hn, count_check.
  destruct ((0 <? n) && (n <=? 20)); reflexivity.
Qed.

Local Open Scope nat_scope.

Lemma liter_hit x xs tl :
  In tl LITER_TAILS -> all_true is_digit (x :: xs) ->
  exists y, exec LITER_REGEX ((x :: xs) ++ lit tl) = Some y
            /\ group 1 y = Some (x :: xs).
Proof.
  intros Hin Hd. unfold LITER_REGEX. cbn [seqs].
  unfold LITER_TAILS in Hin. simpl in Hin.
  repeat (destruct Hin as [<- | Hin];
    [ apply exec_led_hit;
      [ apply reads_run_decimal; split; [reflexivity | discriminate]
      | vm_compute; reflexivity | exact Hd | tail_hit ] |]).
  contradiction.
Qed.

Lemma liter_frac_hit x xs y ys tl :
  In tl LITER_TAILS -> all_true is_digit (x :: xs) -> all_true is_digit (y :: ys) ->
  exists r, exec LITER_REGEX ((x :: xs) ++ "."%char :: (y :: ys) ++ lit tl) = Some r
            /\ group 1 r = Some ((x :: xs) ++ "."%char :: y :: ys).
Proof.
  intros Hin Hd Hf. unfold exec.
  set (W := (x :: xs) ++ "."%char :: y :: ys).
  set (R := Seq spaces
              (Seq (alts [str_i "l"; str_i "liter"; str_i "liters"; str_i "litre";
                          str_i "litres"]) WordB)).
  assert (HR : fails_on is_digit (m R Some)) by (apply blocked_digits; vm_compute; reflexivity).
  assert (Hlast : exists d, last_or None W = Some d /\ is_digit d = true).
  { unfold W. rewrite last_or_app, last_or_cons. apply (last_or_all _ _ y ys Hf). }
  destruct Hlast as [d [El Hdd]].
  assert (E : exists r, match_at LITER_REGEX None
                          ((x :: xs) ++ "."%char :: (y :: ys) ++ lit tl) = Some r
                        /\ group 1 r = Some W).
  { unfold match_at, LITER_REGEX. cbn [seqs]. fold R. rewrite m_seq.
    rewrite (decimal_frac_run (m R Some) _ x xs y ys (lit tl) HR Hd Hf);
      [ | | reflexivity ].
    2: { unfold LITER_TAILS in Hin. simpl in Hin.
         repeat (destruct Hin as [<- | Hin]; [reflexivity |]). contradiction. }
    fold W.
    match goal with |- context [m R Some (set_cap 1 W (after ?s0 W (lit tl)))] =>
      replace (set_cap 1 W (after s0 W (lit tl)))
        with (MState (Some d) (lit tl) [(1, W)])
        by (unfold set_cap, after; cbn [prev rest caps]; rewrite El; reflexivity)
    end.
    assert (Hk : exists s1, m R Some (MState (Some d) (lit tl) [(1, W)]) = Some s1
                            /\ lookup_cap 1 (caps s1) = Some W).
    { clearbody W. unfold LITER_TAILS in Hin. simpl in Hin.
      repeat (destruct Hin as [<- | Hin];
        [ digit_split Hdd; vm_compute; eexists; split; reflexivity |]).
      contradiction. }
    destruct Hk as [s1 [-> Hc]]. cbn [orelse]. eexists. split; [reflexivity | exact Hc]. }
  destruct E as [r [E1 E2]]. exists r. split; [| exact E2].
  change ((x :: xs) ++ "."%char :: (y :: ys) ++ lit tl)
    with (x :: xs ++ "."%char :: (y :: ys) ++ lit tl) in *.
  cbn [search]. rewrite E1. reflexivity.
Qed.

Local Open Scope Z_scope.

Lemma regex_liters x xs tl prefs :
  In tl LITER_TAILS -> all_true is_digit (x :: xs) ->
  parseWaterInputRegex ((x :: xs) ++ lit tl) prefs =
  match positive_upto 10000 (liters_to_ml (x :: xs)) with
  | Some v => logged_now v
  | None => ret no_result
  end.
Proof.
  intros Hin Hd. unfold parseWaterInputRegex.
  rewrite toLowerCase_digits by exact Hd.
  assert (El : toLowerCase (lit tl) = lit tl)
    by (unfold LITER_TAILS in Hin; each_tail Hin ltac:(reflexivity)).
  rewrite El.
  unfold guarded, test, exec.
  rewrite (needs_none (one_of "mM"));
    [ | vm_compute; reflexivity
      | unfold LITER_TAILS in Hin; each_tail Hin ltac:(vm_compute; reflexivity)
      | exact Hd ].
  destruct (liter_hit x xs tl Hin Hd) as [y [E G]]. unfold exec in E. rewrite E.
  unfold liters_group. rewrite G.
  destruct (positive_upto 10000 (liters_to_ml (x :: xs))); [reflexivity |].
  rewrite (needs_none (one_of "bB") HALF_BOTTLE_REGEX);
    [ | vm_compute; reflexivity
      | unfold LITER_TAILS in Hin; each_tail Hin ltac:(vm_compute; reflexivity)
      | exact Hd ].
  rewrite (needs_none (one_of "bB") QUARTER_BOTTLE_REGEX);
    [ | vm_compute; reflexivity
      | unfold LITER_TAILS in Hin; each_tail Hin ltac:(vm_compute; reflexivity)
      | exact Hd ].
  rewrite (needs_none (one_of "bB") NUMERIC_BOTTLE_REGEX);
    [ | vm_compute; reflexivity
      | unfold LITER_TAILS in Hin; each_tail Hin ltac:(vm_compute; reflexivity)
      | exact Hd ].
  rewrite (needs_none (one_of "bB") SINGLE_BOTTLE_REGEX);
    [ | vm_compute; reflexivity
      | unfold LITER_TAILS in Hin; each_tail Hin ltac:(vm_compute; reflexivity)
      | exact Hd ].
  cbn [andb].
  rewrite (needs_none (one_of "gG") GLASS_REGEX);
    [ | vm_compute; reflexivity
      | unfold LITER_TAILS in Hin; each_tail Hin ltac:(vm_compute; reflexivity)
      | exact Hd ].
  rewrite (needs_none (one_of "cC") CUP_REGEX);
    [ reflexivity | vm_compute; reflexivity
      | unfold LITER_TAILS in Hin; each_tail Hin ltac:(vm_compute; reflexivity)
      | exact Hd ].
Qed.

Lemma regex_liters_frac x xs y ys tl prefs :
  In tl LITER_TAILS -> all_true is_digit (x :: xs) -> all_true is_digit (y :: ys) ->
  parseWaterInputRegex ((x :: xs) ++ "."%char :: (y :: ys) ++ lit tl) prefs =
  match positive_upto 10000 (liters_to_ml ((x :: xs) ++ "."%char :: y :: ys)) with
  | Some v => logged_now v
  | None => ret no_result
  end.
Proof.
  intros Hin Hd Hf. unfold parseWaterInputRegex.
  rewrite lower_frac by assumption.
  assert (El : toLowerCase (lit tl) = lit tl)
    by (unfold LITER_TAILS in Hin; each_tail Hin ltac:(reflexivity)).
  rewrite El.
  unfold guarded, test, exec.
  rewrite (needs_none_frac (one_of "mM"));
    [ | vm_compute; reflexivity
      | unfold LITER_TAILS in Hin; each_tail Hin ltac:(vm_compute; reflexivity)
      | exact Hd | exact Hf ].
  destruct (liter_frac_hit x xs y ys tl Hin Hd Hf) as [r [E G]].
  unfold exec in E. rewrite E.
  unfold liters_group. rewrite G.
  destruct (positive_upto 10000 _); [reflexivity |].
  rewrite (needs_none_frac (one_of "bB") HALF_BOTTLE_REGEX);
    [ | vm_compute; reflexivity
      | unfold LITER_TAILS in Hin; each_tail Hin ltac:(vm_compute; reflexivity)
      | exact Hd | exact Hf ].
  rewrite (needs_none_frac (one_of "bB") QUARTER_BOTTLE_REGEX);
    [ | vm_compute; reflexivity
      | unfold LITER_TAILS in Hin; each_tail Hin ltac:(vm_compute; reflexivity)
      | exact Hd | exact Hf ].
  rewrite (needs_none_frac (one_of "bB") NUMERIC_BOTTLE_REGEX);
    [ | vm_compute; reflexivity
      | unfold LITER_TAILS in Hin; each_tail Hin ltac:(vm_compute; reflexivity)
      | exact Hd | exact Hf ].
  rewrite (needs_none_frac (one_of "bB") SINGLE_BOTTLE_REGEX);
    [ | vm_compute; reflexivity
      | unfold LITER_TAILS in Hin; each_tail Hin ltac:(vm_compute; reflexivity)
      | exact Hd | exact Hf ].
  cbn [andb].
  rewrite (needs_none_frac (one_of "gG") GLASS_REGEX);
    [ | vm_compute; reflexivity
      | unfold LITER_TAILS in Hin; each_tail Hin ltac:(vm_compute; reflexivity)
      | exact Hd | exact Hf ].
  rewrite (needs_none_frac (one_of "cC") CUP_REGEX);
    [ reflexivity | vm_compute; reflexivity
      | unfold LITER_TAILS in Hin; each_tail Hin ltac:(vm_compute; reflexivity)
      | exact Hd | exact Hf ].
Qed.

Lemma in_size_in v : in_bottle_range v ->
  (if (100 <=? v) && (v <=? 3000) then Some v else None) = Some v.
Proof.
  intros [H1 H2]. replace ((100 <=? v) && (v <=? 3000)) with true; [reflexivity |].
  symmetry. apply andb_true_iff. split; apply Z.leb_le; assumption.
Qed.



Lemma size_in_liter x xs tl v :
  In tl LITER_TAILS -> all_true is_digit (x :: xs) ->
  liters_to_ml (x :: xs) = Some v -> in_bottle_range v ->
  parseBottleSizeResponse ((x :: xs) ++ lit tl) = Some v.
Proof.
  intros Hin Hd Hv Hr. unfold parseBottleSizeResponse. cbv zeta.
  rewrite toLowerCase_digits by exact Hd.
  assert (El : toLowerCase (lit tl) = lit tl)
    by (unfold LITER_TAILS in Hin; each_tail Hin ltac:(reflexivity)).
  rewrite El.
  rewrite trim_digits_led;
    [ | exact Hd | unfold LITER_TAILS in Hin; each_tail Hin ltac:(reflexivity) ].
  unfold test, guarded, exec.
  rewrite (needs_none (one_of "yYcCoOuUgG"));
    [ | vm_compute; reflexivity
      | unfold LITER_TAILS in Hin; each_tail Hin ltac:(vm_compute; reflexivity)
      | exact Hd ].
  rewrite (needs_none (one_of "mM"));
    [ | vm_compute; reflexivity
      | unfold LITER_TAILS in Hin; each_tail Hin ltac:(vm_compute; reflexivity)
      | exact Hd ].
  destruct (size_liter_hit x xs tl Hin Hd) as [y [E G]]. unfold exec in E. rewrite E.
  unfold liters_group. rewrite G, Hv, (in_size_in _ Hr). reflexivity.
Qed.


Lemma Math_round_exact q m : (q == inject_Z m)%Q -> Math_round q = m.
Proof.
  intros E. unfold Math_round. rewrite E.
  pose proof (Qfloor_le (inject_Z m + (1 # 2))) as H1.
  pose proof (Qlt_floor (inject_Z m + (1 # 2))) as H2.
  set (f := Qfloor (inject_Z m + (1 # 2))) in *.
  unfold Qle, Qlt, Qplus, inject_Z in H1, H2. cbn [Qnum Qden] in H1, H2. lia.
Qed.

(** *** Litres, glasses and cups by their number *)

Lemma take_digits_run ds tl :
  all_true is_digit ds -> nondigit_head tl -> take_digits (ds ++ tl) = (ds, tl).
Proof.
  intros Hd Ht. induction Hd as [| c ds Hc _ IH].
  - destruct tl as [| c tl]; [reflexivity |]. cbn in Ht |- *. rewrite Ht. reflexivity.
  - cbn [app take_digits]. rewrite Hc, IH. reflexivity.
Qed.

Lemma Math_round_ge q m : (inject_Z m <= q)%Q -> m <= Math_round q.
Proof.
  intros H. unfold Math_round. rewrite <- (Qfloor_Z m). apply Qfloor_resp_le. lra.
Qed.

(** [parseFloat] and the conversion to millilitres on a whole number. *)
Lemma liters_to_ml_number x xs :
  all_true is_digit (x :: xs) ->
  liters_to_ml (x :: xs)
  = Some (Math_round (round53 (round53 (inject_Z (number_of (x :: xs))) * 1000))).
Proof.
  intros Hd. unfold liters_to_ml, parseFloat.
  rewrite <- (app_nil_r (x :: xs)) at 1.
  rewrite (take_digits_run (x :: xs) [] Hd I).
  rewrite app_nil_r. cbn [length Z.of_nat]. rewrite number_of_digits by exact Hd.
  reflexivity.
Qed.

Lemma liters_to_ml_whole_any x xs :
  all_true is_digit (x :: xs) ->
  exists v, liters_to_ml (x :: xs) = Some v /\
    (number_of (x :: xs) * 1000 < 2 ^ 53 -> v = 1000 * number_of (x :: xs)) /\
    (forall k, 0 <= k -> 1000 * k <= 2 ^ 53 -> k <= number_of (x :: xs) -> 1000 * k <= v).
Proof.
  intros Hd. rewrite liters_to_ml_number by exact Hd.
  pose proof (number_of_nonneg _ Hd) as H0.
  set (n := number_of (x :: xs)) in *.
  eexists. split; [reflexivity |]. split.
  - intros Hb. apply Math_round_exact.
    assert (E1 : (round53 (inject_Z n) == inject_Z n)%Q)
      by (apply round53_exact; [lia | reflexivity]).
    apply round53_exact; [lia |].
    rewrite E1. rewrite inject_Z_mult. apply Qmult_comm.
  - intros k Hk Hb Hkn. apply Math_round_ge.
    apply round53_ge; [lia |].
    assert (E1 : (inject_Z k <= round53 (inject_Z n))%Q)
      by (apply round53_ge; [lia | rewrite <- Zle_Qle; exact Hkn]).
    rewrite inject_Z_mult. change (inject_Z 1000) with 1000%Q. lra.
Qed.

Lemma round53_rounded x : (0 <= x)%Q -> rounded x (round53 x).
Proof. intros H. exact (round53_err x H). Qed.

Lemma rounds_litres_spec L : (0 <= L)%Q ->
  rounds_litres L (Math_round (round53 (round53 L * 1000))).
Proof.
  intros H0. destruct (round53_err L H0) as [A1 A2].
  pose proof (round53_nonneg L H0) as N1.
  set (a := round53 L) in *.
  assert (B0 : (0 <= a * 1000)%Q) by lra.
  destruct (round53_err _ B0) as [B1 B2].
  set (b := round53 (a * 1000)) in *.
  unfold rounds_litres, Math_round.
  pose proof (Qfloor_le (b + (1 # 2))) as F1. pose proof (Qlt_floor (b + (1 # 2))) as F2.
  rewrite inject_Z_plus in F2. change (inject_Z 1) with 1%Q in F2.
  set (v := inject_Z (Qfloor (b + (1 # 2)))) in *.
  split; lra.
Qed.

Lemma decimal_of_nonneg ip fp :
  all_true is_digit ip -> all_true is_digit fp -> (0 <= decimal_of ip fp)%Q.
Proof.
  intros Hi Hf. unfold decimal_of, Qle. cbn [Qnum Qden].
  pose proof (number_of_nonneg (ip ++ fp) ltac:(apply Forall_app; split; assumption)).
  lia.
Qed.

(** The conversion of a whole and of a fractional number of litres. *)
Lemma liters_to_ml_rounds x xs :
  all_true is_digit (x :: xs) ->
  exists v, liters_to_ml (x :: xs) = Some v /\
            rounds_litres (inject_Z (number_of (x :: xs))) v.
Proof.
  intros Hd. rewrite liters_to_ml_number by exact Hd. eexists. split; [reflexivity |].
  apply rounds_litres_spec. rewrite <- (Zle_Qle 0). apply number_of_nonneg, Hd.
Qed.

Lemma liters_to_ml_frac_rounds x xs y ys :
  all_true is_digit (x :: xs) -> all_true is_digit (y :: ys) ->
  exists v, liters_to_ml ((x :: xs) ++ "."%char :: y :: ys) = Some v /\
            rounds_litres (decimal_of (x :: xs) (y :: ys)) v.
Proof.
  intros Hd Hf. unfold liters_to_ml, parseFloat.
  rewrite (take_digits_run (x :: xs) ("."%char :: y :: ys) Hd eq_refl).
  cbn [Ascii.eqb Bool.eqb andb].
  assert (Et : take_digits (y :: ys) = (y :: ys, [])).
  { rewrite <- (app_nil_r (y :: ys)) at 1. apply take_digits_run; [exact Hf | exact I]. }
  rewrite Et. cbn [fst].
  rewrite number_of_digits by (apply Forall_app; split; assumption).
  eexists. split; [reflexivity |].
  apply (rounds_litres_spec (decimal_of (x :: xs) (y :: ys))).
  apply decimal_of_nonneg; assumption.
Qed.

Lemma regex_liters_whole x xs tl prefs :
  In tl LITER_TAILS -> all_true is_digit (x :: xs) ->
  parseWaterInputRegex ((x :: xs) ++ lit tl) prefs =
  if (0 <? number_of (x :: xs)) && (number_of (x :: xs) <=? 10)
  then logged_now (1000 * number_of (x :: xs)) else ret no_result.
Proof.
  intros Hin Hd. rewrite regex_liters by assumption.
  destruct (liters_to_ml_whole_any x xs Hd) as [v [-> [Hex Hge]]].
  pose proof (number_of_nonneg _ Hd) as H0.
  set (n := number_of (x :: xs)) in *.
  rewrite count_check.
  destruct ((0 <? n) && (n <=? 10)) eqn:E.
  - apply andb_true_iff in E. destruct E as [E1 E2].
    apply Z.ltb_lt in E1. apply Z.leb_le in E2.
    rewrite Hex by lia.
    replace ((0 <? 1000 * n) && (1000 * n <=? 10000)) with true; [reflexivity |].
    symmetry. apply andb_true_iff. split; [apply Z.ltb_lt | apply Z.leb_le]; lia.
  - replace ((0 <? v) && (v <=? 10000)) with false; [reflexivity |].
    symmetry. apply andb_false_iff. apply andb_false_iff in E.
    destruct E as [E | E].
    + apply Z.ltb_ge in E. left. apply Z.ltb_ge. rewrite Hex by lia. lia.
    + apply Z.leb_gt in E. right. apply Z.leb_gt.
      pose proof (Hge 11 ltac:(lia) ltac:(lia) ltac:(lia)). lia.
Qed.

Lemma regex_glasses_checked x xs tl prefs :
  In tl GLASS_TAILS -> all_true is_digit (x :: xs) ->
  parseWaterInputRegex ((x :: xs) ++ lit tl) prefs =
  if (0 <? number_of (x :: xs)) && (number_of (x :: xs) <=? 20)
  then logged_now (250 * number_of (x :: xs)) else ret no_result.
Proof.
  intros Hin Hd.
  rewrite (regex_counted_glasses x xs _ tl prefs Hin Hd (parseInt_number x xs Hd)).
  destruct (double_range (number_of (x :: xs)) 20 ltac:(lia)) as [-> Hex].
  destruct ((0 <? number_of (x :: xs)) && (number_of (x :: xs) <=? 20)) eqn:E;
    [| reflexivity].
  rewrite Hex; [reflexivity |].
  apply andb_true_iff in E. destruct E as [E1 E2].
  apply Z.ltb_lt in E1. apply Z.leb_le in E2. lia.
Qed.

Lemma regex_cups_checked x xs tl prefs :
  In tl CUP_TAILS -> all_true is_digit (x :: xs) ->
  parseWaterInputRegex ((x :: xs) ++ lit tl) prefs =
  if (0 <? number_of (x :: xs)) && (number_of (x :: xs) <=? 20)
  then logged_now (200 * number_of (x :: xs)) else ret no_result.
Proof.
  intros Hin Hd.
  rewrite (regex_counted_cups x xs _ tl prefs Hin Hd (parseInt_number x xs Hd)).
  destruct (double_range (number_of (x :: xs)) 20 ltac:(lia)) as [-> Hex].
  destruct ((0 <? number_of (x :: xs)) && (number_of (x :: xs) <=? 20)) eqn:E;
    [| reflexivity].
  rewrite Hex; [reflexivity |].
  apply andb_true_iff in E. destruct E as [E1 E2].
  apply Z.ltb_lt in E1. apply Z.leb_le in E2. lia.
Qed.

Lemma liters_stage c w (n : option Z) :
  c = match positive_upto 10000 n with
      | Some v => logged_now v
      | None => ret no_result
      end ->
  forall v, n = Some v ->
    (0 < v <= 10000 -> logs_now c w v) /\ (~ 0 < v <= 10000 -> finds_nothing c w).
Proof.
  intros E v ->. rewrite count_check in E. apply (checked_stage c w v 10000 v).
  rewrite E. destruct ((0 <? v) && (v <=? 10000)); reflexivity.
Qed.

End AmountFacts.
Export AmountFacts.

(** ** Timestamps as strings *)

Module CalendarFacts.

Local Open Scope Z_scope.

Lemma day_fields D :
  getUTCFullYear (D * msPerDay) = fst (fst (civil_from_days D)) /\
  getUTCMonth (D * msPerDay) = snd (fst (civil_from_days D)) - 1 /\
  getUTCDate (D * msPerDay) = snd (civil_from_days D) /\
  getUTCHours (D * msPerDay) = 0 /\
  getUTCMinutes (D * msPerDay) = 0 /\
  getUTCSeconds (D * msPerDay) = 0.
Proof.
  unfold getUTCFullYear, getUTCMonth, getUTCDate, getUTCHours, getUTCMinutes,
    getUTCSeconds, msPerDay.
  rewrite Z.div_mul by lia. repeat split.
  - replace (D * 86400000) with (D * 24 * 3600000) by lia.
    rewrite Z.div_mul by lia. apply Z.mod_mul. lia.
  - replace (D * 86400000) with (D * 1440 * 60000) by lia.
    rewrite Z.div_mul by lia. replace (D * 1440) with (D * 24 * 60) by lia.
    apply Z.mod_mul. lia.
  - replace (D * 86400000) with (D * 86400 * 1000) by lia.
    rewrite Z.div_mul by lia. replace (D * 86400) with (D * 1440 * 60) by lia.
    apply Z.mod_mul. lia.
Qed.

Lemma toISTString_day_start D :
  toISTString (Some (D * msPerDay - IST_OFFSET_MS)) =
  (String_of_Z (fst (fst (civil_from_days D))) ++ lit "-"
   ++ padStart2 (String_of_Z (snd (fst (civil_from_days D)))) ++ lit "-"
   ++ padStart2 (String_of_Z (snd (civil_from_days D))) ++ lit "T00:00:00+05:30")%list.
Proof.
  unfold toISTString. cbv zeta.
  replace (D * msPerDay - IST_OFFSET_MS + IST_OFFSET_MS) with (D * msPerDay) by lia.
  destruct (day_fields D) as [-> [-> [-> [-> [-> ->]]]]].
  replace (snd (fst (civil_from_days D)) - 1 + 1) with (snd (fst (civil_from_days D))) by lia.
  reflexivity.
Qed.

Lemma todayMidnightISTString_run w :
  todayMidnightISTString w
  = (Normal (toISTString (Some (ist_day_start (now_ms w)))), tick w).
Proof.
  unfold todayMidnightISTString, nowIST, bind, Date_now, ret. cbv beta iota zeta.
  fold (now_ms w). fold (tick w). unfold ist_day_start.
  rewrite toISTString_day_start.
  unfold getUTCFullYear, getUTCMonth, getUTCDate.
  replace (snd (fst (civil_from_days ((now_ms w + IST_OFFSET_MS) / msPerDay))) - 1 + 1)
    with (snd (fst (civil_from_days ((now_ms w + IST_OFFSET_MS) / msPerDay)))) by lia.
  reflexivity.
Qed.

Lemma yesterdayMidnightIST_run w : 0 <= now_ms w ->
  yesterdayMidnightIST w
  = (Normal (ist_day_start (now_ms w) + IST_OFFSET_MS - msPerDay), tick w).
Proof.
  intros Hn. unfold yesterdayMidnightIST, bind. rewrite todayMidnightIST_run by exact Hn.
  unfold ret, msPerDay. do 2 f_equal.
Qed.

Lemma yesterdayMidnightISTString_run w : 0 <= now_ms w ->
  yesterdayMidnightISTString w
  = (Normal (toISTString (Some (ist_day_start (now_ms w) - msPerDay))), tick w).
Proof.
  intros Hn. unfold yesterdayMidnightISTString, bind.
  rewrite yesterdayMidnightIST_run by exact Hn. unfold ret. cbv zeta. f_equal. f_equal.
  unfold ist_day_start.
  set (D := (now_ms w + IST_OFFSET_MS) / msPerDay).
  replace (D * msPerDay - IST_OFFSET_MS + IST_OFFSET_MS - msPerDay + IST_OFFSET_MS)
    with ((D - 1) * msPerDay + IST_OFFSET_MS) by lia.
  replace (D * msPerDay - IST_OFFSET_MS - msPerDay)
    with ((D - 1) * msPerDay - IST_OFFSET_MS) by lia.
  rewrite toISTString_day_start.
  unfold getUTCFullYear, getUTCMonth, getUTCDate.
  assert (E : ((D - 1) * msPerDay + IST_OFFSET_MS) / msPerDay = D - 1).
  { unfold msPerDay, IST_OFFSET_MS. rewrite Z.add_comm, Z.div_add by lia.
    rewrite (Z.div_small 19800000) by lia. lia. }
  rewrite E.
  replace (snd (fst (civil_from_days (D - 1))) - 1 + 1)
    with (snd (fst (civil_from_days (D - 1)))) by lia.
  reflexivity.
Qed.

Lemma str_compare_refl a : str_compare a a = Eq.
Proof.
  induction a as [| x a IH]; [reflexivity |]. simpl. rewrite Nat.compare_refl. exact IH.
Qed.

Lemma str_compare_antisym a : forall b, str_compare b a = CompOpp (str_compare a b).
Proof.
  induction a as [| x a IH]; intros [| y b]; try reflexivity. simpl.
  rewrite (Nat.compare_antisym (code x) (code y)).
  destruct (Nat.compare (code x) (code y)); simpl; auto.
Qed.

Lemma str_compare_app a1 : forall a2 r1 r2, length a1 = length a2 ->
  str_compare (a1 ++ r1) (a2 ++ r2) =
  match str_compare a1 a2 with Eq => str_compare r1 r2 | c => c end.
Proof.
  induction a1 as [| x a1 IH]; intros [| y a2] r1 r2 Hl; try discriminate.
  - reflexivity.
  - simpl. destruct (Nat.compare (code x) (code y)); try reflexivity.
    apply IH. simpl in Hl. congruence.
Qed.

Lemma str_eqb_eq a : forall b, str_eqb a b = true -> a = b.
Proof.
  induction a as [| x a IH]; intros [| y b] H; try discriminate; [reflexivity |].
  simpl in H. apply andb_true_iff in H. destruct H as [H1 H2].
  apply Ascii.eqb_eq in H1. subst. f_equal. apply IH, H2.
Qed.

Lemma comparison_eqb_eq a b : comparison_eqb a b = true -> a = b.
Proof. destruct a, b; simpl; congruence. Qed.

Lemma two_digits_table :
  forallb (fun a => forallb (two_digits_ordered a) (upto (Z.to_nat 100) 0)) (upto (Z.to_nat 100) 0) = true.
Proof. vm_compute. reflexivity. Qed.

Lemma two_digits_cmp a b : 0 <= a <= 99 -> 0 <= b <= 99 ->
  str_compare (two_digits a) (two_digits b) = (a ?= b) /\ length (two_digits a) = 2%nat.
Proof.
  intros Ha Hb. pose proof two_digits_table as H.
  rewrite forallb_forall in H.
  specialize (H a (in_upto (Z.to_nat 100) 0 a ltac:(rewrite Z2Nat.id; lia))).
  rewrite forallb_forall in H.
  specialize (H b (in_upto (Z.to_nat 100) 0 b ltac:(rewrite Z2Nat.id; lia))).
  unfold two_digits_ordered in H. apply andb_true_iff in H. destruct H as [H1 H2].
  split; [apply comparison_eqb_eq, H1 | apply Nat.eqb_eq, H2].
Qed.

Lemma year_table : forallb year_splits (upto (Z.to_nat 9000) 1000) = true.
Proof. vm_compute. reflexivity. Qed.

Lemma year_two_digits y : 1000 <= y <= 9999 ->
  String_of_Z y = (two_digits (y / 100) ++ two_digits (y mod 100))%list.
Proof.
  intros Hy. pose proof year_table as H. rewrite forallb_forall in H.
  apply str_eqb_eq. apply (H y). apply in_upto. rewrite Z2Nat.id; lia.
Qed.

Lemma render_lt seps : forall v1 v2,
  length v1 = length seps -> length v2 = length seps ->
  Forall (fun v => 0 <= v <= 99) v1 -> Forall (fun v => 0 <= v <= 99) v2 ->
  lex_lt v1 v2 ->
  str_compare (render (combine v1 seps)) (render (combine v2 seps)) = Lt.
Proof.
  induction seps as [| sep seps IH]; intros [| a v1] [| b v2] L1 L2 F1 F2 H;
    try discriminate; try contradiction.
  inversion F1 as [| ? ? Ha F1']; inversion F2 as [| ? ? Hb F2']; subst.
  cbn [combine render].
  destruct (two_digits_cmp a b Ha Hb) as [Hc La].
  destruct (two_digits_cmp b a Hb Ha) as [_ Lb].
  rewrite str_compare_app by congruence. rewrite Hc.
  destruct H as [Hlt | [-> H]].
  - rewrite (proj2 (Z.compare_lt_iff a b) Hlt). reflexivity.
  - rewrite Z.compare_refl.
    rewrite str_compare_app by reflexivity. rewrite str_compare_refl.
    apply IH; simpl in *; auto; lia.
Qed.

Lemma date_ltb_lex y1 m1 d1 y2 m2 d2 :
  date_ltb (y1, m1, d1) (y2, m2, d2) = true <-> lex_lt [y1; m1; d1] [y2; m2; d2].
Proof.
  unfold date_ltb. cbn [lex_lt].
  rewrite !orb_true_iff, !andb_true_iff, !orb_true_iff, !andb_true_iff.
  rewrite !Z.ltb_lt, !Z.eqb_eq. tauto.
Qed.

Lemma year_count_step d : 0 <= d < 146096 -> year_count d <= year_count (d + 1).
Proof.
  intros H. unfold year_count.
  assert (E1 : d / 146096 = 0) by (apply Z.div_small; lia).
  destruct (Z.eq_dec (d + 1) 146096) as [E2 | E2].
  - assert (d = 146095) by lia. subst d. vm_compute. discriminate.
  - assert (E3 : (d + 1) / 146096 = 0) by (apply Z.div_small; lia).
    rewrite E1, E3.
    assert (A : (d + 1) / 1460 <= d / 1460 + 1) by (Z.div_mod_to_equations; lia).
    assert (B : d / 36524 <= (d + 1) / 36524) by (apply Z.div_le_mono; lia).
    lia.
Qed.

Lemma year_count_mono a b : 0 <= a -> a <= b <= 146096 -> year_count a <= year_count b.
Proof.
  intros Ha Hb. replace b with (a + Z.of_nat (Z.to_nat (b - a))) in *
    by (rewrite Z2Nat.id; lia).
  induction (Z.to_nat (b - a)) as [| n IH]; [replace (a + Z.of_nat 0) with a by lia; lia |].
  replace (a + Z.of_nat (S n)) with (a + Z.of_nat n + 1) in * by lia.
  pose proof (year_count_step (a + Z.of_nat n) ltac:(lia)). specialize (IH ltac:(lia)). lia.
Qed.

Lemma year_start_table : forallb year_start_counted (upto (Z.to_nat 399) 1) = true.
Proof. vm_compute. reflexivity. Qed.

(** A day is counted into a year that has begun, and that has not ended. *)
Lemma year_of_era_spec doe : 0 <= doe < 146097 ->
  let yoe := year_count doe / 365 in
  0 <= yoe <= 399 /\ year_start yoe <= doe /\ (yoe < 399 -> doe < year_start (yoe + 1)).
Proof.
  intros H. cbv zeta.
  pose proof (year_of_era_bounds doe H) as Hb. cbv zeta in Hb.
  fold (year_count doe) in Hb.
  set (yoe := year_count doe / 365) in *. fold (year_start yoe) in Hb.
  destruct Hb as [Hy Hd]. split; [exact Hy |]. split; [lia |].
  intros H399. destruct (Z_lt_le_dec doe (year_start (yoe + 1))) as [Hlt | Hge]; [exact Hlt |].
  exfalso.
  pose proof year_start_table as T. rewrite forallb_forall in T.
  specialize (T (yoe + 1) (in_upto (Z.to_nat 399) 1 (yoe + 1) ltac:(rewrite Z2Nat.id; lia))).
  unfold year_start_counted in T. apply Z.leb_le in T.
  assert (H0 : 0 <= year_start (yoe + 1)) by (unfold year_start; Z.div_mod_to_equations; lia).
  pose proof (year_count_mono (year_start (yoe + 1)) doe H0 ltac:(lia)) as Hm.
  assert (yoe + 1 <= year_count doe / 365) by (apply Z.div_le_lower_bound; lia).
  lia.
Qed.

Lemma year_start_mono a b : 0 <= a <= b -> year_start a <= year_start b.
Proof. intros H. unfold year_start. Z.div_mod_to_equations. lia. Qed.

Lemma year_length y : 0 <= y -> 365 <= year_start (y + 1) - year_start y <= 366.
Proof. intros H. unfold year_start. Z.div_mod_to_equations. lia. Qed.

Lemma civil_in_year z :
  civil_from_days z =
  let doe := (z + 719468) mod 146097 in
  let yoe := year_count doe / 365 in
  date_in_year ((z + 719468) / 146097) yoe (doe - year_start yoe).
Proof. reflexivity. Qed.

Lemma next_day_of_year era y doy : 0 <= doy < 365 ->
  date_ltb (date_in_year era y doy) (date_in_year era y (doy + 1)) = true.
Proof.
  intros H. unfold date_in_year. cbv zeta. apply date_ltb_lex. cbn [lex_lt].
  set (mp := (5 * doy + 2) / 153). set (mp' := (5 * (doy + 1) + 2) / 153).
  assert (Hmp : 0 <= mp <= 11) by (unfold mp; Z.div_mod_to_equations; lia).
  assert (Hmp' : mp' = mp \/ mp' = mp + 1) by (unfold mp, mp'; Z.div_mod_to_equations; lia).
  assert (Hmp'' : mp' <= 11) by (unfold mp'; Z.div_mod_to_equations; lia).
  destruct Hmp' as [-> | ->].
  - right. split; [reflexivity |]. right. split; [reflexivity |]. left. lia.
  - destruct (mp <? 10) eqn:E1; destruct (mp + 1 <? 10) eqn:E2;
      try apply Z.ltb_lt in E1; try apply Z.ltb_ge in E1;
      try apply Z.ltb_lt in E2; try apply Z.ltb_ge in E2; try lia.
    + replace (mp + 3 <=? 2) with false by (symmetry; apply Z.leb_gt; lia).
      replace (mp + 1 + 3 <=? 2) with false by (symmetry; apply Z.leb_gt; lia).
      right. split; [reflexivity |]. left. lia.
    + replace (mp + 3 <=? 2) with false by (symmetry; apply Z.leb_gt; lia).
      replace (mp + 1 - 9 <=? 2) with true by (symmetry; apply Z.leb_le; lia).
      left. lia.
    + replace (mp - 9 <=? 2) with true by (symmetry; apply Z.leb_le; lia).
      replace (mp + 1 - 9 <=? 2) with true by (symmetry; apply Z.leb_le; lia).
      right. split; [reflexivity |]. left. lia.
Qed.

Lemma next_year era y era' y' doy :
  364 <= doy <= 365 -> y + era * 400 < y' + era' * 400 ->
  date_ltb (date_in_year era y doy) (date_in_year era' y' 0) = true.
Proof.
  intros H Hy. unfold date_in_year. cbv zeta. apply date_ltb_lex. cbn [lex_lt].
  assert (Hmp : (5 * doy + 2) / 153 = 11) by (Z.div_mod_to_equations; lia).
  rewrite Hmp. change ((5 * 0 + 2) / 153) with 0.
  change (11 <? 10) with false. change (0 <? 10) with true. cbv iota.
  change (11 - 9 <=? 2) with true. change (0 + 3 <=? 2) with false. cbv iota.
  lia.
Qed.

Lemma civil_succ z :
  date_ltb (civil_from_days z) (civil_from_days (z + 1)) = true.
Proof.
  rewrite !civil_in_year. cbv zeta.
  set (e := (z + 719468) / 146097). set (doe := (z + 719468) mod 146097).
  assert (Hdoe : 0 <= doe < 146097) by (apply Z.mod_pos_bound; lia).
  assert (Hz : z + 719468 = 146097 * e + doe) by (apply Z.div_mod; lia).
  destruct (Z.eq_dec doe 146096) as [E | E].
  - (* the last day of the era *)
    replace (z + 1 + 719468) with (0 + (e + 1) * 146097) by lia.
    rewrite Z.div_add, Z.mod_add by lia. rewrite E.
    change (0 / 146097) with 0. change (0 mod 146097) with 0.
    change (year_count 146096 / 365) with 399.
    change (146096 - year_start 399) with 365.
    change (year_count 0 / 365) with 0. change (0 - year_start 0) with 0.
    apply next_year; lia.
  - replace (z + 1 + 719468) with (doe + 1 + e * 146097) by lia.
    rewrite Z.div_add, Z.mod_add by lia.
    rewrite (Z.div_small (doe + 1)), (Z.mod_small (doe + 1)) by lia.
    replace (0 + e) with e by lia.
    destruct (year_of_era_spec doe Hdoe) as [Hy [Hs Hn]].
    destruct (year_of_era_spec (doe + 1) ltac:(lia)) as [Hy' [Hs' Hn']].
    pose proof (year_count_step doe ltac:(lia)) as Hc.
    assert (Hyy : year_count doe / 365 <= year_count (doe + 1) / 365)
      by (apply Z.div_le_mono; lia).
    set (y := year_count doe / 365) in *. set (y' := year_count (doe + 1) / 365) in *.
    pose proof (year_of_era_bounds doe Hdoe) as Hb. cbv zeta in Hb.
    fold (year_count doe) in Hb. fold y in Hb. fold (year_start y) in Hb.
    destruct Hb as [_ Hdoy].
    destruct (Z.eq_dec y' y) as [Ey | Ey].
    + rewrite Ey.
      pose proof (year_of_era_bounds (doe + 1) ltac:(lia)) as Hb'. cbv zeta in Hb'.
      fold (year_count (doe + 1)) in Hb'. fold y' in Hb'. rewrite Ey in Hb'.
      fold (year_start y) in Hb'. destruct Hb' as [_ Hdoy'].
      replace (doe + 1 - year_start y) with (doe - year_start y + 1) by lia.
      apply next_day_of_year. lia.
    + assert (Hlt : y < y') by lia.
      specialize (Hn ltac:(lia)).
      pose proof (year_start_mono (y + 1) y' ltac:(lia)) as Hm.
      pose proof (year_length y ltac:(lia)) as Hl.
      replace (doe + 1 - year_start y') with 0 by lia.
      apply next_year; lia.
Qed.

Lemma civil_mono z1 z2 : z1 < z2 ->
  date_ltb (civil_from_days z1) (civil_from_days z2) = true.
Proof.
  intros H. replace z2 with (z1 + 1 + Z.of_nat (Z.to_nat (z2 - z1 - 1)))
    by (rewrite Z2Nat.id; lia).
  generalize (Z.to_nat (z2 - z1 - 1)) as n. clear H z2.
  induction n as [| n IH].
  - replace (z1 + 1 + Z.of_nat 0) with (z1 + 1) by lia. apply civil_succ.
  - pose proof (civil_succ (z1 + 1 + Z.of_nat n)) as Hs.
    replace (z1 + 1 + Z.of_nat (S n)) with (z1 + 1 + Z.of_nat n + 1) by lia.
    destruct (civil_from_days z1) as [[y1 m1] d1].
    destruct (civil_from_days (z1 + 1 + Z.of_nat n)) as [[y2 m2] d2].
    destruct (civil_from_days (z1 + 1 + Z.of_nat n + 1)) as [[y3 m3] d3].
    apply date_ltb_lex in IH, Hs. apply date_ltb_lex. cbn [lex_lt] in *. lia.
Qed.

Lemma civil_day_bounds z :
  1 <= snd (fst (civil_from_days z)) <= 12 /\ 1 <= snd (civil_from_days z) <= 31.
Proof.
  split; [apply civil_roundtrip |].
  unfold civil_from_days. cbv zeta. cbn [snd].
  set (doe := (z + 719468) mod 146097).
  assert (Hdoe : 0 <= doe < 146097) by (apply Z.mod_pos_bound; lia).
  pose proof (year_of_era_bounds doe Hdoe) as Hy. cbv zeta in Hy.
  set (yoe := (doe - doe / 1460 + doe / 36524 - doe / 146096) / 365) in *.
  set (doy := doe - (365 * yoe + yoe / 4 - yoe / 100)) in *.
  destruct Hy as [_ Hdoy]. clearbody doy.
  Z.div_mod_to_equations. lia.
Qed.

Lemma toISTString_render t : four_digit_year t ->
  toISTString (Some t) = render (combine (stamp_fields t) STAMP_SEPARATORS).
Proof.
  intros Hy. unfold toISTString, stamp_fields, STAMP_SEPARATORS. cbv zeta.
  rewrite (year_two_digits _ Hy).
  cbn [combine render]. unfold two_digits.
  change (lit "") with (@nil ascii). cbn [app].
  rewrite <- !app_assoc, app_nil_r. reflexivity.
Qed.

Lemma stamp_fields_bounds t : four_digit_year t ->
  length (stamp_fields t) = length STAMP_SEPARATORS /\
  Forall (fun v => 0 <= v <= 99) (stamp_fields t).
Proof.
  intros Hy. split; [reflexivity |]. unfold four_digit_year in Hy.
  unfold stamp_fields. cbv zeta.
  set (T := t + IST_OFFSET_MS) in *.
  pose proof (civil_day_bounds (T / msPerDay)) as [Hm Hd].
  unfold getUTCMonth, getUTCDate, getUTCHours, getUTCMinutes, getUTCSeconds.
  repeat constructor; try lia;
    try (apply Z.div_pos; lia);
    try (apply Z.div_le_upper_bound; lia);
    try (apply Z.mod_pos_bound; lia).
  all: try match goal with |- ?a mod ?b <= _ =>
         pose proof (Z.mod_pos_bound a b ltac:(lia)); lia end.
  assert (getUTCFullYear T / 100 < 100) by (apply Z.div_lt_upper_bound; lia). lia.
Qed.

Lemma seconds_lex T1 T2 : T1 / 1000 < T2 / 1000 ->
  T1 / msPerDay < T2 / msPerDay \/
  (T1 / msPerDay = T2 / msPerDay /\
   lex_lt [getUTCHours T1; getUTCMinutes T1; getUTCSeconds T1]
          [getUTCHours T2; getUTCMinutes T2; getUTCSeconds T2]).
Proof.
  intros H. unfold getUTCHours, getUTCMinutes, getUTCSeconds, msPerDay. cbn [lex_lt].
  assert (E : forall T, T / 86400000 = T / 1000 / 86400 /\ T / 3600000 = T / 1000 / 3600
                        /\ T / 60000 = T / 1000 / 60).
  { intros T. rewrite !Z.div_div by lia. auto. }
  destruct (E T1) as [-> [-> ->]]. destruct (E T2) as [-> [-> ->]].
  generalize dependent (T1 / 1000). generalize dependent (T2 / 1000).
  intros S2 S1 H. clear E.
  assert (E : forall S, S / 3600 = S / 60 / 60 /\ S / 86400 = S / 60 / 60 / 24).
  { intros S. rewrite !Z.div_div by lia. auto. }
  destruct (E S1) as [-> ->]. destruct (E S2) as [-> ->].
  Z.div_mod_to_equations. lia.
Qed.

Lemma stamp_fields_lt t1 t2 :
  t1 / 1000 < t2 / 1000 -> lex_lt (stamp_fields t1) (stamp_fields t2).
Proof.
  intros H.
  assert (HT : (t1 + IST_OFFSET_MS) / 1000 < (t2 + IST_OFFSET_MS) / 1000).
  { unfold IST_OFFSET_MS.
    replace (t1 + 19800000) with (t1 + 19800 * 1000) by lia.
    replace (t2 + 19800000) with (t2 + 19800 * 1000) by lia.
    rewrite !Z.div_add by lia. lia. }
  unfold stamp_fields. cbv zeta.
  set (T1 := t1 + IST_OFFSET_MS) in *. set (T2 := t2 + IST_OFFSET_MS) in *.
  destruct (seconds_lex T1 T2 HT) as [Hd | [Hd Hl]].
  - pose proof (civil_mono _ _ Hd) as Hc.
    unfold getUTCFullYear, getUTCMonth, getUTCDate.
    destruct (civil_from_days (T1 / msPerDay)) as [[y1 m1] d1].
    destruct (civil_from_days (T2 / msPerDay)) as [[y2 m2] d2].
    apply date_ltb_lex in Hc. cbn [lex_lt fst snd] in *.
    Z.div_mod_to_equations. lia.
  - unfold getUTCFullYear, getUTCMonth, getUTCDate. rewrite Hd.
    cbn [lex_lt] in *. lia.
Qed.

Lemma stamp_fields_eq t1 t2 :
  t1 / 1000 = t2 / 1000 -> toISTString (Some t1) = toISTString (Some t2).
Proof.
  intros H.
  assert (HT : (t1 + IST_OFFSET_MS) / 1000 = (t2 + IST_OFFSET_MS) / 1000).
  { unfold IST_OFFSET_MS.
    replace (t1 + 19800000) with (t1 + 19800 * 1000) by lia.
    replace (t2 + 19800000) with (t2 + 19800 * 1000) by lia.
    rewrite !Z.div_add by lia. lia. }
  unfold toISTString. cbv zeta.
  set (T1 := t1 + IST_OFFSET_MS) in *. set (T2 := t2 + IST_OFFSET_MS) in *.
  unfold getUTCFullYear, getUTCMonth, getUTCDate, getUTCHours, getUTCMinutes,
    getUTCSeconds, msPerDay.
  assert (E : forall T, T / 86400000 = T / 1000 / 86400 /\ T / 3600000 = T / 1000 / 3600
                        /\ T / 60000 = T / 1000 / 60).
  { intros T. rewrite !Z.div_div by lia. auto. }
  destruct (E T1) as [-> [-> ->]]. destruct (E T2) as [-> [-> ->]].
  rewrite HT. reflexivity.
Qed.

Lemma ist_strings_lt a b :
  four_digit_year a -> four_digit_year b -> a / 1000 < b / 1000 ->
  str_compare (toISTString (Some a)) (toISTString (Some b)) = Lt.
Proof.
  intros Ha Hb Hab. rewrite !toISTString_render by assumption.
  destruct (stamp_fields_bounds a Ha) as [La Fa].
  destruct (stamp_fields_bounds b Hb) as [Lb Fb].
  apply render_lt; try assumption. apply stamp_fields_lt, Hab.
Qed.

Lemma four_digit_range t : 0 <= t <= 253402280999999 -> four_digit_year t.
Proof.
  intros Ht. unfold four_digit_year, getUTCFullYear, IST_OFFSET_MS, msPerDay.
  set (d := (t + 19800000) / 86400000).
  assert (Hd : 0 <= d <= 2932896).
  { unfold d. split; [apply Z.div_pos; lia |].
    assert ((t + 19800000) / 86400000 < 2932897) by (apply Z.div_lt_upper_bound; lia).
    lia. }
  assert (Hlo : 1970 <= fst (fst (civil_from_days d))).
  { destruct (Z.eq_dec d 0) as [-> | Hne]; [vm_compute; discriminate |].
    pose proof (civil_mono 0 d ltac:(lia)) as H.
    change (civil_from_days 0) with (1970, 1, 1) in H.
    destruct (civil_from_days d) as [[y m] dd]. apply date_ltb_lex in H.
    cbn [lex_lt fst] in *. lia. }
  assert (Hhi : fst (fst (civil_from_days d)) <= 9999).
  { destruct (Z.eq_dec d 2932896) as [-> | Hne]; [vm_compute; discriminate |].
    pose proof (civil_mono d 2932896 ltac:(lia)) as H.
    change (civil_from_days 2932896) with (9999, 12, 31) in H.
    destruct (civil_from_days d) as [[y m] dd]. apply date_ltb_lex in H.
    cbn [lex_lt fst] in *. lia. }
  lia.
Qed.

End CalendarFacts.
Export CalendarFacts.

(** ** JSON inside a reply *)

Module ReplyFacts.

Local Open Scope nat_scope.

Lemma m_star_any g k : forall t s, rest s = t ->
  m (Star g any) k s = star_any g k (prev s) (caps s) t.
Proof.
  induction t as [| c t IH]; intros s Hs; rewrite star_unfold; cbv zeta; unfold any.
  - rewrite (m_chr_nil _ _ _ Hs). cbn [star_any].
    destruct s as [p r cs]. cbn in Hs. subst r.
    destruct g; cbn [orelse prev caps]; [reflexivity | apply orelse_none_r].
  - rewrite (m_chr_cons _ _ _ _ _ Hs).
    assert (Ep : progressed s (MState (Some c) t (caps s)) = true).
    { unfold progressed. cbn [rest]. rewrite Hs. apply Nat.ltb_lt. simpl. lia. }
    rewrite Ep. fold any. rewrite (IH (MState (Some c) t (caps s)) eq_refl).
    cbn [star_any prev caps].
    destruct s as [p r cs]. cbn in Hs. subst r. reflexivity.
Qed.

Lemma m_str w : forall k s,
  m (str w) k s =
  if starts_with (lit w) (rest s)
  then k (MState (last_or (prev s) (lit w)) (skipn (length (lit w)) (rest s)) (caps s))
  else None.
Proof.
  unfold str, lit. induction w as [| c w IH]; intros k s.
  - destruct s. reflexivity.
  - assert (Hone : forall k s, m (chr c) k s =
              match rest s with
              | x :: t => if Ascii.eqb c x then k (MState (Some x) t (caps s)) else None
              | [] => None
              end) by reflexivity.
    assert (Hstep : m (Seq (chr c) (str_with chr w)) k s =
              if starts_with (list_ascii_of_string (String c w)) (rest s)
              then k (MState (last_or (prev s) (list_ascii_of_string (String c w)))
                             (skipn (length (list_ascii_of_string (String c w))) (rest s))
                             (caps s))
              else None).
    { rewrite m_seq, Hone. cbn [list_ascii_of_string starts_with length skipn].
      destruct (rest s) as [| x t]; [reflexivity |].
      destruct (Ascii.eqb c x) eqn:E; [| reflexivity]. cbn [andb].
      apply Ascii.eqb_eq in E. subst x.
      rewrite IH. cbn [rest prev caps]. rewrite last_or_cons. reflexivity. }
    destruct w as [| c' w'].
    + change (str_with chr (String c EmptyString)) with (chr c).
      rewrite Hone. cbn [list_ascii_of_string starts_with length skipn].
      destruct (rest s) as [| x t]; [reflexivity |].
      destruct (Ascii.eqb c x) eqn:E; [| reflexivity]. cbn [andb].
      apply Ascii.eqb_eq in E. subst x.
      destruct t; reflexivity.
    + exact Hstep.
Qed.

(** A lazy star hands over at the first place its continuation accepts. *)
Lemma lazy_first k cs tl r : forall xs p,
  (forall pre x suf, xs = pre ++ x :: suf ->
     k (MState (last_or p pre) (x :: suf ++ tl) cs) = None) ->
  k (MState (last_or p xs) tl cs) = Some r ->
  star_any false k p cs (xs ++ tl) = Some r.
Proof.
  induction xs as [| x xs IH]; intros p Hfail Hk.
  - cbn [app]. change (last_or p []) with p in Hk.
    destruct tl; cbn [star_any]; rewrite Hk; reflexivity.
  - cbn [app star_any].
    pose proof (Hfail [] x xs eq_refl) as H0. change (last_or p []) with p in H0.
    cbn [app] in H0. rewrite H0. cbn [orelse]. apply IH.
    + intros pre y suf E. rewrite <- (last_or_cons p). apply Hfail. rewrite E. reflexivity.
    + rewrite last_or_cons in Hk. exact Hk.
Qed.

Lemma star_any_none g k cs : forall t p,
  (forall ys zs q, t = ys ++ zs -> k (MState q zs cs) = None) ->
  star_any g k p cs t = None.
Proof.
  induction t as [| c t IH]; intros p H.
  - cbn [star_any]. apply (H [] []). reflexivity.
  - cbn [star_any]. rewrite (H [] (c :: t) p eq_refl).
    rewrite IH; [destruct g; reflexivity |].
    intros ys zs q E. apply (H (c :: ys) zs q). rewrite E. reflexivity.
Qed.

(** A greedy star hands over at the last place its continuation accepts. *)
Lemma greedy_last k cs tl r : forall xs p,
  (forall ys zs q, tl = ys ++ zs -> ys <> [] -> k (MState q zs cs) = None) ->
  k (MState (last_or p xs) tl cs) = Some r ->
  star_any true k p cs (xs ++ tl) = Some r.
Proof.
  intros xs p Hfail. revert p.
  assert (Htl : forall p, k (MState p tl cs) = Some r -> star_any true k p cs tl = Some r).
  { intros p Hk. destruct tl as [| c t]; [exact Hk |]. cbn [star_any].
    rewrite star_any_none; [exact Hk |].
    intros ys zs q E. apply (Hfail (c :: ys) zs q); [rewrite E; reflexivity | discriminate]. }
  induction xs as [| x xs IH]; intros p Hk.
  - apply Htl. exact Hk.
  - cbn [app star_any]. rewrite last_or_cons in Hk. rewrite (IH _ Hk). reflexivity.
Qed.

(** A greedy star over a class takes the whole run when its continuation
    accepts behind it. *)
Lemma star_run_some q k r : forall xs tl s, all_true q xs ->
  match tl with c :: _ => q c = false | [] => True end ->
  rest s = xs ++ tl -> k (after s xs tl) = Some r ->
  m (Star true (Chr q)) k s = Some r.
Proof.
  induction xs as [| x xs IH]; intros tl s Hxs Htl Hs Hk.
  - simpl in Hs. assert (Ea : after s [] tl = s) by (rewrite <- Hs; apply after_nil).
    rewrite Ea in Hk. rewrite star_unfold. cbv zeta.
    destruct tl as [| c tl].
    + rewrite (m_chr_nil _ _ _ Hs). exact Hk.
    + rewrite (m_chr_cons _ _ _ _ _ Hs), Htl. exact Hk.
  - simpl in Hs. inversion Hxs as [| ? ? Hx Hxs']; subst.
    rewrite star_unfold. cbv zeta.
    rewrite (m_chr_cons _ _ _ _ _ Hs), Hx. unfold progressed. cbn [rest]. rewrite Hs.
    replace (length (xs ++ tl) <? length (x :: xs ++ tl)) with true
      by (symmetry; apply Nat.ltb_lt; simpl; lia).
    rewrite (IH tl (MState (Some x) (xs ++ tl) (caps s)) Hxs' Htl eq_refl);
      [reflexivity |].
    rewrite after_cons. exact Hk.
Qed.

Lemma drop_while_split q s :
  exists xs, s = xs ++ drop_while q s /\ all_true q xs /\
             match drop_while q s with c :: _ => q c = false | [] => True end.
Proof.
  induction s as [| c s IH].
  - exists []. repeat split. constructor.
  - cbn [drop_while]. destruct (q c) eqn:E.
    + destruct IH as [xs [E1 [E2 E3]]]. exists (c :: xs).
      split; [cbn; f_equal; exact E1 |]. split; [constructor; assumption | exact E3].
    + exists []. repeat split; [constructor | exact E].
Qed.

Lemma drop_while_idem q s : drop_while q (drop_while q s) = drop_while q s.
Proof.
  induction s as [| c s IH]; [reflexivity |]. cbn [drop_while].
  destruct (q c) eqn:E; [exact IH |]. cbn [drop_while]. rewrite E. reflexivity.
Qed.

Lemma trim_drop s : trim (drop_while is_space s) = trim s.
Proof. unfold trim. rewrite drop_while_idem. reflexivity. Qed.

Lemma starts_with_head w x t : 
  match lit w with c :: _ => Ascii.eqb c x = false | [] => False end ->
  starts_with (lit w) (x :: t) = false.
Proof. destruct (lit w) as [| c l]; [contradiction |]. intros E. cbn. rewrite E. reflexivity. Qed.

Lemma not_backtick_spec x : not_backtick x = true -> Ascii.eqb "`" x = false.
Proof.
  unfold not_backtick. rewrite negb_true_iff, Ascii.eqb_sym. auto.
Qed.

(** The tag is read off the inner text alone: the fence that follows
    cannot complete it. *)
Lemma starts_with_tag inner tl :
  all_true not_backtick inner ->
  starts_with (lit "json") (inner ++ "`"%char :: tl) = starts_with (lit "json") inner.
Proof.
  intros H.
  destruct inner as [| a [| b [| c [| d inner]]]]; cbn;
    repeat match goal with |- context [Ascii.eqb ?x ?y] =>
             destruct (Ascii.eqb x y); cbn end; reflexivity.
Qed.

Lemma starts_with_split w : forall s,
  starts_with w s = true -> s = w ++ skipn (length w) s.
Proof.
  induction w as [| a w IH]; intros s H; [reflexivity |].
  destruct s as [| b s]; [discriminate |]. cbn [starts_with] in H.
  apply andb_true_iff in H. destruct H as [H1 H2]. apply Ascii.eqb_eq in H1. subst b.
  cbn [length skipn app]. f_equal. apply IH, H2.
Qed.

Lemma after_tag_clean inner :
  all_true not_backtick inner -> all_true not_backtick (after_tag inner).
Proof.
  intros H. unfold after_tag. destruct (starts_with _ _); [| exact H].
  rewrite <- (firstn_skipn 4 inner) in H. apply Forall_app in H. apply H.
Qed.

Lemma all_true_drop q p s : all_true q s -> all_true q (drop_while p s).
Proof.
  induction 1 as [| c s Hc Hs IH]; [constructor |]. cbn [drop_while].
  destruct (p c); [exact IH | constructor; assumption].
Qed.

(** The fence pattern at an opening fence: the captured text is what lies
    between the fences, less the tag and the white space after it. *)
Lemma fence_match_at p inner post :
  all_true not_backtick inner ->
  exists x,
    match_at FENCE_REGEX p (lit "```" ++ inner ++ lit "```" ++ post) = Some x /\
    group 1 x = Some (drop_while is_space (after_tag inner)).
Proof.
  intros Hin. unfold match_at, FENCE_REGEX. cbn [seqs].
  rewrite m_seq, m_str. cbn [rest lit list_ascii_of_string app starts_with Ascii.eqb
    Bool.eqb andb length skipn prev caps].
  set (R4 := str "```").
  set (R3 := Group 1 (lazy_star any)).
  change (last_or p ["`"%char; "`"%char; "`"%char]) with (Some "`"%char).
  set (tl := "`"%char :: "`"%char :: "`"%char :: post).
  set (s1 := MState (Some "`"%char) (inner ++ tl) []).
  (* what the rest of the pattern does once the tag is past *)
  set (body := drop_while is_space (after_tag inner)).
  assert (Hbody : all_true not_backtick body)
    by (apply all_true_drop, after_tag_clean, Hin).
  assert (Hrest : forall q, exists s',
            m (Seq (star space) (Seq R3 R4)) Some (MState q (after_tag inner ++ tl) [])
            = Some s'
            /\ caps s' = [(1, body)]).
  { intros q. rewrite m_seq. unfold star, space.
    destruct (drop_while_split is_space (after_tag inner)) as [xs [Exs [Hxs Hnb]]].
    fold body in Exs, Hnb.
    set (s2 := MState q (after_tag inner ++ tl) []).
    assert (Hs2 : rest s2 = xs ++ (body ++ tl)).
    { unfold s2. cbn [rest]. rewrite Exs at 1. rewrite <- app_assoc. reflexivity. }
    assert (Hk : exists s', m (Seq R3 R4) Some (after s2 xs (body ++ tl)) = Some s'
                            /\ caps s' = [(1, body)]).
    { rewrite m_seq. unfold R3. cbn [m]. fold (m (Star false any)).
      change (Star false any) with (lazy_star any). unfold lazy_star.
      set (s3 := after s2 xs (body ++ tl)).
      rewrite (m_star_any false _ (body ++ tl) s3 eq_refl).
      eexists. split.
      - apply lazy_first.
        + intros pre x suf E. unfold R4. rewrite m_str. cbn [rest set_cap].
          rewrite starts_with_head; [reflexivity |].
          cbn. apply not_backtick_spec.
          rewrite E in Hbody. apply Forall_app in Hbody. destruct Hbody as [_ Hb].
          inversion Hb; assumption.
        + unfold R4. rewrite m_str. cbn [rest set_cap]. unfold tl.
          cbn [lit list_ascii_of_string starts_with Ascii.eqb Bool.eqb andb length skipn].
          reflexivity.
      - unfold s3, s2. cbn [caps set_cap after]. f_equal. f_equal.
        apply consumed_app. reflexivity. }
    destruct Hk as [s' [Hk Hc]]. exists s'. split; [| exact Hc].
    apply (star_run_some is_space _ s' xs (body ++ tl) s2 Hxs).
    - destruct body as [| c body']; [reflexivity | exact Hnb].
    - exact Hs2.
    - exact Hk. }
  rewrite m_seq, m_opt, m_str.
  change (rest s1) with (inner ++ tl). change (caps s1) with (@nil (nat * jsstring)).
  change (prev s1) with (Some "`"%char).
  unfold tl at 1. rewrite starts_with_tag by exact Hin. fold tl.
  destruct (starts_with (lit "json") inner) eqn:Etag.
  - assert (Einner : inner = lit "json" ++ after_tag inner).
    { unfold after_tag. rewrite Etag. apply (starts_with_split (lit "json")), Etag. }
    assert (Eskip : skipn (length (lit "json")) (inner ++ tl) = after_tag inner ++ tl).
    { rewrite Einner at 1. reflexivity. }
    rewrite Eskip.
    assert (Ep : progressed s1 (MState (last_or (Some "`"%char) (lit "json"))
                                  (after_tag inner ++ tl) []) = true).
    { unfold progressed, s1. cbn [rest]. apply Nat.ltb_lt. rewrite Einner at 2.
      rewrite <- app_assoc. cbn. lia. }
    rewrite Ep.
    destruct (Hrest (last_or (Some "`"%char) (lit "json"))) as [s' [-> Hc]].
    cbn [orelse]. eexists. split; [reflexivity |].
    unfold group. cbn [groups]. rewrite Hc. reflexivity.
  - cbn [orelse].
    assert (Ea : after_tag inner = inner) by (unfold after_tag; rewrite Etag; reflexivity).
    unfold s1. destruct (Hrest (Some "`"%char)) as [s' [Hr Hc]].
    rewrite Ea in Hr. rewrite Hr.
    eexists. split; [reflexivity |].
    unfold group. cbn [groups]. rewrite Hc. reflexivity.
Qed.

Lemma fence_exec pre inner post :
  all_true not_backtick pre -> all_true not_backtick inner ->
  exists x,
    exec FENCE_REGEX (pre ++ lit "```" ++ inner ++ lit "```" ++ post) = Some x /\
    group 1 x = Some (drop_while is_space (after_tag inner)).
Proof.
  intros Hpre Hin. unfold exec. rewrite search_skip.
  - destruct (fence_match_at (last_or None pre) inner post Hin) as [x [E G]].
    exists x. split; [| exact G].
    change (lit "```" ++ inner ++ lit "```" ++ post)
      with ("`"%char :: "`"%char :: "`"%char :: inner ++ lit "```" ++ post) in *.
    cbn [search]. rewrite E. reflexivity.
  - intros pre' x suf E. unfold match_at, FENCE_REGEX. cbn [seqs].
    rewrite m_seq, m_str. cbn [rest]. rewrite starts_with_head; [reflexivity |].
    cbn. apply not_backtick_spec.
    rewrite E in Hpre. apply Forall_app in Hpre. destruct Hpre as [_ Hb].
    inversion Hb; assumption.
Qed.

Lemma fence_none s : all_true not_backtick s -> exec FENCE_REGEX s = None.
Proof.
  intros H. unfold exec. apply (search_needs (fun c => Ascii.eqb "`" c)).
  - vm_compute. reflexivity.
  - eapply Forall_impl; [| exact H]. intros c Hc. apply not_backtick_spec, Hc.
Qed.

Lemma other_than_spec c x : other_than c x = true -> Ascii.eqb c x = false.
Proof. unfold other_than. rewrite negb_true_iff, Ascii.eqb_sym. auto. Qed.

Lemma object_exec pre mid post :
  all_true (other_than "{") pre -> all_true (other_than "}") post ->
  exists x,
    exec OBJECT_REGEX (pre ++ "{"%char :: mid ++ "}"%char :: post) = Some x /\
    whole x = "{"%char :: mid ++ ["}"%char].
Proof.
  intros Hpre Hpost. unfold exec. rewrite search_skip.
  - cbn [search]. unfold match_at, OBJECT_REGEX. cbn [seqs].
    set (s0 := MState (last_or None pre) ("{"%char :: mid ++ "}"%char :: post) []).
    rewrite m_seq. unfold chr at 1.
    rewrite (m_chr_cons _ _ s0 "{"%char (mid ++ "}"%char :: post) eq_refl).
    rewrite Ascii.eqb_refl. rewrite m_seq. unfold star.
    rewrite (m_star_any true _ (mid ++ "}"%char :: post)
               (MState (Some "{"%char) (mid ++ "}"%char :: post) (caps s0)) eq_refl).
    cbn [prev caps]. change (caps s0) with (@nil (nat * jsstring)).
    rewrite (greedy_last _ [] ("}"%char :: post)
               (MState (Some "}"%char) post []) mid (Some "{"%char)).
    + eexists. split; [reflexivity |]. cbn [whole].
      change ("{"%char :: mid ++ ["}"%char]) with (("{"%char :: mid ++ ["}"%char])).
      apply (consumed_app s0 _ ("{"%char :: mid ++ ["}"%char])).
      unfold s0. cbn [rest app]. rewrite <- app_assoc. reflexivity.
    + intros ys zs q E Hne. unfold chr.
      destruct zs as [| z zs]; [apply m_chr_nil; reflexivity |].
      rewrite (m_chr_cons _ _ (MState q (z :: zs) []) z zs eq_refl).
      assert (Hz : In z post).
      { destruct ys as [| y ys]; [contradiction |]. injection E as _ E.
        rewrite E. apply in_or_app. right. left. reflexivity. }
      unfold all_true in Hpost. rewrite Forall_forall in Hpost.
      rewrite (other_than_spec _ _ (Hpost z Hz)). reflexivity.
    + unfold chr.
      rewrite (m_chr_cons _ _ (MState (last_or (Some "{"%char) mid) ("}"%char :: post) [])
                 "}"%char post eq_refl).
      rewrite Ascii.eqb_refl. reflexivity.
  - intros pre' x suf E. unfold match_at, OBJECT_REGEX. cbn [seqs].
    rewrite m_seq. unfold chr at 1.
    rewrite (m_chr_cons _ _
               (MState (last_or None pre') (x :: suf ++ "{"%char :: mid ++ "}"%char :: post) [])
               x (suf ++ "{"%char :: mid ++ "}"%char :: post) eq_refl).
    rewrite E in Hpre. apply Forall_app in Hpre. destruct Hpre as [_ Hb].
    inversion Hb as [| ? ? Hx _]; subst.
    rewrite (other_than_spec _ _ Hx). reflexivity.
Qed.

End ReplyFacts.
Export ReplyFacts.

(** ** The requests *)

Module RequestFacts.

Local Open Scope nat_scope.

(** A guarded exchange: one request leaves, then at most console output. *)
Lemma fetch_guarded A rq (f : Response -> M A) (h : M A) :
  (forall r, quiet (f r)) -> quiet h -> forall w,
  exists res evs,
    try_catch (response <- fetch rq ;; f response) h w
    = (res, add_events (evs ++ [EvFetch rq]) w) /\
    console_only evs /\
    ((forall w0, exists a w1, h w0 = (Normal a, w1)) -> exists a, res = Normal a).
Proof.
  intros Hf Hh w. unfold try_catch, bind, fetch.
  set (w1 := Build_World _ _ _ (EvFetch rq :: _)).
  assert (Ew1 : w1 = add_events [EvFetch rq] w) by reflexivity.
  assert (Hcatch : forall e0 msg, console_only e0 ->
            exists res evs,
              (let (c, w') := (@Throw A msg, add_events e0 w1) in
               match c with
               | Normal a => (Normal a, w')
               | Throw _ => h w'
               end) = (res, add_events (evs ++ [EvFetch rq]) w) /\
              console_only evs /\
              ((forall w0, exists a w2, h w0 = (Normal a, w2)) -> exists a, res = Normal a)).
  { intros e0 msg He0. cbv beta iota.
    destruct (Hh (add_events e0 w1)) as [res [e1 [E1 C1]]].
    exists res, (e1 ++ e0). split.
    - rewrite E1, Ew1, !add_events_app, <- app_assoc. reflexivity.
    - split; [apply Forall_app; auto |].
      intros Hn. destruct (Hn (add_events e0 w1)) as [a [w2 E2]].
      rewrite E2 in E1. injection E1 as <- _. eauto. }
  destruct (net w rq) as [resp | |].
  - destruct (Hf resp w1) as [res [e0 [E0 C0]]]. rewrite E0.
    destruct res as [a | msg].
    + exists (Normal a), e0. split; [rewrite Ew1, add_events_app; reflexivity |].
      split; [exact C0 |]. intros _. exists a. reflexivity.
    + exact (Hcatch e0 msg C0).
  - specialize (Hcatch [] "fetch failed"%string (Forall_nil _)).
    rewrite add_events_nil in Hcatch. exact Hcatch.
  - specialize (Hcatch [] "The operation was aborted due to timeout"%string (Forall_nil _)).
    rewrite add_events_nil in Hcatch. exact Hcatch.
Qed.

Lemma user_content_prefix text env :
  user_content (request_for text env) = firstn MAX_USER_MESSAGE_LENGTH text.
Proof.
  unfold request_for. cbn [user_content].
  destruct (MAX_USER_MESSAGE_LENGTH <? length text) eqn:E; [reflexivity |].
  apply Nat.ltb_ge in E. symmetry. apply firstn_all2, E.
Qed.

Lemma drop_while_fix q s :
  match s with c :: _ => q c = false | [] => True end -> drop_while q s = s.
Proof. destruct s as [| c s]; [reflexivity |]. intros H. cbn. rewrite H. reflexivity. Qed.

Lemma trim_idem s : trim (trim s) = trim s.
Proof.
  unfold trim.
  set (a := drop_while is_space s).
  destruct (drop_while_split is_space (rev a)) as [xs [Exs [_ Hb]]].
  set (b := drop_while is_space (rev a)) in *.
  assert (Ha : match a with c :: _ => is_space c = false | [] => True end).
  { unfold a. destruct (drop_while_split is_space s) as [ys [_ [_ H]]]. exact H. }
  assert (Hrb : match rev b with c :: _ => is_space c = false | [] => True end).
  { assert (Ea : a = rev b ++ rev xs).
    { rewrite <- rev_app_distr, <- Exs, rev_involutive. reflexivity. }
    destruct (rev b) as [| c l]; [exact I |]. rewrite Ea in Ha. exact Ha. }
  rewrite (drop_while_fix _ _ Hrb), rev_involutive, (drop_while_fix _ b Hb).
  reflexivity.
Qed.

Lemma quiet_trimmed_content data : quiet (trimmed_content data).
Proof.
  unfold trimmed_content.
  destruct data; try apply quiet_throw;
    (destruct (content_of _) as [[] |]; first [apply quiet_ret | apply quiet_throw]).
Qed.

Lemma trimmed_content_some data w s w' :
  trimmed_content data w = (Normal (Some s), w') -> trim s = s.
Proof.
  unfold trimmed_content.
  destruct data; try discriminate;
    (destruct (content_of _) as [[] |]; try discriminate;
     intros H; injection H as <- _; apply trim_idem).
Qed.

End RequestFacts.
Export RequestFacts.

(** ** Telegram *)

Module TelegramFacts.

Local Open Scope nat_scope.

Lemma replace_all_app c rep a b :
  replace_all c rep (a ++ b) = replace_all c rep a ++ replace_all c rep b.
Proof. apply flat_map_app. Qed.

Lemma escape_one x : escapeHtmlForTelegram [x] = html_entity x.
Proof.
  assert (H : forallb (fun x => str_eqb (escapeHtmlForTelegram [x]) (html_entity x))
                all_ascii = true) by (vm_compute; reflexivity).
  apply str_eqb_eq. exact (ascii_forallb _ H x).
Qed.

Lemma escape_app a b :
  escapeHtmlForTelegram (a ++ b) = escapeHtmlForTelegram a ++ escapeHtmlForTelegram b.
Proof. unfold escapeHtmlForTelegram. rewrite !replace_all_app. reflexivity. Qed.

Lemma escape_single_pass text :
  escapeHtmlForTelegram text = flat_map html_entity text.
Proof.
  induction text as [| x text IH]; [reflexivity |].
  change (x :: text) with ([x] ++ text). rewrite escape_app, escape_one, IH. reflexivity.
Qed.

Lemma html_entity_head x :
  exists c t, html_entity x = c :: t /\
    (c = x \/ (c = "&"%char /\ (x = "<"%char \/ x = ">"%char))) /\
    all_true (other_than "<") (c :: t) /\ all_true (other_than ">") (c :: t).
Proof.
  assert (H : forallb (fun x =>
      match html_entity x with
      | c :: t =>
          (Ascii.eqb c x || (Ascii.eqb c "&" && (Ascii.eqb x "<" || Ascii.eqb x ">")))
          && forallb (other_than "<") (c :: t) && forallb (other_than ">") (c :: t)
      | [] => false
      end) all_ascii = true) by (vm_compute; reflexivity).
  pose proof (ascii_forallb _ H x) as Hx. cbv beta in Hx.
  destruct (html_entity x) as [| c t]; [discriminate |].
  apply andb_true_iff in Hx. destruct Hx as [Hx H3].
  apply andb_true_iff in Hx. destruct Hx as [H1 H2].
  exists c, t. split; [reflexivity |]. split.
  - apply orb_true_iff in H1. destruct H1 as [H1 | H1].
    + left. apply Ascii.eqb_eq, H1.
    + right. apply andb_true_iff in H1. destruct H1 as [Ha Hb].
      split; [apply Ascii.eqb_eq, Ha |].
      apply orb_true_iff in Hb. destruct Hb as [Hb | Hb]; [left | right];
        apply Ascii.eqb_eq, Hb.
  - split; apply Forall_forall; intros y Hy;
      [rewrite forallb_forall in H2; apply H2, Hy
      | rewrite forallb_forall in H3; apply H3, Hy].
Qed.

Lemma escape_no_markup text :
  all_true (other_than "<") (escapeHtmlForTelegram text) /\
  all_true (other_than ">") (escapeHtmlForTelegram text).
Proof.
  rewrite escape_single_pass. induction text as [| x text [IH1 IH2]].
  - split; constructor.
  - cbn [flat_map]. destruct (html_entity_head x) as [c [t [-> [_ [H1 H2]]]]].
    split; apply Forall_app; auto.
Qed.

(** The entities are told apart by their first two code units. *)
Lemma html_entity_inj x y s t :
  html_entity x ++ s = html_entity y ++ t -> x = y /\ s = t.
Proof.
  assert (H : forallb (fun x => forallb (fun y =>
      match html_entity x, html_entity y with
      | [a], [b] => true
      | [a], b :: _ :: _ => negb (Ascii.eqb a "&") && Ascii.eqb b "&"
      | a :: _ :: _, [b] => negb (Ascii.eqb b "&") && Ascii.eqb a "&"
      | a :: a' :: _, b :: b' :: _ =>
          Ascii.eqb x y || negb (Ascii.eqb a' b')
      | _, _ => false
      end) all_ascii) all_ascii = true) by (vm_compute; reflexivity).
  pose proof (ascii_forallb _ H x) as Hx. cbv beta in Hx.
  rewrite forallb_forall in Hx. specialize (Hx y (in_all_ascii y)).
  assert (Hone : forall z, (exists a, html_entity z = [a] /\ a = z) \/
                           (exists a b l, html_entity z = a :: b :: l)).
  { intros z. unfold html_entity.
    destruct (Ascii.eqb z "&"); [right; repeat eexists |].
    destruct (Ascii.eqb z "<"); [right; repeat eexists |].
    destruct (Ascii.eqb z ">"); [right; repeat eexists |].
    left. eauto. }
  intros E.
  destruct (Hone x) as [[a [Ea Hax]] | [a [a' [l Ea]]]];
    destruct (Hone y) as [[b [Eb Hby]] | [b [b' [l' Eb]]]];
    rewrite Ea, Eb in *; cbn [app] in E.
  - injection E as E1 E2. subst. auto.
  - apply andb_true_iff in Hx. destruct Hx as [H1 H2].
    injection E as E1 _. apply Ascii.eqb_eq in H2. subst.
    rewrite Ascii.eqb_refl in H1. discriminate.
  - apply andb_true_iff in Hx. destruct Hx as [H1 H2].
    injection E as E1 _. apply Ascii.eqb_eq in H2. subst.
    rewrite Ascii.eqb_refl in H1. discriminate.
  - injection E as E1 E2 E3. subst.
    rewrite Ascii.eqb_refl in Hx. cbn in Hx. rewrite orb_false_r in Hx.
    apply Ascii.eqb_eq in Hx. subst y. split; [reflexivity |].
    rewrite Ea in Eb. injection Eb as <-. apply app_inv_head in E3. exact E3.
Qed.

Lemma escape_injective a : forall b,
  escapeHtmlForTelegram a = escapeHtmlForTelegram b -> a = b.
Proof.
  intros b. rewrite !escape_single_pass. revert b.
  induction a as [| x a IH]; intros [| y b] E; cbn [flat_map] in E.
  - reflexivity.
  - destruct (html_entity_head y) as [c [t [Ey _]]]. rewrite Ey in E. discriminate.
  - destruct (html_entity_head x) as [c [t [Ex _]]]. rewrite Ex in E. discriminate.
  - apply html_entity_inj in E. destruct E as [-> E]. f_equal. apply IH, E.
Qed.

Local Open Scope Z_scope.

Lemma number_prop_object v name q :
  typeof_number (get_prop v name) = Some q -> exists l, v = JObj l.
Proof. destruct v; try discriminate. eauto. Qed.

Lemma parseTelegramPayload_normal body w :
  exists u w', parseTelegramPayload body w = (Normal u, w').
Proof.
  unfold parseTelegramPayload.
  destruct (_ || _); [eexists _, _; reflexivity |].
  destruct (typeof_number _); [| eexists _, _; reflexivity].
  destruct (get_prop body _) as [msg |]; [| eexists _, _; reflexivity].
  destruct (negb _); [eexists _, _; reflexivity |].
  destruct (typeof_number _); [| eexists _, _; reflexivity].
  destruct (truthy (get_prop msg _)); [| eexists _, _; reflexivity].
  destruct (typeof_number _); [| eexists _, _; reflexivity].
  unfold bind. destruct (truthy (get_prop msg (lit "date"))); eexists _, _; reflexivity.
Qed.

Lemma ampersands_entity x rest0 :
  ampersands_open_entities rest0 = true ->
  ampersands_open_entities (html_entity x ++ rest0) = true.
Proof.
  intros H. unfold html_entity.
  destruct (Ascii.eqb x "&") eqn:E1; [cbn; exact H |].
  destruct (Ascii.eqb x "<") eqn:E2; [cbn; exact H |].
  destruct (Ascii.eqb x ">") eqn:E3; [cbn; exact H |].
  cbn [app ampersands_open_entities]. rewrite E1. exact H.
Qed.

End TelegramFacts.
Export TelegramFacts.

(** ** The webhook *)

Module WorkerFacts.

Local Open Scope Z_scope.

Lemma str_eqb_refl a : str_eqb a a = true.
Proof.
  induction a as [| x a IH]; [reflexivity |].
  simpl. rewrite Ascii.eqb_refl. exact IH.
Qed.

Lemma differs_false h s : differs h s = false <-> h = Some s.
Proof.
  unfold differs. destruct h as [h |]; [| split; discriminate].
  rewrite negb_false_iff. split.
  - intros E. f_equal. apply str_eqb_eq, E.
  - intros E. injection E as ->. apply str_eqb_refl.
Qed.

End WorkerFacts.
Export WorkerFacts.

(** * The claims of the specification *)

Local Open Scope Z_scope.

(** ** C1 *)

(** Claim C1 does not hold of the code.  The text "500ml yesterday" holds
    the word "yesterday" and a parseable amount; [parseWaterInput] returns
    the deterministic log of 500 ml stamped with the current time, in every
    world and configuration, and the world afterwards differs by one
    reading of the clock only: the fallback, whose guard would have asked
    for a clarification, is never entered. *)
Theorem C1_yesterday_is_logged jp prefs env w :
  test YESTERDAY_REGEX (lit "500ml yesterday") = true /\
  parseWaterInput jp (lit "500ml yesterday") prefs env w
  = (Normal (regex_log 500 (toISTString (Some (now_ms w)))), tick w).
Proof.
  split; [vm_compute; reflexivity |].
  apply parseWaterInput_short_circuit; [| reflexivity | vm_compute; reflexivity].
  change (lit "500ml yesterday") with (lit "500" ++ lit "ml yesterday")%list.
  unfold parseWaterInputRegex.
  replace (guarded ML_REGEX _ _) with (Some 500) by (vm_compute; reflexivity).
  apply logged_now_run.
Qed.

(** ** C2 *)

(** Claim C2, as amended.  (1) A successful result of
    [parseWaterInputRegex] carries a whole amount that lies in (0, 10000]
    or comes from the bottle size [b] with no range check: the half or the
    quarter of [b] rounded to a whole number, [b] itself, or the product
    [b * n] for a count [n] in 1..10, as a double holds it; when
    [2 <= b <= 1000] every successful amount lies in (0, 10000].  (2) For every bottle size outside [2, 1000] some
    text is logged with an amount outside (0, 10000].  (3) The patterns
    that do check fall through: a number outside (0, 10000] followed by
    "ml", one outside (0, 10] followed by a litre word, and one outside
    (0, 20] followed by a glass or cup word find nothing. *)
Theorem C2_amount_range :
  (forall text prefs w r w',
     parseWaterInputRegex text prefs w = (Normal r, w') -> success r = true ->
     let b := bottle_size_ml prefs in
     exists a, amount_ml r = Some (inject_Z a) /\
       (0 < a <= 10000 \/ half_of b a \/ quarter_of b a \/ a = b
        \/ exists n, 1 <= n <= 10 /\ a = double_of_Z (b * n)
                     /\ (exact_double (b * n) -> a = b * n)) /\
       (2 <= b <= 1000 -> 0 < a <= 10000)) /\
  (forall prefs w, ~ (2 <= bottle_size_ml prefs <= 1000) ->
     exists text a,
       logs_now (parseWaterInputRegex text prefs) w a /\ ~ (0 < a <= 10000)) /\
  (forall x xs prefs w, all_true is_digit (x :: xs) ->
     let n := number_of (x :: xs) in
     (~ (0 < n <= 10000) ->
        finds_nothing (parseWaterInputRegex ((x :: xs) ++ lit "ml") prefs) w) /\
     (~ (0 < n <= 10) -> forall tl, In tl LITER_TAILS ->
        finds_nothing (parseWaterInputRegex ((x :: xs) ++ lit tl) prefs) w) /\
     (~ (0 < n <= 20) -> forall tl, In tl (GLASS_TAILS ++ CUP_TAILS) ->
        finds_nothing (parseWaterInputRegex ((x :: xs) ++ lit tl) prefs) w)).
Proof.
  split; [| split].
  - intros text prefs w r w' Hrun Hs b.
    pose proof (parseWaterInputRegex_outcome text prefs) as Ho. fold b in Ho.
    assert (Hh : 2 <= b <= 1000 -> 0 < round_half b <= 10000).
    { intros Hb. unfold round_half.
      pose proof (Z.div_le_lower_bound (b + 1) 2 1).
      pose proof (Z.div_le_upper_bound (b + 1) 2 10000). lia. }
    assert (Hq : 2 <= b <= 1000 -> 0 < round_quarter b <= 10000).
    { intros Hb. unfold round_quarter.
      pose proof (Z.div_le_lower_bound (b + 2) 4 1).
      pose proof (Z.div_le_upper_bound (b + 2) 4 10000). lia. }
    assert (Hx : forall n, exact_double (b * n) -> double_of_Z (b * n) = b * n)
      by (intros n; apply double_of_Z_exact_double).
    destruct Ho as [a Ha | | | n Hn | | n Hn | n Hn |].
    8: { injection Hrun as <- <-. discriminate Hs. }
    all: apply logged_now_inv in Hrun; destruct Hrun as [-> ->];
         eexists; (split; [reflexivity |]); split.
    all: try (intros Hb).
    + left. exact Ha.
    + exact Ha.
    + right. left. apply half_of_round.
    + apply Hh, Hb.
    + right. right. left. apply quarter_of_round.
    + apply Hq, Hb.
    + right. right. right. right. exists n.
      split; [lia |]. split; [reflexivity | apply Hx].
    + rewrite Hx by (unfold exact_double; nia). nia.
    + right. right. right. left. reflexivity.
    + lia.
    + left. lia.
    + lia.
    + left. lia.
    + lia.
  - intros prefs w Hb. set (b := bottle_size_ml prefs) in *.
    destruct (Z_le_gt_dec b 0) as [H0 | H0]; [| destruct (Z_le_gt_dec b 1) as [H1 | H1]].
    + exists (lit "a bottle"), b. split; [| lia].
      rewrite regex_a_bottle. apply logged_now_logs.
    + exists (lit "quarter bottle"), (round_quarter b). split.
      * rewrite regex_quarter_bottle. apply logged_now_logs.
      * assert (E : b = 1) by lia. rewrite E. unfold round_quarter. cbn. lia.
    + exists (lit "10 bottles"), (double_of_Z (b * 10)). split.
      * change (lit "10 bottles") with (("1"%char :: lit "0") ++ lit " bottles")%list.
        rewrite regex_bottles_checked by (repeat constructor).
        apply logged_now_logs.
      * pose proof (double_of_Z_ge (b * 10) 10001 ltac:(lia) ltac:(lia)). lia.
  - intros x xs prefs w Hd n. split; [| split].
    + intros Hr.
      apply (proj2 (checked_stage _ w n 10000 n (regex_ml_checked x xs prefs Hd)) Hr).
    + intros Hr tl Hin.
      apply (proj2 (checked_stage _ w n 10 (1000 * n)
                      (regex_liters_whole x xs tl prefs Hin Hd)) Hr).
    + intros Hr tl Hin. apply in_app_or in Hin. destruct Hin as [Hin | Hin].
      * apply (proj2 (checked_stage _ w n 20 (250 * n)
                        (regex_glasses_checked x xs tl prefs Hin Hd)) Hr).
      * apply (proj2 (checked_stage _ w n 20 (200 * n)
                        (regex_cups_checked x xs tl prefs Hin Hd)) Hr).
Qed.

Lemma C2_amount_range_witness :
  (exists a, Some (inject_Z 750) = Some (inject_Z a) /\
     (0 < a <= 10000 \/ half_of 750 a \/ quarter_of 750 a \/ a = 750
      \/ exists n, 1 <= n <= 10 /\ a = double_of_Z (750 * n)
                   /\ (exact_double (750 * n) -> a = 750 * n)) /\
     (2 <= 750 <= 1000 -> 0 < a <= 10000)) /\
  (exists text a,
     logs_now (parseWaterInputRegex text (Build_UserPreferences 1500)) sample_world a
     /\ ~ (0 < a <= 10000)) /\
  finds_nothing (parseWaterInputRegex (lit "20000ml") (Build_UserPreferences 750))
    sample_world.
Proof.
  split; [| split].
  - apply (proj1 C2_amount_range (lit "a bottle") (Build_UserPreferences 750) sample_world
             (regex_log 750 (toISTString (Some (now_ms sample_world))))
             (tick sample_world)).
    + vm_compute. reflexivity.
    + reflexivity.
  - apply (proj1 (proj2 C2_amount_range) (Build_UserPreferences 1500) sample_world).
    simpl. lia.
  - apply (proj1 (proj2 (proj2 C2_amount_range) "2"%char (lit "0000")
                    (Build_UserPreferences 750) sample_world
                    ltac:(repeat constructor))).
    vm_compute. intros [_ H]. apply H. reflexivity.
Defined.

(** Claim C2 as stated fails: with a bottle of 1500 ml, "7 bottles" is
    logged as 10500 ml. *)
Lemma C2_counterexample :
  ~ (forall text prefs w r w' a,
       parseWaterInputRegex text prefs w = (Normal r, w') -> success r = true ->
       amount_ml r = Some (inject_Z a) -> 0 < a <= 10000).
Proof.
  intros H.
  specialize (H (lit "7 bottles") (Build_UserPreferences 1500) sample_world
                (regex_log 10500 (toISTString (Some (now_ms sample_world))))
                (tick sample_world) 10500).
  assert (Hrun : parseWaterInputRegex (lit "7 bottles") (Build_UserPreferences 1500)
                   sample_world
                 = (Normal (regex_log 10500 (toISTString (Some (now_ms sample_world)))),
                    tick sample_world)) by (vm_compute; reflexivity).
  specialize (H Hrun eq_refl eq_refl). lia.
Qed.

(** ** C3 *)

(** Claim C3.  On the text "<n> bottles", [n] being the number its run of
    digits writes: for [n] in 1..10 the deterministic stage logs the
    product of the bottle size and [n] as a double holds it, which is the
    product itself below 2^53; for every other [n] the stage finds
    nothing, [parseWaterInput] is the fallback path, and the fallback is
    entered once. *)
Theorem C3_counted_bottles jp x xs prefs env w :
  all_true is_digit (x :: xs) ->
  let n := number_of (x :: xs) in
  let b := bottle_size_ml prefs in
  let text := ((x :: xs) ++ lit " bottles")%list in
  (1 <= n <= 10 ->
     logs_now (parseWaterInputRegex text prefs) w (double_of_Z (b * n)) /\
     (exact_double (b * n) -> logs_now (parseWaterInputRegex text prefs) w (b * n))) /\
  (~ (1 <= n <= 10) ->
     finds_nothing (parseWaterInputRegex text prefs) w /\
     parseWaterInput jp text prefs env w = parseWaterInputLLM jp text env w /\
     fallback_calls (snd (parseWaterInput jp text prefs env w)) = S (fallback_calls w)).
Proof.
  intros Hd n b text. pose proof (regex_bottles_checked x xs prefs Hd) as E.
  fold text n b in E.
  destruct (checked_stage _ w n 10 (double_of_Z (b * n)) E) as [Hin Hout].
  split; intros Hr.
  - split; [apply Hin; lia |].
    intros Hx. rewrite <- (double_of_Z_exact_double _ Hx). apply Hin. lia.
  - assert (Hno : finds_nothing (parseWaterInputRegex text prefs) w)
      by (apply Hout; lia).
    destruct Hno as [r0 [Er [Hs Hrest]]].
    assert (Ef : parseWaterInput jp text prefs env w = parseWaterInputLLM jp text env w).
    { rewrite parseWaterInput_fallback.
      - rewrite Er. reflexivity.
      - right. intros r w' Hrun. rewrite Er in Hrun. injection Hrun as <- _. exact Hs. }
    split; [exists r0; split; [exact Er | split; [exact Hs | exact Hrest]] |].
    split; [exact Ef |].
    rewrite Ef. apply llm_calls_fallback.
Qed.

Lemma C3_counted_bottles_witness :
  (logs_now (parseWaterInputRegex (lit "3 bottles") (Build_UserPreferences 750))
     sample_world (double_of_Z (750 * 3)) /\
   (exact_double (750 * 3) ->
      logs_now (parseWaterInputRegex (lit "3 bottles") (Build_UserPreferences 750))
        sample_world (750 * 3))) /\
  (finds_nothing (parseWaterInputRegex (lit "15 bottles") (Build_UserPreferences 750))
     sample_world /\
   parseWaterInput no_json (lit "15 bottles") (Build_UserPreferences 750) sample_env
     sample_world
   = parseWaterInputLLM no_json (lit "15 bottles") sample_env sample_world /\
   fallback_calls
     (snd (parseWaterInput no_json (lit "15 bottles") (Build_UserPreferences 750)
             sample_env sample_world))
   = S (fallback_calls sample_world)).
Proof.
  split.
  - apply (proj1 (C3_counted_bottles no_json "3"%char [] (Build_UserPreferences 750)
                    sample_env sample_world ltac:(repeat constructor))).
    vm_compute. split; discriminate.
  - apply (proj2 (C3_counted_bottles no_json "1"%char (lit "5") (Build_UserPreferences 750)
                    sample_env sample_world ltac:(repeat constructor))).
    vm_compute. intros [_ H]. apply H. reflexivity.
Defined.

(** ** C4 *)

(** Claim C4.  When the deterministic stage succeeds and the text holds no
    time-reference cue, [parseWaterInput] returns that very result: a log
    without intent, stamped with the clock reading of the call, and neither
    the fallback nor the network is touched.  In particular a run of digits
    that writes a number [a] in (0, 10000] followed by "ml", and so the
    decimal numeral of every such [a], is a log of [a] millilitres stamped
    with the clock reading, the clock being read once and nothing else
    touched. *)
Theorem C4_deterministic_short_circuit :
  (forall jp text prefs env w r w',
     parseWaterInputRegex text prefs w = (Normal r, w') -> success r = true ->
     test TIME_PHRASE_REGEX text = false ->
     parseWaterInput jp text prefs env w = (Normal r, w') /\
     log_time r = Some (toISTString (Some (now_ms w))) /\
     intent r = None /\
     fallback_calls w' = fallback_calls w /\ fetch_calls w' = fetch_calls w) /\
  (forall jp x xs prefs env w,
     all_true is_digit (x :: xs) -> 0 < number_of (x :: xs) <= 10000 ->
     logs_now (parseWaterInput jp ((x :: xs) ++ lit "ml") prefs env) w
       (number_of (x :: xs)) /\
     fallback_calls (tick w) = fallback_calls w /\ fetch_calls (tick w) = fetch_calls w) /\
  (forall jp a prefs env w, 0 < a <= 10000 ->
     logs_now (parseWaterInput jp (String_of_Z a ++ lit "ml") prefs env) w a /\
     fallback_calls (tick w) = fallback_calls w /\ fetch_calls (tick w) = fetch_calls w).
Proof.
  assert (Hml : forall jp x xs prefs env w,
     all_true is_digit (x :: xs) -> 0 < number_of (x :: xs) <= 10000 ->
     logs_now (parseWaterInput jp ((x :: xs) ++ lit "ml") prefs env) w
       (number_of (x :: xs)) /\
     fallback_calls (tick w) = fallback_calls w /\ fetch_calls (tick w) = fetch_calls w).
  { intros jp x xs prefs env w Hd Hr. split; [| split; reflexivity].
    destruct (proj1 (checked_stage _ w _ 10000 _ (regex_ml_checked x xs prefs Hd)) Hr)
      as [r [Er Hrest]].
    exists r. split; [| exact Hrest].
    apply parseWaterInput_short_circuit.
    - exact Er.
    - apply Hrest.
    - unfold test, exec. rewrite time_phrase_ml by exact Hd. reflexivity. }
  split; [| split].
  - intros jp text prefs env w r w' Hrun Hs Ht.
    split; [apply parseWaterInput_short_circuit; assumption |].
    destruct (regex_stage_success _ _ _ _ _ Hrun Hs) as [a [-> ->]].
    repeat split; reflexivity.
  - exact Hml.
  - intros jp a prefs env w Ha.
    destruct (numeral_spec a Ha) as [x [xs [E [Hd Hp]]]]. rewrite E.
    assert (En : number_of (x :: xs) = a).
    { rewrite <- number_of_digits by exact Hd.
      apply (parseInt_digits_small x xs a Hd Hp). lia. }
    rewrite <- En. apply Hml; [exact Hd | rewrite En; exact Ha].
Qed.

Lemma C4_deterministic_short_circuit_witness :
  let r := regex_log 500 (toISTString (Some (now_ms sample_world))) in
  (parseWaterInput no_json (lit "2 glasses") (Build_UserPreferences 750) sample_env
     sample_world
   = (Normal r, tick sample_world) /\
   log_time r = Some (toISTString (Some (now_ms sample_world))) /\
   intent r = None /\
   fallback_calls (tick sample_world) = fallback_calls sample_world /\
   fetch_calls (tick sample_world) = fetch_calls sample_world) /\
  (logs_now (parseWaterInput no_json (lit "0500ml") (Build_UserPreferences 750) sample_env)
     sample_world (number_of (lit "0500")) /\
   fallback_calls (tick sample_world) = fallback_calls sample_world /\
   fetch_calls (tick sample_world) = fetch_calls sample_world) /\
  (logs_now (parseWaterInput no_json (String_of_Z 500 ++ lit "ml") (Build_UserPreferences 750)
               sample_env) sample_world 500 /\
   fallback_calls (tick sample_world) = fallback_calls sample_world /\
   fetch_calls (tick sample_world) = fetch_calls sample_world).
Proof.
  intros r. split; [| split].
  - apply (proj1 C4_deterministic_short_circuit no_json (lit "2 glasses")
             (Build_UserPreferences 750) sample_env sample_world r (tick sample_world)).
    + vm_compute. reflexivity.
    + reflexivity.
    + vm_compute. reflexivity.
  - apply (proj1 (proj2 C4_deterministic_short_circuit) no_json "0"%char (lit "500")
             (Build_UserPreferences 750) sample_env sample_world).
    + repeat constructor.
    + vm_compute. split; [reflexivity | discriminate].
  - apply (proj2 (proj2 C4_deterministic_short_circuit) no_json 500
             (Build_UserPreferences 750) sample_env sample_world).
    lia.
Defined.

(** ** C5 *)

(** Claim C5.  A text that holds one of the time-reference cues as a word
    of its own, in any case, makes the scan succeed, and [parseWaterInput]
    is then the fallback path run after the deterministic stage, whatever
    that stage found; the fallback is entered once. *)
Theorem C5_time_cue_takes_fallback jp text prefs env w :
  has_time_cue text ->
  test TIME_PHRASE_REGEX text = true /\
  parseWaterInput jp text prefs env w
  = parseWaterInputLLM jp text env (snd (parseWaterInputRegex text prefs w)) /\
  fallback_calls (snd (parseWaterInput jp text prefs env w)) = S (fallback_calls w).
Proof.
  intros Hcue. pose proof (time_cue_test text Hcue) as Ht.
  assert (E : parseWaterInput jp text prefs env w
              = parseWaterInputLLM jp text env (snd (parseWaterInputRegex text prefs w)))
    by (apply parseWaterInput_fallback; left; exact Ht).
  split; [exact Ht | split; [exact E |]].
  rewrite E.
  destruct (llm_calls_fallback jp text env (snd (parseWaterInputRegex text prefs w)))
    as [-> _].
  destruct (silent_counts _ (parseWaterInputRegex text prefs) w
              (silent_parseWaterInputRegex text prefs)) as [-> _].
  reflexivity.
Qed.

Lemma C5_time_cue_takes_fallback_witness :
  test TIME_PHRASE_REGEX (lit "500ml 2 hours ago") = true /\
  parseWaterInput no_json (lit "500ml 2 hours ago") (Build_UserPreferences 750)
    sample_env sample_world
  = parseWaterInputLLM no_json (lit "500ml 2 hours ago") sample_env
      (snd (parseWaterInputRegex (lit "500ml 2 hours ago") (Build_UserPreferences 750)
              sample_world)) /\
  fallback_calls
    (snd (parseWaterInput no_json (lit "500ml 2 hours ago") (Build_UserPreferences 750)
            sample_env sample_world))
  = S (fallback_calls sample_world).
Proof.
  apply C5_time_cue_takes_fallback.
  exists "ago"%string. split; [simpl; tauto |].
  exists (lit "500ml 2 hours "), (lit "ago"), []. repeat split; reflexivity.
Defined.

(** ** C6 *)

(** Claim C6.  [extractWaterIntent] ends normally for every text,
    configuration, parser and world.  Without a credential its result is
    the clarify/ambiguous default and no request is sent.  With one, a
    transport error, a timeout, a non-success status, a body that is not
    JSON, a reply without content, or content that no attempt can parse
    gives [createFallbackResult], again clarify/ambiguous. *)
Theorem C6_fallback_never_throws jp text env w :
  exists r w',
    extractWaterIntent jp text env w = (Normal r, w') /\
    (is_falsy_key (OPENAI_API_KEY env) = true ->
       llm_intent r = clarify /\ ambiguous r = true /\
       fetch_calls w' = fetch_calls w) /\
    (is_falsy_key (OPENAI_API_KEY env) = false ->
       failed_exchange jp (net w (request_for text env)) ->
       r = createFallbackResult /\ llm_intent r = clarify /\ ambiguous r = true).
Proof.
  destruct (extract_runs jp text env w) as [r [evs [E [_ [_ [Hoff Hfail]]]]]].
  exists r, (add_events (evs ++ [EvFallback text]) w).
  split; [exact E |]. split.
  - intros Hk. destruct (Hoff Hk) as [-> Hnf]. repeat split.
    unfold fetch_calls, add_events. cbn [trace].
    rewrite <- app_assoc, !filter_app, Hnf. reflexivity.
  - intros Hk Hf. rewrite (Hfail Hk Hf). repeat split.
Qed.

Lemma C6_fallback_never_throws_witness :
  exists r w',
    extractWaterIntent no_json (lit "some water") keyed_env sample_world = (Normal r, w') /\
    (is_falsy_key (OPENAI_API_KEY keyed_env) = true ->
       llm_intent r = clarify /\ ambiguous r = true /\
       fetch_calls w' = fetch_calls sample_world) /\
    (is_falsy_key (OPENAI_API_KEY keyed_env) = false ->
       failed_exchange no_json (net sample_world (request_for (lit "some water") keyed_env)) ->
       r = createFallbackResult /\ llm_intent r = clarify /\ ambiguous r = true).
Proof.
  exact (C6_fallback_never_throws no_json (lit "some water") keyed_env sample_world).
Defined.

(** ** C7 *)




(** ** C8 *)

(** Claim C8, as amended.  (1) [parseRelativeOffset] returns N on
    "N hour(s) ago" and N/60 on "N minute(s) ago" and on "N min(s) ago",
    N being the number the digits write, as doubles.  (2) For any phrase,
    lower-cased and trimmed: the result is the number at the leftmost
    place where a number followed by the hour words begins; where there is
    no such place, it is the number at the leftmost place where a number
    followed by the minute words (with [min] and [mins]) begins, over 60.
    (3) Where a number with its words stands there is a leftmost one;
    where neither stands the result is null, as it is for no phrase at
    all.  (4) Below 2^53 the hours are N itself and the minutes are N/60
    up to one part in 2^53. *)
Theorem C8_relative_offset :
  (forall x xs tl, all_true is_digit (x :: xs) ->
     let N := number_of (x :: xs) in
     (In tl [" hours ago"; " hour ago"]%string ->
        parseRelativeOffset (Some ((x :: xs) ++ lit tl))
        = Some (Num (inject_Z (double_of_Z N)))) /\
     (In tl [" minutes ago"; " minute ago"; " mins ago"; " min ago"]%string ->
        parseRelativeOffset (Some ((x :: xs) ++ lit tl))
        = Some (Num (round53 (double_of_Z N # 60))))) /\
  (forall phrase ds,
     let lower := trim (toLowerCase phrase) in
     let N := number_of ds in
     (leftmost_number HOURS_TAIL lower ds ->
        parseRelativeOffset (Some phrase) = Some (Num (inject_Z (double_of_Z N)))) /\
     (~ mentions HOURS_TAIL lower -> leftmost_number MINUTES_TAIL lower ds ->
        parseRelativeOffset (Some phrase) = Some (Num (round53 (double_of_Z N # 60))))) /\
  (forall phrase,
     let lower := trim (toLowerCase phrase) in
     (mentions HOURS_TAIL lower -> exists ds, leftmost_number HOURS_TAIL lower ds) /\
     (mentions MINUTES_TAIL lower -> exists ds, leftmost_number MINUTES_TAIL lower ds) /\
     (~ mentions HOURS_TAIL lower -> ~ mentions MINUTES_TAIL lower ->
        parseRelativeOffset (Some phrase) = None)) /\
  (forall N, 0 <= N < 2 ^ 53 ->
     double_of_Z N = N /\ rounded (N # 60) (round53 (double_of_Z N # 60))) /\
  parseRelativeOffset None = None.
Proof.
  split; [| split; [| split; [| split; [| reflexivity]]]].
  - intros x xs tl Hd N. split; intros Hin; rewrite parseRelativeOffset_eq; cbv zeta.
    + rewrite phrase_clean; [| simpl in *; tauto | exact Hd].
      destruct (hours_hit x xs tl Hin Hd) as [y [-> G]].
      unfold parseInt_group. rewrite G, parseInt_number by exact Hd. reflexivity.
    + rewrite phrase_clean; [| simpl in *; tauto | exact Hd].
      rewrite hours_miss_minutes by assumption.
      destruct (minutes_hit x xs tl Hin Hd) as [y [-> G]].
      unfold parseInt_group. rewrite G, parseInt_number by exact Hd. reflexivity.
  - intros phrase ds lower N. rewrite parseRelativeOffset_eq. cbv zeta. fold lower.
    rewrite hours_regex_split, minutes_regex_split. split.
    + intros Hl.
      destruct (leftmost_parseInt HOURS_TAIL lower ds eq_refl eq_refl eq_refl Hl)
        as [y [-> ->]].
      reflexivity.
    + intros Hno Hl. rewrite (no_mention_exec HOURS_TAIL lower eq_refl Hno).
      destruct (leftmost_parseInt MINUTES_TAIL lower ds eq_refl eq_refl eq_refl Hl)
        as [y [-> ->]].
      reflexivity.
  - intros phrase lower. split; [| split].
    + apply mention_leftmost. reflexivity.
    + apply mention_leftmost. reflexivity.
    + intros Hh Hm. rewrite parseRelativeOffset_eq. cbv zeta. fold lower.
      rewrite hours_regex_split, minutes_regex_split.
      rewrite (no_mention_exec HOURS_TAIL lower eq_refl Hh).
      rewrite (no_mention_exec MINUTES_TAIL lower eq_refl Hm). reflexivity.
  - intros N HN. rewrite (double_of_Z_exact N HN). split; [reflexivity |].
    apply round53_rounded. unfold Qle. cbn [Qnum Qden]. lia.
Qed.

Lemma C8_relative_offset_witness :
  parseRelativeOffset (Some (lit "2 hours ago")) = Some (Num (inject_Z (double_of_Z 2))) /\
  parseRelativeOffset (Some (lit "90 mins ago")) = Some (Num (round53 (double_of_Z 90 # 60))) /\
  parseRelativeOffset (Some (lit "about 3 hours ago, or 10 hours ago"))
  = Some (Num (inject_Z (double_of_Z 3))) /\
  (double_of_Z 90 = 90 /\ rounded (90 # 60) (round53 (double_of_Z 90 # 60))).
Proof.
  split; [| split; [| split]].
  - apply (proj1 (proj1 C8_relative_offset "2"%char [] " hours ago"%string
                    ltac:(repeat constructor))).
    simpl. tauto.
  - apply (proj2 (proj1 C8_relative_offset "9"%char (lit "0") " mins ago"%string
                    ltac:(repeat constructor))).
    simpl. tauto.
  - apply (proj1 (proj1 (proj2 C8_relative_offset)
                    (lit "about 3 hours ago, or 10 hours ago") (lit "3"))).
    exists (lit "about "), (lit "3 hours ago, or 10 hours ago").
    split; [reflexivity |]. split.
    + exists (lit " hours ago"), (lit ", or 10 hours ago").
      split; [reflexivity |]. split; [discriminate |]. split; [repeat constructor |].
      apply lang_by_run. vm_compute. eexists. split; reflexivity.
    + intros pre' suf' ds' E Hlen [w' [post' [-> [Hne [Hd _]]]]].
      destruct ds' as [| d ds']; [contradiction |].
      inversion Hd as [| ? ? Hdd _]; subst.
      unfold lit in E, Hlen. cbn [list_ascii_of_string length] in E, Hlen.
      repeat (destruct pre' as [| ? pre'];
              [ cbn [app] in E; injection E as Ed _; rewrite <- Ed in Hdd;
                discriminate Hdd
              | cbn [app] in E; injection E as _ E; cbn [length] in Hlen ]).
      lia.
  - apply (proj1 (proj2 (proj2 (proj2 C8_relative_offset))) 90). lia.
Defined.

(** Claim C8 as stated fails: "5 mins ago" is neither "N hour(s) ago" nor
    "N minute(s) ago", and the result is 5/60, not null. *)
Lemma C8_counterexample :
  ~ (forall phrase,
       let lower := trim (toLowerCase phrase) in
       ~ occurs HOURS_AGO_REGEX lower -> ~ occurs SPEC_MINUTES_AGO_REGEX lower ->
       parseRelativeOffset (Some phrase) = None).
Proof.
  intros H. specialize (H (lit "5 mins ago")). cbv zeta in H.
  assert (E : parseRelativeOffset (Some (lit "5 mins ago"))
              = Some (Num (round53 (double_of_Z 5 # 60))))
    by (vm_compute; reflexivity).
  rewrite E in H.
  assert (Hn : forall r, assertion_free r = true ->
                 exec r (trim (toLowerCase (lit "5 mins ago"))) = None ->
                 ~ occurs r (trim (toLowerCase (lit "5 mins ago")))).
  { intros r Hf Ex Ho. apply (exec_occurs r _ Hf) in Ho. contradiction. }
  discriminate H; apply Hn; try reflexivity; vm_compute; reflexivity.
Qed.

(** ** C9 *)



(** ** C10 *)

(** Claim C10.  Whatever [parseRelativeOffset] returns other than null is
    a number, never NaN, and not negative; the test [offsetHours < 0] of
    [validateRetroactiveTime] is false on it, so that on the offsets the
    resolver passes the function is what it would be without that test. *)
Theorem C10_offset_never_negative rt h :
  parseRelativeOffset rt = Some h ->
  exists q, h = Num q /\ (0 <= q)%Q /\ num_lt h 0 = false /\
    validateRetroactiveTime h
    = if num_gt h 12 then ret None else validate_same_day h.
Proof.
  destruct rt as [phrase |]; [| discriminate].
  rewrite parseRelativeOffset_eq. cbv zeta.
  destruct (exec HOURS_AGO_REGEX _) as [x |] eqn:Eh.
  - destruct (hours_number _ _ Eh) as [n [-> Hn]]. intros H. injection H as <-.
    exists (inject_Z n). split; [reflexivity |].
    assert (Hq : (0 <= inject_Z n)%Q) by (unfold Qle; simpl; lia).
    assert (Hl : num_lt (Num (inject_Z n)) 0 = false) by (apply Qltb_false, Hq).
    split; [exact Hq |]. split; [exact Hl |].
    unfold validateRetroactiveTime. rewrite Hl, orb_false_r. reflexivity.
  - destruct (exec MINUTES_AGO_REGEX _) as [x |] eqn:Em; [| discriminate].
    destruct (minutes_number _ _ Em) as [n [-> Hn]]. intros H. injection H as <-.
    exists (round53 (n # 60)). split; [reflexivity |].
    assert (Hq : (0 <= round53 (n # 60))%Q)
      by (apply round53_nonneg; unfold Qle; simpl; lia).
    assert (Hl : num_lt (Num (round53 (n # 60))) 0 = false) by (apply Qltb_false, Hq).
    split; [exact Hq |]. split; [exact Hl |].
    unfold validateRetroactiveTime. rewrite Hl, orb_false_r. reflexivity.
Qed.

Lemma C10_offset_never_negative_witness :
  let h := Num (round53 (30 # 60)) in
  exists q, h = Num q /\ (0 <= q)%Q /\ num_lt h 0 = false /\
    validateRetroactiveTime h
    = if num_gt h 12 then ret None else validate_same_day h.
Proof.
  exact (C10_offset_never_negative (Some (lit "30 minutes ago"))
           (Num (round53 (30 # 60))) eq_refl).
Defined.

(** * Further properties of the code *)


(** ** lib/parser.ts: the resolver *)

(** X1.  Every amount that comes back from [parseWaterInputLLM] has passed
    the range check: the result is a success tagged [log], the amount lies
    in (0, 10000], and a log time is set. *)
Theorem fallback_amount_validated jp text env w r w' a :
  parseWaterInputLLM jp text env w = (Normal r, w') -> amount_ml r = Some a ->
  success r = true /\ intent r = Some log /\ (0 < a)%Q /\ (a <= 10000)%Q /\
  exists t, log_time r = Some t.
Proof.
  intros Hrun Ha. pose proof (llm_resolved _ _ _ _ _ _ Hrun) as Hr.
  destruct Hr; try discriminate Ha.
  injection Ha as <-.
  split; [reflexivity |]. split; [reflexivity |]. split; [assumption |].
  split; [assumption |]. eexists. reflexivity.
Qed.

Lemma fallback_amount_validated_witness :
  let r := {| success := true; intent := Some log; amount_ml := Some 500%Q;
              log_time := Some (lit "2026-11-03T10:00:00+05:30");
              needs_clarification := None; clarification_prompt := None;
              adjust_by_ml := None; undo_count := None; chitchat_reply := None |} in
  success r = true /\ intent r = Some log /\ (0 < 500)%Q /\ (500 <= 10000)%Q /\
  exists t, log_time r = Some t.
Proof.
  intros r.
  apply (fallback_amount_validated (parse_one SAMPLE_LOG_TEXT SAMPLE_LOG)
           (lit "had 500ml 2 hours ago") keyed_env
           (answering_world (JStr SAMPLE_LOG_TEXT)) r
           (snd (parseWaterInputLLM (parse_one SAMPLE_LOG_TEXT SAMPLE_LOG)
                   (lit "had 500ml 2 hours ago") keyed_env
                   (answering_world (JStr SAMPLE_LOG_TEXT))))).
  - vm_compute. reflexivity.
  - reflexivity.
Defined.

(** X2.  A count of logs to undo that comes back from [parseWaterInputLLM]
    lies in [1, 10], and an amount to subtract lies in (0, 10000]; each
    comes with its own intent only. *)
Theorem fallback_counts_bounded jp text env w r w' :
  parseWaterInputLLM jp text env w = (Normal r, w') ->
  (forall n, undo_count r = Some n ->
     intent r = Some undo /\ (1 <= n)%Q /\ (n <= 10)%Q) /\
  (forall adjust, adjust_by_ml r = Some adjust ->
     intent r = Some edit /\ (0 < adjust)%Q /\ (adjust <= 10000)%Q).
Proof.
  intros Hrun. pose proof (llm_resolved _ _ _ _ _ _ Hrun) as Hr.
  destruct Hr; split; intros x Hx; try discriminate Hx;
    injection Hx as <-; auto.
Qed.

Lemma fallback_counts_bounded_witness :
  let r := {| success := true; intent := Some undo; amount_ml := None;
              log_time := None; needs_clarification := None;
              clarification_prompt := None; adjust_by_ml := None;
              undo_count := Some 10%Q; chitchat_reply := None |} in
  (forall n, undo_count r = Some n ->
     intent r = Some undo /\ (1 <= n)%Q /\ (n <= 10)%Q) /\
  (forall adjust, adjust_by_ml r = Some adjust ->
     intent r = Some edit /\ (0 < adjust)%Q /\ (adjust <= 10000)%Q).
Proof.
  intros r.
  apply (fallback_counts_bounded (parse_one SAMPLE_UNDO_TEXT SAMPLE_UNDO)
           (lit "undo everything") keyed_env
           (answering_world (JStr SAMPLE_UNDO_TEXT)) r
           (snd (parseWaterInputLLM (parse_one SAMPLE_UNDO_TEXT SAMPLE_UNDO)
                   (lit "undo everything") keyed_env
                   (answering_world (JStr SAMPLE_UNDO_TEXT))))).
  vm_compute. reflexivity.
Defined.

(** X3.  [parseWaterInput] never throws, and its result has the fields its
    caller reads without a check: a failure carries the clarification flag
    and a non-empty prompt; a success that is a log (no intent, or [log])
    carries an amount and a log time; an [edit] carries the amount to
    subtract and an [undo] the count. *)
Theorem parseWaterInput_result_shape jp text prefs env w :
  exists r w',
    parseWaterInput jp text prefs env w = (Normal r, w') /\
    (success r = false ->
       needs_clarification r = Some true /\
       exists p, clarification_prompt r = Some p /\ p <> []) /\
    (success r = true -> intent r = None \/ intent r = Some log ->
       exists a t, amount_ml r = Some a /\ log_time r = Some t) /\
    (success r = true -> intent r = Some edit -> exists x, adjust_by_ml r = Some x) /\
    (success r = true -> intent r = Some undo -> exists n, undo_count r = Some n).
Proof.
  assert (Hshape : forall r, resolved r ->
    (success r = false ->
       needs_clarification r = Some true /\
       exists p, clarification_prompt r = Some p /\ p <> []) /\
    (success r = true -> intent r = None \/ intent r = Some log ->
       exists a t, amount_ml r = Some a /\ log_time r = Some t) /\
    (success r = true -> intent r = Some edit -> exists x, adjust_by_ml r = Some x) /\
    (success r = true -> intent r = Some undo -> exists n, undo_count r = Some n)).
  { intros r Hr.
    destruct Hr; cbn; (split; [| split; [| split]]); intros Hs;
      try discriminate Hs;
      try (intros [Hx | Hx]; try discriminate Hx);
      try (intros Hi; try discriminate Hi); eauto. }
  destruct (regex_stage_normal text prefs w) as [r0 [n E]].
  destruct (success r0 && negb (test TIME_PHRASE_REGEX text)) eqn:Eb.
  - apply andb_true_iff in Eb. destruct Eb as [Hs Ht]. apply negb_true_iff in Ht.
    exists r0. eexists. split.
    { apply parseWaterInput_short_circuit; eassumption. }
    destruct (regex_stage_success _ _ _ _ _ E Hs) as [a [-> _]].
    cbn. (split; [| split; [| split]]); intros Hx; try discriminate Hx; eauto.
    all: intros Hi; discriminate Hi.
  - assert (Ef : parseWaterInput jp text prefs env w
                 = parseWaterInputLLM jp text env (snd (parseWaterInputRegex text prefs w))).
    { unfold parseWaterInput, bind. rewrite E, Eb. cbn [snd].
      destruct (success r0 && test TIME_PHRASE_REGEX text); reflexivity. }
    rewrite Ef.
    destruct (llm_normal jp text env (snd (parseWaterInputRegex text prefs w)))
      as [r [w' [-> Hr]]].
    exists r, w'. split; [reflexivity |]. apply Hshape, Hr.
Qed.

Lemma parseWaterInput_result_shape_witness :
  exists r w',
    parseWaterInput no_json (lit "some water") (Build_UserPreferences 750) sample_env
      sample_world = (Normal r, w') /\
    (success r = false ->
       needs_clarification r = Some true /\
       exists p, clarification_prompt r = Some p /\ p <> []) /\
    (success r = true -> intent r = None \/ intent r = Some log ->
       exists a t, amount_ml r = Some a /\ log_time r = Some t) /\
    (success r = true -> intent r = Some edit -> exists x, adjust_by_ml r = Some x) /\
    (success r = true -> intent r = Some undo -> exists n, undo_count r = Some n).
Proof.
  exact (parseWaterInput_result_shape no_json (lit "some water")
           (Build_UserPreferences 750) sample_env sample_world).
Defined.

(** X4.  On a text that holds "yesterday" or "last night" as a word,
    [parseWaterInputLLM] never returns an amount, a log time or the intent
    [log], whatever the endpoint answers. *)
Theorem fallback_refuses_yesterday jp text env w r w' :
  test YESTERDAY_REGEX text = true ->
  parseWaterInputLLM jp text env w = (Normal r, w') ->
  amount_ml r = None /\ intent r <> Some log /\ log_time r = None.
Proof.
  intros Hy. unfold parseWaterInputLLM, bind.
  destruct (extract_runs jp text env w) as [llm [evs [-> _]]].
  apply resolve_yesterday, Hy.
Qed.

Lemma fallback_refuses_yesterday_witness :
  amount_ml (clarification PROMPT_TODAY_ONLY) = None /\
  intent (clarification PROMPT_TODAY_ONLY) <> Some log /\
  log_time (clarification PROMPT_TODAY_ONLY) = None.
Proof.
  apply (fallback_refuses_yesterday (parse_one SAMPLE_LOG_TEXT SAMPLE_LOG)
           (lit "500ml yesterday evening") keyed_env
           (answering_world (JStr SAMPLE_LOG_TEXT))
           (clarification PROMPT_TODAY_ONLY)
           (snd (parseWaterInputLLM (parse_one SAMPLE_LOG_TEXT SAMPLE_LOG)
                   (lit "500ml yesterday evening") keyed_env
                   (answering_world (JStr SAMPLE_LOG_TEXT))))).
  - vm_compute. reflexivity.
  - vm_compute. reflexivity.
Defined.

(** X5.  Without a credential [parseWaterInput] sends no request, and its
    answer is either the deterministic log (only when the text holds no
    time-reference cue) or the clarification that asks to set the key. *)
Theorem parseWaterInput_offline jp text prefs env w :
  is_falsy_key (OPENAI_API_KEY env) = true ->
  exists r w',
    parseWaterInput jp text prefs env w = (Normal r, w') /\
    fetch_calls w' = fetch_calls w /\
    (r = clarification OFFLINE_PROMPT \/
     test TIME_PHRASE_REGEX text = false /\
     exists a, r = regex_log a (toISTString (Some (now_ms w)))).
Proof.
  intros Hk.
  destruct (regex_stage_normal text prefs w) as [r0 [n E]].
  destruct (success r0 && negb (test TIME_PHRASE_REGEX text)) eqn:Eb.
  - apply andb_true_iff in Eb. destruct Eb as [Hs Ht]. apply negb_true_iff in Ht.
    exists r0. eexists. split.
    { apply parseWaterInput_short_circuit; eassumption. }
    split; [reflexivity |]. right. split; [exact Ht |].
    destruct (regex_stage_success _ _ _ _ _ E Hs) as [a [-> _]]. eauto.
  - assert (Ef : parseWaterInput jp text prefs env w
                 = parseWaterInputLLM jp text env (snd (parseWaterInputRegex text prefs w))).
    { unfold parseWaterInput, bind. rewrite E, Eb. cbn [snd].
      destruct (success r0 && test TIME_PHRASE_REGEX text); reflexivity. }
    rewrite Ef, E. cbn [snd]. set (w1 := Build_World _ _ _ _).
    unfold parseWaterInputLLM, bind.
    destruct (extract_runs jp text env w1) as [llm [evs [-> [_ [_ [Hoff _]]]]]].
    destruct (Hoff Hk) as [-> Hnf]. rewrite resolve_offline.
    eexists _, _. split; [reflexivity |]. split; [| left; reflexivity].
    unfold fetch_calls, add_events, w1. cbn [trace].
    rewrite <- app_assoc, !filter_app, Hnf. reflexivity.
Qed.

Lemma parseWaterInput_offline_witness :
  exists r w',
    parseWaterInput no_json (lit "500ml 2 hours ago") (Build_UserPreferences 750)
      sample_env sample_world = (Normal r, w') /\
    fetch_calls w' = fetch_calls sample_world /\
    (r = clarification OFFLINE_PROMPT \/
     test TIME_PHRASE_REGEX (lit "500ml 2 hours ago") = false /\
     exists a, r = regex_log a (toISTString (Some (now_ms sample_world)))).
Proof.
  apply (parseWaterInput_offline no_json (lit "500ml 2 hours ago")
           (Build_UserPreferences 750) sample_env sample_world).
  reflexivity.
Defined.

(** X6.  When the endpoint names a relative time and [parseWaterInputLLM]
    logs, the phrase was read as an offset of 0 to 12 hours, and the log
    time is the IST string of an instant that lies at most 12 hours before
    the clock reading, not after it, and not before the start of the IST
    day.  The clock is taken to read a time after the epoch. *)
Theorem retroactive_log_within_today jp text env w llm w1 r w' c rt a :
  extractWaterIntent jp text env w = (Normal llm, w1) ->
  relative_time llm = Some (c :: rt) ->
  0 <= now_ms (tick w1) ->
  parseWaterInputLLM jp text env w = (Normal r, w') ->
  amount_ml r = Some a ->
  exists q,
    parseRelativeOffset (Some (c :: rt)) = Some (Num q) /\
    (0 <= q)%Q /\ (q <= 12)%Q /\
    let target := target_ms (now_ms w1) q in
    log_time r = Some (toISTString (Some target)) /\
    now_ms w1 - 43200000 <= target <= now_ms w1 /\
    ist_day_start (now_ms (tick w1)) <= target.
Proof.
  intros He Hrt Hn. unfold parseWaterInputLLM, bind. rewrite He. intros Hrun Ha.
  destruct (resolve_retroactive _ _ _ _ _ _ _ _ Hrt Hn Hrun Ha)
    as [q [Ho [H0 [H12 [Hd Ht]]]]].
  exists q. split; [exact Ho |]. split; [exact H0 |]. split; [exact H12 |].
  cbv zeta. split; [exact Ht |]. split; [| exact Hd].
  apply target_ms_window; [assumption | assumption | apply now_ms_range].
Qed.

Lemma retroactive_log_within_today_witness :
  let jp := parse_one SAMPLE_LOG_TEXT SAMPLE_LOG in
  let w := answering_world (JStr SAMPLE_LOG_TEXT) in
  let w1 := snd (extractWaterIntent jp (lit "had 500ml 2 hours ago") keyed_env w) in
  let r := {| success := true; intent := Some log; amount_ml := Some 500%Q;
              log_time := Some (lit "2026-11-03T10:00:00+05:30");
              needs_clarification := None; clarification_prompt := None;
              adjust_by_ml := None; undo_count := None; chitchat_reply := None |} in
  exists q,
    parseRelativeOffset (Some (lit "2 hours ago")) = Some (Num q) /\
    (0 <= q)%Q /\ (q <= 12)%Q /\
    let target := target_ms (now_ms w1) q in
    log_time r = Some (toISTString (Some target)) /\
    now_ms w1 - 43200000 <= target <= now_ms w1 /\
    ist_day_start (now_ms (tick w1)) <= target.
Proof.
  intros jp w w1 r.
  apply (retroactive_log_within_today jp (lit "had 500ml 2 hours ago") keyed_env w
           (result_of SAMPLE_LOG) w1 r
           (snd (parseWaterInputLLM jp (lit "had 500ml 2 hours ago") keyed_env w))
           "2"%char (lit " hours ago") 500%Q).
  - vm_compute. reflexivity.
  - reflexivity.
  - apply Zle_bool_imp_le. vm_compute. reflexivity.
  - vm_compute. reflexivity.
  - reflexivity.
Defined.

(** ** lib/parser.ts and lib/llm.ts: an answer that is honoured *)

(** X7.  A well-formed answer is honoured.  When the endpoint answers with
    an object that says [intent: "log"] and gives a number in (0, 10000] as
    [amount_ml], is not ambiguous and names no relative time, and the text
    holds neither "yesterday" nor "last night", [parseWaterInputLLM] logs
    that amount at the current time, after exactly one request. *)
Theorem fallback_honours_log jp text env w parsed a :
  is_falsy_key (OPENAI_API_KEY env) = false ->
  answers jp w (request_for text env) parsed ->
  get_prop parsed (lit "intent") = Some (JStr (lit "log")) ->
  get_prop parsed (lit "amount_ml") = Some (JNum a) ->
  (0 < a)%Q -> (a <= 10000)%Q ->
  truthy (get_prop parsed (lit "ambiguous")) = false ->
  typeof_string (get_prop parsed (lit "relative_time")) = None ->
  test YESTERDAY_REGEX text = false ->
  parseWaterInputLLM jp text env w
  = (Normal (log_of a (toISTString (Some (now_ms w)))),
     tick (add_events [EvFetch (request_for text env); EvFallback text] w)).
Proof.
  intros Hk Ha Hi Hm H0 H1 Hamb Hrt Hy.
  unfold parseWaterInputLLM, bind. rewrite (extract_answered _ _ _ _ _ Hk Ha).
  unfold resolve. rewrite Hy. cbn [andb].
  unfold result_of. cbn [llm_intent llm_amount_ml ambiguous relative_time].
  rewrite Hi, Hm, Hamb, Hrt. cbn [valid_intent typeof_number intent_eqb orb].
  assert (E0 : Qle_bool a 0 = false).
  { destruct (Qle_bool a 0) eqn:E; [| reflexivity].
    apply Qle_bool_iff in E. exfalso. apply (Qlt_not_le _ _ H0 E). }
  assert (E1 : Qltb 10000 a = false).
  { destruct (Qltb 10000 a) eqn:E; [| reflexivity].
    apply Qltb_true in E. exfalso. apply (Qlt_not_le _ _ E H1). }
  replace (str_eqb (lit "log") (lit "log")) with true by reflexivity.
  cbv iota. rewrite E0, E1. cbn [orb].
  reflexivity.
Qed.

Lemma fallback_honours_log_witness :
  parseWaterInputLLM (parse_one SAMPLE_PLAIN_TEXT SAMPLE_PLAIN)
    (lit "had a glass or so, 300") keyed_env (answering_world (JStr SAMPLE_PLAIN_TEXT))
  = (Normal (log_of 300
               (toISTString (Some (now_ms (answering_world (JStr SAMPLE_PLAIN_TEXT)))))),
     tick (add_events
             [EvFetch (request_for (lit "had a glass or so, 300") keyed_env);
              EvFallback (lit "had a glass or so, 300")]
             (answering_world (JStr SAMPLE_PLAIN_TEXT)))).
Proof.
  apply (fallback_honours_log (parse_one SAMPLE_PLAIN_TEXT SAMPLE_PLAIN)
           (lit "had a glass or so, 300") keyed_env
           (answering_world (JStr SAMPLE_PLAIN_TEXT)) SAMPLE_PLAIN 300).
  - reflexivity.
  - exists (Build_Response true (Some (reply_with (JStr SAMPLE_PLAIN_TEXT)))),
           (reply_with (JStr SAMPLE_PLAIN_TEXT)), (JStr SAMPLE_PLAIN_TEXT).
    repeat split; try reflexivity. discriminate.
  - reflexivity.
  - reflexivity.
  - reflexivity.
  - discriminate.
  - reflexivity.
  - reflexivity.
  - vm_compute. reflexivity.
Defined.

(** ** lib/parser.ts: other beverages *)

Local Open Scope nat_scope.

(** X8.  [containsExcludedBeverage] is true exactly when one of the twelve
    beverage words stands in the text as a word of its own, in any case:
    not preceded and not followed by a letter, a digit or an underscore. *)
Theorem excluded_beverage_iff text :
  containsExcludedBeverage text = true <-> names_excluded_beverage text.
Proof.
  unfold containsExcludedBeverage, names_excluded_beverage. cbv zeta.
  rewrite existsb_exists. split.
  - intros [w [Hin Ht]]. exists w. split; [exact Hin |].
    destruct (excluded_keywords_are_words w Hin) as [Hne Hw].
    apply (occurs_as_word_lower _ _ Hw). apply (word_test_iff w _ Hne Hw), Ht.
  - intros [w [Hin Ho]]. exists w. split; [exact Hin |].
    destruct (excluded_keywords_are_words w Hin) as [Hne Hw].
    apply (word_test_iff w _ Hne Hw). apply (occurs_as_word_lower _ _ Hw), Ho.
Qed.

(** ** lib/parser.ts: glasses, cups, litres and bottle sizes *)

Local Open Scope Z_scope.

(** X9.  A count followed by "glass" or "glasses" logs 250 ml a glass, and
    one followed by "cup" or "cups" logs 200 ml a cup, for counts from 1 to
    20, stamped with the clock reading; with any other count the
    deterministic stage finds nothing. *)
Theorem counted_glasses_and_cups x xs tl prefs w :
  all_true is_digit (x :: xs) ->
  let n := number_of (x :: xs) in
  let run := parseWaterInputRegex ((x :: xs) ++ lit tl) prefs in
  (In tl GLASS_TAILS ->
     (1 <= n <= 20 -> logs_now run w (250 * n)) /\
     (~ 1 <= n <= 20 -> finds_nothing run w)) /\
  (In tl CUP_TAILS ->
     (1 <= n <= 20 -> logs_now run w (200 * n)) /\
     (~ 1 <= n <= 20 -> finds_nothing run w)).
Proof.
  intros Hd n run. split; intros Hin.
  - destruct (checked_stage run w n 20 (250 * n)
                (regex_glasses_checked x xs tl prefs Hin Hd)) as [H1 H2].
    split; intros H; [apply H1 | apply H2]; lia.
  - destruct (checked_stage run w n 20 (200 * n)
                (regex_cups_checked x xs tl prefs Hin Hd)) as [H1 H2].
    split; intros H; [apply H1 | apply H2]; lia.
Qed.

Lemma counted_glasses_and_cups_witness :
  logs_now (parseWaterInputRegex (lit "3 glasses") (Build_UserPreferences 750))
    sample_world (250 * 3) /\
  logs_now (parseWaterInputRegex (lit "3cup") (Build_UserPreferences 750))
    sample_world (200 * 3) /\
  finds_nothing (parseWaterInputRegex (lit "21 cups") (Build_UserPreferences 750))
    sample_world.
Proof.
  split; [| split].
  - apply (proj1 (proj1 (counted_glasses_and_cups "3"%char [] " glasses"%string
                           (Build_UserPreferences 750) sample_world
                           ltac:(repeat constructor))
                    ltac:(simpl; auto))).
    vm_compute. split; discriminate.
  - apply (proj1 (proj2 (counted_glasses_and_cups "3"%char [] "cup"%string
                           (Build_UserPreferences 750) sample_world
                           ltac:(repeat constructor))
                    ltac:(simpl; auto))).
    vm_compute. split; discriminate.
  - apply (proj2 (proj2 (counted_glasses_and_cups "2"%char (lit "1") " cups"%string
                           (Build_UserPreferences 750) sample_world
                           ltac:(repeat constructor))
                    ltac:(simpl; auto))).
    vm_compute. intros [_ H]. apply H. reflexivity.
Defined.

(** X10.  A number of litres, whole or with a fraction, followed by "l",
    "liter", "litre" or a plural is converted by
    [Math.round(parseFloat(number) * 1000)] to a whole number of
    millilitres, the nearest to a thousand times the number written up to
    the rounding of the two operations; that amount is logged, stamped
    with the clock reading, when it lies in (0, 10000], and the
    deterministic stage finds nothing otherwise. *)
Theorem liters_logged x xs tl prefs w :
  In tl LITER_TAILS -> all_true is_digit (x :: xs) ->
  (exists v,
     liters_to_ml (x :: xs) = Some v /\
     rounds_litres (inject_Z (number_of (x :: xs))) v /\
     let run := parseWaterInputRegex ((x :: xs) ++ lit tl) prefs in
     (0 < v <= 10000 -> logs_now run w v) /\
     (~ 0 < v <= 10000 -> finds_nothing run w)) /\
  forall y ys, all_true is_digit (y :: ys) ->
    exists v,
      liters_to_ml ((x :: xs) ++ "."%char :: y :: ys) = Some v /\
      rounds_litres (decimal_of (x :: xs) (y :: ys)) v /\
      let run :=
        parseWaterInputRegex ((x :: xs) ++ "."%char :: (y :: ys) ++ lit tl) prefs in
      (0 < v <= 10000 -> logs_now run w v) /\
      (~ 0 < v <= 10000 -> finds_nothing run w).
Proof.
  intros Hin Hd. split.
  - destruct (liters_to_ml_rounds x xs Hd) as [v [Ev Hv]].
    exists v. split; [exact Ev |]. split; [exact Hv |].
    exact (liters_stage _ w _ (regex_liters x xs tl prefs Hin Hd) v Ev).
  - intros y ys Hf. destruct (liters_to_ml_frac_rounds x xs y ys Hd Hf) as [v [Ev Hv]].
    exists v. split; [exact Ev |]. split; [exact Hv |].
    exact (liters_stage _ w _ (regex_liters_frac x xs y ys tl prefs Hin Hd Hf) v Ev).
Qed.

Lemma liters_logged_witness :
  logs_now (parseWaterInputRegex (lit "2 liters") (Build_UserPreferences 750))
    sample_world 2000 /\
  logs_now (parseWaterInputRegex (lit "1.5 liters") (Build_UserPreferences 750))
    sample_world 1500 /\
  rounds_litres (decimal_of (lit "1") (lit "5")) 1500.
Proof.
  destruct (proj1 (liters_logged "2"%char [] " liters"%string (Build_UserPreferences 750)
                     sample_world ltac:(simpl; auto 20) ltac:(repeat constructor)))
    as [v2 [E2 [_ [H2 _]]]].
  destruct (proj2 (liters_logged "1"%char [] " liters"%string (Build_UserPreferences 750)
                     sample_world ltac:(simpl; auto 20) ltac:(repeat constructor))
                  "5"%char [] ltac:(repeat constructor))
    as [v1 [E1 [R1 [H1 _]]]].
  assert (V2 : v2 = 2000) by (vm_compute in E2; congruence).
  assert (V1 : v1 = 1500) by (vm_compute in E1; congruence).
  rewrite V2 in H2. rewrite V1 in H1, R1.
  split; [apply H2; lia |]. split; [apply H1; lia | exact R1].
Defined.



(** ** lib/parser.ts: whole litres *)

(** X12.  Whole litres are exact.  A run of digits that writes [n],
    followed by "l", "liter", "litre" or a plural, logs exactly 1000 n
    millilitres, stamped with the clock reading, for n from 1 to 10, and
    the deterministic stage finds nothing for any other n; as a bottle
    size it is accepted as 1000 n for n from 1 to 3 and refused
    otherwise. *)
Theorem whole_liters_exact x xs tl prefs w :
  In tl LITER_TAILS -> all_true is_digit (x :: xs) ->
  let n := number_of (x :: xs) in
  let run := parseWaterInputRegex ((x :: xs) ++ lit tl) prefs in
  (1 <= n <= 10 -> logs_now run w (1000 * n)) /\
  (~ 1 <= n <= 10 -> finds_nothing run w) /\
  parseBottleSizeResponse ((x :: xs) ++ lit tl) =
    (if (1 <=? n) && (n <=? 3) then Some (1000 * n) else None).
Proof.
  intros Hin Hd n run.
  destruct (checked_stage run w n 10 (1000 * n)
              (regex_liters_whole x xs tl prefs Hin Hd)) as [H1 H2].
  split; [intros H; apply H1; lia |]. split; [intros H; apply H2; lia |].
  destruct (liters_to_ml_whole_any x xs Hd) as [v [El [Hex Hge]]]. fold n in Hex, Hge.
  pose proof (number_of_nonneg _ Hd) as H0. fold n in H0.
  destruct ((1 <=? n) && (n <=? 3)) eqn:E.
  - apply andb_true_iff in E. destruct E as [E1 E2].
    apply Z.leb_le in E1. apply Z.leb_le in E2.
    rewrite <- Hex by lia.
    apply size_in_liter; [assumption | assumption | exact El |].
    unfold in_bottle_range. rewrite Hex by lia. lia.
  - apply size_out_liter; [assumption | assumption |].
    intros v' Hv. rewrite El in Hv. assert (Ev : v' = v) by congruence. rewrite Ev.
    unfold in_bottle_range. apply andb_false_iff in E.
    destruct E as [E | E].
    + apply Z.leb_gt in E. rewrite Hex by lia. lia.
    + apply Z.leb_gt in E. pose proof (Hge 4 ltac:(lia) ltac:(lia) ltac:(lia)). lia.
Qed.

Lemma whole_liters_exact_witness :
  logs_now (parseWaterInputRegex (lit "2 liters") (Build_UserPreferences 750))
    sample_world (1000 * 2) /\
  finds_nothing (parseWaterInputRegex (lit "12 liters") (Build_UserPreferences 750))
    sample_world /\
  parseBottleSizeResponse (lit "2 liters") = Some 2000.
Proof.
  pose proof (whole_liters_exact "2"%char [] " liters"%string (Build_UserPreferences 750)
                sample_world ltac:(simpl; auto 20) ltac:(repeat constructor)) as H2.
  pose proof (whole_liters_exact "1"%char (lit "2") " liters"%string
                (Build_UserPreferences 750) sample_world
                ltac:(simpl; auto 20) ltac:(repeat constructor)) as H12.
  split; [| split].
  - apply (proj1 H2). vm_compute. split; discriminate.
  - apply (proj1 (proj2 H12)). vm_compute. intros [_ H]. apply H. reflexivity.
  - exact (proj2 (proj2 H2)).
Defined.

(** ** lib/time.ts *)

(** X13.  For instants whose IST year has four digits, the strings
    [toISTString] writes compare, code unit by code unit, as the whole
    seconds of the instants do: the text order of log times is their order
    in time. *)
Theorem ist_strings_sort_as_time t1 t2 :
  four_digit_year t1 -> four_digit_year t2 ->
  str_compare (toISTString (Some t1)) (toISTString (Some t2))
  = (t1 / 1000 ?= t2 / 1000).
Proof.
  intros H1 H2.
  destruct (Z.compare_spec (t1 / 1000) (t2 / 1000)) as [E | E | E].
  - rewrite (stamp_fields_eq _ _ E). apply str_compare_refl.
  - apply ist_strings_lt; assumption.
  - rewrite str_compare_antisym. rewrite (ist_strings_lt t2 t1) by assumption.
    reflexivity.
Qed.

Lemma ist_strings_sort_as_time_witness :
  str_compare (toISTString (Some 1793687400123)) (toISTString (Some 1793730599999))
  = (1793687400123 / 1000 ?= 1793730599999 / 1000).
Proof.
  apply ist_strings_sort_as_time; unfold four_digit_year; split;
    apply Zle_bool_imp_le; vm_compute; reflexivity.
Defined.

(** X14.  With the clock after the epoch, the two day-start strings the
    database filters are built from are the IST strings of the instant at
    which the current IST day began and of the instant 24 hours before it. *)
Theorem day_start_strings w :
  0 <= now_ms w ->
  todayMidnightISTString w
  = (Normal (toISTString (Some (ist_day_start (now_ms w)))), tick w) /\
  yesterdayMidnightISTString w
  = (Normal (toISTString (Some (ist_day_start (now_ms w) - msPerDay))), tick w).
Proof.
  intros Hn. split.
  - apply todayMidnightISTString_run.
  - apply yesterdayMidnightISTString_run, Hn.
Qed.

Lemma day_start_strings_witness :
  todayMidnightISTString sample_world
  = (Normal (toISTString (Some (ist_day_start (now_ms sample_world)))),
     tick sample_world) /\
  yesterdayMidnightISTString sample_world
  = (Normal (toISTString (Some (ist_day_start (now_ms sample_world) - msPerDay))),
     tick sample_world).
Proof.
  apply day_start_strings. apply Zle_bool_imp_le. reflexivity.
Defined.

(** X15.  With the clock after the epoch, [todayMidnightIST] returns the
    start of the day that holds now + 5:30: a whole number of days, at most
    now + 5:30 and less than a day below it; [yesterdayMidnightIST] returns
    the instant one day earlier.  Each reads the clock once. *)
Theorem todayMidnightIST_floor w :
  0 <= now_ms w ->
  exists t,
    todayMidnightIST w = (Normal t, tick w) /\
    t mod msPerDay = 0 /\
    t <= now_ms w + IST_OFFSET_MS < t + msPerDay /\
    yesterdayMidnightIST w = (Normal (t - msPerDay), tick w).
Proof.
  intros Hn. exists (ist_day_start (now_ms w) + IST_OFFSET_MS).
  pose proof (ist_day_start_spec (now_ms w)) as [Hb Hm].
  split; [apply todayMidnightIST_run, Hn |].
  split; [exact Hm |]. split; [lia |].
  apply yesterdayMidnightIST_run, Hn.
Qed.

Lemma todayMidnightIST_floor_witness :
  exists t,
    todayMidnightIST sample_world = (Normal t, tick sample_world) /\
    t mod msPerDay = 0 /\
    t <= now_ms sample_world + IST_OFFSET_MS < t + msPerDay /\
    yesterdayMidnightIST sample_world = (Normal (t - msPerDay), tick sample_world).
Proof.
  apply todayMidnightIST_floor. apply Zle_bool_imp_le. reflexivity.
Defined.

(** X16.  A retroactive time that [validateRetroactiveTime] accepts never
    sorts before the day-start string of the same clock reading: a filter
    that compares the text of log times against [todayMidnightISTString]
    keeps every accepted log.  The clock is taken to read between one day
    after the epoch and the end of the year 9999. *)
Theorem accepted_time_not_before_today q w s w' :
  86400000 <= now_ms w <= 253402280999999 ->
  86400000 <= now_ms (tick w) <= 253402280999999 ->
  validateRetroactiveTime (Num q) w = (Normal (Some s), w') ->
  exists today w2,
    todayMidnightISTString (tick w) = (Normal today, w2) /\
    str_compare s today <> Lt.
Proof.
  intros H1 H2 Hv.
  destruct (validate_accepts q w s w' ltac:(lia) Hv) as [H0 [H12 [Hd ->]]].
  exists (toISTString (Some (ist_day_start (now_ms (tick w))))), (tick (tick w)).
  split; [apply todayMidnightISTString_run |].
  pose proof (ist_day_start_spec (now_ms (tick w))) as [Hb _].
  pose proof (target_ms_window (now_ms w) q H0 H12 (now_ms_range w)) as Ht.
  unfold msPerDay in Hb.
  assert (Hle : ist_day_start (now_ms (tick w)) / 1000 <= target_ms (now_ms w) q / 1000)
    by (apply Z.div_le_mono; lia).
  destruct (Z.eq_dec (target_ms (now_ms w) q / 1000)
                     (ist_day_start (now_ms (tick w)) / 1000)) as [E | E].
  - rewrite (stamp_fields_eq _ _ E), str_compare_refl. discriminate.
  - rewrite str_compare_antisym.
    rewrite (ist_strings_lt (ist_day_start (now_ms (tick w))) (target_ms (now_ms w) q));
      [discriminate | apply four_digit_range; lia | apply four_digit_range; lia | lia].
Qed.

Lemma accepted_time_not_before_today_witness :
  exists today w2,
    todayMidnightISTString (tick sample_world) = (Normal today, w2) /\
    str_compare (lit "2026-11-03T10:00:00+05:30") today <> Lt.
Proof.
  apply (accepted_time_not_before_today 2 sample_world
           (lit "2026-11-03T10:00:00+05:30") (tick (tick sample_world))).
  - split; apply Zle_bool_imp_le; reflexivity.
  - split; apply Zle_bool_imp_le; reflexivity.
  - vm_compute. reflexivity.
Defined.

(** ** lib/llm.ts: JSON inside a reply *)

Local Open Scope nat_scope.

(** X17.  A reply that wraps its JSON in a markdown fence: when the reply
    as a whole does not parse, [parseJSONSafely] parses what lies between
    the first fence and the next one, less a leading [json] tag and the
    white space around it, and gives [null] when that fails; the rest of
    the reply is not looked at.  No back-tick stands before the fence or
    inside it. *)
Theorem fenced_content_parsed jp pre inner post w :
  all_true not_backtick pre -> all_true not_backtick inner ->
  let content := (pre ++ lit "```" ++ inner ++ lit "```" ++ post)%list in
  jp (JStr content) = None ->
  parseJSONSafely jp (JStr content) w
  = (Normal (match jp (JStr (trim (after_tag inner))) with
             | Some j => j
             | None => JNull
             end), w).
Proof.
  intros Hpre Hin content Hraw.
  unfold parseJSONSafely, try_catch, parse_or_throw at 1. rewrite Hraw.
  unfold throw, bind, content_match, ret.
  destruct (fence_exec pre inner post Hpre Hin) as [x [E G]].
  fold content in E. rewrite E, G, trim_drop. unfold parse_or_throw.
  destruct (jp (JStr (trim (after_tag inner)))); reflexivity.
Qed.

(** X18.  A reply without a back-tick that holds an object in other text:
    when the reply as a whole does not parse, [parseJSONSafely] parses the
    stretch from the first opening brace to the last closing brace, and
    gives [null] when that fails. *)
Theorem embedded_object_parsed jp pre mid post w :
  all_true (other_than "{") pre -> all_true (other_than "}") post ->
  let content := (pre ++ "{"%char :: mid ++ "}"%char :: post)%list in
  all_true not_backtick content ->
  jp (JStr content) = None ->
  parseJSONSafely jp (JStr content) w
  = (Normal (match jp (JStr ("{"%char :: mid ++ ["}"%char])) with
             | Some j => j
             | None => JNull
             end), w).
Proof.
  intros Hpre Hpost content Hbt Hraw.
  unfold parseJSONSafely, try_catch, parse_or_throw at 1. rewrite Hraw.
  unfold throw, bind, content_match, ret.
  rewrite (fence_none content Hbt).
  destruct (object_exec pre mid post Hpre Hpost) as [x [E Hw]].
  fold content in E. rewrite E, Hw. unfold parse_or_throw.
  destruct (jp (JStr ("{"%char :: mid ++ ["}"%char]))); reflexivity.
Qed.

Lemma fenced_content_parsed_witness :
  let content := (lit "Here you go: " ++ lit "```" ++ (lit "json " ++ SAMPLE_LOG_TEXT)
                  ++ lit "```" ++ lit " anything else?")%list in
  parseJSONSafely (parse_one SAMPLE_LOG_TEXT SAMPLE_LOG) (JStr content) sample_world
  = (Normal (match parse_one SAMPLE_LOG_TEXT SAMPLE_LOG
                     (JStr (trim (after_tag (lit "json " ++ SAMPLE_LOG_TEXT)))) with
             | Some j => j
             | None => JNull
             end), sample_world).
Proof.
  apply (fenced_content_parsed (parse_one SAMPLE_LOG_TEXT SAMPLE_LOG)
           (lit "Here you go: ") (lit "json " ++ SAMPLE_LOG_TEXT) (lit " anything else?")
           sample_world).
  - repeat constructor.
  - repeat constructor.
  - reflexivity.
Defined.

Lemma embedded_object_parsed_witness :
  let content := (lit "Sure! " ++ "{"%char :: lit "x" ++ "}"%char :: lit " done")%list in
  parseJSONSafely no_json (JStr content) sample_world
  = (Normal (match no_json (JStr ("{"%char :: lit "x" ++ ["}"%char])) with
             | Some j => j
             | None => JNull
             end), sample_world).
Proof.
  apply (embedded_object_parsed no_json (lit "Sure! ") (lit "x") (lit " done") sample_world).
  - repeat constructor.
  - repeat constructor.
  - repeat constructor.
  - reflexivity.
Defined.

(** ** lib/llm.ts: the requests *)

(** X19.  With a credential, [extractWaterIntent] sends exactly one
    request, however the exchange goes, and writes to the console besides;
    the request carries the first 500 code units of the text, never more,
    and the key as a bearer token. *)
Theorem extract_sends_one_request jp text env w :
  is_falsy_key (OPENAI_API_KEY env) = false ->
  exists r evs key,
    extractWaterIntent jp text env w
    = (Normal r, add_events (evs ++ [EvFetch (request_for text env); EvFallback text]) w) /\
    console_only evs /\
    OPENAI_API_KEY env = Some key /\
    authorization (request_for text env) = (lit "Bearer " ++ key)%list /\
    user_content (request_for text env) = firstn 500 text /\
    length (user_content (request_for text env)) <= 500.
Proof.
  intros Hk. unfold extractWaterIntent. rewrite Hk.
  unfold bind at 1. cbn [emit].
  set (w1 := Build_World _ _ _ _).
  assert (Ew1 : w1 = add_events [EvFallback text] w) by reflexivity.
  destruct (fetch_guarded _ (request_for text env) (read_response jp)
              (console "LLM extraction failed" ;;; ret createFallbackResult)
              (quiet_read_response jp)
              ltac:(apply quiet_bind; [apply quiet_console | intros; apply quiet_ret]) w1)
    as [res [evs [E [C Hn]]]].
  destruct Hn as [r ->].
  { intros w0. eexists _, _. reflexivity. }
  destruct (OPENAI_API_KEY env) as [key |] eqn:Ekey; [| discriminate Hk].
  exists r, evs, key. split.
  - rewrite E, Ew1, add_events_app, <- app_assoc. reflexivity.
  - split; [exact C |]. split; [reflexivity |]. split.
    + unfold request_for. rewrite Ekey. reflexivity.
    + rewrite user_content_prefix. split; [reflexivity |]. apply firstn_le_length.
Qed.

Lemma extract_sends_one_request_witness :
  exists r evs key,
    extractWaterIntent no_json (lit "some water") keyed_env sample_world
    = (Normal r,
       add_events (evs ++ [EvFetch (request_for (lit "some water") keyed_env);
                           EvFallback (lit "some water")]) sample_world) /\
    console_only evs /\
    OPENAI_API_KEY keyed_env = Some key /\
    authorization (request_for (lit "some water") keyed_env) = (lit "Bearer " ++ key)%list /\
    user_content (request_for (lit "some water") keyed_env) = firstn 500 (lit "some water") /\
    length (user_content (request_for (lit "some water") keyed_env)) <= 500.
Proof.
  apply (extract_sends_one_request no_json (lit "some water") keyed_env sample_world).
  reflexivity.
Defined.

(** X20.  [generateLoveMessage] never throws.  Without a credential it
    returns [null] and leaves the world as it was; with one it sends
    exactly one request.  A message it returns is not empty and has no
    white space at either end. *)
Theorem generateLoveMessage_safe env w :
  exists res w',
    generateLoveMessage env w = (Normal res, w') /\
    (is_falsy_key (OPENAI_API_KEY env) = true -> res = None /\ w' = w) /\
    (is_falsy_key (OPENAI_API_KEY env) = false ->
       exists evs, w' = add_events (evs ++ [EvFetch (love_request env)]) w /\
                   console_only evs) /\
    (forall s, res = Some s -> s <> [] /\ trim s = s).
Proof.
  unfold generateLoveMessage.
  destruct (is_falsy_key (OPENAI_API_KEY env)) eqn:Ek.
  { exists None, w. split; [reflexivity |]. split; [auto |].
    split; [discriminate | discriminate]. }
  set (f := fun response : Response =>
              if negb (ok response) then ret None
              else
                data <- match body response with
                        | Some d => ret d
                        | None => throw "SyntaxError: response body is not JSON"
                        end ;;
                content <- trimmed_content data ;;
                ret (match content with Some (c :: s) => Some (c :: s) | _ => None end)).
  assert (Hq : forall r, quiet (f r)).
  { intros r. unfold f. destruct (negb (ok r)); [apply quiet_ret |].
    apply quiet_bind; [destruct (body r); [apply quiet_ret | apply quiet_throw] |].
    intros data. apply quiet_bind; [apply quiet_trimmed_content | intros; apply quiet_ret]. }
  assert (Hs : forall r w0 s w1, f r w0 = (Normal (Some s), w1) -> s <> [] /\ trim s = s).
  { intros r w0 s w1. unfold f. destruct (negb (ok r)); [discriminate |].
    unfold bind at 1. destruct (body r) as [data |]; [| discriminate]. cbn [ret].
    unfold bind. destruct (trimmed_content data w0) as [[content | e] w2] eqn:Et;
      [| discriminate].
    unfold ret. intros H. injection H as H _.
    destruct content as [[| c t] |]; try discriminate. injection H as <-.
    split; [discriminate |]. eapply trimmed_content_some, Et. }
  change (exists res w',
    try_catch (response <- fetch (love_request env) ;; f response) (ret None) w
      = (Normal res, w') /\
    (false = true -> res = None /\ w' = w) /\
    (false = false ->
       exists evs, w' = add_events (evs ++ [EvFetch (love_request env)]) w /\
                   console_only evs) /\
    (forall s, res = Some s -> s <> [] /\ trim s = s)).
  destruct (fetch_guarded _ (love_request env) f (ret None) Hq (quiet_ret _ _) w)
    as [res [evs [E [C Hn]]]].
  destruct Hn as [a ->]. { intros w0. eexists _, _. reflexivity. }
  exists a, (add_events (evs ++ [EvFetch (love_request env)]) w).
  split; [exact E |]. split; [discriminate |]. split; [eauto |].
  intros s ->.
  (* where the message came from *)
  revert E. unfold try_catch, bind, fetch.
  destruct (net w (love_request env)) as [resp | |]; try discriminate.
  destruct (f resp _) as [[o | e] w2] eqn:Ef; [| discriminate].
  intros H. injection H as -> _. eapply Hs, Ef.
Qed.

Lemma generateLoveMessage_safe_witness :
  exists res w',
    generateLoveMessage keyed_env (answering_world (JStr (lit "  love you   ")))
    = (Normal res, w') /\
    (is_falsy_key (OPENAI_API_KEY keyed_env) = true ->
       res = None /\ w' = answering_world (JStr (lit "  love you   "))) /\
    (is_falsy_key (OPENAI_API_KEY keyed_env) = false ->
       exists evs,
         w' = add_events (evs ++ [EvFetch (love_request keyed_env)])
                (answering_world (JStr (lit "  love you   "))) /\
         console_only evs) /\
    (forall s, res = Some s -> s <> [] /\ trim s = s).
Proof.
  exact (generateLoveMessage_safe keyed_env (answering_world (JStr (lit "  love you   ")))).
Defined.

(** ** lib/telegram.ts *)

Local Open Scope Z_scope.

(** X21.  [escapeHtmlForTelegram] is the substitution of the three
    entities in one pass: the ampersands it writes itself are not escaped a
    second time.  Its result holds no angle bracket, each ampersand in it
    opens one of the three entities, and no two texts have the same
    result. *)
Theorem escapeHtml_sound text :
  escapeHtmlForTelegram text = flat_map html_entity text /\
  all_true (other_than "<") (escapeHtmlForTelegram text) /\
  all_true (other_than ">") (escapeHtmlForTelegram text) /\
  ampersands_open_entities (escapeHtmlForTelegram text) = true /\
  (forall other, escapeHtmlForTelegram other = escapeHtmlForTelegram text -> other = text).
Proof.
  split; [apply escape_single_pass |].
  split; [apply escape_no_markup |]. split; [apply escape_no_markup |]. split.
  - rewrite escape_single_pass. induction text as [| x text IH]; [reflexivity |].
    cbn [flat_map]. apply ampersands_entity, IH.
  - intros other. apply escape_injective.
Qed.

(** X22.  Parsing a webhook payload never throws, and it yields message
    data exactly for a payload that carries a text message: the text comes
    back as it was sent and the chat is named by [String(chat.id)]. *)
Theorem message_data_iff nts body w :
  (exists u w', parseTelegramPayload body w = (Normal u, w')) /\
  forall chat t,
    (exists u d,
       fst (parseTelegramPayload body w) = Normal (Some u) /\
       extractMessageData nts u = Some d /\ chatId d = chat /\ data_text d = t)
    <-> (exists cid, text_update body cid t /\ chat = String_of_number nts cid).
Proof.
  split; [apply parseTelegramPayload_normal |]. intros chat t. split.
  - intros [u [d [Hp [Hd [Hc Ht]]]]]. revert Hp. unfold parseTelegramPayload.
    destruct (_ || _); [discriminate |].
    destruct (typeof_number (get_prop body _)) as [uid |] eqn:Eu; [| discriminate].
    destruct (get_prop body (lit "message")) as [msg |] eqn:Em.
    2: { intros H. injection H as <-. discriminate Hd. }
    destruct (negb _). { intros H. injection H as <-. discriminate Hd. }
    destruct (typeof_number (get_prop msg _)) as [mid |] eqn:Emid; [| discriminate].
    destruct (truthy (get_prop msg (lit "chat"))) eqn:Etc; [| discriminate].
    destruct (typeof_number (opt_prop _ _)) as [cid |] eqn:Ecid; [| discriminate].
    destruct (get_prop msg (lit "chat")) as [c |] eqn:Ech; [| discriminate Etc].
    assert (Ecid' : typeof_number (get_prop c (lit "id")) = Some cid).
    { destruct c; try discriminate Etc; exact Ecid. }
    unfold bind.
    destruct (truthy (get_prop msg (lit "date"))); cbn [ret Date_now fst];
      intros H; injection H as <-;
      unfold extractMessageData in Hd; cbn [message msg_text msg_chat chat_id] in Hd;
      revert Hd;
      (destruct (typeof_string _) as [[| a s] |] eqn:Et; try discriminate);
      intros Hd; injection Hd as <-; cbn [chatId data_text] in *; subst;
      exists cid; (split; [| reflexivity]);
      exists uid, msg, mid, c; repeat split; try assumption; discriminate.
  - intros [cid [[uid [msg [mid [c [Eu [Em [Emid [Ech [Ecid [Et Hne]]]]]]]]]] ->]].
    destruct (number_prop_object _ _ _ Eu) as [lb ->].
    destruct (number_prop_object _ _ _ Emid) as [lm ->].
    destruct (number_prop_object _ _ _ Ecid) as [lc ->].
    unfold parseTelegramPayload. cbn [truthy is_object negb orb].
    rewrite Eu, Em. cbn [truthy negb]. rewrite Emid, Ech. cbn [truthy opt_prop].
    rewrite Ecid. unfold bind.
    destruct t as [| a s]; [contradiction |].
    destruct (truthy (get_prop (JObj lm) (lit "date"))); cbn [ret Date_now fst];
      eexists _, _; (split; [reflexivity |]);
      unfold extractMessageData; cbn [message msg_text msg_chat chat_id];
      rewrite Et; repeat split.
Qed.

Lemma message_data_iff_witness :
  let body :=
    JObj [(lit "update_id", JNum 7);
          (lit "message",
           JObj [(lit "message_id", JNum 42);
                 (lit "chat", JObj [(lit "id", JNum 123456789)]);
                 (lit "text", JStr (lit "500ml"))])] in
  exists u d,
    fst (parseTelegramPayload body sample_world) = Normal (Some u) /\
    extractMessageData (fun _ => []) u = Some d /\
    chatId d = lit "123456789" /\ data_text d = lit "500ml".
Proof.
  intros body.
  apply (proj2 (proj2 (message_data_iff (fun _ => []) body sample_world)
                  (lit "123456789") (lit "500ml"))).
  exists 123456789%Q. split; [| reflexivity].
  exists 7%Q, (JObj [(lit "message_id", JNum 42);
                     (lit "chat", JObj [(lit "id", JNum 123456789)]);
                     (lit "text", JStr (lit "500ml"))]),
         42%Q, (JObj [(lit "id", JNum 123456789)]).
  repeat split; discriminate.
Defined.

(** ** index.ts *)

(** X23.  The webhook handler never throws.  It answers 405 to a request
    that is no POST, 403 to a POST without the configured secret, and 200 to
    every other request, whatever its body: Telegram is never made to retry.
    An update is handed to [ctx.waitUntil] only with a 200 answer, with the
    bot token configured, and it is the update that [parseTelegramPayload]
    read from the body. *)
Theorem webhook_always_answered request env w :
  exists r w',
    fetch_handler request env w = (Normal r, w') /\
    (authentic request env -> status r = 200) /\
    (~ authentic request env ->
     scheduled r = None /\
     status r = if str_eqb (method request) (lit "POST") then 403 else 405) /\
    (forall u, scheduled r = Some u ->
       status r = 200 /\ is_falsy_key (TELEGRAM_BOT_TOKEN env) = false /\
       exists body, json_body request = Some body /\
                    fst (parseTelegramPayload body w) = Normal (Some u)).
Proof.
  unfold fetch_handler, authentic.
  destruct (str_eqb (method request) (lit "POST")) eqn:Em; cbn [negb].
  2: { eexists _, _. split; [reflexivity |].
       split; [| split]; cbn [status scheduled].
       - intros [E _]. rewrite E, str_eqb_refl in Em. discriminate.
       - intros _. split; reflexivity.
       - discriminate. }
  apply str_eqb_eq in Em.
  assert (Hs : (match TELEGRAM_WEBHOOK_SECRET env with
                | Some (c :: s) => differs (secret_token request) (c :: s)
                | _ => false
                end) = false <->
               match TELEGRAM_WEBHOOK_SECRET env with
               | Some (c :: s) => secret_token request = Some (c :: s)
               | _ => True
               end).
  { destruct (TELEGRAM_WEBHOOK_SECRET env) as [[| c s] |]; try tauto.
    apply differs_false. }
  destruct (match TELEGRAM_WEBHOOK_SECRET env with
            | Some (c :: s) => differs (secret_token request) (c :: s)
            | _ => false
            end) eqn:Ed.
  { eexists _, _. split; [reflexivity |].
    split; [| split]; cbn [status scheduled].
    - intros [_ E]. apply Hs in E. discriminate.
    - intros _. split; reflexivity.
    - discriminate. }
  assert (Ha : method request = lit "POST" /\
               match TELEGRAM_WEBHOOK_SECRET env with
               | Some (c :: s) => secret_token request = Some (c :: s)
               | _ => True
               end) by (split; [exact Em | apply Hs; reflexivity]).
  destruct (is_falsy_key (TELEGRAM_BOT_TOKEN env)) eqn:Et.
  { eexists _, _. split; [reflexivity |].
    split; [| split]; cbn [status scheduled OK_200].
    - reflexivity.
    - intros Hn. contradiction.
    - discriminate. }
  unfold try_catch, bind.
  destruct (json_body request) as [body |] eqn:Eb.
  2: { cbn [throw]. eexists _, _. split; [reflexivity |].
       split; [| split]; cbn [status scheduled OK_200].
       - reflexivity.
       - intros Hn. contradiction.
       - discriminate. }
  cbn [ret].
  destruct (parseTelegramPayload_normal body w) as [u [w1 Ep]].
  rewrite Ep.
  destruct u as [u |].
  - eexists _, _. split; [reflexivity |].
    split; [| split]; cbn [status scheduled].
    + reflexivity.
    + intros Hn. contradiction.
    + intros u' E. injection E as <-. split; [reflexivity |]. split; [reflexivity |].
      exists body. split; [reflexivity |]. rewrite Ep. reflexivity.
  - eexists _, _. split; [reflexivity |].
    split; [| split]; cbn [status scheduled OK_200].
    + reflexivity.
    + intros Hn. contradiction.
    + discriminate.
Qed.

Lemma webhook_always_answered_witness :
  exists r w',
    fetch_handler {| method := lit "POST"; secret_token := Some (lit "s3cret");
                     json_body := None |}
                  {| TELEGRAM_BOT_TOKEN := Some (lit "token");
                     TELEGRAM_WEBHOOK_SECRET := Some (lit "s3cret") |} sample_world
    = (Normal r, w') /\ status r = 200.
Proof.
  destruct (webhook_always_answered
              {| method := lit "POST"; secret_token := Some (lit "s3cret");
                 json_body := None |}
              {| TELEGRAM_BOT_TOKEN := Some (lit "token");
                 TELEGRAM_WEBHOOK_SECRET := Some (lit "s3cret") |} sample_world)
    as [r [w' [E [H _]]]].
  exists r, w'. split; [exact E |]. apply H. split; reflexivity.
Defined.
